(** * TinyClaw: queue store, routing, invoker, hook pipeline and dispatcher

    A shallow embedding of the TypeScript sources of the repository:

    - [Db]         : [src/lib/db.ts], the SQLite-backed message and response queue;
    - [Routing]    : [detectMultipleTeams] and [parseAgentRouting] of the
                     file-queue [queue-processor.ts];
    - [Invoke]     : [runCommand] of [src/lib/invoke.ts];
    - [Plugins]    : [runOutgoingHooks] and [runIncomingHooks] of
                     [src/lib/plugins.ts], on hooks that return or throw an error
                     with a message;
    - [HookRunner] : the same two functions on hooks of any kind, those that
                     throw [undefined] or [null] included;
    - [FileQueue]  : [processMessage] of the file-queue [queue-processor.ts],
                     with [getSettings], [getAgents] and [peekTeamId];
    - [Dispatcher] : [processMessage] and [processQueue] of the SQLite
                     [queue-processor.ts];
    - [Channels]   : [splitMessage] and [sanitizeFileName] of
                     [src/telegram-client.ts];
    - [Api]        : the response routes of [src/server/routes/queue.ts];
    - [Processor]  : the queue processor from its start: start-up code,
                     tasks that give way where [processMessage] awaits,
                     maintenance timers and queue routes;
    - [Skill]      : [parseArgs] and [sendMessage] of [send_message.ts];
    - [PluginEvents] : [on] and [broadcastEvent] of [src/lib/plugins.ts].

    Conventions.  Wall-clock reads ([Date.now()]) are explicit arguments in
    the order the source performs them.  JavaScript numbers that hold row
    ids, counters and millisecond timestamps are modelled by [Z].  Strings
    are byte strings; the character classes [\s] and [toLowerCase] are
    modelled on the ASCII range, every other byte being a non-blank,
    case-invariant character.  A JavaScript object used as a registry
    (agents, teams) is an association list in [Object.entries] order. *)

From Stdlib Require Import ZArith String Ascii List Bool Lia DecimalString.
From Stdlib Require Import Sorted Permutation.
From stdpp Require Import base option list gmap strings.

Import ListNotations.
Local Open Scope Z_scope.

(* ===================================================================== *)
(** ** The queue store ([src/lib/db.ts])                                  *)
(* ===================================================================== *)

Module Db.

(** [status] column of [messages]. *)
Inductive MsgStatus := Pending | Processing | Completed | Dead.

(** [status] column of [responses]. *)
Inductive RespStatus := RPending | RAcked.

#[global] Instance MsgStatus_eq_dec : EqDecision MsgStatus.
Proof. solve_decision. Defined.

#[global] Instance RespStatus_eq_dec : EqDecision RespStatus.
Proof. solve_decision. Defined.

Definition MsgStatus_eqb (a b : MsgStatus) : bool :=
  match a, b with
  | Pending, Pending | Processing, Processing
  | Completed, Completed | Dead, Dead => true
  | _, _ => false
  end.

Definition RespStatus_eqb (a b : RespStatus) : bool :=
  match a, b with
  | RPending, RPending | RAcked, RAcked => true
  | _, _ => false
  end.

(** [interface DbMessage].  The [files] column holds the JSON text of an
    array of paths; it is kept here as the array itself. *)
Record DbMessage := mkDbMessage {
  m_id : Z;
  m_message_id : string;
  m_channel : string;
  m_sender : string;
  m_sender_id : option string;
  m_message : string;
  m_agent : option string;
  m_files : option (list string);
  m_conversation_id : option string;
  m_from_agent : option string;
  m_status : MsgStatus;
  m_retry_count : Z;
  m_last_error : option string;
  m_created_at : Z;
  m_updated_at : Z;
  m_claimed_by : option string
}.

(** [interface DbResponse].  [metadata] is the JSON text of the hook
    metadata object, kept as its list of key/value pairs. *)
Record DbResponse := mkDbResponse {
  r_id : Z;
  r_message_id : string;
  r_channel : string;
  r_sender : string;
  r_sender_id : option string;
  r_message : string;
  r_original_message : string;
  r_agent : option string;
  r_files : option (list string);
  r_metadata : option (list (string * string));
  r_status : RespStatus;
  r_created_at : Z;
  r_acked_at : option Z
}.

(** [interface EnqueueMessageData]. *)
Record EnqueueMessageData := mkEnqueueMessageData {
  em_channel : string;
  em_sender : string;
  em_senderId : option string;
  em_message : string;
  em_messageId : string;
  em_agent : option string;
  em_files : option (list string);
  em_conversationId : option string;
  em_fromAgent : option string
}.

(** [interface EnqueueResponseData]. *)
Record EnqueueResponseData := mkEnqueueResponseData {
  er_channel : string;
  er_sender : string;
  er_senderId : option string;
  er_message : string;
  er_originalMessage : string;
  er_messageId : string;
  er_agent : option string;
  er_files : option (list string);
  er_metadata : option (list (string * string))
}.

Definition MAX_RETRIES : Z := 5.

(** The database: both tables in rowid order, and for each the largest
    rowid ever handed out ([AUTOINCREMENT]). *)
Record QueueDb := mkQueueDb {
  messages : list DbMessage;
  messages_seq : Z;
  responses : list DbResponse;
  responses_seq : Z
}.

Definition with_messages (d : QueueDb) (ms : list DbMessage) : QueueDb :=
  mkQueueDb ms (messages_seq d) (responses d) (responses_seq d).

Definition with_responses (d : QueueDb) (rs : list DbResponse) : QueueDb :=
  mkQueueDb (messages d) (messages_seq d) rs (responses_seq d).

(** Field updates used by the [UPDATE] statements. *)
Definition set_claim (agentId : string) (now : Z) (r : DbMessage) : DbMessage :=
  mkDbMessage (m_id r) (m_message_id r) (m_channel r) (m_sender r) (m_sender_id r)
    (m_message r) (m_agent r) (m_files r) (m_conversation_id r) (m_from_agent r)
    Processing (m_retry_count r) (m_last_error r) (m_created_at r) now (Some agentId).

Definition set_completed (now : Z) (r : DbMessage) : DbMessage :=
  mkDbMessage (m_id r) (m_message_id r) (m_channel r) (m_sender r) (m_sender_id r)
    (m_message r) (m_agent r) (m_files r) (m_conversation_id r) (m_from_agent r)
    Completed (m_retry_count r) (m_last_error r) (m_created_at r) now (m_claimed_by r).

Definition set_failed (newStatus : MsgStatus) (newCount : Z) (error : string)
    (now : Z) (r : DbMessage) : DbMessage :=
  mkDbMessage (m_id r) (m_message_id r) (m_channel r) (m_sender r) (m_sender_id r)
    (m_message r) (m_agent r) (m_files r) (m_conversation_id r) (m_from_agent r)
    newStatus newCount (Some error) (m_created_at r) now None.

Definition set_retried (now : Z) (r : DbMessage) : DbMessage :=
  mkDbMessage (m_id r) (m_message_id r) (m_channel r) (m_sender r) (m_sender_id r)
    (m_message r) (m_agent r) (m_files r) (m_conversation_id r) (m_from_agent r)
    Pending 0 (m_last_error r) (m_created_at r) now None.

Definition set_recovered (now : Z) (r : DbMessage) : DbMessage :=
  mkDbMessage (m_id r) (m_message_id r) (m_channel r) (m_sender r) (m_sender_id r)
    (m_message r) (m_agent r) (m_files r) (m_conversation_id r) (m_from_agent r)
    Pending (m_retry_count r) (m_last_error r) (m_created_at r) now None.

Definition set_acked (now : Z) (r : DbResponse) : DbResponse :=
  mkDbResponse (r_id r) (r_message_id r) (r_channel r) (r_sender r) (r_sender_id r)
    (r_message r) (r_original_message r) (r_agent r) (r_files r) (r_metadata r)
    RAcked (r_created_at r) (Some now).

(** [UPDATE t SET ... WHERE <cond>]: every row satisfying the condition is
    rewritten, the others are left as they are. *)
Definition update_where {A} (cond : A -> bool) (f : A -> A) (rows : list A) : list A :=
  List.map (fun r => if cond r then f r else r) rows.

(** [result.changes]: the number of rows the [WHERE] clause selected. *)
Definition changes {A} (cond : A -> bool) (rows : list A) : Z :=
  Z.of_nat (List.length (List.filter cond rows)).

(** Outcome of an [INSERT]: the new rowid and database, or the
    [UNIQUE constraint failed] error that better-sqlite3 throws. *)
Inductive InsertResult :=
| Inserted (rowId : Z) (d : QueueDb)
| ConstraintError.

(** [enqueueMessage(data)], with [now = Date.now()].  [message_id] is
    declared [UNIQUE]; [retry_count], [last_error] and [claimed_by] take
    their column defaults.  The ['message:enqueued'] event emitted after
    the insertion is the business of the listener, see
    [Dispatcher.dbEnqueueMessage]. *)
Definition enqueueMessage (data : EnqueueMessageData) (now : Z) (d : QueueDb)
    : InsertResult :=
  if List.existsb (fun r => String.eqb (m_message_id r) (em_messageId data)) (messages d)
  then ConstraintError
  else
    let rowId := messages_seq d + 1 in
    let row := mkDbMessage rowId (em_messageId data) (em_channel data) (em_sender data)
                 (em_senderId data) (em_message data) (em_agent data) (em_files data)
                 (em_conversationId data) (em_fromAgent data)
                 Pending 0 None now now None in
    Inserted rowId (mkQueueDb (messages d ++ [row]) rowId (responses d) (responses_seq d)).

(** [WHERE status = 'pending' AND (agent = ? OR (agent IS NULL AND ? = 'default'))] *)
Definition claimable (agentId : string) (r : DbMessage) : bool :=
  MsgStatus_eqb (m_status r) Pending &&
  match m_agent r with
  | Some a => String.eqb a agentId
  | None => String.eqb agentId "default"
  end.

(** [ORDER BY created_at ASC LIMIT 1]: a row of least [created_at].  The
    statement has no tie-break: which of several rows of the same least
    [created_at] the store returns is left to it.  Here it is the one of
    least rowid, and nothing below is stated of a tie but that the row
    returned is one of least [created_at]. *)
Fixpoint oldest (rows : list DbMessage) : option DbMessage :=
  match rows with
  | [] => None
  | r :: rest =>
      match oldest rest with
      | None => Some r
      | Some r' => if m_created_at r' <? m_created_at r then Some r' else Some r
      end
  end.

(** The object literal [{ ...row, status: 'processing', claimed_by: agentId }]. *)
Definition claimed_copy (agentId : string) (r : DbMessage) : DbMessage :=
  set_claim agentId (m_updated_at r) r.

(** [claimNextMessage(agentId)]: one immediate transaction. *)
Definition claimNextMessage (agentId : string) (now : Z) (d : QueueDb)
    : option DbMessage * QueueDb :=
  match oldest (List.filter (claimable agentId) (messages d)) with
  | None => (None, d)
  | Some row =>
      (Some (claimed_copy agentId row),
       with_messages d
         (update_where (fun r => m_id r =? m_id row) (set_claim agentId now) (messages d)))
  end.

(** [completeMessage(rowId)]. *)
Definition completeMessage (rowId : Z) (now : Z) (d : QueueDb) : QueueDb :=
  with_messages d (update_where (fun r => m_id r =? rowId) (set_completed now) (messages d)).

(** [failMessage(rowId, error)]. *)
Definition failMessage (rowId : Z) (error : string) (now : Z) (d : QueueDb) : QueueDb :=
  match List.find (fun r => m_id r =? rowId) (messages d) with
  | None => d
  | Some msg =>
      let newCount := m_retry_count msg + 1 in
      let newStatus := if MAX_RETRIES <=? newCount then Dead else Pending in
      with_messages d
        (update_where (fun r => m_id r =? rowId)
           (set_failed newStatus newCount error now) (messages d))
  end.

(** [enqueueResponse(data)]. *)
Definition enqueueResponse (data : EnqueueResponseData) (now : Z) (d : QueueDb)
    : Z * QueueDb :=
  let rowId := responses_seq d + 1 in
  let row := mkDbResponse rowId (er_messageId data) (er_channel data) (er_sender data)
               (er_senderId data) (er_message data) (er_originalMessage data)
               (er_agent data) (er_files data) (er_metadata data)
               RPending now None in
  (rowId, mkQueueDb (messages d) (messages_seq d) (responses d ++ [row]) rowId).

(** [ackResponse(responseId)]. *)
Definition ackResponse (responseId : Z) (now : Z) (d : QueueDb) : QueueDb :=
  with_responses d
    (update_where (fun r => r_id r =? responseId) (set_acked now) (responses d)).

(** [retryDeadMessage(rowId)]. *)
Definition is_dead_row (rowId : Z) (r : DbMessage) : bool :=
  (m_id r =? rowId) && MsgStatus_eqb (m_status r) Dead.

Definition retryDeadMessage (rowId : Z) (now : Z) (d : QueueDb) : bool * QueueDb :=
  (0 <? changes (is_dead_row rowId) (messages d),
   with_messages d (update_where (is_dead_row rowId) (set_retried now) (messages d))).

(** [deleteDeadMessage(rowId)]. *)
Definition deleteDeadMessage (rowId : Z) (d : QueueDb) : bool * QueueDb :=
  (0 <? changes (is_dead_row rowId) (messages d),
   with_messages d (List.filter (fun r => negb (is_dead_row rowId r)) (messages d))).

(** [WHERE status = 'processing' AND updated_at < ?] *)
Definition stale (cutoff : Z) (r : DbMessage) : bool :=
  MsgStatus_eqb (m_status r) Processing && (m_updated_at r <? cutoff).

Definition DEFAULT_STALE_THRESHOLD_MS : Z := 10 * 60 * 1000.

(** [recoverStaleMessages(thresholdMs = 10 * 60 * 1000)].  [now0] is the
    clock read that computes the cutoff, [now1] the one stored in
    [updated_at]. *)
Definition recoverStaleMessages (thresholdMs : option Z) (now0 now1 : Z) (d : QueueDb)
    : Z * QueueDb :=
  let cutoff := now0 - default DEFAULT_STALE_THRESHOLD_MS thresholdMs in
  (changes (stale cutoff) (messages d),
   with_messages d (update_where (stale cutoff) (set_recovered now1) (messages d))).

(** [getPendingAgents()]:
    [SELECT DISTINCT COALESCE(agent, 'default') ... WHERE status = 'pending'].
    The statement has no [ORDER BY]: the order of the agents is left to the
    store.  Here it is the order of their first pending rows. *)
Fixpoint distinct (l : list string) : list string :=
  match l with
  | [] => []
  | x :: rest => x :: List.filter (fun y => negb (String.eqb x y)) (distinct rest)
  end.

Definition getPendingAgents (d : QueueDb) : list string :=
  distinct (List.map (fun r => default "default" (m_agent r))
              (List.filter (fun r => MsgStatus_eqb (m_status r) Pending) (messages d))).

(** [ORDER BY]: the rows in the order of [le]; rows that [le] does not
    tell apart stay in rowid order. *)
Fixpoint placeRow {A} (le : A -> A -> bool) (x : A) (rows : list A) : list A :=
  match rows with
  | [] => [x]
  | y :: rest => if le x y then x :: rows else y :: placeRow le x rest
  end.

Fixpoint orderBy {A} (le : A -> A -> bool) (rows : list A) : list A :=
  match rows with
  | [] => []
  | x :: rest => placeRow le x (orderBy le rest)
  end.

(** [LIMIT ?]: SQLite reads a negative limit as no limit. *)
Definition limitRows {A} (limit : Z) (rows : list A) : list A :=
  if limit <? 0 then rows else List.firstn (Z.to_nat limit) rows.

(** [WHERE channel = ? AND status = 'pending'] *)
Definition undelivered (channel : string) (r : DbResponse) : bool :=
  String.eqb (r_channel r) channel && RespStatus_eqb (r_status r) RPending.

(** [getResponsesForChannel(channel)]. *)
Definition getResponsesForChannel (channel : string) (d : QueueDb) : list DbResponse :=
  orderBy (fun a b => r_created_at a <=? r_created_at b)
    (List.filter (undelivered channel) (responses d)).

(** [getRecentResponses(limit)]: [ORDER BY created_at DESC LIMIT ?]. *)
Definition getRecentResponses (limit : Z) (d : QueueDb) : list DbResponse :=
  limitRows limit
    (orderBy (fun a b => r_created_at b <=? r_created_at a) (responses d)).

(** The object [getQueueStatus()] returns. *)
Record QueueStatus := mkQueueStatus {
  qs_pending : Z;
  qs_processing : Z;
  qs_completed : Z;
  qs_dead : Z;
  qs_responsesPending : Z
}.

(** [COUNT( * )] of the group of one status. *)
Definition countStatus (s : MsgStatus) (rows : list DbMessage) : Z :=
  changes (fun r => MsgStatus_eqb (m_status r) s) rows.

(** [getQueueStatus()]: a status without rows keeps the initial [0]. *)
Definition getQueueStatus (d : QueueDb) : QueueStatus :=
  mkQueueStatus
    (countStatus Pending (messages d)) (countStatus Processing (messages d))
    (countStatus Completed (messages d)) (countStatus Dead (messages d))
    (changes (fun r => RespStatus_eqb (r_status r) RPending) (responses d)).

(** [getDeadMessages()]: [WHERE status = 'dead' ORDER BY updated_at DESC]. *)
Definition getDeadMessages (d : QueueDb) : list DbMessage :=
  orderBy (fun a b => m_updated_at b <=? m_updated_at a)
    (List.filter (fun r => MsgStatus_eqb (m_status r) Dead) (messages d)).

Definition DEFAULT_PRUNE_AGE_MS : Z := 24 * 60 * 60 * 1000.

(** [WHERE status = 'acked' AND acked_at < ?]; the comparison with a NULL
    [acked_at] is not true. *)
Definition prunableResponse (cutoff : Z) (r : DbResponse) : bool :=
  RespStatus_eqb (r_status r) RAcked &&
  match r_acked_at r with
  | Some t => t <? cutoff
  | None => false
  end.

(** [pruneAckedResponses(olderThanMs = 24 * 60 * 60 * 1000)]. *)
Definition pruneAckedResponses (olderThanMs : option Z) (now : Z) (d : QueueDb)
    : Z * QueueDb :=
  let cutoff := now - default DEFAULT_PRUNE_AGE_MS olderThanMs in
  (changes (prunableResponse cutoff) (responses d),
   with_responses d
     (List.filter (fun r => negb (prunableResponse cutoff r)) (responses d))).

(** [WHERE status = 'completed' AND updated_at < ?] *)
Definition prunableMessage (cutoff : Z) (r : DbMessage) : bool :=
  MsgStatus_eqb (m_status r) Completed && (m_updated_at r <? cutoff).

(** [pruneCompletedMessages(olderThanMs = 24 * 60 * 60 * 1000)]. *)
Definition pruneCompletedMessages (olderThanMs : option Z) (now : Z) (d : QueueDb)
    : Z * QueueDb :=
  let cutoff := now - default DEFAULT_PRUNE_AGE_MS olderThanMs in
  (changes (prunableMessage cutoff) (messages d),
   with_messages d
     (List.filter (fun r => negb (prunableMessage cutoff r)) (messages d))).

(** Row lookup by primary key. *)
Definition message_row (rowId : Z) (d : QueueDb) : option DbMessage :=
  List.find (fun r => m_id r =? rowId) (messages d).

Definition response_row (rowId : Z) (d : QueueDb) : option DbResponse :=
  List.find (fun r => r_id r =? rowId) (responses d).

(** The rowid is a primary key handed out by [AUTOINCREMENT]. *)
Definition keys_ok (d : QueueDb) : Prop :=
  NoDup (List.map m_id (messages d)) /\
  Forall (fun r => m_id r <= messages_seq d) (messages d).

Definition resp_keys_ok (d : QueueDb) : Prop :=
  NoDup (List.map r_id (responses d)) /\
  Forall (fun r => r_id r <= responses_seq d) (responses d).

(** The message-row invariants of the data model. *)
Definition row_inv (r : DbMessage) : Prop :=
  (m_status r = Processing -> m_claimed_by r <> None) /\
  (m_status r = Pending -> m_claimed_by r = None) /\
  (m_status r = Dead -> MAX_RETRIES <= m_retry_count r).

Definition db_inv (d : QueueDb) : Prop := Forall row_inv (messages d).

(** A row whose counter has reached [MAX_RETRIES] is dead. *)
Definition exhausted_dead (r : DbMessage) : Prop :=
  MAX_RETRIES <= m_retry_count r -> m_status r = Dead.

(** A history of dispatcher calls on the store: claims by any agent and
    failures of any row, in the order they are issued. *)
Inductive QueueOp :=
| OpClaim (agentId : string) (now : Z)
| OpFail (rowId : Z) (error : string) (now : Z).

Definition run_op (op : QueueOp) (d : QueueDb) : QueueDb :=
  match op with
  | OpClaim agentId now => snd (claimNextMessage agentId now d)
  | OpFail rowId error now => failMessage rowId error now d
  end.

Definition run_ops (ops : list QueueOp) (d : QueueDb) : QueueDb :=
  List.fold_left (fun acc op => run_op op acc) ops d.

(** Number of [failMessage(rowId, _)] calls in a history. *)
Definition is_fail_of (rowId : Z) (op : QueueOp) : bool :=
  match op with
  | OpFail k _ _ => k =? rowId
  | OpClaim _ _ => false
  end.

Definition failures_of (rowId : Z) (ops : list QueueOp) : Z :=
  Z.of_nat (List.length (List.filter (is_fail_of rowId) ops)).

(** A history of calls on the store, by the processor, the API server and
    the maintenance timers, in the order they are issued. *)
Inductive StoreOp :=
| SEnqueue (data : EnqueueMessageData) (now : Z)
| SClaim (agentId : string) (now : Z)
| SComplete (rowId : Z) (now : Z)
| SFail (rowId : Z) (error : string) (now : Z)
| SRetryDead (rowId : Z) (now : Z)
| SDeleteDead (rowId : Z)
| SRecover (thresholdMs : option Z) (now0 now1 : Z)
| SPruneCompleted (olderThanMs : option Z) (now : Z)
| SEnqueueResponse (data : EnqueueResponseData) (now : Z)
| SAck (responseId : Z) (now : Z)
| SPruneAcked (olderThanMs : option Z) (now : Z).

(** The database after one call; an [INSERT] that throws leaves it as it is. *)
Definition applyOp (op : StoreOp) (d : QueueDb) : QueueDb :=
  match op with
  | SEnqueue data now =>
      match enqueueMessage data now d with
      | Inserted _ d' => d'
      | ConstraintError => d
      end
  | SClaim agentId now => snd (claimNextMessage agentId now d)
  | SComplete rowId now => completeMessage rowId now d
  | SFail rowId error now => failMessage rowId error now d
  | SRetryDead rowId now => snd (retryDeadMessage rowId now d)
  | SDeleteDead rowId => snd (deleteDeadMessage rowId d)
  | SRecover thresholdMs now0 now1 => snd (recoverStaleMessages thresholdMs now0 now1 d)
  | SPruneCompleted olderThanMs now => snd (pruneCompletedMessages olderThanMs now d)
  | SEnqueueResponse data now => snd (enqueueResponse data now d)
  | SAck responseId now => ackResponse responseId now d
  | SPruneAcked olderThanMs now => snd (pruneAckedResponses olderThanMs now d)
  end.

Definition applyOps (ops : list StoreOp) (d : QueueDb) : QueueDb :=
  List.fold_left (fun acc op => applyOp op acc) ops d.

(** The calls that rewrite or remove a completed row of id [k]:
    [completeMessage] and [failMessage] on [k] itself, whose [UPDATE]
    statements select by id alone, and [pruneCompletedMessages]. *)
Definition rewritesCompleted (k : Z) (op : StoreOp) : bool :=
  match op with
  | SComplete j _ | SFail j _ _ => j =? k
  | SPruneCompleted _ _ => true
  | _ => false
  end.

(** Sample rows and databases. *)
Definition sample_message (rowId : Z) (text : string) (target : option string)
    (st : MsgStatus) (retries created updated : Z) (claimer : option string) : DbMessage :=
  mkDbMessage rowId ("m" +:+ text) "telegram" "Alice" None text target None None None
    st retries None created updated claimer.

Definition sample_response (rowId : Z) (text : string) (created : Z) : DbResponse :=
  mkDbResponse rowId "m1" "telegram" "Alice" None text "ping" (Some "assistant"%string)
    None None RPending created None.

(** Five rounds of claim and failure of row 4, with another agent's claim
    in between. *)
Definition sample_history : list QueueOp :=
  [ OpClaim "coder" 100; OpFail 4 "boom" 101;
    OpClaim "coder" 102; OpFail 4 "boom" 103;
    OpClaim "default" 104;
    OpClaim "coder" 105; OpFail 4 "boom" 106;
    OpClaim "coder" 107; OpFail 4 "boom" 108;
    OpClaim "coder" 109; OpFail 4 "boom" 110 ].

Definition sample_db : QueueDb :=
  mkQueueDb
    [ sample_message 1 "one" (Some "coder"%string) Processing 0 10 20 (Some "coder"%string);
      sample_message 2 "two" (Some "coder"%string) Pending 0 40 40 None;
      sample_message 3 "three" None Pending 0 30 30 None;
      sample_message 4 "four" (Some "coder"%string) Pending 0 35 35 None;
      sample_message 5 "five" (Some "writer"%string) Dead 5 5 90 None ]
    5
    [ sample_response 1 "pong" 50 ]
    1.

End Db.

(* ===================================================================== *)
(** ** Text primitives                                                    *)
(* ===================================================================== *)

Module Text.

(** The class [\s] of JavaScript regular expressions, which is also the set
    of characters [String.prototype.trim] removes, on the ASCII range:
    TAB, LF, VT, FF, CR and SPACE. *)
Definition isSpace (c : ascii) : bool :=
  match c with
  | "009" | "010" | "011" | "012" | "013" | " " => true
  | _ => false
  end%char.

(** [toLowerCase] on one ASCII character. *)
Definition toLowerChar (c : ascii) : ascii :=
  let n := N_of_ascii c in
  if ((65 <=? n) && (n <=? 90))%N then ascii_of_N (n + 32) else c.

Fixpoint toLowerCase (s : string) : string :=
  match s with
  | EmptyString => EmptyString
  | String c s' => String (toLowerChar c) (toLowerCase s')
  end.

(** All characters of [s] are blank, or none is. *)
Fixpoint allSpace (s : string) : bool :=
  match s with
  | EmptyString => true
  | String c s' => isSpace c && allSpace s'
  end.

Fixpoint noSpace (s : string) : bool :=
  match s with
  | EmptyString => true
  | String c s' => negb (isSpace c) && noSpace s'
  end.

(** The longest blank-free prefix of [s], and what follows it: the text
    a greedy [\S*] consumes. *)
Fixpoint spanNonSpace (s : string) : string * string :=
  match s with
  | EmptyString => (EmptyString, EmptyString)
  | String c s' =>
      if isSpace c then (EmptyString, s)
      else let (w, rest) := spanNonSpace s' in (String c w, rest)
  end.

(** [s] without its leading blanks: what follows a greedy [\s*]. *)
Fixpoint dropSpaces (s : string) : string :=
  match s with
  | EmptyString => EmptyString
  | String c s' => if isSpace c then dropSpaces s' else s
  end.

Fixpoint dropSpacesEnd (s : string) : string :=
  match s with
  | EmptyString => EmptyString
  | String c s' =>
      match dropSpacesEnd s' with
      | EmptyString => if isSpace c then EmptyString else String c EmptyString
      | t => String c t
      end
  end.

(** [s.trim()]. *)
Definition trim (s : string) : string := dropSpacesEnd (dropSpaces s).

Definition startsWithSpace (s : string) : bool :=
  match s with
  | String c _ => isSpace c
  | EmptyString => false
  end.

Definition isEmpty (s : string) : bool :=
  match s with
  | EmptyString => true
  | _ => false
  end.

(** [l.join(sep)]. *)
Fixpoint join (sep : string) (l : list string) : string :=
  match l with
  | [] => EmptyString
  | [x] => x
  | x :: rest => x +:+ sep +:+ join sep rest
  end.

(** The newline character of the escape [\n]. *)
Definition nl : string := String "010"%char EmptyString.

(** [s.slice(1)]. *)
Definition slice1 (s : string) : string :=
  match s with
  | EmptyString => EmptyString
  | String _ s' => s'
  end.

(** Decimal text of an integer, as a template literal prints a number. *)
Definition showZ (z : Z) : string := NilZero.string_of_int (Z.to_int z).

End Text.

(* ===================================================================== *)
(** ** Registry types ([src/lib/types.ts])                                *)
(* ===================================================================== *)

Module Types.

(** [interface AgentConfig]. *)
Record AgentConfig := mkAgentConfig {
  a_name : string;
  a_provider : string;
  a_model : string;
  a_working_directory : string;
  a_system_prompt : option string;
  a_prompt_file : option string
}.

(** [interface TeamConfig]. *)
Record TeamConfig := mkTeamConfig {
  t_name : string;
  t_agents : list string;
  t_leader_agent : string
}.

(** A [Record<string, V>]: the own properties of the object in
    [Object.entries] order. *)
Definition Registry (V : Type) : Type := list (string * V).

(** The own property [key] of [o], if there is one. *)
Fixpoint get {V} (key : string) (o : Registry V) : option V :=
  match o with
  | [] => None
  | (k, v) :: rest => if String.eqb k key then Some v else get key rest
  end.

(** The property names a plain object, such as the one [JSON.parse] or an
    object literal builds, inherits from [Object.prototype].  Under each of
    them [o[key]] is a function, or the prototype itself for [__proto__]:
    an object that is no configuration and that a test takes for true. *)
Definition prototypeKeys : list string :=
  [ "constructor"%string; "__defineGetter__"%string; "__defineSetter__"%string;
    "hasOwnProperty"%string; "__lookupGetter__"%string; "__lookupSetter__"%string;
    "isPrototypeOf"%string; "propertyIsEnumerable"%string; "toString"%string;
    "valueOf"%string; "__proto__"%string; "toLocaleString"%string ].

Definition inherited (key : string) : bool :=
  List.existsb (String.eqb key) prototypeKeys.

(** The test [if (o[key])] on a registry of configuration objects: it
    succeeds on an own property and on an inherited one. *)
Definition has {V} (key : string) (o : Registry V) : bool :=
  match get key o with
  | Some _ => true
  | None => inherited key
  end.

(** [Object.keys(o)]. *)
Definition keys {V} (o : Registry V) : list string := List.map fst o.

Definition sample_agent (display : string) : AgentConfig :=
  mkAgentConfig display "anthropic" "sonnet" EmptyString None None.

End Types.

(* ===================================================================== *)
(** ** Routing of the file-queue processor ([queue-processor.ts])         *)
(* ===================================================================== *)

Module Routing.
Import Text Types.

(** [message.match(/@(\S+)/g) || []]: the matches from left to right.  A
    match starts at an [@] that is followed by a non-blank character and
    runs to the end of the blank-free run; the scan resumes after it.
    [cur] is the text of the match in progress, if any; a lone [@] with
    nothing after it is no match. *)
Definition closeMention (cur : option string) : list string :=
  match cur with
  | Some (String _ (String _ _) as m) => [m]
  | _ => []
  end.

Fixpoint scanMentions (cur : option string) (s : string) : list string :=
  match s with
  | EmptyString => closeMention cur
  | String c s' =>
      match cur with
      | Some m =>
          if isSpace c then closeMention cur ++ scanMentions None s'
          else scanMentions (Some (m +:+ String c EmptyString)) s'
      | None =>
          if Ascii.eqb c "@" then scanMentions (Some "@"%string) s'
          else scanMentions None s'
      end
  end.

Definition mentions (message : string) : list string := scanMentions None message.

(** [detectMultipleTeams(message, agents)]. *)
Definition detectMultipleTeams (message : string) (agents : Registry AgentConfig)
    : list string :=
  List.flat_map
    (fun mention =>
       let teamId := toLowerCase (slice1 mention) in
       if has teamId agents then [teamId] else [])
    (mentions message).

(** The result object [{ agentId, message }]. *)
Record RoutingResult := mkRoutingResult {
  agentId : string;
  message : string
}.

(** The match of [rawMessage] against the anchored pattern made of [@], a
    group [\S+], blanks [\s+], and a group taking any characters up to the
    end of the text: the two groups, or nothing when there is no match.
    The first group is the whole blank-free run after [@], and the second
    starts after the whole run of blanks. *)
Definition matchAgentPrefix (rawMessage : string) : option (string * string) :=
  match rawMessage with
  | String "@" rest =>
      match spanNonSpace rest with
      | (String c w, String b after) => Some (String c w, dropSpaces (String b after))
      | _ => None
      end
  | _ => None
  end.

(** The loop over [Object.entries(agents)] that compares display names. *)
Fixpoint findByName (candidateId : string) (agents : Registry AgentConfig)
    : option string :=
  match agents with
  | [] => None
  | (id, config) :: rest =>
      if String.eqb (toLowerCase (a_name config)) candidateId then Some id
      else findByName candidateId rest
  end.

Definition ROCKET : string := "ðŸš€".
Definition SPARKLES : string := "âœ¨".
Definition BULLET : string := "â€¢".
Definition PARTY : string := "ðŸŽ‰".

(** The text returned when several teams are mentioned. *)
Definition multiTeamMessage (mentionedTeams : list string) : string :=
  let teamList := join ", " (List.map (fun t => "@" +:+ t) mentionedTeams) in
  ROCKET +:+ " **Team-to-Team Collaboration - Coming Soon!**" +:+ nl +:+ nl +:+
  "You mentioned multiple teams: " +:+ teamList +:+ nl +:+ nl +:+
  "Right now, I can only route to one team at a time. But we're working on something cool:"
    +:+ nl +:+ nl +:+
  SPARKLES +:+ " **Multi-Team Coordination** - Teams will be able to collaborate on complex tasks!"
    +:+ nl +:+
  SPARKLES +:+ " **Smart Routing** - Send instructions to multiple teams at once!" +:+ nl +:+
  SPARKLES +:+ " **Team Handoffs** - One team can delegate to another!" +:+ nl +:+ nl +:+
  "For now, please send separate messages to each team:" +:+ nl +:+
  join nl (List.map (fun t => BULLET +:+ " `@" +:+ t +:+ " [your message]`") mentionedTeams)
    +:+ nl +:+ nl +:+
  "_Stay tuned for updates! " +:+ PARTY +:+ "_".

(** [parseAgentRouting(rawMessage, agents)]. *)
Definition parseAgentRouting (rawMessage : string) (agents : Registry AgentConfig)
    : RoutingResult :=
  let mentionedTeams := detectMultipleTeams rawMessage agents in
  if (1 <? List.length mentionedTeams)%nat then
    mkRoutingResult "error" (multiTeamMessage mentionedTeams)
  else
    match matchAgentPrefix rawMessage with
    | Some (slug, rest) =>
        let candidateId := toLowerCase slug in
        if has candidateId agents then mkRoutingResult candidateId rest
        else
          match findByName candidateId agents with
          | Some id => mkRoutingResult id rest
          | None => mkRoutingResult "default" rawMessage
          end
    | None => mkRoutingResult "default" rawMessage
    end.

(** A registry with three agents. *)
Definition sample_agents : Registry AgentConfig :=
  [ ("coder"%string, sample_agent "Code Wizard");
    ("writer"%string, sample_agent "Scribe");
    ("default"%string, sample_agent "Assistant") ].

End Routing.

(* ===================================================================== *)
(** ** Subprocess execution ([src/lib/invoke.ts])                         *)
(* ===================================================================== *)

Module Invoke.
Import Text.

(** What the child process does: the spawn fails (the ['error'] event), or
    the process closes with an exit code ([null] when a signal killed it)
    after writing [stdout] and [stderr]. *)
Inductive ChildOutcome :=
| SpawnError (message : string)
| Closed (code : option Z) (stdout stderr : string).

(** A settled promise. *)
Inductive Settled (A : Type) :=
| Resolved (value : A)
| Rejected (message : string).
Arguments Resolved {A} value.
Arguments Rejected {A} message.

(** The template literal [`${code}`]. *)
Definition showCode (code : option Z) : string :=
  match code with
  | Some n => showZ n
  | None => "null"
  end.

(** The ['error'] and ['close'] handlers of [runCommand]. *)
Definition settle (outcome : ChildOutcome) : Settled string :=
  match outcome with
  | SpawnError message => Rejected message
  | Closed code stdout stderr =>
      match code with
      | Some 0 => Resolved stdout
      | _ =>
          let errorMessage :=
            if isEmpty (trim stderr) then "Command exited with code " +:+ showCode code
            else trim stderr in
          Rejected errorMessage
      end
  end.

(** The operating system: the outcome of spawning [command] with [args] in
    directory [cwd]. *)
Definition Spawn : Type := string -> list string -> string -> ChildOutcome.

(** [runCommand(command, args, cwd)]; [cwd || SCRIPT_DIR] picks the script
    directory when [cwd] is undefined or empty. *)
Definition runCommand (SCRIPT_DIR : string) (spawn : Spawn)
    (command : string) (args : list string) (cwd : option string) : Settled string :=
  let dir := match cwd with
             | Some (String c s) => String c s
             | _ => SCRIPT_DIR
             end in
  settle (spawn command args dir).

(** **** [invokeAgent] *)

(** The model-name tables of [types.ts] and the text decoders of the two
    JSON-lines providers.  [codexAgentMessage line] is the [item.text] of a
    line that parses to an [item.completed] record whose item is an
    [agent_message]; [opencodeText line] is the [part.text] of a line that
    parses to a [text] record with a non-empty text. *)
Record InvokeEnv := mkInvokeEnv {
  SCRIPT_DIR : string;
  spawn : Spawn;
  CLAUDE_MODEL_IDS : Types.Registry string;
  CODEX_MODEL_IDS : Types.Registry string;
  OPENCODE_MODEL_IDS : Types.Registry string;
  codexAgentMessage : string -> option string;
  opencodeText : string -> option string
}.

(** [TABLE[model] || model || ''], the shape of [resolveClaudeModel] and
    [resolveCodexModel]; an alias the table does not know passes through. *)
Definition resolveModel (table : Types.Registry string) (model : string) : string :=
  match Types.get model table with
  | Some (String c s) => String c s
  | _ => model
  end.

(** [s.split('\n')], on the newline character. *)
Fixpoint splitLines (s : string) : list string :=
  match s with
  | EmptyString => [EmptyString]
  | String c s' =>
      match splitLines s' with
      | [] => [String c EmptyString]
      | l :: ls => if Ascii.eqb c "010" then EmptyString :: l :: ls
                   else String c l :: ls
      end
  end.

(** The loop that keeps the text of the last line that decodes. *)
Definition lastDecoded (decode : string -> option string) (output : string) : string :=
  List.fold_left
    (fun response l => match decode l with
                       | Some t => t
                       | None => response
                       end)
    (splitLines (trim output)) EmptyString.

Definition orElse (s fallback : string) : string :=
  if isEmpty s then fallback else s.

Definition isAbsolute (p : string) : bool :=
  match p with
  | String "/" _ => true
  | _ => false
  end.

(** [invokeAgent(agent, agentId, message, workspacePath, shouldReset)]: the
    arguments built for the provider's command line, the command run in the
    agent's working directory, and the answer read off its output.  A
    rejection of [runCommand] is not caught here.  The set-up of the agent
    directory, which touches the disk only, is left out. *)
Definition invokeAgent (ie : InvokeEnv) (agent : Types.AgentConfig)
    (agentId message workspacePath : string) (shouldReset : bool) : Settled string :=
  let agentDir := workspacePath +:+ "/" +:+ agentId in
  let workingDir :=
    if isEmpty (Types.a_working_directory agent) then agentDir
    else if isAbsolute (Types.a_working_directory agent)
         then Types.a_working_directory agent
         else workspacePath +:+ "/" +:+ Types.a_working_directory agent in
  let provider := orElse (Types.a_provider agent) "anthropic" in
  let withModel (modelId : string) : list string :=
    if isEmpty modelId then [] else ["--model"%string; modelId] in
  if String.eqb provider "openai" then
    let modelId := resolveModel (CODEX_MODEL_IDS ie) (Types.a_model agent) in
    let codexArgs :=
      ["exec"%string]
      ++ (if shouldReset then [] else ["resume"%string; "--last"%string])
      ++ withModel modelId
      ++ ["--skip-git-repo-check"%string;
          "--dangerously-bypass-approvals-and-sandbox"%string; "--json"%string; message] in
    match runCommand (SCRIPT_DIR ie) (spawn ie) "codex" codexArgs (Some workingDir) with
    | Rejected e => Rejected e
    | Resolved codexOutput =>
        Resolved (orElse (lastDecoded (codexAgentMessage ie) codexOutput)
                    "Sorry, I could not generate a response from Codex.")
    end
  else if String.eqb provider "opencode" then
    let modelId := resolveModel (OPENCODE_MODEL_IDS ie) (Types.a_model agent) in
    let opencodeArgs :=
      ["run"%string; "--format"%string; "json"%string]
      ++ withModel modelId
      ++ (if shouldReset then [] else ["-c"%string])
      ++ [message] in
    match runCommand (SCRIPT_DIR ie) (spawn ie) "opencode" opencodeArgs (Some workingDir) with
    | Rejected e => Rejected e
    | Resolved opencodeOutput =>
        Resolved (orElse (lastDecoded (opencodeText ie) opencodeOutput)
                    "Sorry, I could not generate a response from OpenCode.")
    end
  else
    let modelId := resolveModel (CLAUDE_MODEL_IDS ie) (Types.a_model agent) in
    let claudeArgs :=
      ["--dangerously-skip-permissions"%string]
      ++ withModel modelId
      ++ (if shouldReset then [] else ["-c"%string])
      ++ ["-p"%string; message] in
    runCommand (SCRIPT_DIR ie) (spawn ie) "claude" claudeArgs (Some workingDir).

End Invoke.

(* ===================================================================== *)
(** ** Hook pipeline ([src/lib/plugins.ts])                               *)
(* ===================================================================== *)

Module Plugins.

(** [interface HookContext]. *)
Record HookContext := mkHookContext {
  ctx_channel : string;
  ctx_sender : string;
  ctx_messageId : string;
  ctx_originalMessage : string
}.

(** [interface HookMetadata]: an object from keys to values, each value
    kept as its JSON text. *)
Abbreviation HookMetadata := (gmap string string).

(** [interface HookResult]. *)
Record HookResult := mkHookResult {
  hr_text : string;
  hr_metadata : HookMetadata
}.

(** What a call of a transform yields once awaited: a string, a
    [HookResult], or an exception with its message. *)
Inductive HookReturn :=
| ReturnsText (text : string)
| ReturnsResult (result : HookResult)
| Throws (message : string).

Definition Hook : Type := string -> HookContext -> HookReturn.

(** [interface Hooks]. *)
Record Hooks := mkHooks {
  transformOutgoing : option Hook;
  transformIncoming : option Hook
}.

(** [interface LoadedPlugin]. *)
Record LoadedPlugin := mkLoadedPlugin {
  p_name : string;
  p_hooks : option Hooks
}.

(** A line handed to [log(level, message)]. *)
Record LogLine := mkLogLine {
  level : string;
  line : string
}.

(** The state of the loop: [text], [metadata], and the lines logged. *)
Record HookState := mkHookState {
  hs_text : string;
  hs_metadata : HookMetadata;
  hs_log : list LogLine
}.

(** The spread [{ ...metadata, ...result.metadata }]: on a key of both, the
    value of [result.metadata] is kept. *)
Definition spread (metadata new : HookMetadata) : HookMetadata := new ∪ metadata.

(** One iteration of the [for] loop of [runOutgoingHooks] and
    [runIncomingHooks]; [pick] selects the transform and [what] is its name
    in the log line. *)
Definition hookStep (pick : Hooks -> option Hook) (what : string) (ctx : HookContext)
    (st : HookState) (plugin : LoadedPlugin) : HookState :=
  match p_hooks plugin with
  | None => st
  | Some hooks =>
      match pick hooks with
      | None => st
      | Some transform =>
          match transform (hs_text st) ctx with
          | ReturnsText result => mkHookState result (hs_metadata st) (hs_log st)
          | ReturnsResult result =>
              mkHookState (hr_text result)
                (spread (hs_metadata st) (hr_metadata result)) (hs_log st)
          | Throws message =>
              mkHookState (hs_text st) (hs_metadata st)
                (hs_log st ++
                 [mkLogLine "ERROR"
                    ("Plugin '" +:+ p_name plugin +:+ "' " +:+ what +:+ " error: " +:+ message)])
          end
      end
  end.

Definition runHooks (pick : Hooks -> option Hook) (what : string)
    (loadedPlugins : list LoadedPlugin) (message : string) (ctx : HookContext)
    : HookState :=
  List.fold_left (hookStep pick what ctx) loadedPlugins (mkHookState message ∅ []).

(** [runOutgoingHooks(message, ctx)]: the [HookResult] returned is
    [hs_text] and [hs_metadata] of the final state. *)
Definition runOutgoingHooks (loadedPlugins : list LoadedPlugin) (message : string)
    (ctx : HookContext) : HookState :=
  runHooks transformOutgoing "transformOutgoing" loadedPlugins message ctx.

(** [runIncomingHooks(message, ctx)]. *)
Definition runIncomingHooks (loadedPlugins : list LoadedPlugin) (message : string)
    (ctx : HookContext) : HookState :=
  runHooks transformIncoming "transformIncoming" loadedPlugins message ctx.

End Plugins.

(* ===================================================================== *)
(** ** The hook runners on transforms of any kind ([src/lib/plugins.ts])  *)
(* ===================================================================== *)

(** [Plugins] takes a transform to return, or to throw a value that has a
    message.  A transform may also throw [undefined] or [null], or return
    a promise rejected with one of them.  The [catch] block of the runner
    reads [message] off the value thrown; off [undefined] and [null] that
    read throws a [TypeError], which no statement of the runner catches:
    it leaves the loop and rejects the promise the runner returned. *)

Module HookRunner.
Import Text Plugins.

(** What a call of a transform yields once awaited. *)
Inductive Awaited :=
| Settles (r : HookReturn)
| ThrowsNullish.

Definition Transform : Type := string -> HookContext -> Awaited.

(** [interface Hooks]. *)
Record Hooks := mkHooks {
  transformOutgoing : option Transform;
  transformIncoming : option Transform
}.

(** [interface LoadedPlugin]. *)
Record LoadedPlugin := mkLoadedPlugin {
  p_name : string;
  p_hooks : option Hooks
}.

(** What the promise of a runner settles to: the text, the metadata and
    the lines logged; or the [TypeError] thrown in the [catch] block for
    the named plugin, with the state the loop had reached. *)
Inductive Run :=
| Fulfilled (st : HookState)
| RejectedAt (plugin : string) (st : HookState).

(** The assignments of the [try] block and the line of the [catch] block,
    for a call that returned or threw a value with a message. *)
Definition absorb (name what : string) (st : HookState) (r : HookReturn) : HookState :=
  match r with
  | ReturnsText result => mkHookState result (hs_metadata st) (hs_log st)
  | ReturnsResult result =>
      mkHookState (hr_text result) (spread (hs_metadata st) (hr_metadata result)) (hs_log st)
  | Throws message =>
      mkHookState (hs_text st) (hs_metadata st)
        (hs_log st ++
         [mkLogLine "ERROR"
            ("Plugin '" +:+ name +:+ "' " +:+ what +:+ " error: " +:+ message)])
  end.

(** The [for] loop of [runOutgoingHooks] and [runIncomingHooks] from the
    state [st]; [pick] selects the transform and [what] is its name in the
    log line. *)
Fixpoint runHooks (pick : Hooks -> option Transform) (what : string) (ctx : HookContext)
    (loadedPlugins : list LoadedPlugin) (st : HookState) : Run :=
  match loadedPlugins with
  | [] => Fulfilled st
  | plugin :: rest =>
      match p_hooks plugin with
      | None => runHooks pick what ctx rest st
      | Some hooks =>
          match pick hooks with
          | None => runHooks pick what ctx rest st
          | Some transform =>
              match transform (hs_text st) ctx with
              | Settles r => runHooks pick what ctx rest (absorb (p_name plugin) what st r)
              | ThrowsNullish => RejectedAt (p_name plugin) st
              end
          end
      end
  end.

(** [runOutgoingHooks(message, ctx)]. *)
Definition runOutgoingHooks (loadedPlugins : list LoadedPlugin) (message : string)
    (ctx : HookContext) : Run :=
  runHooks transformOutgoing "transformOutgoing" ctx loadedPlugins (mkHookState message ∅ []).

(** [runIncomingHooks(message, ctx)]. *)
Definition runIncomingHooks (loadedPlugins : list LoadedPlugin) (message : string)
    (ctx : HookContext) : Run :=
  runHooks transformIncoming "transformIncoming" ctx loadedPlugins (mkHookState message ∅ []).

(** A plugin of [Plugins], whose transforms throw nothing but values with
    a message, as the runner meets it. *)
Definition settling (hook : Plugins.Hook) : Transform :=
  fun text ctx => Settles (hook text ctx).

Definition plain (plugin : Plugins.LoadedPlugin) : LoadedPlugin :=
  mkLoadedPlugin (Plugins.p_name plugin)
    ((fun hooks => mkHooks (settling <$> Plugins.transformOutgoing hooks)
                     (settling <$> Plugins.transformIncoming hooks))
     <$> Plugins.p_hooks plugin).

End HookRunner.

(* ===================================================================== *)
(** ** The SQLite queue processor ([queue-processor.ts])                  *)
(* ===================================================================== *)

(** [processMessage] is an [async] function: between two of its [await]s
    it runs without interruption, and at an [await] other tasks may run.
    The parts between the [await]s are the definitions [route], [invoke],
    [replyDirect], [recordStep], [finishBranch] below; [processMessage]
    runs them one after the other with no other task in between.  A
    [Conversation] object is reached through its entry in the
    [conversations] map, so a mutation of [conv] is an update of the entry
    under its key.

    Two kinds of input are left to other modules.  The hooks of the loaded
    plugins are those of [Plugins], which return or throw an error with a
    message; what a hook that throws [undefined] or [null] does to the two
    runners is in [HookRunner].  The look-ups [agents[id]] of [route] find
    the own keys of the registry: a target that is a property name every
    object inherits (['constructor'], ['__proto__'], ...), which
    [Types.inherited] tells apart, is outside [route].  The tasks that
    give way to one another at the [await]s are in [Processor]. *)

Module Dispatcher.
Import Text Types Db Plugins Invoke.

(** [interface ChainStep]. *)
Record ChainStep := mkChainStep {
  cs_agentId : string;
  cs_response : string
}.

(** The [teamContext] object [{ teamId, team }]. *)
Record TeamContext := mkTeamContext {
  tc_teamId : string;
  tc_team : TeamConfig
}.

(** [interface Conversation].  [files] is a [Set<string>] kept in insertion
    order, [outgoingMentions] a [Map<string, number>]. *)
Record Conversation := mkConversation {
  c_id : string;
  c_channel : string;
  c_sender : string;
  c_originalMessage : string;
  c_messageId : string;
  c_pending : Z;
  c_responses : list ChainStep;
  c_files : list string;
  c_totalMessages : Z;
  c_maxMessages : Z;
  c_teamContext : TeamContext;
  c_startTime : Z;
  c_outgoingMentions : gmap string Z
}.

(** What [parseAgentRouting(rawMessage, agents, teams)] returns. *)
Record TeamRouting := mkTeamRouting {
  rt_agentId : string;
  rt_message : string;
  rt_isTeam : bool
}.

(** An element of the array [extractTeammateMentions] returns. *)
Record Mention := mkMention {
  teammateId : string;
  mention_message : string
}.

(** An event handed to [emitEvent(type, data)], its data rendered as text. *)
Record Event := mkEvent {
  ev_type : string;
  ev_data : list (string * string)
}.

(** A call of [invokeAgent]. *)
Record Invocation := mkInvocation {
  inv_agentId : string;
  inv_message : string;
  inv_shouldReset : bool
}.

(** The settings in force and the functions imported from modules
    [lib/config], [lib/routing], [lib/invoke], [lib/response] and
    [lib/conversation]; the registries are read at every message but do not
    change.  [clock k] is the value of the [k]-th [Date.now()] read. *)
Record Env := mkEnv {
  clock : nat -> Z;
  agents : Registry AgentConfig;
  teams : Registry TeamConfig;
  workspacePath : string;
  loadedPlugins : list LoadedPlugin;
  parseAgentRouting : string -> Registry AgentConfig -> Registry TeamConfig -> TeamRouting;
  extractTeammateMentions :
    string -> string -> string -> Registry TeamConfig -> Registry AgentConfig -> list Mention;
  collectFiles : string -> list string -> list string;
  handleLongResponse : string -> list string -> string * list string;
  invokeAgent : AgentConfig -> string -> string -> string -> bool -> Settled string;
  composeReply : Conversation -> string;
  MAX_CONVERSATION_MESSAGES : Z
}.

(** The state the processor works on: the store, the [conversations] map,
    the paths that exist on disk, what was logged, emitted and invoked, the
    claimed rows chained on the per-agent promise chains (oldest first), and
    the number of clock reads made. *)
Record State := mkState {
  db : QueueDb;
  conversations : gmap string Conversation;
  disk : gset string;
  logs : list LogLine;
  events : list Event;
  invocations : list Invocation;
  chained : list (string * DbMessage);
  reads : nat
}.

Definition set_db (d : QueueDb) (st : State) : State :=
  mkState d (conversations st) (disk st) (logs st) (events st) (invocations st)
    (chained st) (reads st).

Definition set_conversations (c : gmap string Conversation) (st : State) : State :=
  mkState (db st) c (disk st) (logs st) (events st) (invocations st)
    (chained st) (reads st).

Definition set_disk (f : gset string) (st : State) : State :=
  mkState (db st) (conversations st) f (logs st) (events st) (invocations st)
    (chained st) (reads st).

Definition add_logs (l : list LogLine) (st : State) : State :=
  mkState (db st) (conversations st) (disk st) (logs st ++ l) (events st) (invocations st)
    (chained st) (reads st).

Definition add_event (e : Event) (st : State) : State :=
  mkState (db st) (conversations st) (disk st) (logs st) (events st ++ [e]) (invocations st)
    (chained st) (reads st).

Definition add_invocation (i : Invocation) (st : State) : State :=
  mkState (db st) (conversations st) (disk st) (logs st) (events st) (invocations st ++ [i])
    (chained st) (reads st).

Definition set_chained (c : list (string * DbMessage)) (st : State) : State :=
  mkState (db st) (conversations st) (disk st) (logs st) (events st) (invocations st)
    c (reads st).

Definition set_reads (n : nat) (st : State) : State :=
  mkState (db st) (conversations st) (disk st) (logs st) (events st) (invocations st)
    (chained st) n.

(** *** Computations that change the state and may throw *)

Inductive Outcome (A : Type) :=
| Returned (value : A) (st : State)
| Thrown (message : string) (st : State).
Arguments Returned {A} value st.
Arguments Thrown {A} message st.

Definition M (A : Type) : Type := State -> Outcome A.

Definition ret {A} (a : A) : M A := fun st => Returned a st.

Definition throw {A} (message : string) : M A := fun st => Thrown message st.

Definition bind {A B} (c : M A) (k : A -> M B) : M B :=
  fun st =>
    match c st with
    | Returned a st' => k a st'
    | Thrown e st' => Thrown e st'
    end.

Notation "'let*' x ':=' c 'in' k" := (bind c (fun x => k))
  (at level 10, x pattern, c at level 100, k at level 200).
Notation "c ;; k" := (bind c (fun _ => k))
  (at level 100, k at level 200, right associativity).

Definition getState : M State := fun st => Returned st st.

Definition modify (f : State -> State) : M unit := fun st => Returned tt (f st).

(** [when b c]: the statement [if (b) { c }]. *)
Definition when (b : bool) (c : M unit) : M unit := if b then c else ret tt.

Fixpoint forEach {A} (l : list A) (body : A -> M unit) : M unit :=
  match l with
  | [] => ret tt
  | x :: rest => body x ;; forEach rest body
  end.

(** [Date.now()]. *)
Definition Date_now (env : Env) : M Z :=
  fun st => Returned (clock env (reads st)) (set_reads (S (reads st)) st).

(** [log(level, message)], without the time stamp the logger prepends. *)
Definition log (level message : string) : M unit :=
  modify (add_logs [mkLogLine level message]).

(** [emitEvent(type, data)]. *)
Definition emitEvent (type : string) (data : list (string * string)) : M unit :=
  modify (add_event (mkEvent type data)).

(** *** Text helpers *)

(** [s.substring(0, n)]. *)
Fixpoint substring0 (n : nat) (s : string) : string :=
  match n, s with
  | S n', String c s' => String c (substring0 n' s')
  | _, _ => EmptyString
  end.

(** A nullable string inside a template literal. *)
Definition showNullable (o : option string) : string := default "null" o.

Definition showBool (b : bool) : string := if b then "true" else "false".

(** [path.join(a, b)] for normalised segments. *)
Definition path_join (a b : string) : string := a +:+ "/" +:+ b.

(** [getAgentResetFlag(agentId, workspacePath)]. *)
Definition getAgentResetFlag (agentId workspacePath : string) : string :=
  path_join (path_join workspacePath agentId) "reset_flag".

(** Truthiness of a nullable string: [!!s]. *)
Definition truthy (o : option string) : bool :=
  match o with
  | Some (String _ _) => true
  | _ => false
  end.

(** Does [s] start with [p]?  If so, what follows. *)
Fixpoint stripPrefix (p s : string) : option string :=
  match p, s with
  | EmptyString, _ => Some s
  | String a p', String b s' => if Ascii.eqb a b then stripPrefix p' s' else None
  | _, _ => None
  end.

(** The longest prefix without a closing bracket, and the rest. *)
Fixpoint spanNotBracket (s : string) : string * string :=
  match s with
  | EmptyString => (EmptyString, EmptyString)
  | String c s' =>
      if Ascii.eqb c "]" then (EmptyString, s)
      else let (w, rest) := spanNotBracket s' in (String c w, rest)
  end.

(** A match of the tag pattern, an opening [send_file:] bracket, one or more
    characters other than the closing bracket, and the closing bracket, at
    the start of [s]: what follows the match. *)
Definition matchSendFile (s : string) : option string :=
  match stripPrefix "[send_file:" s with
  | Some after =>
      match spanNotBracket after with
      | (String _ _, String _ rest) => Some rest
      | _ => None
      end
  | None => None
  end.

(** [s.replace(TAG, '')] with the global tag pattern; [fuel] bounds the
    number of characters looked at and is the length of the text. *)
Fixpoint removeSendFile (fuel : nat) (s : string) : string :=
  match fuel with
  | O => s
  | S fuel' =>
      match matchSendFile s with
      | Some rest => removeSendFile fuel' rest
      | None =>
          match s with
          | EmptyString => EmptyString
          | String c s' => String c (removeSendFile fuel' s')
          end
      end
  end.

Definition stripSendFileTags (s : string) : string :=
  removeSendFile (String.length s) s.

(** *** Helpers of [lib/routing] and [lib/conversation] *)

(** Modelled from the spec: [findTeamForAgent] of [lib/routing] is not among
    the sources; it yields the first team of which the agent is a member. *)
Fixpoint findTeamForAgent (agentId : string) (teams : Registry TeamConfig)
    : option TeamContext :=
  match teams with
  | [] => None
  | (teamId, team) :: rest =>
      if List.existsb (String.eqb agentId) (t_agents team)
      then Some (mkTeamContext teamId team)
      else findTeamForAgent agentId rest
  end.

(** The loop over [Object.entries(teams)] for a team-routed message. *)
Fixpoint findLedTeam (agentId : string) (teams : Registry TeamConfig)
    : option TeamContext :=
  match teams with
  | [] => None
  | (tid, t) :: rest =>
      if String.eqb (t_leader_agent t) agentId
         && List.existsb (String.eqb agentId) (t_agents t)
      then Some (mkTeamContext tid t)
      else findLedTeam agentId rest
  end.

Definition update_conversation (id : string) (f : Conversation -> Conversation) : M unit :=
  modify (fun st => set_conversations (alter f id (conversations st)) st).

Definition with_pending (p : Z) (c : Conversation) : Conversation :=
  mkConversation (c_id c) (c_channel c) (c_sender c) (c_originalMessage c) (c_messageId c)
    p (c_responses c) (c_files c) (c_totalMessages c) (c_maxMessages c)
    (c_teamContext c) (c_startTime c) (c_outgoingMentions c).

Definition with_outgoingMentions (m : gmap string Z) (c : Conversation) : Conversation :=
  mkConversation (c_id c) (c_channel c) (c_sender c) (c_originalMessage c) (c_messageId c)
    (c_pending c) (c_responses c) (c_files c) (c_totalMessages c) (c_maxMessages c)
    (c_teamContext c) (c_startTime c) m.

(** The three statements that record a response: [conv.responses.push],
    [conv.totalMessages++] and [collectFiles(response, conv.files)]. *)
Definition record_response (env : Env) (agentId response : string) (c : Conversation)
    : Conversation :=
  mkConversation (c_id c) (c_channel c) (c_sender c) (c_originalMessage c) (c_messageId c)
    (c_pending c) (c_responses c ++ [mkChainStep agentId response])
    (collectFiles env response (c_files c)) (c_totalMessages c + 1) (c_maxMessages c)
    (c_teamContext c) (c_startTime c) (c_outgoingMentions c).

(** Modelled from the spec: [incrementPending] of [lib/conversation] is not
    among the sources; it adds the number of mentions to the pending branch
    counter. *)
Definition incrementPending (id : string) (count : Z) : M unit :=
  update_conversation id (fun c => with_pending (c_pending c + count) c).

(** Modelled from the spec: [decrementPending] of [lib/conversation] is not
    among the sources; it takes one from the pending branch counter and
    tells whether the counter has reached zero. *)
Definition decrementPending (id : string) : M bool :=
  update_conversation id (fun c => with_pending (c_pending c - 1) c) ;;
  let* st := getState in
  ret match conversations st !! id with
      | Some c => c_pending c =? 0
      | None => false
      end.

(** [getPendingAgents] and [claimNextMessage] of the main loop
    [processQueue]: every agent with pending work gets its oldest pending
    row claimed and chained on its promise chain. *)
Definition claimFor (env : Env) (agentId : string) : M unit :=
  let* st := getState in
  match claimNextMessage agentId (clock env (reads st)) (db st) with
  | (Some dbMsg, d') =>
      let* _ := Date_now env in
      modify (fun st => set_chained (chained st ++ [(agentId, dbMsg)]) (set_db d' st))
  | (None, _) => ret tt
  end.

Definition processQueue (env : Env) : M unit :=
  let* st := getState in
  forEach (getPendingAgents (db st)) (claimFor env).

(** [enqueueMessage] of the store, as the processor sees it: the row is
    inserted and the ['message:enqueued'] listener, [processQueue], runs
    before the call returns.  A duplicate [message_id] throws. *)
Definition dbEnqueueMessage (env : Env) (data : EnqueueMessageData) : M Z :=
  let* now := Date_now env in
  let* st := getState in
  match enqueueMessage data now (db st) with
  | ConstraintError => throw "UNIQUE constraint failed: messages.message_id"
  | Inserted rowId d' =>
      modify (set_db d') ;;
      processQueue env ;;
      ret rowId
  end.

Definition dbEnqueueResponse (env : Env) (data : EnqueueResponseData) : M Z :=
  let* now := Date_now env in
  let* st := getState in
  let (rowId, d') := enqueueResponse data now (db st) in
  modify (set_db d') ;;
  ret rowId.

Definition dbCompleteMessage (env : Env) (rowId : Z) : M unit :=
  let* now := Date_now env in
  modify (fun st => set_db (completeMessage rowId now (db st)) st).

Definition dbFailMessage (env : Env) (rowId : Z) (error : string) : M unit :=
  let* st := getState in
  match message_row rowId (db st) with
  | Some _ =>
      let* now := Date_now env in
      modify (fun st => set_db (failMessage rowId error now (db st)) st)
  | None => ret tt
  end.

(** Modelled from the spec: [enqueueInternalMessage] of [lib/conversation]
    is not among the sources; it enqueues a message for the mentioned
    teammate, tagged with the conversation id and the originating agent,
    under a message id of its own. *)
Definition enqueueInternalMessage (env : Env) (conversationId fromAgent targetAgent
    message : string) (channel sender : string) (senderId : option string) : M unit :=
  let* now := Date_now env in
  let* st := getState in
  let messageId :=
    "internal_" +:+ conversationId +:+ "_" +:+ targetAgent +:+ "_" +:+ showZ now
      +:+ "_" +:+ showZ (messages_seq (db st)) in
  let* _ := dbEnqueueMessage env
    (mkEnqueueMessageData channel sender senderId message messageId
       (Some targetAgent) None (Some conversationId) (Some fromAgent)) in
  ret tt.

(** The metadata object as stored: [undefined] when it has no key. *)
Definition metadataColumn (m : HookMetadata) : option (list (string * string)) :=
  match map_to_list m with
  | [] => None
  | l => Some l
  end.

Definition filesColumn (l : list string) : option (list string) :=
  match l with
  | [] => None
  | _ => Some l
  end.

(** Modelled from the spec: [completeConversation] of [lib/conversation] is
    not among the sources; it composes the reply from the recorded steps,
    applies the outgoing hooks once, enqueues one response row under the
    conversation's originating message id, emits [team_chain_end] and
    removes the conversation from the map. *)
Definition completeConversation (env : Env) (c : Conversation) : M unit :=
  let hooked := runOutgoingHooks (loadedPlugins env) (composeReply env c)
                  (mkHookContext (c_channel c) (c_sender c) (c_messageId c)
                     (c_originalMessage c)) in
  modify (add_logs (hs_log hooked)) ;;
  let* _ := dbEnqueueResponse env
    (mkEnqueueResponseData (c_channel c) (c_sender c) None (hs_text hooked)
       (c_originalMessage c) (c_messageId c)
       (Some (t_leader_agent (tc_team (c_teamContext c))))
       (filesColumn (c_files c)) (metadataColumn (hs_metadata hooked))) in
  emitEvent "team_chain_end"
    [("teamId"%string, tc_teamId (c_teamContext c));
     ("totalSteps"%string, showZ (Z.of_nat (List.length (c_responses c))));
     ("agents"%string, join "," (t_agents (tc_team (c_teamContext c))))] ;;
  modify (fun st => set_conversations (delete (c_id c) (conversations st)) st).

(** *** [processMessage] *)

(** What the first part of [processMessage] settles: the agent, the prompt
    and the team context. *)
Record Routed := mkRouted {
  rd_agentId : string;
  rd_agent : AgentConfig;
  rd_message : string;
  rd_teamContext : option TeamContext;
  rd_shouldReset : bool
}.

Definition isInternal (dbMsg : DbMessage) : bool := truthy (m_conversation_id dbMsg).

(** The conversation of an internal message, as [conversations.get] finds it. *)
Definition conversationOf (dbMsg : DbMessage) (st : State) : option Conversation :=
  match m_conversation_id dbMsg with
  | Some id => conversations st !! id
  | None => None
  end.

(** From the start of [processMessage] to the note appended for internal
    messages: routing, fall-backs, team context and reset flag. *)
Definition route (env : Env) (dbMsg : DbMessage) : M Routed :=
  let channel := m_channel dbMsg in
  let sender := m_sender dbMsg in
  let rawMessage := m_message dbMsg in
  let messageId := m_message_id dbMsg in
  log "INFO"
    ("Processing [" +:+ (if isInternal dbMsg then "internal" else channel) +:+ "] "
     +:+ (if isInternal dbMsg
          then "@" +:+ showNullable (m_from_agent dbMsg) +:+ "→@"
               +:+ showNullable (m_agent dbMsg)
          else "from " +:+ sender)
     +:+ ": " +:+ substring0 50 rawMessage +:+ "...") ;;
  when (negb (isInternal dbMsg))
    (emitEvent "message_received"
       [("channel"%string, channel); ("sender"%string, sender);
        ("message"%string, substring0 120 rawMessage); ("messageId"%string, messageId)]) ;;
  (* Route message to agent (or team) *)
  let preRouted :=
    match m_agent dbMsg with
    | Some a => if truthy (Some a) then
                  match get a (agents env) with
                  | Some _ => Some a
                  | None => None
                  end
                else None
    | None => None
    end in
  let routing :=
    match preRouted with
    | Some a => mkTeamRouting a rawMessage false
    | None => parseAgentRouting env rawMessage (agents env) (teams env)
    end in
  let isTeamRouted := rt_isTeam routing in
  (* Fall back to default if agent not found *)
  let '(agentId, message) :=
    match get (rt_agentId routing) (agents env) with
    | Some _ => (rt_agentId routing, rt_message routing)
    | None => ("default"%string, rawMessage)
    end in
  (* Final fallback: use first available agent if no default *)
  let agentId' :=
    match get agentId (agents env) with
    | Some _ => Some agentId
    | None => head (keys (agents env))
    end in
  match agentId' ≫= (fun k => (fun a => (k, a)) <$> get k (agents env)) with
  | None => throw "Cannot read properties of undefined (reading 'name')"
  | Some (agentId, agent) =>
      log "INFO"
        ("Routing to agent: " +:+ a_name agent +:+ " (" +:+ agentId +:+ ") ["
         +:+ a_provider agent +:+ "/" +:+ a_model agent +:+ "]") ;;
      when (negb (isInternal dbMsg))
        (emitEvent "agent_routed"
           [("agentId"%string, agentId); ("agentName"%string, a_name agent);
            ("provider"%string, a_provider agent); ("model"%string, a_model agent);
            ("isTeamRouted"%string, showBool isTeamRouted)]) ;;
      (* Determine team context *)
      let* st := getState in
      let teamContext :=
        if isInternal dbMsg then c_teamContext <$> conversationOf dbMsg st
        else
          match (if isTeamRouted then findLedTeam agentId (teams env) else None) with
          | Some tc => Some tc
          | None => findTeamForAgent agentId (teams env)
          end in
      (* Per-agent reset flag *)
      let agentResetFlag := getAgentResetFlag agentId (workspacePath env) in
      let shouldReset := bool_decide (agentResetFlag ∈ disk st) in
      when shouldReset (modify (fun st => set_disk (disk st ∖ {[agentResetFlag]}) st)) ;;
      (* Note for internal messages with other branches pending *)
      let note :=
        match (if isInternal dbMsg then conversationOf dbMsg st else None) with
        | Some conv =>
            let othersPending := c_pending conv - 1 in
            if 0 <? othersPending then
              nl +:+ nl +:+ "------" +:+ nl +:+ nl +:+ "[" +:+ showZ othersPending
              +:+ " other teammate response(s) are still being processed and will be delivered when ready. Do not re-mention teammates who haven't responded yet.]"
            else EmptyString
        | None => EmptyString
        end in
      ret (mkRouted agentId agent (message +:+ note) teamContext shouldReset)
  end.

Definition APOLOGY : string :=
  "Sorry, I encountered an error processing your request. Please check the queue logs.".

Definition hookContext (dbMsg : DbMessage) : HookContext :=
  mkHookContext (m_channel dbMsg) (m_sender dbMsg) (m_message_id dbMsg) (m_message dbMsg).

(** The provider label of the error line: [agent.provider || 'anthropic'],
    then the conditional that names the command line. *)
Definition providerLabel (agent : AgentConfig) : string :=
  let provider := if isEmpty (a_provider agent) then "anthropic"%string
                  else a_provider agent in
  if String.eqb provider "openai" then "Codex"%string
  else if String.eqb provider "opencode" then "OpenCode"%string
  else "Claude"%string.

(** The incoming hooks and the invocation, with its [try]/[catch]. *)
Definition invoke (env : Env) (dbMsg : DbMessage) (r : Routed) : M string :=
  let hooked := runIncomingHooks (loadedPlugins env) (rd_message r) (hookContext dbMsg) in
  modify (add_logs (hs_log hooked)) ;;
  let message := hs_text hooked in
  let agentId := rd_agentId r in
  let agent := rd_agent r in
  emitEvent "chain_step_start"
    [("agentId"%string, agentId); ("agentName"%string, a_name agent);
     ("fromAgent"%string,
      if truthy (m_from_agent dbMsg) then showNullable (m_from_agent dbMsg) else "null")] ;;
  modify (add_invocation (mkInvocation agentId message (rd_shouldReset r))) ;;
  let* response :=
    match invokeAgent env agent agentId message (workspacePath env) (rd_shouldReset r) with
    | Resolved response => ret response
    | Rejected error =>
        log "ERROR"
          (providerLabel agent +:+ " error (agent: " +:+ agentId +:+ "): " +:+ error) ;;
        ret APOLOGY
    end in
  emitEvent "chain_step_done"
    [("agentId"%string, agentId); ("agentName"%string, a_name agent);
     ("responseLength"%string, showZ (Z.of_nat (String.length response)));
     ("responseText"%string, response)] ;;
  ret response.

(** No team context: the reply goes to the user. *)
Definition replyDirect (env : Env) (dbMsg : DbMessage) (r : Routed) (response : string)
    : M unit :=
  let channel := m_channel dbMsg in
  let sender := m_sender dbMsg in
  let agentId := rd_agentId r in
  let trimmed := trim response in
  let outboundFiles := collectFiles env trimmed [] in
  let finalResponse :=
    match outboundFiles with
    | [] => trimmed
    | _ => trim (stripSendFileTags trimmed)
    end in
  let hooked := runOutgoingHooks (loadedPlugins env) finalResponse (hookContext dbMsg) in
  modify (add_logs (hs_log hooked)) ;;
  let (responseMessage, allFiles) :=
    handleLongResponse env (hs_text hooked) outboundFiles in
  let* _ := dbEnqueueResponse env
    (mkEnqueueResponseData channel sender (m_sender_id dbMsg) responseMessage
       (m_message dbMsg) (m_message_id dbMsg) (Some agentId)
       (filesColumn allFiles) (metadataColumn (hs_metadata hooked))) in
  log "INFO"
    ("✓ Response ready [" +:+ channel +:+ "] " +:+ sender +:+ " via agent:" +:+ agentId
     +:+ " (" +:+ showZ (Z.of_nat (String.length finalResponse)) +:+ " chars)") ;;
  emitEvent "response_ready"
    [("channel"%string, channel); ("sender"%string, sender); ("agentId"%string, agentId);
     ("responseLength"%string, showZ (Z.of_nat (String.length finalResponse)));
     ("responseText"%string, finalResponse); ("messageId"%string, m_message_id dbMsg)] ;;
  dbCompleteMessage env (m_id dbMsg).

(** The [else] branch that starts a conversation. *)
Definition newConversation (env : Env) (dbMsg : DbMessage) (tc : TeamContext)
    : M string :=
  let* now := Date_now env in
  let convId := m_message_id dbMsg +:+ "_" +:+ showZ now in
  let* startTime := Date_now env in
  let conv :=
    mkConversation convId (m_channel dbMsg) (m_sender dbMsg) (m_message dbMsg)
      (m_message_id dbMsg) 1 [] [] 0 (MAX_CONVERSATION_MESSAGES env) tc startTime ∅ in
  modify (fun st => set_conversations (<[convId := conv]> (conversations st)) st) ;;
  log "INFO"
    ("Conversation started: " +:+ convId +:+ " (team: " +:+ t_name (tc_team tc) +:+ ")") ;;
  emitEvent "team_chain_start"
    [("teamId"%string, tc_teamId tc); ("teamName"%string, t_name (tc_team tc));
     ("agents"%string, join "," (t_agents (tc_team tc)));
     ("leader"%string, t_leader_agent (tc_team tc))] ;;
  ret convId.

(** Get or create the conversation: its key in the map. *)
Definition obtainConversation (env : Env) (dbMsg : DbMessage) (tc : TeamContext)
    : M string :=
  let* st := getState in
  match (if isInternal dbMsg then m_conversation_id dbMsg else None) with
  | Some id =>
      match conversations st !! id with
      | Some _ => ret id
      | None => newConversation env dbMsg tc
      end
  | None => newConversation env dbMsg tc
  end.

(** The response is recorded in the conversation and the teammates it
    mentions get internal messages, unless the conversation has used up
    its messages. *)
Definition recordResponse (env : Env) (dbMsg : DbMessage) (r : Routed)
    (response convId : string) : M unit :=
  let agentId := rd_agentId r in
  update_conversation convId (record_response env agentId response) ;;
  let* st := getState in
  match conversations st !! convId with
  | None => ret tt
  | Some conv =>
      let teammateMentions :=
        extractTeammateMentions env response agentId (tc_teamId (c_teamContext conv))
          (teams env) (agents env) in
      let count := Z.of_nat (List.length teammateMentions) in
      if (0 <? count) && (c_totalMessages conv <? c_maxMessages conv) then
        incrementPending convId count ;;
        update_conversation convId
          (fun c => with_outgoingMentions (<[agentId := count]> (c_outgoingMentions c)) c) ;;
        forEach teammateMentions (fun mention =>
          log "INFO" ("@" +:+ agentId +:+ " → @" +:+ teammateId mention) ;;
          emitEvent "chain_handoff"
            [("teamId"%string, tc_teamId (c_teamContext conv));
             ("fromAgent"%string, agentId); ("toAgent"%string, teammateId mention)] ;;
          let internalMsg :=
            "[Message from teammate @" +:+ agentId +:+ "]:" +:+ nl
            +:+ mention_message mention in
          enqueueInternalMessage env convId agentId (teammateId mention) internalMsg
            (m_channel dbMsg) (m_sender dbMsg) (m_sender_id dbMsg))
      else if 0 <? count then
        log "WARN"
          ("Conversation " +:+ convId +:+ " hit max messages ("
           +:+ showZ (c_maxMessages conv) +:+ ") — not enqueuing further mentions")
      else ret tt
  end.

(** Team context: get or create the conversation, then record. *)
Definition recordStep (env : Env) (dbMsg : DbMessage) (r : Routed) (tc : TeamContext)
    (response : string) : M string :=
  let* convId := obtainConversation env dbMsg tc in
  recordResponse env dbMsg r response convId ;;
  ret convId.

(** The body run under [withConversationLock]: this branch is done. *)
Definition finishBranch (env : Env) (convId : string) : M unit :=
  let* shouldComplete := decrementPending convId in
  let* st := getState in
  match conversations st !! convId with
  | None => ret tt
  | Some conv =>
      if shouldComplete then completeConversation env conv
      else log "INFO"
             ("Conversation " +:+ convId +:+ ": " +:+ showZ (c_pending conv)
              +:+ " branch(es) still pending")
  end.

(** The [try] block of [processMessage]. *)
Definition processBody (env : Env) (dbMsg : DbMessage) : M unit :=
  let* r := route env dbMsg in
  let* response := invoke env dbMsg r in
  match rd_teamContext r with
  | None => replyDirect env dbMsg r response
  | Some tc =>
      let* convId := recordStep env dbMsg r tc response in
      finishBranch env convId ;;
      dbCompleteMessage env (m_id dbMsg)
  end.

(** [processMessage(dbMsg)]: an error thrown by the body is logged and the
    row is failed. *)
Definition processMessage (env : Env) (dbMsg : DbMessage) (st : State) : State :=
  match processBody env dbMsg st with
  | Returned _ st' => st'
  | Thrown error st' =>
      match (log "ERROR" ("Processing error: " +:+ error) ;;
             dbFailMessage env (m_id dbMsg) error) st' with
      | Returned _ st'' => st''
      | Thrown _ st'' => st''
      end
  end.

(** The promise chains drained one task at a time, oldest first, each task
    run to its end before the next starts. *)
Fixpoint drain (env : Env) (fuel : nat) (st : State) : State :=
  match fuel with
  | O => st
  | S fuel' =>
      match chained st with
      | [] => st
      | (_, dbMsg) :: rest => drain env fuel' (processMessage env dbMsg (set_chained rest st))
      end
  end.

(** An adapter enqueues a message: the store notifies [processQueue]. *)
Definition adapterEnqueue (env : Env) (data : EnqueueMessageData) (st : State) : State :=
  match dbEnqueueMessage env data st with
  | Returned _ st' => st'
  | Thrown _ st' => st'
  end.


(** Whenever [c] returns, it relates the states before and after by [R]. *)
Definition framed {A} (R : State -> State -> Prop) (c : M A) : Prop :=
  forall st a st', c st = Returned a st' -> R st st'.

(** The store, the conversations, the invocations, the promise chains and
    the clock are as before. *)
Definition keeps_store (st st' : State) : Prop :=
  db st' = db st /\ conversations st' = conversations st /\
  invocations st' = invocations st /\ chained st' = chained st /\ reads st' = reads st.


(** Whether [c] returns or throws, it relates the states before and after
    by [R]. *)
Definition always {A} (R : State -> State -> Prop) (c : M A) : Prop :=
  forall st, match c st with
             | Returned _ st' | Thrown _ st' => R st st'
             end.

(** No path appears on disk and no message row leaves the table. *)
Definition keeps_rows (st st' : State) : Prop :=
  disk st' ⊆ disk st /\
  forall k, message_row k (db st) <> None -> message_row k (db st') <> None.

Definition emptyDb : QueueDb := mkQueueDb [] 0 [] 0.

Definition initialState : State := mkState emptyDb ∅ ∅ [] [] [] [] 0.

End Dispatcher.

(* ===================================================================== *)
(** ** The file-queue processor ([queue-processor.ts], file version)      *)
(* ===================================================================== *)

Module FileQueue.
Import Text Types Routing Plugins.

(** [interface MessageData]. *)
Record MessageData := mkMessageData {
  md_channel : string;
  md_sender : string;
  md_senderId : option string;
  md_message : string;
  md_timestamp : Z;
  md_messageId : string;
  md_agent : option string;
  md_files : option (list string)
}.

(** [interface ResponseData]. *)
Record ResponseData := mkResponseData {
  rs_channel : string;
  rs_sender : string;
  rs_message : string;
  rs_originalMessage : string;
  rs_timestamp : Z;
  rs_messageId : string;
  rs_agent : option string;
  rs_files : option (list string)
}.

(** The three queue directories, each a list of file names with the parsed
    JSON content of the file, the log, and the commands handed to
    [runCommand] so far. *)
Record Queue := mkQueue {
  incoming : list (string * MessageData);
  processing : list (string * MessageData);
  outgoing : list (string * ResponseData);
  qlog : list LogLine;
  commands : list (string * list string)
}.

Definition remove_file {A} (name : string) (dir : list (string * A)) : list (string * A) :=
  List.filter (fun f => negb (String.eqb (fst f) name)) dir.

Definition write_file {A} (name : string) (content : A) (dir : list (string * A))
    : list (string * A) :=
  remove_file name dir ++ [(name, content)].

Definition add_qlog (level message : string) (q : Queue) : Queue :=
  mkQueue (incoming q) (processing q) (outgoing q)
    (qlog q ++ [mkLogLine level message]) (commands q).

(** Everything [processMessage] does once the agent is settled, from the
    fall-back to the default agent to the response file: the only part
    that calls [runCommand]. *)
Definition Answer : Type := Queue -> string -> MessageData -> string -> string -> Queue.

(** [processMessage(messageFile)], [name] being the base name of the file
    and [now] the clock read of the short-circuit branch. *)
Definition processMessage (agents : Registry AgentConfig) (answerWithAgent : Answer)
    (now : Z) (name : string) (q : Queue) : Queue :=
  match get name (incoming q) with
  | None =>
      (* [renameSync] throws: the [catch] block *)
      let q1 := add_qlog "ERROR"
                  ("Processing error: ENOENT: no such file or directory, rename '"
                   +:+ name +:+ "'") q in
      match get name (processing q1) with
      | Some content =>
          mkQueue (write_file name content (incoming q1)) (remove_file name (processing q1))
            (outgoing q1) (qlog q1) (commands q1)
      | None => q1
      end
  | Some messageData =>
      (* Move to processing to mark as in-progress *)
      let q1 := mkQueue (remove_file name (incoming q))
                  (write_file name messageData (processing q))
                  (outgoing q) (qlog q) (commands q) in
      let rawMessage := md_message messageData in
      let q2 := add_qlog "INFO"
                  ("Processing [" +:+ md_channel messageData +:+ "] from "
                   +:+ md_sender messageData +:+ ": "
                   +:+ Dispatcher.substring0 50 rawMessage +:+ "...") q1 in
      (* Route message to agent *)
      let preRouted :=
        match md_agent messageData with
        | Some a => if Dispatcher.truthy (Some a) && has a agents then Some a else None
        | None => None
        end in
      let routing :=
        match preRouted with
        | Some a => mkRoutingResult a rawMessage
        | None => parseAgentRouting rawMessage agents
        end in
      if String.eqb (agentId routing) "error" then
        (* Easter egg: Handle multiple team mentions *)
        let q3 := add_qlog "INFO" "Multiple teams detected, sending easter egg message" q2 in
        let responseData :=
          mkResponseData (md_channel messageData) (md_sender messageData)
            (message routing) rawMessage now (md_messageId messageData) None None in
        let q4 := mkQueue (incoming q3) (remove_file name (processing q3))
                    (write_file name responseData (outgoing q3)) (qlog q3) (commands q3) in
        add_qlog "INFO" ("✓ Easter egg sent to " +:+ md_sender messageData) q4
      else
        answerWithAgent q2 name messageData (agentId routing) (message routing)
  end.

(** **** Settings and the agent registry *)

(** [interface Settings], as far as the processor reads it; a field the
    JSON text does not have is [None].  [s_workspace_path] is
    [settings?.workspace?.path]. *)
Record ProviderSection := mkProviderSection {
  ps_model : option string
}.

Record ModelsSection := mkModelsSection {
  ms_provider : option string;
  ms_anthropic : option ProviderSection;
  ms_openai : option ProviderSection
}.

Record Settings := mkSettings {
  s_workspace_path : option string;
  s_models : option ModelsSection;
  s_teams : option (Registry AgentConfig);
  s_agents : option (Registry AgentConfig)
}.

(** What [JSON.parse] makes of the settings file: nothing, when reading
    or parsing throws; the value [null]; or a value read with the type
    [Settings], an object whose [teams] and [agents], where it has them,
    map ids to agent objects.  A number, a string or an array reads as a
    value with none of the fields.  A file whose registries hold an entry
    that is no object, [null] for instance, is none of these values. *)
Inductive SettingsFile :=
| Unreadable
| HoldsNull
| Holds (settings : Settings).

(** The statement that auto-detects the provider. *)
Definition detectProvider (settings : Settings) : Settings :=
  match s_models settings with
  | Some models =>
      (* Auto-detect provider if not specified *)
      if Dispatcher.truthy (ms_provider models) then settings
      else
        match ms_openai models, ms_anthropic models with
        | Some _, _ =>
            mkSettings (s_workspace_path settings)
              (Some (mkModelsSection (Some "openai"%string) (ms_anthropic models)
                       (ms_openai models)))
              (s_teams settings) (s_agents settings)
        | None, Some _ =>
            mkSettings (s_workspace_path settings)
              (Some (mkModelsSection (Some "anthropic"%string) (ms_anthropic models)
                       (ms_openai models)))
              (s_teams settings) (s_agents settings)
        | None, None => settings
        end
  | None => settings
  end.

(** [getSettings()]: the empty object when reading or parsing throws.  The
    optional chaining lets [null] through, and [null] is returned: the
    result [None]. *)
Definition getSettings (file : SettingsFile) : option Settings :=
  match file with
  | Unreadable => Some (mkSettings None None None None)
  | HoldsNull => None
  | Holds settings => Some (detectProvider settings)
  end.

(** [value || fallback] on a string that may be undefined. *)
Definition orString (value : option string) (fallback : string) : string :=
  match value with
  | Some (String c s) => String c s
  | _ => fallback
  end.

(** [settings?.models?.provider], and [settings?.models?.openai?.model]
    or its [anthropic] counterpart. *)
Definition modelsProvider (settings : Settings) : option string :=
  match s_models settings with
  | Some models => ms_provider models
  | None => None
  end.

Definition sectionModel (section : ModelsSection -> option ProviderSection)
    (settings : Settings) : option string :=
  match s_models settings with
  | Some models =>
      match section models with
      | Some provider => ps_model provider
      | None => None
      end
  | None => None
  end.

(** [getDefaultAgentFromModels(settings)], [home] being [os.homedir()];
    the set-up of the directory, which touches the disk only, is left
    out. *)
Definition getDefaultAgentFromModels (home : string) (settings : Settings) : AgentConfig :=
  let provider := orString (modelsProvider settings) "anthropic" in
  let model :=
    if String.eqb provider "openai" then
      orString (sectionModel ms_openai settings) "gpt-5.3-codex"
    else orString (sectionModel ms_anthropic settings) "sonnet" in
  let workspacePath :=
    orString (s_workspace_path settings) (Dispatcher.path_join home "tinyclaw-workspace") in
  let defaultAgentDir := Dispatcher.path_join workspacePath "default" in
  mkAgentConfig "Default" provider model defaultAgentDir None None.

(** [getAgents(settings)]. *)
Definition getAgents (home : string) (settings : Settings) : Registry AgentConfig :=
  match s_teams settings with
  | Some (t :: ts) => t :: ts
  | _ =>
      match s_agents settings with
      | Some (a :: rest) => a :: rest
      | _ => [("default"%string, getDefaultAgentFromModels home settings)]
      end
  end.

(** [getAgents(getSettings())], as [processMessage] and [peekTeamId] call
    it: [getAgents] reads [settings.teams] without optional chaining, which
    throws on [null]; the result is then [None]. *)
Definition configuredAgents (home : string) (file : SettingsFile)
    : option (Registry AgentConfig) :=
  getAgents home <$> getSettings file.

(** **** The agent a message file goes to *)

(** The routing at the start of [processMessage]: the agent named in the
    file if it is configured, else what [parseAgentRouting] says. *)
Definition routingOf (agents : Registry AgentConfig) (messageData : MessageData)
    : RoutingResult :=
  let preRouted :=
    match md_agent messageData with
    | Some a => if Dispatcher.truthy (Some a) && has a agents then Some a else None
    | None => None
    end in
  match preRouted with
  | Some a => mkRoutingResult a (md_message messageData)
  | None => parseAgentRouting (md_message messageData) agents
  end.

(** The two fall-backs of [processMessage] and the look-up of the agent:
    the id, the configuration and the text, or nothing when
    [agents[agentId]] is undefined and reading its name throws. *)
Definition settleAgent (agents : Registry AgentConfig) (routing : RoutingResult)
    (rawMessage : string) : option (string * AgentConfig * string) :=
  (* Fall back to default if agent not found *)
  let '(agentId, message) :=
    match get (agentId routing) agents with
    | Some _ => (agentId routing, message routing)
    | None => ("default"%string, rawMessage)
    end in
  (* Final fallback: use first available agent if no default *)
  let agentId' :=
    match get agentId agents with
    | Some _ => Some agentId
    | None => head (keys agents)
    end in
  agentId' ≫= (fun k => (fun agent => (k, agent, message)) <$> get k agents).

(** [peekTeamId(filePath)]; [content] is what [JSON.parse] makes of the
    file, [None] when reading or parsing throws. *)
Definition peekTeamId (agents : Registry AgentConfig) (content : option MessageData)
    : string :=
  match content with
  | None => "default"%string
  | Some messageData =>
      let preRouted :=
        match md_agent messageData with
        | Some a => if Dispatcher.truthy (Some a) && has a agents then Some a else None
        | None => None
        end in
      match preRouted with
      | Some a => a
      | None =>
          let routing := parseAgentRouting (md_message messageData) agents in
          if isEmpty (agentId routing) then "default"%string else agentId routing
      end
  end.

(** **** The text of a response *)





End FileQueue.

(* ===================================================================== *)
(** ** Channel clients ([src/telegram-client.ts])                         *)
(* ===================================================================== *)

Module Channels.
Import Text.

(** [s.length]. *)
Definition strlen (s : string) : Z := Z.of_nat (String.length s).

(** [s.substring(0, n)] and [s.substring(n)]; an index below zero counts
    as zero and one beyond the end as the length. *)
Definition substringTo (n : Z) (s : string) : string :=
  Dispatcher.substring0 (Z.to_nat n) s.

Fixpoint dropChars (n : nat) (s : string) : string :=
  match n, s with
  | S n', String _ s' => dropChars n' s'
  | _, _ => s
  end.

Definition substringFrom (n : Z) (s : string) : string := dropChars (Z.to_nat n) s.

(** [s.lastIndexOf(c, fromIndex)] for a single character [c]: the greatest
    index that holds [c] and is at most [fromIndex], and [-1] when there is
    none; a negative [fromIndex] counts as zero.  [lastIndexFrom] reads [s]
    from index [i] on, [found] being the answer for what was read. *)
Fixpoint lastIndexFrom (c : ascii) (s : string) (i fromIndex found : Z) : Z :=
  match s with
  | EmptyString => found
  | String x s' =>
      if fromIndex <? i then found
      else lastIndexFrom c s' (i + 1) fromIndex (if Ascii.eqb x c then i else found)
  end.

Definition lastIndexOf (c : ascii) (s : string) (fromIndex : Z) : Z :=
  lastIndexFrom c s 0 (Z.max 0 fromIndex) (-1).

(** [s.replace(/^\n/, '')]. *)
Definition dropLeadingNewline (s : string) : string :=
  match s with
  | String "010"%char s' => s'
  | _ => s
  end.

(** Where the loop of [splitMessage] cuts: at the last newline within the
    limit, else at the last space, else at the limit. *)
Definition splitIndexOf (maxLength : Z) (remaining : string) : Z :=
  let splitIndex := lastIndexOf "010"%char remaining maxLength in
  let splitIndex := if splitIndex <=? 0 then lastIndexOf " "%char remaining maxLength
                    else splitIndex in
  if splitIndex <=? 0 then maxLength else splitIndex.

(** The [while] loop of [splitMessage]; [None] when the fuel runs out
    before the loop ends. *)
Fixpoint splitLoop (fuel : nat) (maxLength : Z) (remaining : string)
    (chunks : list string) : option (list string) :=
  match fuel with
  | O => None
  | S fuel' =>
      if 0 <? strlen remaining then
        if strlen remaining <=? maxLength then Some (chunks ++ [remaining])
        else
          let splitIndex := splitIndexOf maxLength remaining in
          splitLoop fuel' maxLength
            (dropLeadingNewline (substringFrom splitIndex remaining))
            (chunks ++ [substringTo splitIndex remaining])
      else Some chunks
  end.

(** [splitMessage(text, maxLength = 4096)]. *)
Definition splitMessage (fuel : nat) (text : string) (maxLength : option Z)
    : option (list string) :=
  let maxLength := default 4096 maxLength in
  if strlen text <=? maxLength then Some [text]
  else splitLoop fuel maxLength text [].

(** [path.basename(p)] on POSIX: the slashes at the end are dropped and what
    follows the last slash left is returned, that is the last segment
    between slashes that is not empty.  [basenameFrom best cur s] reads
    [s], [cur] being the segment under way and [best] the last non-empty
    segment before it. *)
Fixpoint basenameFrom (best cur s : string) : string :=
  match s with
  | EmptyString => if isEmpty cur then best else cur
  | String c s' =>
      if Ascii.eqb c "/" then
        basenameFrom (if isEmpty cur then best else cur) EmptyString s'
      else basenameFrom best (cur +:+ String c EmptyString) s'
  end.

Definition basename (p : string) : string := basenameFrom EmptyString EmptyString p.

(** The class of the regular expression of [sanitizeFileName]: the
    characters [<], [>], [:], the double quote, [/], the backslash, [|],
    [?], [*] and the control characters 0 to 31. *)
Definition forbidden (c : ascii) : bool :=
  (N_of_ascii c <? 32)%N ||
  match c with
  | "<" | ">" | ":" | "034" | "/" | "092" | "|" | "?" | "*" => true
  | _ => false
  end%char.

(** [s.replace(/[...]/g, '_')]. *)
Fixpoint replaceForbidden (s : string) : string :=
  match s with
  | EmptyString => EmptyString
  | String c s' => String (if forbidden c then "_"%char else c) (replaceForbidden s')
  end.

(** [sanitizeFileName(fileName)]. *)
Definition sanitizeFileName (fileName : string) : string :=
  let baseName := trim (replaceForbidden (basename fileName)) in
  if 0 <? strlen baseName then baseName else "file.bin"%string.

End Channels.

(* ===================================================================== *)
(** ** Queue routes of the API server ([src/server/routes/queue.ts])      *)
(* ===================================================================== *)

Module Api.
Import Text Db Plugins.

(** The JSON body of [POST /api/responses], read with the type the handler
    gives it: every field may be absent. *)
Record ResponseBody := mkResponseBody {
  rb_channel : option string;
  rb_sender : option string;
  rb_senderId : option string;
  rb_message : option string;
  rb_agent : option string;
  rb_files : option (list string)
}.

(** What a handler answers: the HTTP status and, for the handlers below,
    the field of the JSON object that matters. *)
Inductive Reply (A : Type) :=
| Ok (value : A)
| Error (status : Z) (error : string).
Arguments Ok {A} value.
Arguments Error {A} status error.

(** [POST /api/responses]: enqueue a proactive outgoing message.  [now0]
    is the clock read of the message id, [random] the six characters
    drawn for it, [now1] the clock read of [enqueueResponse].  The reply
    carries the message id; with it come the database and the line
    logged. *)
Definition postResponse (body : ResponseBody) (now0 : Z) (random : string) (now1 : Z)
    (d : QueueDb) : Reply string * QueueDb * list LogLine :=
  match rb_channel body, rb_sender body, rb_message body with
  | Some (String c0 channel), Some (String c1 sender), Some (String c2 message) =>
      let channel := String c0 channel in
      let sender := String c1 sender in
      let message := String c2 message in
      let messageId := "proactive_" +:+ showZ now0 +:+ "_" +:+ random in
      let files := match rb_files body with
                   | Some (f :: fs) => Some (f :: fs)
                   | _ => None
                   end in
      let (_, d') :=
        enqueueResponse
          (mkEnqueueResponseData channel sender (rb_senderId body) message EmptyString
             messageId (rb_agent body) files None) now1 d in
      (Ok messageId, d',
       [mkLogLine "INFO"
          ("[API] Proactive response enqueued for " +:+ channel +:+ "/" +:+ sender)])
  | _, _, _ => (Error 400 "channel, sender, and message are required", d, [])
  end.

(** One object of the array [GET /api/responses/pending] answers with. *)
Record PendingResponse := mkPendingResponse {
  pr_id : Z;
  pr_channel : string;
  pr_sender : string;
  pr_senderId : option string;
  pr_message : string;
  pr_originalMessage : string;
  pr_messageId : string;
  pr_agent : option string;
  pr_files : option (list string);
  pr_metadata : option (list (string * string))
}.

(** [GET /api/responses/pending?channel=...]. *)
Definition getPending (channel : option string) (d : QueueDb)
    : Reply (list PendingResponse) :=
  match channel with
  | Some (String c channel) =>
      Ok (List.map
            (fun r => mkPendingResponse (r_id r) (r_channel r) (r_sender r) (r_sender_id r)
                        (r_message r) (r_original_message r) (r_message_id r) (r_agent r)
                        (r_files r) (r_metadata r))
            (getResponsesForChannel (String c channel) d))
  | _ => Error 400 "channel query param required"
  end.

End Api.

(* ===================================================================== *)
(** ** The processor at work ([queue-processor.ts], from its start)      *)
(* ===================================================================== *)

(** The queue processor as a whole: the start-up code, the tasks on the
    per-agent promise chains, which give way to one another and to
    everything else wherever [processMessage] awaits, the four maintenance
    timers and the queue routes of the API server, which runs in the same
    process. *)
Module Processor.
Import Text Types Db Plugins Invoke Dispatcher.

(** The [catch] block of [processMessage]. *)
Definition caught (env : Env) (dbMsg : DbMessage) (error : string) : M unit :=
  log "ERROR" ("Processing error: " +:+ error) ;;
  dbFailMessage env (m_id dbMsg) error.

(** The state a callback leaves, whether it returns or throws. *)
Definition after {A} (c : M A) (st : State) : State :=
  match c st with
  | Returned _ st' => st'
  | Thrown _ st' => st'
  end.

(** Where a task that has started waits: for the incoming hooks and the
    agent (between the two it only emits [chain_step_start]), for the
    outgoing hooks of a direct reply, for the conversation lock, or for the
    lock to be released. *)
Inductive Stage :=
| AwaitsAgent (r : Routed)
| AwaitsHooks (r : Routed) (response : string)
| AwaitsLock (convId : string)
| AwaitsRelease.

(** A task that has started: the chain it is on, the row it was given when
    the row was claimed, and where it waits. *)
Record Job := mkJob {
  job_agent : string;
  job_row : DbMessage;
  job_stage : Stage
}.

(** A stretch of the [try] block of [processMessage(dbMsg)] between two
    waits: when it returns, [next] tells where the task waits now, if it
    is not over; when it throws, the [catch] block runs and the task is
    over. *)
Definition attempt {A} (env : Env) (dbMsg : DbMessage) (c : M A)
    (next : A -> option Stage) (st : State) : option Stage * State :=
  match c st with
  | Returned a st' => (next a, st')
  | Thrown error st' => (None, after (caught env dbMsg error) st')
  end.

(** The task starts: from the head of [processMessage] to its first wait. *)
Definition begin (env : Env) (dbMsg : DbMessage) : State -> option Stage * State :=
  attempt env dbMsg (route env dbMsg) (fun r => Some (AwaitsAgent r)).

(** The task gets what it waits for and runs on to its next wait, or to
    its end. *)
Definition resume (env : Env) (dbMsg : DbMessage) (stage : Stage)
    : State -> option Stage * State :=
  match stage with
  | AwaitsAgent r =>
      attempt env dbMsg
        (let* response := invoke env dbMsg r in
         match rd_teamContext r with
         | None => ret (AwaitsHooks r response)
         | Some tc =>
             let* convId := recordStep env dbMsg r tc response in
             ret (AwaitsLock convId)
         end)
        Some
  | AwaitsHooks r response =>
      attempt env dbMsg (replyDirect env dbMsg r response) (fun _ => None)
  | AwaitsLock convId =>
      attempt env dbMsg (finishBranch env convId) (fun _ => Some AwaitsRelease)
  | AwaitsRelease =>
      attempt env dbMsg (dbCompleteMessage env (m_id dbMsg)) (fun _ => None)
  end.

(** A task that nothing comes in between: it is resumed until it is over. *)
Fixpoint finish (env : Env) (dbMsg : DbMessage) (fuel : nat) (point : option Stage * State)
    : State :=
  match point, fuel with
  | (Some stage, st), S fuel' => finish env dbMsg fuel' (resume env dbMsg stage st)
  | (_, st), _ => st
  end.

(** The processor: the state it works on and the tasks that have started
    and are not over, at most one for each agent. *)
Record Processor := mkProcessor {
  state : State;
  running : list Job
}.

(** [agentProcessingChains.get(agentId)] has a task under way. *)
Definition busy (agentId : string) (jobs : list Job) : bool :=
  List.existsb (fun job => String.eqb (job_agent job) agentId) jobs.

(** The oldest task waiting on the chain of [agentId], and the other
    waiting tasks. *)
Fixpoint takeTask (agentId : string) (tasks : list (string * DbMessage))
    : option (DbMessage * list (string * DbMessage)) :=
  match tasks with
  | [] => None
  | (a, dbMsg) :: rest =>
      if String.eqb a agentId then Some (dbMsg, rest)
      else match takeTask agentId rest with
           | Some (found, rest') => Some (found, (a, dbMsg) :: rest')
           | None => None
           end
  end.

(** The task of [agentId] that is under way is resumed. *)
Fixpoint resumeJob (env : Env) (agentId : string) (jobs : list Job) (st : State)
    : list Job * State :=
  match jobs with
  | [] => ([], st)
  | job :: rest =>
      if String.eqb (job_agent job) agentId then
        let (next, st') := resume env (job_row job) (job_stage job) st in
        (match next with
         | Some stage => mkJob (job_agent job) (job_row job) stage :: rest
         | None => rest
         end, st')
      else
        let (rest', st') := resumeJob env agentId rest st in
        (job :: rest', st')
  end.

(** [recoverStaleMessages()] of the store, as the processor calls it. *)
Definition dbRecoverStaleMessages (env : Env) : M Z :=
  let* now0 := Date_now env in
  let* now1 := Date_now env in
  let* st := getState in
  let (count, d') := recoverStaleMessages None now0 now1 (db st) in
  modify (set_db d') ;;
  ret count.

(** The timer of every five minutes. *)
Definition recoverTick (env : Env) : M unit :=
  let* count := dbRecoverStaleMessages env in
  when (0 <? count) (log "INFO" ("Recovered " +:+ showZ count +:+ " stale message(s)")).

(** The timer of every thirty minutes: conversations older than thirty
    minutes are dropped.  The map is gone through in the order of its keys
    here, in the order of insertion in the source. *)
Definition expireConversations (env : Env) : M unit :=
  let* now := Date_now env in
  let cutoff := now - 30 * 60 * 1000 in
  let* st := getState in
  forEach (map_to_list (conversations st)) (fun entry =>
    when (c_startTime (snd entry) <? cutoff)
      (log "WARN" ("Conversation " +:+ fst entry +:+ " timed out after 30 min — cleaning up") ;;
       modify (fun st => set_conversations (delete (fst entry) (conversations st)) st))).

(** The two timers of every hour. *)
Definition pruneAckedTick (env : Env) : M unit :=
  let* now := Date_now env in
  let* st := getState in
  let (pruned, d') := pruneAckedResponses None now (db st) in
  modify (set_db d') ;;
  when (0 <? pruned) (log "INFO" ("Pruned " +:+ showZ pruned +:+ " acked response(s)")).

Definition pruneCompletedTick (env : Env) : M unit :=
  let* now := Date_now env in
  let* st := getState in
  let (pruned, d') := pruneCompletedMessages None now (db st) in
  modify (set_db d') ;;
  when (0 <? pruned) (log "INFO" ("Pruned " +:+ showZ pruned +:+ " completed message(s)")).

(** [POST /api/responses]; [random] is what [Math.random] contributes to
    the message id. *)
Definition postResponse (env : Env) (body : Api.ResponseBody) (random : string) : M unit :=
  let* st := getState in
  let '(reply, d', lines) :=
    Api.postResponse body (clock env (reads st)) random (clock env (S (reads st))) (db st) in
  match reply with
  | Api.Ok _ =>
      modify (fun st => add_logs lines (set_db d' (set_reads (S (S (reads st))) st)))
  | Api.Error _ _ => ret tt
  end.

(** [POST /api/responses/:id/ack]. *)
Definition postAck (env : Env) (id : Z) : M unit :=
  let* now := Date_now env in
  modify (fun st => set_db (ackResponse id now (db st)) st).

(** [POST /api/queue/dead/:id/retry]. *)
Definition postRetry (env : Env) (id : Z) : M unit :=
  let* now := Date_now env in
  let* st := getState in
  let (ok, d') := retryDeadMessage id now (db st) in
  modify (set_db d') ;;
  when ok (log "INFO" ("[API] Dead message " +:+ showZ id +:+ " retried")).

(** [DELETE /api/queue/dead/:id]. *)
Definition deleteDead (env : Env) (id : Z) : M unit :=
  let* st := getState in
  let (ok, d') := deleteDeadMessage id (db st) in
  modify (set_db d') ;;
  when ok (log "INFO" ("[API] Dead message " +:+ showZ id +:+ " deleted")).

(** [logAgentConfig()]. *)
Definition logAgentConfig (env : Env) : M unit :=
  log "INFO" ("Loaded " +:+ showZ (Z.of_nat (List.length (agents env))) +:+ " agent(s):") ;;
  forEach (agents env) (fun entry =>
    log "INFO"
      ("  " +:+ fst entry +:+ ": " +:+ a_name (snd entry) +:+ " ["
       +:+ a_provider (snd entry) +:+ "/" +:+ a_model (snd entry) +:+ "] cwd="
       +:+ a_working_directory (snd entry))) ;;
  when (0 <? Z.of_nat (List.length (teams env)))
    (log "INFO" ("Loaded " +:+ showZ (Z.of_nat (List.length (teams env))) +:+ " team(s):") ;;
     forEach (teams env) (fun entry =>
       log "INFO"
         ("  " +:+ fst entry +:+ ": " +:+ t_name (snd entry) +:+ " [agents: "
          +:+ join ", " (t_agents (snd entry)) +:+ "] leader="
          +:+ t_leader_agent (snd entry)))).

(** The start-up code: the rows a former process left in [processing] for
    more than ten minutes are recovered; [processQueue] is not called. *)
Definition main (env : Env) : M unit :=
  let* recovered := dbRecoverStaleMessages env in
  when (0 <? recovered)
    (log "INFO"
       ("Recovered " +:+ showZ recovered +:+ " stale message(s) from previous session")) ;;
  log "INFO" "Queue processor started (SQLite-backed)" ;;
  logAgentConfig env ;;
  emitEvent "processor_start"
    [("agents"%string, join "," (keys (agents env)));
     ("teams"%string, join "," (keys (teams env)))].

(** What happens in the process once it has started: a message is enqueued
    through the API server, the chain of an agent starts its next task, the
    task of an agent is resumed, a timer fires, a queue route is called. *)
Inductive Activity :=
| Enqueues (data : EnqueueMessageData)
| Starts (agentId : string)
| Resumes (agentId : string)
| Recovers
| ExpiresConversations
| PrunesAcked
| PrunesCompleted
| PostsResponse (body : Api.ResponseBody) (random : string)
| Acks (id : Z)
| RetriesDead (id : Z)
| DeletesDead (id : Z).

Definition perform (env : Env) (p : Processor) (activity : Activity) : Processor :=
  match activity with
  | Enqueues data => mkProcessor (adapterEnqueue env data (state p)) (running p)
  | Starts agentId =>
      if busy agentId (running p) then p
      else
        match takeTask agentId (chained (state p)) with
        | None => p
        | Some (dbMsg, rest) =>
            let (next, st') := begin env dbMsg (set_chained rest (state p)) in
            mkProcessor st'
              (running p ++ match next with
                            | Some stage => [mkJob agentId dbMsg stage]
                            | None => []
                            end)
        end
  | Resumes agentId =>
      let (jobs, st') := resumeJob env agentId (running p) (state p) in
      mkProcessor st' jobs
  | Recovers => mkProcessor (after (recoverTick env) (state p)) (running p)
  | ExpiresConversations => mkProcessor (after (expireConversations env) (state p)) (running p)
  | PrunesAcked => mkProcessor (after (pruneAckedTick env) (state p)) (running p)
  | PrunesCompleted => mkProcessor (after (pruneCompletedTick env) (state p)) (running p)
  | PostsResponse body random =>
      mkProcessor (after (postResponse env body random) (state p)) (running p)
  | Acks id => mkProcessor (after (postAck env id) (state p)) (running p)
  | RetriesDead id => mkProcessor (after (postRetry env id) (state p)) (running p)
  | DeletesDead id => mkProcessor (after (deleteDead env id) (state p)) (running p)
  end.

(** The process opens the database [d0] that is on disk, with the flag
    files [files] in the workspace, and starts. *)
Definition started (env : Env) (d0 : QueueDb) (files : gset string) : Processor :=
  mkProcessor (after (main env) (mkState d0 ∅ files [] [] [] [] 0)) [].

(** A run of the processor from its start. *)
Definition run (env : Env) (d0 : QueueDb) (files : gset string)
    (activities : list Activity) : Processor :=
  foldl (perform env) (started env d0 files) activities.

(** A row that is as the former process left it, in [processing] for at
    most ten minutes when this one started. *)
Definition leftover (env : Env) (d0 : QueueDb) (row : DbMessage) : Prop :=
  In row (messages d0) /\
  stale (clock env 0 - DEFAULT_STALE_THRESHOLD_MS) row = false.

(** Every message row in [processing] has a task, waiting on a chain or
    under way, unless it is a leftover of the former process. *)
Definition tasked (env : Env) (d0 : QueueDb) (p : Processor) : Prop :=
  forall row, In row (messages (db (state p))) -> m_status row = Processing ->
    (exists task, In task (chained (state p)) /\ m_id (snd task) = m_id row) \/
    (exists job, In job (running p) /\ m_id (job_row job) = m_id row) \/
    leftover env d0 row.

End Processor.

(* ===================================================================== *)
(** ** The skill that sends a message to a user ([send_message.ts])       *)
(* ===================================================================== *)

Module Skill.
Import Text Api.

(** The object [parseArgs] fills.  An assignment to the key [__proto__]
    with a string does not create a property. *)
Definition setArg (key value : string) (args : gmap string string) : gmap string string :=
  if String.eqb key "__proto__" then args else <[key := value]> args.

(** [parseArgs(argv)]; [args] is the object filled so far. *)
Fixpoint parseArgsFrom (args : gmap string string) (argv : list string)
    : gmap string string :=
  match argv with
  | [] => args
  | arg :: rest =>
      match Dispatcher.stripPrefix "--" arg, rest with
      | Some key, value :: rest' => parseArgsFrom (setArg key value args) rest'
      | _, _ => parseArgsFrom args rest
      end
  end.

Definition parseArgs (argv : list string) : gmap string string := parseArgsFrom ∅ argv.

(** [s.split(',')]. *)
Fixpoint splitCommas (s : string) : list string :=
  match s with
  | EmptyString => [EmptyString]
  | String c s' =>
      match splitCommas s' with
      | [] => [String c EmptyString]
      | l :: ls => if Ascii.eqb c "," then EmptyString :: l :: ls
                   else String c l :: ls
      end
  end.

(** What [sendMessage] does before it waits for the answer of the server:
    it exits with code 1 after the lines written to [stderr], or posts a
    body to [/api/responses]. *)
Inductive Sent :=
| Exit1 (stderr : list string)
| Post (body : ResponseBody).

Definition validChannels : list string :=
  ["discord"%string; "telegram"%string; "whatsapp"%string].

(** [sendMessage(argv)] up to the [fetch]. *)
Definition sendMessage (argv : list string) : Sent :=
  let args := parseArgs argv in
  let channel := args !! "channel"%string in
  let senderId := args !! "sender-id"%string in
  let sender := args !! "sender"%string in
  let message := args !! "message"%string in
  let agent := args !! "agent"%string in
  let filesRaw := args !! "files"%string in
  (* Validate required args *)
  let missing :=
    (if Dispatcher.truthy channel then [] else ["--channel"%string])
    ++ (if Dispatcher.truthy senderId then [] else ["--sender-id"%string])
    ++ (if Dispatcher.truthy sender then [] else ["--sender"%string])
    ++ (if Dispatcher.truthy message then [] else ["--message"%string]) in
  match missing with
  | _ :: _ =>
      Exit1 [ "Missing required arguments: " +:+ join ", " missing;
              "Usage: send --channel <ch> --sender-id <id> --sender <name> --message <msg>"%string ]
  | [] =>
      if negb (List.existsb (String.eqb (default EmptyString channel)) validChannels) then
        Exit1 [ "Invalid channel " +:+ String "034"%char (default EmptyString channel)
                +:+ String "034"%char ". Must be one of: " +:+ join ", " validChannels ]
      else
        (* Parse optional files *)
        let files :=
          if Dispatcher.truthy filesRaw then
            Some (List.filter (fun f => negb (isEmpty f))
                    (List.map trim (splitCommas (default EmptyString filesRaw))))
          else None in
        Post (mkResponseBody channel sender senderId message
                (if Dispatcher.truthy agent then agent else None)
                (match files with
                 | Some (f :: fs) => Some (f :: fs)
                 | _ => None
                 end))
  end.

End Skill.

(* ===================================================================== *)
(** ** Plugin event handlers ([src/lib/plugins.ts])                       *)
(* ===================================================================== *)

Module PluginEvents.
Import Text Plugins.

(** [interface PluginEvent]: the type, the time stamp and the other
    fields. *)
Record PluginEvent := mkPluginEvent {
  ev_type : string;
  ev_timestamp : Z;
  ev_fields : list (string * string)
}.

(** What a call of a handler does, as far as [broadcastEvent] can tell: it
    returns; it throws a value off which the [catch] block reads [message]
    (for an [Error], its message); or it throws [undefined] or [null], off
    which no property can be read. *)
Inductive Outcome :=
| Returns
| ThrowsMessage (message : string)
| ThrowsNullish.

(** A handler registered by a plugin. *)
Definition Handler : Type := PluginEvent -> Outcome.

(** The map [eventHandlers]. *)
Abbreviation EventHandlers := (gmap string (list Handler)).

(** The method [on(eventType, handler)] of the plugin context. *)
Definition on (eventType : string) (handler : Handler) (eventHandlers : EventHandlers)
    : EventHandlers :=
  let handlers := default [] (eventHandlers !! eventType) in
  <[eventType := handlers ++ [handler]]> eventHandlers.

(** One of the two loops of [broadcastEvent]: the handlers called, in the
    order of the calls, the lines logged under [label], and whether the
    loop was left by an error.  The [catch] block reads [message] off the
    value thrown; on [undefined] and [null] that read throws a [TypeError],
    which nothing in [broadcastEvent] catches. *)
Fixpoint callHandlers (label : string) (handlers : list Handler) (event : PluginEvent)
    : list Handler * list LogLine * bool :=
  match handlers with
  | [] => ([], [], false)
  | handler :: rest =>
      match handler event with
      | Returns =>
          let '(called, logged, threw) := callHandlers label rest event in
          (handler :: called, logged, threw)
      | ThrowsMessage message =>
          let '(called, logged, threw) := callHandlers label rest event in
          (handler :: called, mkLogLine "ERROR" (label +:+ message) :: logged, threw)
      | ThrowsNullish => ([handler], [], true)
      end
  end.

(** [broadcastEvent(event)]: the handlers called, in the order of the
    calls, the lines logged, and whether it threw. *)
Definition broadcastEvent (eventHandlers : EventHandlers) (event : PluginEvent)
    : list Handler * list LogLine * bool :=
  (* Call specific event type handlers *)
  let typeHandlers := default [] (eventHandlers !! ev_type event) in
  let '(called, logged, threw) :=
    callHandlers "Plugin event handler error: " typeHandlers event in
  if threw then (called, logged, true)
  else
    (* Call wildcard handlers *)
    let wildcardHandlers := default [] (eventHandlers !! "*"%string) in
    let '(called', logged', threw') :=
      callHandlers "Plugin wildcard handler error: " wildcardHandlers event in
    (called ++ called', logged ++ logged', threw').

End PluginEvents.

(* ===================================================================== *)
(** ** Sample configurations                                              *)
(* ===================================================================== *)

Module Samples.
Import Text Types Db Plugins Invoke Dispatcher.

(** Modelled from the spec: [extractTeammateMentions] of [lib/routing] is not
    among the sources.  The bracketed form is read: a tag opens with a
    bracket and [@], the slug runs to the colon, the message to the closing
    bracket.  Slugs that are members of the team other than the sender are
    kept, once each, in order of first appearance. *)
Fixpoint spanNotColon (s : string) : string * string :=
  match s with
  | EmptyString => (EmptyString, EmptyString)
  | String c s' =>
      if Ascii.eqb c ":" || Ascii.eqb c "]" || isSpace c then (EmptyString, s)
      else let (w, rest) := spanNotColon s' in (String c w, rest)
  end.

Definition matchMentionTag (s : string) : option (Mention * string) :=
  match stripPrefix "[@" s with
  | Some after =>
      match spanNotColon after with
      | (String c slug, String ":" body) =>
          match spanNotBracket (dropSpaces body) with
          | (text, String _ rest) => Some (mkMention (String c slug) text, rest)
          | _ => None
          end
      | _ => None
      end
  | None => None
  end.

Fixpoint scanMentionTags (fuel : nat) (s : string) : list Mention :=
  match fuel with
  | O => []
  | S fuel' =>
      match matchMentionTag s with
      | Some (m, rest) => m :: scanMentionTags fuel' rest
      | None =>
          match s with
          | EmptyString => []
          | String _ s' => scanMentionTags fuel' s'
          end
      end
  end.

Fixpoint dedupMentions (seen : list string) (l : list Mention) : list Mention :=
  match l with
  | [] => []
  | m :: rest =>
      if List.existsb (String.eqb (teammateId m)) seen then dedupMentions seen rest
      else m :: dedupMentions (teammateId m :: seen) rest
  end.

Definition bracketMentions (response agentId teamId : string)
    (teams : Registry TeamConfig) (agents : Registry AgentConfig) : list Mention :=
  match get teamId teams with
  | None => []
  | Some team =>
      dedupMentions []
        (List.filter
           (fun m => List.existsb (String.eqb (teammateId m)) (t_agents team)
                     && negb (String.eqb (teammateId m) agentId)
                     && match get (teammateId m) agents with
                        | Some _ => true
                        | None => false
                        end)
           (scanMentionTags (String.length response) response))
  end.

(** Modelled from the spec: the team-aware [parseAgentRouting] of
    [lib/routing] is not among the sources.  This stand-in resolves as the
    parser of the file-queue processor does: for a message with several
    targets it returns the agent id ['error'] with the notice, the
    [error_multi] of the routing resolver, and it never resolves to a
    team. *)
Definition legacyRouting (rawMessage : string) (agents : Registry AgentConfig)
    (teams : Registry TeamConfig) : TeamRouting :=
  let r := Routing.parseAgentRouting rawMessage agents in
  mkTeamRouting (Routing.agentId r) (Routing.message r) false.

(** A command line that fails with exit code 1 and a message on [stderr]. *)
Definition failingSpawn : Spawn :=
  fun _ _ _ => Closed (Some 1) EmptyString ("model overloaded" +:+ nl).



(** A command line that prints its last argument back. *)
Definition echoSpawn : Spawn :=
  fun _ args _ => Closed (Some 0) ("echo: " +:+ List.last args EmptyString) EmptyString.

Definition sampleInvokeEnv (spawn : Spawn) : InvokeEnv :=
  mkInvokeEnv "/opt/tinyclaw" spawn
    [ ("sonnet"%string, "claude-sonnet-4-5"%string);
      ("opus"%string, "claude-opus-4-6"%string);
      ("claude-sonnet-4-5"%string, "claude-sonnet-4-5"%string);
      ("claude-opus-4-6"%string, "claude-opus-4-6"%string) ]
    [ ("gpt-5.2"%string, "gpt-5.2"%string);
      ("gpt-5.3-codex"%string, "gpt-5.3-codex"%string) ]
    [ ("sonnet"%string, "opencode/claude-sonnet-4-5"%string);
      ("opus"%string, "opencode/claude-opus-4-6"%string) ]
    (fun _ => None) (fun _ => None).

(** No teams: three agents answering through the given command line. *)
Definition directEnv (spawn : Spawn) : Env :=
  mkEnv (fun k => 1000 + Z.of_nat k) Routing.sample_agents [] "/ws" []
    legacyRouting bracketMentions (fun _ files => files) (fun text files => (text, files))
    (Invoke.invokeAgent (sampleInvokeEnv spawn))
    (fun c => join nl (List.map cs_response (c_responses c)))
    20.

(** A team of three in which every answer hands work to both teammates. *)
Definition trio_agents : Registry AgentConfig :=
  [ ("a"%string, sample_agent "A"); ("b"%string, sample_agent "B");
    ("c"%string, sample_agent "C") ].

Definition trio_teams : Registry TeamConfig :=
  [ ("trio"%string, mkTeamConfig "Trio" ["a"%string; "b"%string; "c"%string] "a") ].

Definition trioReply (agentId : string) : string :=
  if String.eqb agentId "a" then "[@b: your turn] [@c: your turn]"
  else if String.eqb agentId "b" then "[@a: your turn] [@c: your turn]"
  else "[@a: your turn] [@b: your turn]".

Definition trioEnv : Env :=
  mkEnv (fun k => 1000 + Z.of_nat k) trio_agents trio_teams "/ws" []
    legacyRouting bracketMentions (fun _ files => files) (fun text files => (text, files))
    (fun _ agentId _ _ _ => Resolved (trioReply agentId))
    (fun c => join nl (List.map cs_response (c_responses c)))
    20.

Definition sample_request (text : string) : EnqueueMessageData :=
  mkEnqueueMessageData "telegram" "Alice" None text "m1" None None None None.

(** The row of [sample_request] once the store has claimed it for [agent]. *)
Definition claimed_request (text agent : string) : DbMessage :=
  mkDbMessage 1 "m1" "telegram" "Alice" None text None None None None
    Processing 0 None 1000 1000 (Some agent).

(** A conversation of the trio capped at two messages, after the leader's
    answer, and the internal message that carries the hand-over to [b]. *)
Definition trio_context : TeamContext :=
  mkTeamContext "trio" (mkTeamConfig "Trio" ["a"%string; "b"%string; "c"%string] "a").

Definition capped_conversation : Conversation :=
  mkConversation "m1_1002" "telegram" "Alice" "@a ship it" "m1" 2
    [mkChainStep "a" (trioReply "a")] [] 1 2 trio_context 1003 {[ "a"%string := 2 ]}.

Definition capped_state : State :=
  mkState emptyDb {[ "m1_1002"%string := capped_conversation ]} ∅ [] [] [] [] 0.

Definition handover_row : DbMessage :=
  mkDbMessage 2 "internal_m1_1002_b_1004_1" "telegram" "Alice" None
    ("[Message from teammate @a]:" +:+ nl +:+ "your turn") (Some "b"%string) None
    (Some "m1_1002"%string) (Some "a"%string) Processing 0 None 1004 1004 (Some "b"%string).

Definition routed_b : Routed :=
  mkRouted "b" (sample_agent "B") (m_message handover_row) (Some trio_context) false.


(** A file queue with one incoming message that names two teams, and an
    agent part that records the command line it would run. *)
Definition two_team_file : FileQueue.MessageData :=
  FileQueue.mkMessageData "telegram" "Alice" None "@coder @writer please coordinate"
    1000 "m1" None None.

Definition sample_queue : FileQueue.Queue :=
  FileQueue.mkQueue [("m1.json"%string, two_team_file)] [] [] [] [].

Definition recordingAnswer : FileQueue.Answer :=
  fun q _ _ agentId message =>
    FileQueue.mkQueue (FileQueue.incoming q) (FileQueue.processing q) (FileQueue.outgoing q)
      (FileQueue.qlog q)
      (FileQueue.commands q ++ [("claude"%string, ["-p"%string; message])]).

(** Plugins: one that shouts, one that tags the text and sets metadata,
    one that always throws. *)
Definition shout : LoadedPlugin :=
  mkLoadedPlugin "shout"
    (Some (mkHooks (Some (fun text _ => ReturnsText (text +:+ "!"))) None)).

Definition tagger (mode : string) : LoadedPlugin :=
  mkLoadedPlugin "tagger"
    (Some (mkHooks
             (Some (fun text _ =>
                      ReturnsResult (mkHookResult ("<" +:+ text +:+ ">")
                                       {[ "parseMode"%string := mode ]})))
             None)).

Definition broken : LoadedPlugin :=
  mkLoadedPlugin "broken"
    (Some (mkHooks (Some (fun _ _ => Throws "boom")) (Some (fun _ _ => Throws "boom")))).

(** A plugin whose transforms throw [undefined]. *)
Definition void : HookRunner.LoadedPlugin :=
  HookRunner.mkLoadedPlugin "void"
    (Some (HookRunner.mkHooks (Some (fun _ _ => HookRunner.ThrowsNullish))
             (Some (fun _ _ => HookRunner.ThrowsNullish)))).

Definition sample_ctx : HookContext := mkHookContext "telegram" "Alice" "m1" "ping".

End Samples.

(* ===================================================================== *)
(** * Properties                                                          *)
(* ===================================================================== *)

#[local] Arguments Text.isSpace : simpl never.
#[local] Arguments Text.toLowerChar : simpl never.

(** ** Queue store: auxiliary facts *)

Section DbFacts.
Import Db.

Lemma MsgStatus_eqb_eq (a b : MsgStatus) : MsgStatus_eqb a b = true <-> a = b.
Proof. destruct a, b; simpl; split; congruence. Qed.

Lemma oldest_In (rows : list DbMessage) (r : DbMessage) :
  oldest rows = Some r -> In r rows.
Proof.
  revert r. induction rows as [|x rows IH]; simpl; intros r H; [discriminate|].
  destruct (oldest rows) as [r'|] eqn:E.
  - destruct (m_created_at r' <? m_created_at x); inversion H; subst; auto.
  - inversion H; auto.
Qed.

Lemma oldest_least (rows : list DbMessage) (r : DbMessage) :
  oldest rows = Some r ->
  forall r', In r' rows -> m_created_at r <= m_created_at r'.
Proof.
  revert r. induction rows as [|x rows IH]; simpl; intros r H r' Hin; [tauto|].
  destruct (oldest rows) as [o|] eqn:E.
  - specialize (IH o eq_refl).
    destruct (Z.ltb_spec (m_created_at o) (m_created_at x));
      inversion H; subst; destruct Hin as [<-|Hin]; try lia;
      specialize (IH _ Hin); lia.
  - destruct rows; [|simpl in E; destruct (oldest rows); [destruct (_ <? _)|]; discriminate].
    inversion H; subst. destruct Hin as [<-|[]]. lia.
Qed.

Lemma oldest_None (rows : list DbMessage) : oldest rows = None -> rows = [].
Proof.
  destruct rows as [|x rows]; simpl; [reflexivity|].
  destruct (oldest rows); [destruct (_ <? _)|]; discriminate.
Qed.

Lemma find_id_unique (rows : list DbMessage) (r : DbMessage) :
  NoDup (List.map m_id rows) -> In r rows ->
  List.find (fun x => m_id x =? m_id r) rows = Some r.
Proof.
  induction rows as [|x rows IH]; simpl; intros Hnd Hin; [tauto|].
  apply NoDup_cons in Hnd as [Hx Hnd].
  destruct Hin as [->|Hin].
  - now rewrite Z.eqb_refl.
  - destruct (Z.eqb_spec (m_id x) (m_id r)) as [e|_]; [|auto].
    exfalso. apply Hx. rewrite e. apply list_elem_of_In, in_map, Hin.
Qed.

Lemma find_update_same (k : Z) (f : DbMessage -> DbMessage) (rows : list DbMessage) :
  (forall r, m_id (f r) = m_id r) ->
  List.find (fun x => m_id x =? k) (update_where (fun x => m_id x =? k) f rows)
  = f <$> List.find (fun x => m_id x =? k) rows.
Proof.
  intros Hf. induction rows as [|x rows IH]; simpl; [reflexivity|].
  destruct (Z.eqb_spec (m_id x) k) as [e|ne]; simpl.
  - rewrite Hf. destruct (Z.eqb_spec (m_id x) k); [reflexivity|contradiction].
  - destruct (Z.eqb_spec (m_id x) k); [contradiction|exact IH].
Qed.

Lemma find_update_other (k j : Z) (f : DbMessage -> DbMessage) (rows : list DbMessage) :
  j <> k -> (forall r, m_id (f r) = m_id r) ->
  List.find (fun x => m_id x =? j) (update_where (fun x => m_id x =? k) f rows)
  = List.find (fun x => m_id x =? j) rows.
Proof.
  intros Hne Hf. induction rows as [|x rows IH]; simpl; [reflexivity|].
  destruct (Z.eqb_spec (m_id x) k) as [e|ne]; simpl.
  - rewrite Hf. destruct (Z.eqb_spec (m_id x) j); [lia|exact IH].
  - destruct (Z.eqb_spec (m_id x) j); [reflexivity|exact IH].
Qed.

Lemma find_Some_In {A} (p : A -> bool) (l : list A) (x : A) :
  List.find p l = Some x -> In x l /\ p x = true.
Proof. apply List.find_some. Qed.

Lemma update_where_length {A} (c : A -> bool) (f : A -> A) (rows : list A) :
  List.length (update_where c f rows) = List.length rows.
Proof. unfold update_where. apply List.length_map. Qed.

Lemma update_where_ids (c : DbMessage -> bool) (f : DbMessage -> DbMessage)
    (rows : list DbMessage) :
  (forall r, m_id (f r) = m_id r) ->
  List.map m_id (update_where c f rows) = List.map m_id rows.
Proof.
  intros Hf. unfold update_where. rewrite List.map_map.
  apply List.map_ext. intros r. destruct (c r); auto.
Qed.

Lemma update_where_Forall {A} (P : A -> Prop) (c : A -> bool) (f : A -> A)
    (rows : list A) :
  (forall r, P r -> c r = true -> P (f r)) ->
  Forall P rows -> Forall P (update_where c f rows).
Proof.
  intros Hf H. unfold update_where. induction H as [|x rows Hx _ IH]; simpl;
    constructor; auto.
  destruct (c x) eqn:E; auto.
Qed.

Lemma update_where_keys_ok (c : DbMessage -> bool) (f : DbMessage -> DbMessage)
    (d : QueueDb) :
  (forall r, m_id (f r) = m_id r) ->
  keys_ok d -> keys_ok (with_messages d (update_where c f (messages d))).
Proof.
  intros Hf [Hnd Hle]. split; simpl.
  - now rewrite update_where_ids.
  - apply update_where_Forall; [|exact Hle]. intros r Hr _. now rewrite Hf.
Qed.

Lemma message_row_unique (d : QueueDb) (r : DbMessage) :
  keys_ok d -> In r (messages d) -> message_row (m_id r) d = Some r.
Proof. intros [Hnd _] Hin. now apply find_id_unique. Qed.

End DbFacts.

(** ** Claiming *)

Section Claim.
Import Db.

Lemma claimable_spec (A : string) (r : DbMessage) :
  claimable A r = true <->
  m_status r = Pending /\
  (m_agent r = Some A \/ (m_agent r = None /\ A = "default"%string)).
Proof.
  unfold claimable. rewrite andb_true_iff, MsgStatus_eqb_eq.
  destruct (m_agent r) as [a|]; rewrite String.eqb_eq; split.
  - intros [? ->]; auto.
  - intros [? [[= ->]|[[=] _]]]; auto.
  - intros [? ->]; auto.
  - intros [? [[=]|[_ ->]]]; auto.
Qed.

(** The row a claim returns carries the key of a row that was pending. *)
Lemma claim_returns_pending (A : string) (now : Z) (d : QueueDb) (got : DbMessage) :
  fst (claimNextMessage A now d) = Some got ->
  exists row, In row (messages d) /\ m_status row = Pending /\ m_id got = m_id row.
Proof.
  unfold claimNextMessage.
  destruct (oldest (List.filter (claimable A) (messages d))) as [row|] eqn:E;
    simpl; [|discriminate].
  intros [= <-]. exists row.
  pose proof (oldest_In _ _ E) as Hin. apply List.filter_In in Hin as [Hin Hc].
  apply claimable_spec in Hc as [Hs _]. auto.
Qed.

(** C1.  [claimNextMessage(A)] either finds no pending row addressed to [A]
    (agent column equal to [A], or NULL when [A] is ['default']), returns
    null and leaves the database as it is; or it selects such a row of
    least [created_at], stores status ['processing'], [claimed_by = A] and
    [updated_at = now] in it, leaves every other row alone, and returns
    that row marked ['processing'] and claimed by [A].  The row returned
    was pending before the call, so a processing, completed or dead row is
    never returned. *)
Theorem claimNextMessage_spec (A : string) (now : Z) (d : QueueDb) :
  keys_ok d ->
  match claimNextMessage A now d with
  | (None, d') =>
      d' = d /\
      forall r, In r (messages d) ->
        ~ (m_status r = Pending /\
           (m_agent r = Some A \/ (m_agent r = None /\ A = "default"%string)))
  | (Some got, d') =>
      exists row,
        In row (messages d) /\
        m_status row = Pending /\
        (m_agent row = Some A \/ (m_agent row = None /\ A = "default"%string)) /\
        (forall r, In r (messages d) -> m_status r = Pending ->
           (m_agent r = Some A \/ (m_agent r = None /\ A = "default"%string)) ->
           m_created_at row <= m_created_at r) /\
        m_id got = m_id row /\ m_message_id got = m_message_id row /\
        m_message got = m_message row /\ m_agent got = m_agent row /\
        m_created_at got = m_created_at row /\
        m_status got = Processing /\ m_claimed_by got = Some A /\
        (exists stored,
           message_row (m_id row) d' = Some stored /\
           m_status stored = Processing /\ m_claimed_by stored = Some A /\
           m_updated_at stored = now /\
           m_message_id stored = m_message_id row /\
           m_message stored = m_message row /\ m_agent stored = m_agent row /\
           m_retry_count stored = m_retry_count row /\
           m_created_at stored = m_created_at row) /\
        (forall k, k <> m_id row -> message_row k d' = message_row k d) /\
        List.length (messages d') = List.length (messages d)
  end.
Proof.
  intros [Hnd _]. unfold claimNextMessage.
  destruct (oldest (List.filter (claimable A) (messages d))) as [row|] eqn:E.
  - pose proof (oldest_In _ _ E) as Hin.
    apply List.filter_In in Hin as [Hin Hc].
    apply claimable_spec in Hc as [Hst Hag].
    exists row. repeat split; auto.
    + intros r Hr Hs Ha. apply (oldest_least _ _ E).
      apply List.filter_In. split; [exact Hr|]. apply claimable_spec; auto.
    + exists (set_claim A now row). repeat split; auto.
      unfold message_row, with_messages; simpl.
      rewrite find_update_same by reflexivity.
      now rewrite (find_id_unique _ _ Hnd Hin).
    + intros k Hk. unfold message_row, with_messages; simpl.
      now apply find_update_other.
    + simpl. apply update_where_length.
  - split; [reflexivity|]. intros r Hr Hc.
    apply oldest_None in E.
    assert (Hf : In r (List.filter (claimable A) (messages d))).
    { apply List.filter_In. split; [exact Hr|]. now apply claimable_spec. }
    rewrite E in Hf. destruct Hf.
Qed.

End Claim.

Section ClaimWitness.
Import Db.

Lemma sample_db_keys_ok : keys_ok sample_db.
Proof.
  split.
  - apply NoDup_ListNoDup. repeat constructor; simpl; intuition lia.
  - repeat constructor; simpl; lia.
Defined.

Lemma claimNextMessage_spec_witness :
  keys_ok sample_db /\
  exists got d',
    claimNextMessage "coder" 100 sample_db = (Some got, d') /\
    m_id got = 4 /\ m_status got = Processing /\
    m_claimed_by got = Some "coder"%string.
Proof.
  split; [exact sample_db_keys_ok|].
  pose proof (claimNextMessage_spec "coder" 100 sample_db sample_db_keys_ok) as H.
  destruct (claimNextMessage "coder" 100 sample_db) as [[got|] d'] eqn:E.
  - exists got, d'. split; [reflexivity|].
    destruct H as (row & _ & _ & _ & _ & _ & _ & _ & _ & _ & Hst & Hcl & _).
    split; [|split; assumption].
    vm_compute in E. inversion E. reflexivity.
  - vm_compute in E. discriminate E.
Defined.

End ClaimWitness.

(** ** Failing and dead-lettering *)

Section Fail.
Import Db.

Lemma failMessage_row (rowId : Z) (e : string) (now : Z) (d : QueueDb) (r : DbMessage) :
  message_row rowId d = Some r ->
  message_row rowId (failMessage rowId e now d)
  = Some (set_failed (if MAX_RETRIES <=? m_retry_count r + 1 then Dead else Pending)
            (m_retry_count r + 1) e now r).
Proof.
  unfold message_row, failMessage. intros H. rewrite H. simpl.
  rewrite find_update_same by reflexivity. now rewrite H.
Qed.

Lemma failMessage_other (rowId k : Z) (e : string) (now : Z) (d : QueueDb) :
  k <> rowId -> message_row k (failMessage rowId e now d) = message_row k d.
Proof.
  unfold message_row, failMessage. intros H.
  destruct (List.find _ (messages d)); [|reflexivity]. simpl.
  now apply find_update_other.
Qed.

Lemma claim_keys_ok (A : string) (now : Z) (d : QueueDb) :
  keys_ok d -> keys_ok (snd (claimNextMessage A now d)).
Proof.
  intros H. unfold claimNextMessage.
  destruct (oldest _) as [row|]; simpl; [|exact H].
  now apply update_where_keys_ok.
Qed.

Lemma fail_keys_ok (k : Z) (e : string) (now : Z) (d : QueueDb) :
  keys_ok d -> keys_ok (failMessage k e now d).
Proof.
  intros H. unfold failMessage.
  destruct (List.find _ _); [|exact H].
  now apply update_where_keys_ok.
Qed.

Lemma claim_row_cases (A : string) (now k : Z) (d : QueueDb) :
  keys_ok d ->
  message_row k (snd (claimNextMessage A now d)) = message_row k d \/
  exists r, message_row k d = Some r /\ m_status r = Pending /\
            message_row k (snd (claimNextMessage A now d)) = Some (set_claim A now r).
Proof.
  intros Hk. unfold claimNextMessage.
  destruct (oldest (List.filter (claimable A) (messages d))) as [row|] eqn:E;
    [|left; reflexivity].
  simpl.
  pose proof (oldest_In _ _ E) as Hin. apply List.filter_In in Hin as [Hin Hc].
  apply claimable_spec in Hc as [Hs _].
  destruct (Z.eq_dec k (m_id row)) as [->|ne].
  - right. exists row. split; [now apply message_row_unique|]. split; [exact Hs|].
    unfold message_row; simpl. rewrite find_update_same by reflexivity.
    fold (message_row (m_id row) d). now rewrite message_row_unique.
  - left. unfold message_row; simpl. now apply find_update_other.
Qed.

Lemma set_failed_exhausted (e : string) (now : Z) (r : DbMessage) :
  exhausted_dead
    (set_failed (if MAX_RETRIES <=? m_retry_count r + 1 then Dead else Pending)
       (m_retry_count r + 1) e now r).
Proof.
  unfold exhausted_dead; simpl.
  destruct (Z.leb_spec MAX_RETRIES (m_retry_count r + 1)); [reflexivity|lia].
Qed.

(** Along a history of claims and failures the retry counter of a row
    counts the failures of that row, and [exhausted_dead] is stable. *)
Lemma run_ops_stable (k : Z) (ops : list QueueOp) (d : QueueDb) (r : DbMessage) :
  keys_ok d -> message_row k d = Some r -> exhausted_dead r ->
  keys_ok (run_ops ops d) /\
  exists r', message_row k (run_ops ops d) = Some r' /\
    m_retry_count r' = m_retry_count r + failures_of k ops /\
    exhausted_dead r'.
Proof.
  revert d r. unfold run_ops, failures_of.
  induction ops as [|op ops IH]; intros d r Hk Hr Hq; simpl.
  - split; [exact Hk|]. exists r. repeat split; auto; lia.
  - destruct op as [A now|j e now]; simpl.
    + destruct (claim_row_cases A now k d Hk) as [Hsame|(r0 & H0 & Hp & Hnew)].
      * rewrite Hr in Hsame.
        exact (IH _ r (claim_keys_ok A now d Hk) Hsame Hq).
      * rewrite Hr in H0. inversion H0; subst r0.
        assert (Hq' : exhausted_dead (set_claim A now r)).
        { unfold exhausted_dead in *; simpl. intros Hge.
          specialize (Hq Hge). congruence. }
        exact (IH _ _ (claim_keys_ok A now d Hk) Hnew Hq').
    + destruct (Z.eqb_spec j k) as [->|ne].
      * pose proof (failMessage_row k e now d r Hr) as Hnew.
        destruct (IH _ _ (fail_keys_ok k e now d Hk) Hnew (set_failed_exhausted e now r))
          as (Hk' & r' & Hf & Hc & Hdd).
        split; [exact Hk'|]. exists r'. split; [exact Hf|].
        simpl in Hc. simpl List.length. split; [lia|exact Hdd].
      * rewrite <- (failMessage_other j k e now d) in Hr by auto.
        exact (IH _ r (fail_keys_ok j e now d Hk) Hr Hq).
Qed.

Lemma run_ops_failed (k : Z) (ops : list QueueOp) (d : QueueDb) (r : DbMessage) :
  keys_ok d -> message_row k d = Some r ->
  keys_ok (run_ops ops d) /\
  exists r', message_row k (run_ops ops d) = Some r' /\
    m_retry_count r' = m_retry_count r + failures_of k ops /\
    (0 < failures_of k ops -> exhausted_dead r').
Proof.
  revert d r.
  induction ops as [|op ops IH]; intros d r Hk Hr.
  - split; [exact Hk|]. exists r. unfold failures_of; simpl.
    repeat split; auto; lia.
  - change (run_ops (op :: ops) d) with (run_ops ops (run_op op d)).
    destruct op as [A now|j e now]; simpl run_op.
    + change (failures_of k (OpClaim A now :: ops)) with (failures_of k ops).
      destruct (claim_row_cases A now k d Hk) as [Hsame|(r0 & H0 & Hp & Hnew)].
      * rewrite Hr in Hsame.
        exact (IH _ r (claim_keys_ok A now d Hk) Hsame).
      * rewrite Hr in H0. inversion H0; subst r0.
        exact (IH _ _ (claim_keys_ok A now d Hk) Hnew).
    + destruct (Z.eqb_spec j k) as [->|ne].
      * pose proof (failMessage_row k e now d r Hr) as Hnew.
        destruct (run_ops_stable k ops _ _ (fail_keys_ok k e now d Hk) Hnew
                    (set_failed_exhausted e now r)) as (Hk' & r' & Hf & Hc & Hdd).
        split; [exact Hk'|]. exists r'. split; [exact Hf|].
        simpl in Hc. split; [|intros _; exact Hdd].
        unfold failures_of in *; simpl. rewrite Z.eqb_refl. simpl List.length. lia.
      * assert (Hcnt : failures_of k (OpFail j e now :: ops) = failures_of k ops).
        { unfold failures_of; simpl. destruct (Z.eqb_spec j k); [contradiction|reflexivity]. }
        rewrite Hcnt.
        rewrite <- (failMessage_other j k e now d) in Hr by auto.
        exact (IH _ r (fail_keys_ok j e now d Hk) Hr).
Qed.

(** C2.  [failMessage] on an existing row adds one to its [retry_count];
    the row becomes ['dead'] when the new count is at least [MAX_RETRIES]
    (5) and otherwise ['pending'] with [claimed_by] NULL.  Hence, in any
    history of claims and failures that fails the row [MAX_RETRIES] times
    or more, the row ends up ['dead'] and no [claimNextMessage] returns
    it. *)
Theorem failMessage_dead_letter (k : Z) (e : string) (now : Z) (d : QueueDb)
    (r : DbMessage) (ops : list QueueOp) :
  keys_ok d -> message_row k d = Some r -> 0 <= m_retry_count r ->
  MAX_RETRIES = 5 /\
  (exists r1, message_row k (failMessage k e now d) = Some r1 /\
     m_retry_count r1 = m_retry_count r + 1 /\
     (MAX_RETRIES <= m_retry_count r + 1 -> m_status r1 = Dead) /\
     (m_retry_count r + 1 < MAX_RETRIES ->
        m_status r1 = Pending /\ m_claimed_by r1 = None)) /\
  (MAX_RETRIES <= failures_of k ops ->
     (exists r', message_row k (run_ops ops d) = Some r' /\ m_status r' = Dead) /\
     (forall A t got,
        fst (claimNextMessage A t (run_ops ops d)) = Some got -> m_id got <> k)).
Proof.
  intros Hk Hr Hc. split; [reflexivity|]. split.
  - eexists. split; [apply failMessage_row, Hr|]. simpl.
    split; [reflexivity|].
    destruct (Z.leb_spec MAX_RETRIES (m_retry_count r + 1)); split; auto; lia.
  - intros Hn.
    destruct (run_ops_failed k ops d r Hk Hr) as (Hk' & r' & Hrow & Hcnt & Hq).
    assert (Hdead : m_status r' = Dead).
    { apply Hq; unfold MAX_RETRIES in *; lia. }
    split; [exists r'; auto|].
    intros A t got Hgot Hid.
    destruct (claim_returns_pending A t _ got Hgot) as (row & Hin & Hp & Hi).
    rewrite Hid in Hi.
    pose proof (message_row_unique _ _ Hk' Hin) as Hu.
    rewrite <- Hi, Hrow in Hu. inversion Hu; subst row. congruence.
Qed.

End Fail.

Section FailWitness.
Import Db.

Lemma failMessage_dead_letter_witness :
  (exists r', message_row 4 (run_ops sample_history sample_db) = Some r' /\
              m_status r' = Dead) /\
  m_id <$> fst (claimNextMessage "coder" 200 (run_ops sample_history sample_db))
  = Some 2.
Proof.
  assert (Hrow : message_row 4 sample_db
                 = Some (sample_message 4 "four" (Some "coder"%string) Pending 0 35 35 None))
    by reflexivity.
  assert (Hcnt : 0 <= m_retry_count
                   (sample_message 4 "four" (Some "coder"%string) Pending 0 35 35 None))
    by (simpl; lia).
  destruct (failMessage_dead_letter 4 "boom" 100 sample_db _ sample_history
              sample_db_keys_ok Hrow Hcnt) as (_ & _ & H).
  assert (Hn : MAX_RETRIES <= failures_of 4 sample_history) by (vm_compute; discriminate).
  destruct (H Hn) as [Hdead _].
  split; [exact Hdead|]. vm_compute. reflexivity.
Defined.

End FailWitness.

(** ** Acknowledging responses *)

Section Ack.
Import Db.

Lemma find_ack_same (k now : Z) (rows : list DbResponse) :
  List.find (fun x => r_id x =? k) (update_where (fun x => r_id x =? k) (set_acked now) rows)
  = set_acked now <$> List.find (fun x => r_id x =? k) rows.
Proof.
  induction rows as [|x rows IH]; simpl; [reflexivity|].
  destruct (Z.eqb_spec (r_id x) k) as [e|ne]; simpl.
  - destruct (Z.eqb_spec (r_id x) k); [reflexivity|contradiction].
  - destruct (Z.eqb_spec (r_id x) k); [contradiction|exact IH].
Qed.

Lemma find_ack_other (k j now : Z) (rows : list DbResponse) :
  j <> k ->
  List.find (fun x => r_id x =? j) (update_where (fun x => r_id x =? k) (set_acked now) rows)
  = List.find (fun x => r_id x =? j) rows.
Proof.
  intros Hj. induction rows as [|x rows IH]; simpl; [reflexivity|].
  destruct (Z.eqb_spec (r_id x) k) as [e|ne]; simpl.
  - destruct (Z.eqb_spec (r_id x) j) as [e'|_]; [congruence|exact IH].
  - destruct (Z.eqb_spec (r_id x) j); [reflexivity|exact IH].
Qed.

Lemma ack_ack (k t1 t2 : Z) (rows : list DbResponse) :
  update_where (fun x => r_id x =? k) (set_acked t2)
    (update_where (fun x => r_id x =? k) (set_acked t1) rows)
  = update_where (fun x => r_id x =? k) (set_acked t2) rows.
Proof.
  unfold update_where. rewrite List.map_map. apply List.map_ext. intros r.
  destruct (r_id r =? k) eqn:E; simpl; rewrite E; reflexivity.
Qed.

(** C3, as stated, fails: a second acknowledgement stores its own clock
    read in [acked_at].  Response 1 of [sample_db] acked at time 100 and
    again at time 200 carries [acked_at = 200]. *)
Lemma ackResponse_twice_counterexample :
  let d1 := ackResponse 1 100 sample_db in
  let d2 := ackResponse 1 200 d1 in
  r_status <$> response_row 1 d1 = Some RAcked /\
  r_acked_at <$> response_row 1 d1 = Some (Some 100) /\
  r_status <$> response_row 1 d2 = Some RAcked /\
  r_acked_at <$> response_row 1 d2 = Some (Some 200) /\
  r_acked_at <$> response_row 1 d2 <> r_acked_at <$> response_row 1 d1.
Proof. vm_compute. repeat split; discriminate. Qed.

(** C3, amended.  [ackResponse] sets status ['acked'] and [acked_at] to the
    time of the call, whatever the row's status was.  After a second call
    the status is still ['acked'], every other column of the row is as it
    was before the first call, and [acked_at] is the time of the second
    call: the second call changes nothing exactly when both calls read the
    same clock value.  No other response row and no message row changes. *)
Theorem ackResponse_overwrites (k t1 t2 : Z) (d : QueueDb) (r : DbResponse) :
  response_row k d = Some r ->
  let d1 := ackResponse k t1 d in
  let d2 := ackResponse k t2 d1 in
  response_row k d1
  = Some (mkDbResponse (r_id r) (r_message_id r) (r_channel r) (r_sender r) (r_sender_id r)
            (r_message r) (r_original_message r) (r_agent r) (r_files r) (r_metadata r)
            RAcked (r_created_at r) (Some t1)) /\
  response_row k d2
  = Some (mkDbResponse (r_id r) (r_message_id r) (r_channel r) (r_sender r) (r_sender_id r)
            (r_message r) (r_original_message r) (r_agent r) (r_files r) (r_metadata r)
            RAcked (r_created_at r) (Some t2)) /\
  (forall j, j <> k -> response_row j d2 = response_row j d) /\
  messages d2 = messages d /\
  d2 = ackResponse k t2 d /\
  (t2 = t1 <-> d2 = d1).
Proof.
  intros Hr d1 d2. subst d1 d2. unfold response_row, ackResponse in *; simpl.
  rewrite ack_ack, !find_ack_same, Hr. simpl.
  split; [reflexivity|]. split; [reflexivity|].
  split; [intros j Hj; apply find_ack_other; exact Hj|].
  split; [reflexivity|]. split; [reflexivity|].
  split; [intros ->; reflexivity|].
  intros E.
  assert (F : List.find (fun x => r_id x =? k)
                (update_where (fun x => r_id x =? k) (set_acked t2) (responses d))
              = List.find (fun x => r_id x =? k)
                  (update_where (fun x => r_id x =? k) (set_acked t1) (responses d)))
    by (injection E as E; now rewrite E).
  rewrite !find_ack_same, Hr in F. simpl in F. now injection F.
Qed.

Lemma ackResponse_overwrites_witness :
  response_row 1 sample_db = Some (sample_response 1 "pong" 50) /\
  response_row 1 (ackResponse 1 200 (ackResponse 1 100 sample_db))
  = Some (mkDbResponse 1 "m1" "telegram" "Alice" None "pong" "ping" (Some "assistant"%string)
            None None RAcked 50 (Some 200)) /\
  ackResponse 1 200 (ackResponse 1 100 sample_db) = ackResponse 1 200 sample_db.
Proof.
  split; [reflexivity|].
  pose proof (ackResponse_overwrites 1 100 200 sample_db _ eq_refl) as H.
  split; [exact (proj1 (proj2 H))|].
  exact (proj1 (proj2 (proj2 (proj2 (proj2 H))))).
Defined.

End Ack.

(** ** Stale-claim recovery *)

Section Recover.
Import Db.

Lemma stale_spec (cutoff : Z) (r : DbMessage) :
  stale cutoff r = true <-> m_status r = Processing /\ m_updated_at r < cutoff.
Proof.
  unfold stale. now rewrite andb_true_iff, MsgStatus_eqb_eq, Z.ltb_lt.
Qed.

Lemma filter_stale_length (cutoff : Z) (rows : list DbMessage) :
  List.length (List.filter (stale cutoff) rows)
  = length (filter (fun r => m_status r = Processing /\ m_updated_at r < cutoff) rows).
Proof.
  induction rows as [|x rows IH]; [reflexivity|].
  rewrite filter_cons. simpl.
  destruct (stale cutoff x) eqn:E.
  - rewrite decide_True by now apply stale_spec. simpl. now rewrite IH.
  - rewrite decide_False; [exact IH|].
    intros H. apply stale_spec in H. congruence.
Qed.

(** C4.  [recoverStaleMessages(threshold)] rewrites exactly the rows with
    status ['processing'] and [updated_at < now - threshold]: they become
    ['pending'] with [claimed_by] NULL (and a fresh [updated_at]); every
    other row, a processing row within the threshold included, is left as
    it is.  The result is the number of rows rewritten, and the default
    threshold is ten minutes. *)
Theorem recoverStaleMessages_spec (threshold now0 now1 : Z) (d : QueueDb) :
  let cutoff := now0 - threshold in
  let is_stale := fun r => m_status r = Processing /\ m_updated_at r < cutoff in
  let res := recoverStaleMessages (Some threshold) now0 now1 d in
  fst res = Z.of_nat (length (filter is_stale (messages d))) /\
  length (messages (snd res)) = length (messages d) /\
  responses (snd res) = responses d /\
  (forall (i : nat) (r : DbMessage), messages d !! i = Some r ->
     (is_stale r ->
        exists r', messages (snd res) !! i = Some r' /\
          m_status r' = Pending /\ m_claimed_by r' = None /\ m_updated_at r' = now1 /\
          m_id r' = m_id r /\ m_message_id r' = m_message_id r /\
          m_message r' = m_message r /\ m_agent r' = m_agent r /\
          m_retry_count r' = m_retry_count r /\ m_created_at r' = m_created_at r) /\
     (~ is_stale r -> messages (snd res) !! i = Some r)) /\
  recoverStaleMessages None now0 now1 d
  = recoverStaleMessages (Some (10 * 60 * 1000)) now0 now1 d.
Proof.
  intros cutoff is_stale res. subst res. unfold recoverStaleMessages; simpl.
  fold cutoff.
  split; [unfold changes; now rewrite filter_stale_length|].
  split; [apply update_where_length|].
  split; [reflexivity|].
  split; [|reflexivity].
  intros i r Hi. unfold update_where.
  change (List.map ?f ?l) with (f <$> l).
  rewrite list_lookup_fmap, Hi. simpl.
  split.
  - intros Hs. rewrite (proj2 (stale_spec cutoff r) Hs).
    eexists. repeat split.
  - intros Hn. destruct (stale cutoff r) eqn:E; [|reflexivity].
    apply stale_spec in E. contradiction.
Qed.

End Recover.

(** ** Row invariants *)

Section Invariants.
Import Db.

Lemma update_where_inv (c : DbMessage -> bool) (f : DbMessage -> DbMessage)
    (d : QueueDb) :
  (forall r, c r = true -> row_inv (f r)) ->
  db_inv d -> db_inv (with_messages d (update_where c f (messages d))).
Proof.
  intros Hf H. unfold db_inv; simpl.
  apply update_where_Forall; [|exact H]. intros r _ Hc. now apply Hf.
Qed.

(** C10.  Each of [enqueueMessage], [claimNextMessage], [completeMessage],
    [failMessage], [retryDeadMessage] and [recoverStaleMessages] preserves
    the row invariants: a processing row has a claimer, a pending row has
    none, and a dead row has [retry_count >= MAX_RETRIES]. *)
Theorem queue_operations_preserve_invariants (d : QueueDb) :
  db_inv d ->
  (forall data now rowId d',
     enqueueMessage data now d = Inserted rowId d' -> db_inv d') /\
  (forall data now, enqueueMessage data now d = ConstraintError \/
     exists rowId d', enqueueMessage data now d = Inserted rowId d') /\
  (forall A now, db_inv (snd (claimNextMessage A now d))) /\
  (forall k now, db_inv (completeMessage k now d)) /\
  (forall k e now, db_inv (failMessage k e now d)) /\
  (forall k now, db_inv (snd (retryDeadMessage k now d))) /\
  (forall th now0 now1, db_inv (snd (recoverStaleMessages th now0 now1 d))).
Proof.
  intros H. repeat split.
  - intros data now rowId d'. unfold enqueueMessage.
    destruct (List.existsb _ _); [discriminate|]. intros [= _ <-].
    unfold db_inv; simpl. apply Forall_app. split; [exact H|].
    repeat constructor; simpl; discriminate.
  - intros data now. unfold enqueueMessage.
    destruct (List.existsb _ _); [left; reflexivity|right; eauto].
  - intros A now. unfold claimNextMessage.
    destruct (oldest _); simpl; [|exact H].
    apply update_where_inv; [|exact H].
    intros r _. repeat split; simpl; discriminate.
  - intros k now. apply update_where_inv; [|exact H].
    intros r _. repeat split; simpl; discriminate.
  - intros k e now. unfold failMessage.
    destruct (List.find _ _) as [msg|]; [|exact H].
    apply update_where_inv; [|exact H].
    intros r _. repeat split; simpl;
      destruct (Z.leb_spec MAX_RETRIES (m_retry_count msg + 1)); auto; discriminate.
  - intros k now. simpl. apply update_where_inv; [|exact H].
    intros r _. repeat split; simpl; auto; discriminate.
  - intros th now0 now1. simpl. apply update_where_inv; [|exact H].
    intros r _. repeat split; simpl; auto; discriminate.
Qed.

Lemma sample_db_inv : db_inv sample_db.
Proof.
  repeat constructor; simpl; try discriminate; unfold MAX_RETRIES; lia.
Defined.

Lemma queue_operations_preserve_invariants_witness :
  db_inv sample_db /\
  db_inv (run_ops sample_history sample_db) /\
  db_inv (snd (recoverStaleMessages None 700000 700001 sample_db)).
Proof.
  split; [exact sample_db_inv|].
  split.
  - assert (Hrun : forall ops d, db_inv d -> db_inv (run_ops ops d)).
    { induction ops as [|op ops IH]; intros d Hd; [exact Hd|].
      change (run_ops (op :: ops) d) with (run_ops ops (run_op op d)).
      apply IH.
      destruct (queue_operations_preserve_invariants d Hd)
        as (_ & _ & Hclaim & _ & Hfail & _).
      destruct op; simpl; auto. }
    apply Hrun. exact sample_db_inv.
  - apply (queue_operations_preserve_invariants sample_db sample_db_inv).
Defined.

End Invariants.

(** ** Routing *)

Section RoutingFacts.
Import Text Types Routing.

Lemma get_Some_In {V} (key : string) (o : Registry V) (v : V) :
  get key o = Some v -> In (key, v) o.
Proof.
  induction o as [|[k x] o IH]; simpl; [discriminate|].
  destruct (String.eqb_spec k key) as [->|ne].
  - intros [= ->]. now left.
  - intros H. right. auto.
Qed.

Lemma get_None_not_In {V} (key : string) (o : Registry V) :
  get key o = None -> forall v, ~ In (key, v) o.
Proof.
  induction o as [|[k x] o IH]; simpl; [tauto|].
  destruct (String.eqb_spec k key) as [->|ne]; [discriminate|].
  intros H v [[= -> _]|Hin]; [contradiction|]. exact (IH H v Hin).
Qed.

Lemma get_is_Some_iff {V} (key : string) (o : Registry V) :
  (exists v, In (key, v) o) <-> get key o <> None.
Proof.
  split.
  - intros [v Hin] Hn. exact (get_None_not_In _ _ Hn v Hin).
  - destruct (get key o) as [v|] eqn:E; [|congruence].
    intros _. exists v. now apply get_Some_In.
Qed.

Lemma findByName_first (candidateId : string) (before after : Registry AgentConfig)
    (id : string) (config : AgentConfig) :
  toLowerCase (a_name config) = candidateId ->
  (forall p, In p before -> toLowerCase (a_name (snd p)) <> candidateId) ->
  findByName candidateId (before ++ (id, config) :: after) = Some id.
Proof.
  intros Hc. induction before as [|[k x] before IH]; simpl; intros Hb.
  - rewrite Hc, String.eqb_refl. reflexivity.
  - destruct (String.eqb_spec (toLowerCase (a_name x)) candidateId) as [e|ne].
    + exfalso. apply (Hb (k, x)); auto.
    + apply IH. intros p Hp. apply Hb. now right.
Qed.

Lemma findByName_none (candidateId : string) (agents : Registry AgentConfig) :
  (forall p, In p agents -> toLowerCase (a_name (snd p)) <> candidateId) ->
  findByName candidateId agents = None.
Proof.
  induction agents as [|[k x] agents IH]; simpl; intros Hb; [reflexivity|].
  destruct (String.eqb_spec (toLowerCase (a_name x)) candidateId) as [e|ne].
  - exfalso. apply (Hb (k, x)); auto.
  - apply IH. intros p Hp. apply Hb. now right.
Qed.

Lemma spanNonSpace_app (slug rest : string) :
  noSpace slug = true -> (rest = EmptyString \/ startsWithSpace rest = true) ->
  spanNonSpace (slug +:+ rest) = (slug, rest).
Proof.
  intros Hs Hr. induction slug as [|c slug IH]; simpl in *.
  - destruct rest as [|b rest]; [reflexivity|].
    destruct Hr as [[=]|Hr]. simpl in *. now rewrite Hr.
  - apply andb_true_iff in Hs as [Hc Hs]. apply negb_true_iff in Hc.
    rewrite Hc, (IH Hs). reflexivity.
Qed.

Lemma spanNonSpace_sound (s w after : string) :
  spanNonSpace s = (w, after) ->
  s = (w +:+ after)%string /\ noSpace w = true /\
  (after = EmptyString \/ startsWithSpace after = true).
Proof.
  revert w after. induction s as [|c s IH]; simpl; intros w after H.
  - inversion H; subst. auto.
  - destruct (isSpace c) eqn:Ec.
    + inversion H; subst. simpl. rewrite Ec. auto.
    + destruct (spanNonSpace s) as [w' rest] eqn:E. inversion H; subst.
      destruct (IH _ _ eq_refl) as (-> & Hn & Ha).
      simpl. rewrite Ec. auto.
Qed.

Lemma dropSpaces_app (blanks rest : string) :
  allSpace blanks = true -> startsWithSpace rest = false ->
  dropSpaces (blanks +:+ rest) = rest.
Proof.
  intros Hb Hr. induction blanks as [|c blanks IH]; simpl in *.
  - destruct rest as [|b rest]; [reflexivity|]. simpl in *. now rewrite Hr.
  - apply andb_true_iff in Hb as [Hc Hb]. rewrite Hc. auto.
Qed.

Lemma matchAgentPrefix_decomposed (slug blanks rest : string) :
  slug <> EmptyString -> noSpace slug = true ->
  blanks <> EmptyString -> allSpace blanks = true ->
  matchAgentPrefix ("@" +:+ slug +:+ blanks +:+ rest)
  = Some (slug, dropSpaces (blanks +:+ rest)).
Proof.
  intros Hne Hs Hbn Hb. unfold matchAgentPrefix.
  change ("@" +:+ slug +:+ blanks +:+ rest)%string
    with (String "@"%char (slug +:+ (blanks +:+ rest))).
  cbv iota.
  rewrite (spanNonSpace_app slug (blanks +:+ rest)); [|exact Hs|].
  - destruct slug as [|c slug]; [contradiction|].
    destruct blanks as [|b blanks]; [contradiction|]. reflexivity.
  - right. destruct blanks as [|b blanks]; [contradiction|].
    simpl in *. now apply andb_true_iff in Hb as [-> _].
Qed.

Lemma has_own {V} (key : string) (o : Registry V) (v : V) :
  get key o = Some v -> has key o = true.
Proof. unfold has. now intros ->. Qed.

Lemma has_inherited {V} (key : string) (o : Registry V) :
  inherited key = true -> has key o = true.
Proof. unfold has. intros ->. now destruct (get key o). Qed.

Lemma has_plain {V} (key : string) (o : Registry V) :
  inherited key = false -> has key o = match get key o with Some _ => true | None => false end.
Proof. unfold has. intros ->. reflexivity. Qed.

Lemma parseAgentRouting_inherited (agents : Registry AgentConfig) :
  parseAgentRouting "@constructor hello" agents = mkRoutingResult "constructor" "hello" /\
  parseAgentRouting "@__proto__ hello" agents = mkRoutingResult "__proto__" "hello".
Proof.
  split.
  - assert (H : has "constructor" agents = true) by (apply has_inherited; reflexivity).
    unfold parseAgentRouting, detectMultipleTeams.
    change (mentions "@constructor hello") with ["@constructor"%string].
    cbn [List.flat_map].
    change (toLowerCase (slice1 "@constructor")) with "constructor"%string.
    rewrite H. cbn [app List.length Nat.ltb Nat.leb].
    change (matchAgentPrefix "@constructor hello")
      with (Some ("constructor"%string, "hello"%string)).
    cbv beta iota zeta. change (toLowerCase "constructor") with "constructor"%string.
    rewrite H. reflexivity.
  - assert (H : has "__proto__" agents = true) by (apply has_inherited; reflexivity).
    unfold parseAgentRouting, detectMultipleTeams.
    change (mentions "@__proto__ hello") with ["@__proto__"%string].
    cbn [List.flat_map].
    change (toLowerCase (slice1 "@__proto__")) with "__proto__"%string.
    rewrite H. cbn [app List.length Nat.ltb Nat.leb].
    change (matchAgentPrefix "@__proto__ hello")
      with (Some ("__proto__"%string, "hello"%string)).
    cbv beta iota zeta. change (toLowerCase "__proto__") with "__proto__"%string.
    rewrite H. reflexivity.
Qed.

(** C5.  Provided that fewer than two [@] tokens of the text count as
    mentioned teams (the step before this one): when the text is [@], a
    blank-free slug, one or more blanks and a rest, the agent is the
    case-folded slug if that is a configured id, else the first agent in
    registry order whose case-folded display name equals it, in both cases
    with the text after the blanks as message; when neither exists, or the
    text has no such prefix, the agent is ['default'] and the message is the
    raw text.  All this holds for a slug that is not the name of a property
    inherited from [Object.prototype].  The test [agents[candidateId]]
    succeeds on such a name too: whatever the registry holds,
    [@constructor hello] is routed to ['constructor'] and
    [@__proto__ hello] to ['__proto__'], with the prefix stripped, and so is
    every slug that folds to an inherited name. *)
Theorem parseAgentRouting_spec :
  (forall rawMessage agents,
     (List.length (detectMultipleTeams rawMessage agents) <= 1)%nat ->
     (forall slug blanks rest,
        rawMessage = ("@" +:+ slug +:+ blanks +:+ rest)%string ->
        slug <> EmptyString -> noSpace slug = true ->
        blanks <> EmptyString -> allSpace blanks = true ->
        startsWithSpace rest = false ->
        let candidateId := toLowerCase slug in
        ((exists config, In (candidateId, config) agents) ->
           parseAgentRouting rawMessage agents = mkRoutingResult candidateId rest) /\
        (inherited candidateId = false ->
           (forall config, ~ In (candidateId, config) agents) ->
           forall before id config after,
             agents = before ++ (id, config) :: after ->
             toLowerCase (a_name config) = candidateId ->
             (forall p, In p before -> toLowerCase (a_name (snd p)) <> candidateId) ->
             parseAgentRouting rawMessage agents = mkRoutingResult id rest) /\
        (inherited candidateId = false ->
           (forall config, ~ In (candidateId, config) agents) ->
           (forall p, In p agents -> toLowerCase (a_name (snd p)) <> candidateId) ->
           parseAgentRouting rawMessage agents = mkRoutingResult "default" rawMessage) /\
        (inherited candidateId = true ->
           parseAgentRouting rawMessage agents = mkRoutingResult candidateId rest)) /\
     ((forall slug blanks rest,
         rawMessage = ("@" +:+ slug +:+ blanks +:+ rest)%string ->
         slug <> EmptyString -> noSpace slug = true ->
         blanks <> EmptyString -> allSpace blanks = true -> False) ->
      parseAgentRouting rawMessage agents = mkRoutingResult "default" rawMessage)) /\
  (inherited "constructor" = true /\ inherited "__proto__" = true /\
   inherited "default" = false /\ inherited "error" = false /\
   forall key, inherited key = true <->
     In key [ "constructor"%string; "__defineGetter__"%string; "__defineSetter__"%string;
              "hasOwnProperty"%string; "__lookupGetter__"%string;
              "__lookupSetter__"%string; "isPrototypeOf"%string;
              "propertyIsEnumerable"%string; "toString"%string; "valueOf"%string;
              "__proto__"%string; "toLocaleString"%string ]) /\
  (forall agents,
     parseAgentRouting "@constructor hello" agents = mkRoutingResult "constructor" "hello" /\
     parseAgentRouting "@__proto__ hello" agents = mkRoutingResult "__proto__" "hello").
Proof.
  split; [|split].
  - intros rawMessage agents Hone.
    assert (Hguard : (1 <? List.length (detectMultipleTeams rawMessage agents))%nat = false)
      by (apply Nat.ltb_ge; exact Hone).
    split.
    + intros slug blanks rest -> Hne Hs Hbn Hb Hr candidateId.
      unfold parseAgentRouting. rewrite Hguard.
      rewrite matchAgentPrefix_decomposed by assumption.
      rewrite dropSpaces_app by assumption. fold candidateId.
      split; [|split; [|split]].
      * intros Hex. apply get_is_Some_iff in Hex.
        destruct (get candidateId agents) as [v|] eqn:E; [|congruence].
        now rewrite (has_own _ _ _ E).
      * intros Hplain Hno before id config after -> Hname Hfirst.
        rewrite (has_plain _ _ Hplain).
        destruct (get candidateId _) as [v|] eqn:E.
        -- exfalso. exact (Hno v (get_Some_In _ _ _ E)).
        -- now rewrite findByName_first.
      * intros Hplain Hno Hnames.
        rewrite (has_plain _ _ Hplain).
        destruct (get candidateId _) as [v|] eqn:E.
        -- exfalso. exact (Hno v (get_Some_In _ _ _ E)).
        -- now rewrite findByName_none.
      * intros Hin. now rewrite (has_inherited _ _ Hin).
    + intros Hnone. unfold parseAgentRouting. rewrite Hguard.
      destruct (matchAgentPrefix rawMessage) as [[slug rest]|] eqn:E; [|reflexivity].
      exfalso. unfold matchAgentPrefix in E.
      destruct rawMessage as [|c raw]; [discriminate|].
      destruct (Ascii.eqb_spec c "@"%char) as [->|ne].
      2:{ destruct c as [[] [] [] [] [] [] [] []]; try discriminate. now apply ne. }
      destruct (spanNonSpace raw) as [w after] eqn:Esp.
      destruct w as [|c w]; [discriminate|].
      destruct after as [|b after]; [discriminate|].
      destruct (spanNonSpace_sound _ _ _ Esp) as (-> & Hn & [[=]|Hb]).
      apply (Hnone (String c w) (String b EmptyString) after); try discriminate; auto.
      simpl in *. now rewrite Hb.
  - do 4 (split; [reflexivity|]). intros key. unfold inherited, prototypeKeys.
    rewrite List.existsb_exists. split.
    + intros (x & Hin & Heq). apply String.eqb_eq in Heq. now subst.
    + intros Hin. exists key. split; [exact Hin|apply String.eqb_refl].
  - exact parseAgentRouting_inherited.
Qed.

Lemma parseAgentRouting_spec_witness :
  parseAgentRouting "@Coder   fix the login bug" sample_agents
  = mkRoutingResult "coder" "fix the login bug" /\
  get "constructor" sample_agents = None /\
  findByName "constructor" sample_agents = None /\
  detectMultipleTeams "@constructor hello" sample_agents = ["constructor"%string] /\
  parseAgentRouting "@constructor hello" sample_agents
  = mkRoutingResult "constructor" "hello" /\
  parseAgentRouting "@constructor hello" sample_agents
  <> mkRoutingResult "default" "@constructor hello".
Proof.
  destruct parseAgentRouting_spec as (Hspec & _ & Hbug).
  assert (H : (List.length (detectMultipleTeams "@Coder   fix the login bug"
                              sample_agents) <= 1)%nat)
    by (vm_compute; lia).
  destruct (Hspec _ _ H) as [Hprefix _].
  split.
  { refine (proj1 (Hprefix "Coder"%string "   "%string "fix the login bug"%string
                     eq_refl _ eq_refl _ eq_refl eq_refl) _).
    - discriminate.
    - discriminate.
    - eexists. left. reflexivity. }
  split; [reflexivity|]. split; [reflexivity|]. split; [reflexivity|].
  rewrite (proj1 (Hbug sample_agents)). split; [reflexivity|discriminate].
Defined.

End RoutingFacts.

(** ** Routing in the dispatcher *)

Section RouteFacts.
Import Text Types Db Plugins Invoke Dispatcher.

Lemma framed_ret {A} (R : State -> State -> Prop) (a : A) :
  (forall st, R st st) -> framed R (ret a).
Proof. intros HR st b st' [= _ <-]. apply HR. Qed.

Lemma framed_throw {A} (R : State -> State -> Prop) (e : string) :
  framed R (@throw A e).
Proof. intros st b st' [=]. Qed.

Lemma framed_bind {A B} (R : State -> State -> Prop) (c : M A) (k : A -> M B) :
  (forall s1 s2 s3, R s1 s2 -> R s2 s3 -> R s1 s3) ->
  framed R c -> (forall a, framed R (k a)) -> framed R (bind c k).
Proof.
  intros HT Hc Hk st b st'. unfold bind.
  destruct (c st) as [a st1|e st1] eqn:E; [|discriminate].
  intros H. exact (HT _ _ _ (Hc _ _ _ E) (Hk _ _ _ _ H)).
Qed.

Lemma framed_modify (R : State -> State -> Prop) (f : State -> State) :
  (forall st, R st (f st)) -> framed R (modify f).
Proof. intros H st b st' [= _ <-]. apply H. Qed.

Lemma framed_when (R : State -> State -> Prop) (b : bool) (c : M unit) :
  (forall st, R st st) -> framed R c -> framed R (when b c).
Proof. intros HR Hc. destruct b; [exact Hc|now apply framed_ret]. Qed.

Lemma keeps_store_refl (st : State) : keeps_store st st.
Proof. repeat split. Qed.

Lemma keeps_store_trans (s1 s2 s3 : State) :
  keeps_store s1 s2 -> keeps_store s2 s3 -> keeps_store s1 s3.
Proof. unfold keeps_store. intuition congruence. Qed.

(** Routing reads the store and the conversations; it changes neither. *)
Lemma route_frame (env : Env) (dbMsg : DbMessage) : framed keeps_store (route env dbMsg).
Proof.
  unfold route, log, emitEvent. cbv zeta.
  repeat first
    [ apply framed_ret; exact keeps_store_refl
    | apply framed_throw
    | apply framed_modify; intros ?; repeat split
    | apply framed_when; [exact keeps_store_refl|]
    | apply framed_bind; [exact keeps_store_trans | | intros ?]
    | match goal with
      | |- framed _ (match ?x with _ => _ end) => destruct x
      | |- framed _ getState => intros ? ? ? [= _ <-]; apply keeps_store_refl
      end ].
Qed.
End RouteFacts.

(** ** The dispatcher *)

Section DispatcherFacts.
Import Text Types Db Plugins Invoke Dispatcher.



























End DispatcherFacts.
Section DispatcherWitness.
Import Text Types Db Plugins Invoke Dispatcher.

End DispatcherWitness.

(** ** The message cap of a conversation *)

Section CapFacts.
Import Text Types Db Plugins Invoke Dispatcher.

Lemma recordResponse_capped (env : Env) (dbMsg : DbMessage) (r : Routed)
    (response convId : string) (st : State) (conv : Conversation) :
  conversations st !! convId = Some conv ->
  extractTeammateMentions env response (rd_agentId r) (tc_teamId (c_teamContext conv))
    (teams env) (agents env) <> [] ->
  c_maxMessages conv <= c_totalMessages conv + 1 ->
  recordResponse env dbMsg r response convId st
  = Returned tt
      (add_logs
         [mkLogLine "WARN"
            ("Conversation " +:+ convId +:+ " hit max messages ("
             +:+ showZ (c_maxMessages conv) +:+ ") — not enqueuing further mentions")]
         (set_conversations
            (<[convId := record_response env (rd_agentId r) response conv]> (conversations st))
            st)).
Proof.
  intros Hc Hm Hcap.
  unfold recordResponse, update_conversation, bind, modify, getState, log, modify. simpl.
  rewrite lookup_alter_eq, Hc. simpl.
  destruct (extractTeammateMentions env response _ _ _ _) as [|m ms]; [contradiction|].
  replace (c_totalMessages conv + 1 <? c_maxMessages conv) with false
    by (symmetry; apply Z.ltb_ge; exact Hcap).
  rewrite andb_false_r.
  replace (0 <? Z.of_nat (List.length (m :: ms))) with true
    by (symmetry; apply Z.ltb_lt; simpl List.length; lia).
  f_equal. f_equal. f_equal.
  apply map_eq. intros k. rewrite lookup_alter, lookup_insert.
  case_decide; [subst; now rewrite Hc|reflexivity].
Qed.

Lemma finishBranch_effect (env : Env) (convId : string) (st : State) (conv : Conversation) :
  conversations st !! convId = Some conv -> c_id conv = convId ->
  exists st2,
    finishBranch env convId st = Returned tt st2 /\
    messages (db st2) = messages (db st) /\ chained st2 = chained st /\
    (c_pending conv - 1 <> 0 ->
       conversations st2 = <[convId := with_pending (c_pending conv - 1) conv]> (conversations st) /\
       db st2 = db st) /\
    (c_pending conv - 1 = 0 ->
       conversations st2 = delete convId (conversations st) /\
       exists row, responses (db st2) = responses (db st) ++ [row] /\
         r_message_id row = c_messageId conv /\ r_channel row = c_channel conv /\
         r_sender row = c_sender conv /\ r_status row = RPending).
Proof.
  intros Hc Hid.
  unfold finishBranch, decrementPending, update_conversation, bind, modify, getState, ret.
  simpl. rewrite lookup_alter_eq, Hc. simpl.
  assert (Hmap : alter (fun c => with_pending (c_pending c - 1) c) convId (conversations st)
                 = <[convId := with_pending (c_pending conv - 1) conv]> (conversations st)).
  { apply map_eq. intros k. rewrite lookup_alter, lookup_insert.
    case_decide; [subst; now rewrite Hc|reflexivity]. }
  destruct (Z.eqb_spec (c_pending conv - 1) 0) as [E|E].
  - unfold completeConversation, bind, modify, emitEvent, dbEnqueueResponse, Date_now,
      getState, modify, ret. simpl.
    eexists. split; [reflexivity|]. simpl. repeat split; try contradiction.
    + rewrite Hid, Hmap. apply map_eq. intros k.
      rewrite !lookup_delete. case_decide; [reflexivity|].
      now rewrite lookup_insert_ne.
    + eexists. split; [reflexivity|]. simpl. auto.
  - unfold log, modify. eexists. split; [reflexivity|]. simpl.
    repeat split; try contradiction. exact Hmap.
Qed.
(** C9, as stated, fails: the total-messages counter of a conversation can
    exceed [maxMessages].  In a team of three whose every answer hands work
    to both teammates, with the bound at 20, hand-overs are enqueued until
    the nineteenth answer; all of them are processed and counted.  After
    21 steps the conversation, still open, has counted 21 messages, and it
    completes after 39. *)
Lemma conversation_cap_counterexample :
  let start := adapterEnqueue Samples.trioEnv (Samples.sample_request "@a ship it")
                 initialState in
  let st := drain Samples.trioEnv 21 start in
  let final := drain Samples.trioEnv 100 start in
  c_maxMessages <$> conversations st !! "m1_1002"%string = Some 20 /\
  c_totalMessages <$> conversations st !! "m1_1002"%string = Some 21 /\
  List.length <$> (c_responses <$> conversations st !! "m1_1002"%string) = Some 21%nat /\
  conversations final !! "m1_1002"%string = None /\
  List.length (messages (db final)) = 39%nat /\
  List.map ev_data
    (List.filter (fun e => String.eqb (ev_type e) "team_chain_end") (events final))
  = [[("teamId"%string, "trio"%string); ("totalSteps"%string, "39"%string);
      ("agents"%string, "a,b,c"%string)]].
Proof. vm_compute. repeat split; reflexivity. Qed.

(** C9, amended.  When a response with teammate mentions is recorded and
    the total-messages counter, this response counted, has reached
    [maxMessages], no internal message is enqueued, the pending branch
    counter is not incremented and a warning is logged; the branch
    decrement that follows still takes one from the pending counter, and
    when that reaches zero the conversation is completed: one response row
    under the originating message id, and the conversation leaves the map.
    A new conversation starts with [maxMessages] set to
    [MAX_CONVERSATION_MESSAGES], no message counted and one branch pending. *)
Theorem conversation_cap_reached (env : Env) (dbMsg : DbMessage) (r : Routed)
    (response convId : string) (st : State) (conv : Conversation) :
  conversations st !! convId = Some conv -> c_id conv = convId ->
  extractTeammateMentions env response (rd_agentId r) (tc_teamId (c_teamContext conv))
    (teams env) (agents env) <> [] ->
  c_maxMessages conv <= c_totalMessages conv + 1 ->
  (exists st1 st2 conv1,
     recordResponse env dbMsg r response convId st = Returned tt st1 /\
     db st1 = db st /\ chained st1 = chained st /\
     conversations st1 !! convId = Some conv1 /\
     c_pending conv1 = c_pending conv /\
     c_totalMessages conv1 = c_totalMessages conv + 1 /\
     c_maxMessages conv1 = c_maxMessages conv /\
     c_responses conv1 = c_responses conv ++ [mkChainStep (rd_agentId r) response] /\
     logs st1
     = logs st ++
       [mkLogLine "WARN"
          ("Conversation " +:+ convId +:+ " hit max messages ("
           +:+ showZ (c_maxMessages conv) +:+ ") — not enqueuing further mentions")] /\
     finishBranch env convId st1 = Returned tt st2 /\
     messages (db st2) = messages (db st) /\ chained st2 = chained st /\
     (c_pending conv - 1 <> 0 ->
        c_pending <$> conversations st2 !! convId = Some (c_pending conv - 1) /\
        responses (db st2) = responses (db st)) /\
     (c_pending conv - 1 = 0 ->
        conversations st2 !! convId = None /\
        exists row, responses (db st2) = responses (db st) ++ [row] /\
          r_message_id row = c_messageId conv /\ r_status row = RPending)) /\
  (forall tc st0, exists newId st' c,
     newConversation env dbMsg tc st0 = Returned newId st' /\
     conversations st' !! newId = Some c /\
     c_maxMessages c = MAX_CONVERSATION_MESSAGES env /\
     c_totalMessages c = 0 /\ c_pending c = 1 /\ c_id c = newId).
Proof.
  intros Hc Hid Hm Hcap. split.
  - pose proof (recordResponse_capped env dbMsg r response convId st conv Hc Hm Hcap) as H1.
    set (conv1 := record_response env (rd_agentId r) response conv) in *.
    set (st1 := add_logs _ _) in H1.
    assert (Hc1 : conversations st1 !! convId = Some conv1)
      by (subst st1; simpl; apply lookup_insert_eq).
    destruct (finishBranch_effect env convId st1 conv1 Hc1 Hid)
      as (st2 & H2 & Hmsg & Hch & Hopen & Hdone).
    exists st1, st2, conv1.
    do 12 (split; [first [reflexivity | assumption]|]).
    split.
    + intros Hne. destruct (Hopen Hne) as [Hconv Hdb]. rewrite Hconv, Hdb.
      now rewrite lookup_insert_eq.
    + intros Hz. destruct (Hdone Hz) as [Hconv (row & Hr & Hi & _ & _ & Hs)].
      rewrite Hconv. split; [apply lookup_delete_eq|]. exists row. auto.
  - intros tc st0.
    unfold newConversation, bind, Date_now, modify, log, emitEvent, modify, ret. simpl.
    eexists _, _, _. split; [reflexivity|]. simpl.
    split; [apply lookup_insert_eq|]. auto.
Qed.

Lemma conversation_cap_reached_witness :
  let st1 := add_logs
               [mkLogLine "WARN"
                  "Conversation m1_1002 hit max messages (2) — not enqueuing further mentions"]
               (set_conversations
                  {[ "m1_1002"%string :=
                       record_response Samples.trioEnv "b" (Samples.trioReply "b")
                         Samples.capped_conversation ]}
                  Samples.capped_state) in
  List.length (extractTeammateMentions Samples.trioEnv (Samples.trioReply "b") "b" "trio"
                 Samples.trio_teams Samples.trio_agents) = 2%nat /\
  recordResponse Samples.trioEnv Samples.handover_row Samples.routed_b
    (Samples.trioReply "b") "m1_1002" Samples.capped_state
  = Returned tt st1 /\
  c_pending <$> conversations st1 !! "m1_1002"%string = Some 2.
Proof.
  intros st1. split; [vm_compute; reflexivity|].
  destruct (conversation_cap_reached Samples.trioEnv Samples.handover_row Samples.routed_b
              (Samples.trioReply "b") "m1_1002" Samples.capped_state
              Samples.capped_conversation)
    as [(s1 & s2 & c1 & Hrec & _ & _ & Hconv & Hpend & _) _].
  - vm_compute. reflexivity.
  - reflexivity.
  - vm_compute. discriminate.
  - vm_compute. discriminate.
  - split; [|vm_compute; reflexivity].
    rewrite Hrec. f_equal. vm_compute in Hrec. injection Hrec as <-.
    vm_compute. reflexivity.
Defined.

End CapFacts.
(** ** Several targets in one message *)

Section MultiTarget.
Import Text Types Db Plugins Invoke.

Lemma scanMentions_blank (cur : option string) (a b : string) :
  Routing.scanMentions cur (a +:+ " " +:+ b)
  = Routing.scanMentions cur a ++ Routing.scanMentions None b.
Proof.
  revert cur. induction a as [|c a IH]; intros cur.
  - destruct cur as [m|]; simpl.
    + reflexivity.
    + reflexivity.
  - change (String c a +:+ " " +:+ b)%string with (String c (a +:+ " " +:+ b)).
    cbn [Routing.scanMentions]. destruct cur as [m|].
    + destruct (isSpace c); [|apply IH]. rewrite IH. apply List.app_assoc.
    + destruct (Ascii.eqb c "@"); apply IH.
Qed.

Lemma append_empty_r (s : string) : (s +:+ EmptyString)%string = s.
Proof.
  induction s as [|c s IH]; [reflexivity|].
  change (String c (s +:+ EmptyString) = String c s). now rewrite IH.
Qed.

Lemma append_snoc (m slug : string) (c : ascii) :
  ((m +:+ String c EmptyString) +:+ slug)%string = (m +:+ String c slug)%string.
Proof.
  induction m as [|a m IH]; [reflexivity|].
  change (String a ((m +:+ String c EmptyString) +:+ slug) = String a (m +:+ String c slug)).
  now rewrite IH.
Qed.

Lemma scanMentions_token (m slug : string) :
  noSpace slug = true ->
  Routing.scanMentions (Some m) slug = Routing.closeMention (Some (m +:+ slug)).
Proof.
  revert m. induction slug as [|c slug IH]; intros m Hs.
  - now rewrite append_empty_r.
  - simpl in Hs. apply andb_true_iff in Hs as [Hc Hs]. apply negb_true_iff in Hc.
    cbn [Routing.scanMentions]. now rewrite Hc, (IH _ Hs), append_snoc.
Qed.

(** The tokens of two texts joined by a blank are those of the first
    followed by those of the second. *)
Lemma detectMultipleTeams_blank (a b : string) (agents : Registry AgentConfig) :
  Routing.detectMultipleTeams (a +:+ " " +:+ b) agents
  = Routing.detectMultipleTeams a agents ++ Routing.detectMultipleTeams b agents.
Proof.
  unfold Routing.detectMultipleTeams, Routing.mentions.
  now rewrite scanMentions_blank, List.flat_map_app.
Qed.

(** A token counts exactly when the test [agents[teamId]] succeeds on its
    case-folded slug: on a configured id, and on an inherited name. *)
Lemma detectMultipleTeams_token (slug : string) (agents : Registry AgentConfig) :
  slug <> EmptyString -> noSpace slug = true ->
  Routing.detectMultipleTeams ("@" +:+ slug) agents
  = if has (toLowerCase slug) agents then [toLowerCase slug] else [].
Proof.
  intros Hne Hs. unfold Routing.detectMultipleTeams, Routing.mentions.
  change ("@" +:+ slug)%string with (String "@"%char slug).
  cbn [Routing.scanMentions]. change (Ascii.eqb "@" "@") with true. cbv iota.
  rewrite scanMentions_token by exact Hs.
  destruct slug as [|c slug]; [contradiction|]. simpl.
  destruct (has _ agents); reflexivity.
Qed.

(** Two tokens that resolve, each followed by a blank, are both counted. *)
Lemma detectMultipleTeams_two (s1 s2 rest : string) (agents : Registry AgentConfig) :
  s1 <> EmptyString -> noSpace s1 = true -> s2 <> EmptyString -> noSpace s2 = true ->
  has (toLowerCase s1) agents = true -> has (toLowerCase s2) agents = true ->
  Routing.detectMultipleTeams ("@" +:+ s1 +:+ " " +:+ "@" +:+ s2 +:+ " " +:+ rest) agents
  = toLowerCase s1 :: toLowerCase s2 :: Routing.detectMultipleTeams rest agents.
Proof.
  intros H1 N1 H2 N2 G1 G2.
  change ("@" +:+ s1 +:+ " " +:+ "@" +:+ s2 +:+ " " +:+ rest)%string
    with (("@" +:+ s1) +:+ " " +:+ (("@" +:+ s2) +:+ " " +:+ rest))%string.
  rewrite !detectMultipleTeams_blank, !detectMultipleTeams_token by assumption.
  rewrite G1, G2. reflexivity.
Qed.

Lemma detectMultipleTeams_configured (raw : string) (agents : Registry AgentConfig)
    (t : string) :
  In t (Routing.detectMultipleTeams raw agents) ->
  (exists config, In (t, config) agents) \/ inherited t = true.
Proof.
  unfold Routing.detectMultipleTeams. rewrite List.in_flat_map.
  intros (mention & _ & Hin). unfold has in Hin.
  destruct (get _ agents) as [config|] eqn:E.
  - destruct Hin as [<-|[]]. left. exists config. now apply get_Some_In.
  - destruct (inherited _) eqn:I; [|destruct Hin].
    destruct Hin as [<-|[]]. now right.
Qed.

Lemma parseAgentRouting_multi (raw : string) (agents : Registry AgentConfig) :
  (2 <= List.length (Routing.detectMultipleTeams raw agents))%nat ->
  Routing.parseAgentRouting raw agents
  = Routing.mkRoutingResult "error"
      (Routing.multiTeamMessage (Routing.detectMultipleTeams raw agents)).
Proof.
  intros H. unfold Routing.parseAgentRouting.
  now rewrite (proj2 (Nat.ltb_lt _ _) H).
Qed.

(** The file-queue processor answers a message that names several teams
    itself: the text of [parseAgentRouting] goes to the outgoing queue, the
    file leaves the processing directory, and nothing reaches
    [answerWithAgent], the part that runs the agent's command line. *)
Lemma fileQueue_short_circuit (agents : Registry AgentConfig) (answer : FileQueue.Answer)
    (now : Z) (name : string) (q : FileQueue.Queue) (md : FileQueue.MessageData) :
  get name (FileQueue.incoming q) = Some md ->
  FileQueue.md_agent md = None ->
  (2 <= List.length (Routing.detectMultipleTeams (FileQueue.md_message md) agents))%nat ->
  let q' := FileQueue.processMessage agents answer now name q in
  FileQueue.commands q' = FileQueue.commands q /\
  get name (FileQueue.incoming q') = None /\
  get name (FileQueue.processing q') = None /\
  FileQueue.outgoing q'
  = FileQueue.write_file name
      (FileQueue.mkResponseData (FileQueue.md_channel md) (FileQueue.md_sender md)
         (Routing.multiTeamMessage
            (Routing.detectMultipleTeams (FileQueue.md_message md) agents))
         (FileQueue.md_message md) now (FileQueue.md_messageId md) None None)
      (FileQueue.outgoing q).
Proof.
  intros Hin Hag Hmulti q'. subst q'. unfold FileQueue.processMessage.
  rewrite Hin, Hag, parseAgentRouting_multi by exact Hmulti. simpl.
  assert (Hrm : forall A (dir : list (string * A)),
             get name (FileQueue.remove_file name dir) = None).
  { intros A dir. induction dir as [|[k v] dir IH]; simpl; [reflexivity|].
    destruct (String.eqb_spec k name) as [->|ne]; simpl; [exact IH|].
    destruct (String.eqb_spec k name); [contradiction|exact IH]. }
  repeat split; apply Hrm.
Qed.

(** The SQLite processor has no branch for the ['error'] outcome of the
    routing: for a row that is not pre-routed and whose routing yields
    ['error'], not an agent id, the agent becomes ['default'] with the raw
    text as prompt, and that agent is invoked.  No response is enqueued
    before the invocation. *)
Lemma dispatcher_falls_through (env : Dispatcher.Env) (dbMsg : DbMessage)
    (st : Dispatcher.State) (config : AgentConfig) :
  m_agent dbMsg = None -> m_conversation_id dbMsg = None ->
  Dispatcher.rt_agentId
    (Dispatcher.parseAgentRouting env (m_message dbMsg) (Dispatcher.agents env)
       (Dispatcher.teams env)) = "error"%string ->
  get "error" (Dispatcher.agents env) = None ->
  get "default" (Dispatcher.agents env) = Some config ->
  exists r st1 response st2,
    Dispatcher.route env dbMsg st = Dispatcher.Returned r st1 /\
    Dispatcher.rd_agentId r = "default"%string /\
    Dispatcher.rd_agent r = config /\
    Dispatcher.rd_message r = m_message dbMsg /\
    Dispatcher.invoke env dbMsg r st1 = Dispatcher.Returned response st2 /\
    Dispatcher.invocations st2
    = Dispatcher.invocations st ++
      [Dispatcher.mkInvocation "default"
         (hs_text (runIncomingHooks (Dispatcher.loadedPlugins env) (m_message dbMsg)
                     (Dispatcher.hookContext dbMsg)))
         (Dispatcher.rd_shouldReset r)] /\
    responses (Dispatcher.db st2) = responses (Dispatcher.db st) /\
    messages (Dispatcher.db st2) = messages (Dispatcher.db st).
Proof.
  intros Hag Hconv Herr Hno Hdef.
  assert (Hroute : exists r st1,
             Dispatcher.route env dbMsg st = Dispatcher.Returned r st1 /\
             Dispatcher.rd_agentId r = "default"%string /\
             Dispatcher.rd_agent r = config /\
             Dispatcher.rd_message r = m_message dbMsg).
  { unfold Dispatcher.route, Dispatcher.isInternal, Dispatcher.conversationOf.
    rewrite Hag, Hconv. cbn [Dispatcher.truthy negb Dispatcher.when].
    unfold Dispatcher.bind, Dispatcher.log, Dispatcher.emitEvent, Dispatcher.modify,
      Dispatcher.when, Dispatcher.ret, Dispatcher.getState.
    rewrite Herr, Hno, Hdef. cbn [mbind option_bind fmap option_map].
    rewrite Hdef. cbn [fmap option_map option_fmap].
    destruct (bool_decide _); eexists _, _; (split; [reflexivity|]); cbn;
      rewrite ?append_empty_r; auto. }
  destruct Hroute as (r & st1 & Hr & Hid & Hcfg & Hmsg).
  destruct (route_frame env dbMsg _ _ _ Hr) as (Hdb & _ & Hinv & _).
  exists r, st1.
  unfold Dispatcher.invoke, Dispatcher.bind, Dispatcher.modify, Dispatcher.emitEvent,
    Dispatcher.log, Dispatcher.modify, Dispatcher.ret.
  destruct (Dispatcher.invokeAgent env _ _ _ _ _) as [response|e];
    eexists _, _; (split; [exact Hr|]); (split; [exact Hid|]);
    (split; [exact Hcfg|]); (split; [exact Hmsg|]); (split; [reflexivity|]);
    cbn; rewrite Hinv, Hdb, Hid, Hmsg; auto.
Qed.

End MultiTarget.

Section RecoverWitness.
Import Db.

Lemma recoverStaleMessages_spec_witness :
  fst (recoverStaleMessages None 700000 700001 sample_db) = 1 /\
  m_status <$> messages (snd (recoverStaleMessages None 700000 700001 sample_db)) !! 0%nat
  = Some Pending /\
  messages (snd (recoverStaleMessages (Some 600000) 600015 600016 sample_db))
  = messages sample_db.
Proof.
  destruct (recoverStaleMessages_spec (10 * 60 * 1000) 700000 700001 sample_db)
    as (Hn & _ & _ & Hrows & Hdef).
  rewrite Hdef. split; [rewrite Hn; reflexivity|].
  split; [|reflexivity].
  destruct (Hrows 0%nat _ eq_refl) as [Hstale _].
  destruct Hstale as (r' & Hr & Hs & _); [split; [reflexivity|simpl; lia]|].
  rewrite Hr. simpl. now rewrite Hs.
Defined.

End RecoverWitness.

(* ===================================================================== *)
(** * Further properties of the queue store                               *)
(* ===================================================================== *)

(** ** [ORDER BY] and [LIMIT] *)

Section OrderFacts.
Import Db.
Context {A : Type} (le : A -> A -> bool).

Lemma placeRow_perm (x : A) (rows : list A) : Permutation (placeRow le x rows) (x :: rows).
Proof.
  induction rows as [|y rows IH]; simpl; [reflexivity|].
  destruct (le x y); [reflexivity|].
  rewrite IH. apply perm_swap.
Qed.

Lemma orderBy_perm (rows : list A) : Permutation (orderBy le rows) rows.
Proof.
  induction rows as [|x rows IH]; simpl; [reflexivity|].
  rewrite placeRow_perm. now constructor.
Qed.

Lemma orderBy_In (rows : list A) (x : A) : In x (orderBy le rows) <-> In x rows.
Proof.
  split; apply Permutation_in; [|symmetry]; apply orderBy_perm.
Qed.

Hypothesis le_total : forall a b, le a b = true \/ le b a = true.
Hypothesis le_trans : forall a b c, le a b = true -> le b c = true -> le a c = true.

Lemma placeRow_sorted (x : A) (rows : list A) :
  StronglySorted (fun a b => le a b = true) rows ->
  StronglySorted (fun a b => le a b = true) (placeRow le x rows).
Proof.
  induction 1 as [|y rows Hs IH Hy]; simpl.
  - repeat constructor.
  - destruct (le x y) eqn:E.
    + constructor; [now constructor|].
      constructor; [exact E|].
      eapply Forall_impl; [exact Hy|]. intros z Hz. simpl in *. eauto.
    + constructor; [exact IH|].
      rewrite List.Forall_forall. intros z Hz.
      apply (Permutation_in _ (placeRow_perm x rows)) in Hz as [<-|Hz].
      * destruct (le_total x y); congruence.
      * rewrite List.Forall_forall in Hy. auto.
Qed.

Lemma orderBy_sorted (rows : list A) :
  StronglySorted (fun a b => le a b = true) (orderBy le rows).
Proof.
  induction rows as [|x rows IH]; simpl; [constructor|].
  now apply placeRow_sorted.
Qed.

End OrderFacts.

Section SortedFacts.
Context {A : Type}.

Lemma StronglySorted_weaken (R S : A -> A -> Prop) (l : list A) :
  (forall a b, R a b -> S a b) -> StronglySorted R l -> StronglySorted S l.
Proof.
  intros HRS. induction 1 as [|x l Hs IH Hx]; constructor; [exact IH|].
  eapply Forall_impl; [exact Hx|]. auto.
Qed.

Lemma StronglySorted_split (R : A -> A -> Prop) (l1 l2 : list A) :
  StronglySorted R (l1 ++ l2) ->
  StronglySorted R l1 /\ StronglySorted R l2 /\
  forall a b, In a l1 -> In b l2 -> R a b.
Proof.
  induction l1 as [|x l1 IH]; simpl; intros H.
  - repeat split; [constructor|exact H|]. intros a b [].
  - apply StronglySorted_inv in H as [H Hx].
    destruct (IH H) as (H1 & H2 & H12).
    rewrite List.Forall_forall in Hx.
    repeat split; [|exact H2|].
    + constructor; [exact H1|]. rewrite List.Forall_forall. intros z Hz.
      apply Hx, in_or_app. now left.
    + intros a b [<-|Ha] Hb; [|now apply H12].
      apply Hx, in_or_app. now right.
Qed.

End SortedFacts.

(** ** The outgoing queue *)

Section Delivery.
Import Db.

Lemma RespStatus_eqb_eq (a b : RespStatus) : RespStatus_eqb a b = true <-> a = b.
Proof. destruct a, b; simpl; split; congruence. Qed.

Lemma undelivered_spec (channel : string) (r : DbResponse) :
  undelivered channel r = true <-> r_channel r = channel /\ r_status r = RPending.
Proof.
  unfold undelivered. now rewrite andb_true_iff, String.eqb_eq, RespStatus_eqb_eq.
Qed.

Lemma getResponsesForChannel_In (channel : string) (d : QueueDb) (r : DbResponse) :
  In r (getResponsesForChannel channel d) <->
  In r (responses d) /\ r_channel r = channel /\ r_status r = RPending.
Proof.
  unfold getResponsesForChannel.
  now rewrite orderBy_In, List.filter_In, undelivered_spec.
Qed.

(** X1.  [getResponsesForChannel(channel)] returns the responses of the
    table that are addressed to [channel] and still pending, each of them
    once and no other row, in ascending order of [created_at]. *)
Theorem getResponsesForChannel_spec (channel : string) (d : QueueDb) :
  Permutation (getResponsesForChannel channel d)
    (List.filter (fun r => String.eqb (r_channel r) channel
                           && RespStatus_eqb (r_status r) RPending) (responses d)) /\
  (forall r, In r (getResponsesForChannel channel d) <->
     In r (responses d) /\ r_channel r = channel /\ r_status r = RPending) /\
  StronglySorted (fun a b => r_created_at a <= r_created_at b)
    (getResponsesForChannel channel d).
Proof.
  split; [apply orderBy_perm|]. split; [apply getResponsesForChannel_In|].
  unfold getResponsesForChannel.
  eapply StronglySorted_weaken; [|apply orderBy_sorted].
  - intros a b H. now apply Z.leb_le.
  - intros a b. rewrite !Z.leb_le. lia.
  - intros a b c. rewrite !Z.leb_le. lia.
Qed.

Lemma update_where_fresh (k now : Z) (rows : list DbResponse) :
  Forall (fun r => r_id r <> k) rows ->
  update_where (fun r => r_id r =? k) (set_acked now) rows = rows.
Proof.
  induction 1 as [|x rows Hx _ IH]; simpl; [reflexivity|].
  destruct (Z.eqb_spec (r_id x) k); [contradiction|]. now f_equal.
Qed.

(** X2.  The outgoing queue as an adapter sees it.  A response that is
    enqueued is listed for its channel under the id [enqueueResponse]
    returned, and whatever was listed before still is.  After
    [ackResponse(k)] the listing of every channel has lost the rows of id
    [k] and nothing else.  Enqueuing a response and acknowledging the id
    returned leaves the listing of every channel as it was. *)
Theorem response_delivery_round_trip (data : EnqueueResponseData) (now t : Z)
    (d : QueueDb) :
  resp_keys_ok d ->
  let id := fst (enqueueResponse data now d) in
  let d' := snd (enqueueResponse data now d) in
  (exists row,
     In row (getResponsesForChannel (er_channel data) d') /\ r_id row = id /\
     r_message row = er_message data /\ r_message_id row = er_messageId data /\
     r_sender row = er_sender data /\ r_created_at row = now) /\
  (forall channel r,
     In r (getResponsesForChannel channel d) -> In r (getResponsesForChannel channel d')) /\
  (forall channel k r,
     In r (getResponsesForChannel channel (ackResponse k t d')) <->
     In r (getResponsesForChannel channel d') /\ r_id r <> k) /\
  (forall channel,
     getResponsesForChannel channel (ackResponse id t d') = getResponsesForChannel channel d).
Proof.
  intros [_ Hle]. simpl. split; [|split; [|split]].
  - eexists. rewrite getResponsesForChannel_In. simpl.
    split; [split; [apply in_or_app; right; left; reflexivity|]|]; simpl; auto.
  - intros channel r. rewrite !getResponsesForChannel_In. simpl.
    intros (H & ? & ?). split; [apply in_or_app; now left|auto].
  - intros channel k r. rewrite !getResponsesForChannel_In.
    unfold ackResponse, update_where. simpl. rewrite List.in_map_iff. split.
    + intros ((r0 & Hr0 & Hin) & Hc & Hs).
      destruct (Z.eqb_spec (r_id r0) k) as [e|ne]; subst r.
      * simpl in Hs. discriminate.
      * auto.
    + intros ((Hin & Hc & Hs) & Hk). split; [|auto].
      exists r. split; [|exact Hin].
      destruct (Z.eqb_spec (r_id r) k); [contradiction|reflexivity].
  - intros channel. unfold getResponsesForChannel, ackResponse, update_where. simpl.
    rewrite List.map_app, List.filter_app. simpl.
    rewrite Z.eqb_refl. simpl.
    replace (undelivered channel _) with false
      by (unfold undelivered; simpl; now rewrite andb_false_r).
    rewrite app_nil_r. f_equal. f_equal.
    apply (update_where_fresh (responses_seq d + 1) t).
    eapply Forall_impl; [exact Hle|]. simpl. intros; lia.
Qed.

Lemma sample_db_resp_keys_ok : resp_keys_ok sample_db.
Proof.
  split.
  - apply NoDup_ListNoDup. repeat constructor; simpl; intuition lia.
  - repeat constructor; simpl; lia.
Defined.

Lemma response_delivery_round_trip_witness :
  resp_keys_ok sample_db /\
  getResponsesForChannel "telegram"
    (ackResponse 2 70 (snd (enqueueResponse
       (mkEnqueueResponseData "telegram" "Alice" None "again" "ping" "m2" None None None)
       60 sample_db)))
  = [sample_response 1 "pong" 50].
Proof.
  split; [exact sample_db_resp_keys_ok|].
  destruct (response_delivery_round_trip
              (mkEnqueueResponseData "telegram" "Alice" None "again" "ping" "m2" None None None)
              60 70 sample_db sample_db_resp_keys_ok) as (_ & _ & _ & H).
  exact (H "telegram"%string).
Defined.

(** X3.  [getRecentResponses(limit)] splits the table in two: the rows it
    returns, in descending order of [created_at], and the rows it leaves
    out, none of which is more recent than a row returned.  With a limit
    [n >= 0] it returns [n] rows, or the whole table when that has fewer;
    with a negative limit it leaves nothing out. *)
Theorem getRecentResponses_spec (limit : Z) (d : QueueDb) :
  exists older,
    Permutation (getRecentResponses limit d ++ older) (responses d) /\
    StronglySorted (fun a b => r_created_at b <= r_created_at a)
      (getRecentResponses limit d) /\
    (forall r r', In r (getRecentResponses limit d) -> In r' older ->
       r_created_at r' <= r_created_at r) /\
    (0 <= limit ->
       Z.of_nat (List.length (getRecentResponses limit d))
       = Z.min limit (Z.of_nat (List.length (responses d)))) /\
    (limit < 0 -> older = []).
Proof.
  unfold getRecentResponses, limitRows.
  set (sorted := orderBy (fun a b => r_created_at b <=? r_created_at a) (responses d)).
  assert (Hs : StronglySorted (fun a b => r_created_at b <= r_created_at a) sorted).
  { eapply StronglySorted_weaken; [|apply orderBy_sorted].
    - intros a b H. now apply Z.leb_le.
    - intros a b. rewrite !Z.leb_le. lia.
    - intros a b c. rewrite !Z.leb_le. lia. }
  assert (Hp : Permutation sorted (responses d)) by apply orderBy_perm.
  destruct (Z.ltb_spec limit 0) as [Hneg|Hpos].
  - exists []. rewrite app_nil_r. repeat split; auto.
    + intros r r' _ [].
    + lia.
  - exists (List.skipn (Z.to_nat limit) sorted).
    rewrite List.firstn_skipn.
    rewrite <- (List.firstn_skipn (Z.to_nat limit) sorted) in Hs.
    apply StronglySorted_split in Hs as (H1 & _ & H12).
    repeat split; auto.
    + intros _. rewrite List.length_firstn, <- (Permutation_length Hp). lia.
    + lia.
Qed.

End Delivery.

Section Pruning.
Import Db.

Lemma filter_filter_sub {A} (p q : A -> bool) (l : list A) :
  (forall x, p x = true -> q x = true) ->
  List.filter p (List.filter q l) = List.filter p l.
Proof.
  intros H. induction l as [|x l IH]; simpl; [reflexivity|].
  destruct (q x) eqn:Q; simpl.
  - destruct (p x); now rewrite IH.
  - destruct (p x) eqn:P; [|exact IH]. apply H in P. congruence.
Qed.

Lemma changes_split {A} (p : A -> bool) (l : list A) :
  Z.of_nat (List.length l)
  = Z.of_nat (List.length (List.filter (fun x => negb (p x)) l)) + changes p l.
Proof. unfold changes. rewrite <- (List.filter_length p l). lia. Qed.

(** X4.  [pruneAckedResponses] deletes the responses that are acked with
    an [acked_at] before the cutoff, [now] minus the age given (24 hours
    by default), and returns their number.  Every other row stays, so no
    response that is still pending is lost: the listing of every channel
    is the same before and after.  The message table is not touched. *)
Theorem pruneAckedResponses_spec (olderThanMs : option Z) (now : Z) (d : QueueDb) :
  let cutoff := now - default (24 * 60 * 60 * 1000) olderThanMs in
  let n := fst (pruneAckedResponses olderThanMs now d) in
  let d' := snd (pruneAckedResponses olderThanMs now d) in
  (forall r, In r (responses d') <->
     In r (responses d) /\
     ~ (r_status r = RAcked /\ exists t, r_acked_at r = Some t /\ t < cutoff)) /\
  Z.of_nat (List.length (responses d)) = Z.of_nat (List.length (responses d')) + n /\
  (forall channel, getResponsesForChannel channel d' = getResponsesForChannel channel d) /\
  messages d' = messages d /\ responses_seq d' = responses_seq d.
Proof.
  simpl. split; [|split; [|split; [|split; reflexivity]]].
  - intros r. rewrite List.filter_In, negb_true_iff.
    apply and_iff_compat_l. unfold prunableResponse.
    rewrite <- not_true_iff_false, andb_true_iff, RespStatus_eqb_eq.
    apply not_iff_compat, and_iff_compat_l.
    destruct (r_acked_at r) as [t|]; split.
    + intros H. exists t. split; [reflexivity|]. now apply Z.ltb_lt.
    + intros (t' & [= <-] & H). now apply Z.ltb_lt.
    + discriminate.
    + intros (t' & [=] & _).
  - apply changes_split.
  - intros channel. unfold getResponsesForChannel. simpl. f_equal.
    apply filter_filter_sub. intros r Hr.
    apply undelivered_spec in Hr as [_ Hs].
    unfold prunableResponse. now rewrite Hs.
Qed.

End Pruning.

(** ** Queue status *)

Section Status.
Import Db.

Lemma update_where_absent (k : Z) (f : DbMessage -> DbMessage) (rows : list DbMessage) :
  ~ In k (List.map m_id rows) ->
  update_where (fun x => m_id x =? k) f rows = rows.
Proof.
  induction rows as [|x rows IH]; simpl; intros H; [reflexivity|].
  destruct (Z.eqb_spec (m_id x) k); [tauto|]. f_equal. tauto.
Qed.

Lemma countStatus_cons (s : MsgStatus) (x : DbMessage) (rows : list DbMessage) :
  countStatus s (x :: rows) = Z.b2z (MsgStatus_eqb (m_status x) s) + countStatus s rows.
Proof.
  unfold countStatus, changes. simpl.
  destruct (MsgStatus_eqb (m_status x) s); simpl; lia.
Qed.

Lemma countStatus_app (s : MsgStatus) (l1 l2 : list DbMessage) :
  countStatus s (l1 ++ l2) = countStatus s l1 + countStatus s l2.
Proof.
  unfold countStatus, changes. rewrite List.filter_app, List.length_app. lia.
Qed.

Lemma countStatus_update (s : MsgStatus) (k : Z) (f : DbMessage -> DbMessage)
    (rows : list DbMessage) (r : DbMessage) :
  List.NoDup (List.map m_id rows) ->
  List.find (fun x => m_id x =? k) rows = Some r ->
  countStatus s (update_where (fun x => m_id x =? k) f rows)
  = countStatus s rows - Z.b2z (MsgStatus_eqb (m_status r) s)
    + Z.b2z (MsgStatus_eqb (m_status (f r)) s).
Proof.
  induction rows as [|x rows IH]; simpl; intros Hnd Hf; [discriminate|].
  apply List.NoDup_cons_iff in Hnd as [Hx Hnd].
  change (update_where (fun x => m_id x =? k) f (x :: rows))
    with ((if m_id x =? k then f x else x) :: update_where (fun x => m_id x =? k) f rows).
  rewrite !countStatus_cons.
  destruct (Z.eqb_spec (m_id x) k) as [e|ne].
  - inversion Hf; subst x. rewrite update_where_absent by now rewrite <- e. lia.
  - rewrite (IH Hnd Hf). lia.
Qed.

Lemma countStatus_total (rows : list DbMessage) :
  countStatus Pending rows + countStatus Processing rows
  + countStatus Completed rows + countStatus Dead rows = Z.of_nat (List.length rows).
Proof.
  induction rows as [|x rows IH]; [reflexivity|].
  rewrite !countStatus_cons. simpl List.length. destruct (m_status x); simpl; lia.
Qed.

(** X5.  The counters of [getQueueStatus()] account for every message row
    once: pending, processing, completed and dead add up to the number of
    rows.  They follow the life cycle of a message: an insertion adds one
    to pending; a claim that returns a row moves one from pending to
    processing, and a claim that returns null changes nothing; completing
    a processing row moves one from processing to completed; failing a
    processing row moves one from processing to pending, or to dead once the
    retries are used up. *)
Theorem getQueueStatus_accounts (d : QueueDb) :
  keys_ok d ->
  let s := getQueueStatus d in
  qs_pending s + qs_processing s + qs_completed s + qs_dead s
  = Z.of_nat (List.length (messages d)) /\
  (forall data now k d', enqueueMessage data now d = Inserted k d' ->
     getQueueStatus d'
     = mkQueueStatus (qs_pending s + 1) (qs_processing s) (qs_completed s) (qs_dead s)
         (qs_responsesPending s)) /\
  (forall A now got d', claimNextMessage A now d = (Some got, d') ->
     getQueueStatus d'
     = mkQueueStatus (qs_pending s - 1) (qs_processing s + 1) (qs_completed s) (qs_dead s)
         (qs_responsesPending s)) /\
  (forall A now d', claimNextMessage A now d = (None, d') -> getQueueStatus d' = s) /\
  (forall k now r, message_row k d = Some r -> m_status r = Processing ->
     getQueueStatus (completeMessage k now d)
     = mkQueueStatus (qs_pending s) (qs_processing s - 1) (qs_completed s + 1) (qs_dead s)
         (qs_responsesPending s)) /\
  (forall k e now r, message_row k d = Some r -> m_status r = Processing ->
     getQueueStatus (failMessage k e now d)
     = if MAX_RETRIES <=? m_retry_count r + 1
       then mkQueueStatus (qs_pending s) (qs_processing s - 1) (qs_completed s)
              (qs_dead s + 1) (qs_responsesPending s)
       else mkQueueStatus (qs_pending s + 1) (qs_processing s - 1) (qs_completed s)
              (qs_dead s) (qs_responsesPending s)).
Proof.
  intros Hk. pose proof Hk as [Hnd _]. apply NoDup_ListNoDup in Hnd.
  simpl. split; [apply countStatus_total|].
  split; [|split; [|split; [|split]]].
  - intros data now k d'. unfold enqueueMessage.
    destruct (List.existsb _ _); [discriminate|]. intros [= <- <-].
    unfold getQueueStatus. simpl. rewrite !countStatus_app.
    unfold countStatus at 2 4 6 8. unfold changes. simpl. f_equal; lia.
  - intros A now got d'. unfold claimNextMessage.
    destruct (oldest (List.filter (claimable A) (messages d))) as [row|] eqn:E;
      [|discriminate].
    intros [= <- <-].
    pose proof (oldest_In _ _ E) as Hin. apply List.filter_In in Hin as [Hin Hc].
    apply claimable_spec in Hc as [Hs _].
    pose proof (message_row_unique _ _ Hk Hin) as Hrow. unfold message_row in Hrow.
    unfold getQueueStatus. simpl.
    rewrite !(countStatus_update _ _ _ _ _ Hnd Hrow). simpl. rewrite Hs. simpl.
    f_equal; lia.
  - intros A now d'. unfold claimNextMessage.
    destruct (oldest _); [discriminate|]. now intros [= <-].
  - intros k now r Hrow Hs. unfold message_row in Hrow.
    unfold getQueueStatus, completeMessage. simpl.
    rewrite !(countStatus_update _ _ _ _ _ Hnd Hrow). simpl. rewrite Hs. simpl.
    f_equal; lia.
  - intros k e now r Hrow Hs. unfold message_row in Hrow.
    unfold getQueueStatus, failMessage. rewrite Hrow. simpl.
    rewrite !(countStatus_update _ _ _ _ _ Hnd Hrow). simpl. rewrite Hs.
    destruct (MAX_RETRIES <=? m_retry_count r + 1); simpl; f_equal; lia.
Qed.

Lemma getQueueStatus_accounts_witness :
  keys_ok sample_db /\
  getQueueStatus sample_db = mkQueueStatus 3 1 0 1 1 /\
  getQueueStatus (snd (claimNextMessage "coder" 100 sample_db)) = mkQueueStatus 2 2 0 1 1.
Proof.
  split; [exact sample_db_keys_ok|]. split; [reflexivity|].
  destruct (getQueueStatus_accounts sample_db sample_db_keys_ok) as (_ & _ & H & _).
  destruct (claimNextMessage "coder" 100 sample_db) as [[got|] d'] eqn:E.
  - cbn [snd]. rewrite (H _ _ _ _ E). reflexivity.
  - vm_compute in E. discriminate E.
Defined.

End Status.

(** ** The incoming queue *)

Section Incoming.
Import Db.

Lemma In_distinct (l : list string) (x : string) : In x (distinct l) <-> In x l.
Proof.
  induction l as [|y l IH]; simpl; [tauto|].
  rewrite List.filter_In, IH, negb_true_iff, String.eqb_neq.
  destruct (String.eqb_spec y x); intuition congruence.
Qed.

Lemma NoDup_distinct (l : list string) : List.NoDup (distinct l).
Proof.
  induction l as [|y l IH]; simpl; constructor.
  - rewrite List.filter_In, String.eqb_refl. simpl. intros [_ [=]].
  - now apply List.NoDup_filter.
Qed.

Lemma claimable_target (A : string) (r : DbMessage) :
  claimable A r = true <->
  m_status r = Pending /\ default "default"%string (m_agent r) = A.
Proof.
  rewrite claimable_spec. apply and_iff_compat_l.
  destruct (m_agent r); simpl; split.
  - intros [[= ->]|[[=] _]]. reflexivity.
  - intros ->. now left.
  - intros [[=]|[_ ->]]. reflexivity.
  - intros <-. now right.
Qed.

Lemma getPendingAgents_In (A : string) (d : QueueDb) :
  In A (getPendingAgents d) <-> exists r, In r (messages d) /\ claimable A r = true.
Proof.
  unfold getPendingAgents. rewrite In_distinct, List.in_map_iff.
  split; intros (r & H1 & H2); exists r.
  - apply List.filter_In in H2 as [Hin Hs]. apply MsgStatus_eqb_eq in Hs.
    split; [exact Hin|]. now apply claimable_target.
  - apply claimable_target in H2 as [Hs Ha]. split; [exact Ha|].
    apply List.filter_In. split; [exact H1|]. now apply MsgStatus_eqb_eq.
Qed.

(** X6.  [getPendingAgents()] lists every agent once, and an agent is
    listed exactly when some pending row is addressed to it, a row without
    agent counting for ['default']; these are the agents for which
    [claimNextMessage] returns a row. *)
Theorem getPendingAgents_spec (d : QueueDb) :
  List.NoDup (getPendingAgents d) /\
  (forall A, In A (getPendingAgents d) <->
     exists r, In r (messages d) /\ m_status r = Pending /\
               default "default"%string (m_agent r) = A) /\
  (forall A now, In A (getPendingAgents d) <-> fst (claimNextMessage A now d) <> None).
Proof.
  split; [apply NoDup_distinct|]. split.
  - intros A. rewrite getPendingAgents_In.
    split; intros (r & H1 & H2); exists r; (split; [exact H1|]);
      now apply claimable_target.
  - intros A now. rewrite getPendingAgents_In. unfold claimNextMessage.
    destruct (oldest (List.filter (claimable A) (messages d))) as [row|] eqn:E; simpl.
    + split; [discriminate|]. intros _.
      apply oldest_In, List.filter_In in E. eauto.
    + split; [|congruence]. intros (r & H1 & H2).
      apply oldest_None in E.
      assert (Hf : In r (List.filter (claimable A) (messages d)))
        by now apply List.filter_In.
      rewrite E in Hf. destruct Hf.
Qed.

Lemma find_app_absent {A} (p : A -> bool) (l1 l2 : list A) :
  Forall (fun x => p x = false) l1 -> List.find p (l1 ++ l2) = List.find p l2.
Proof.
  induction 1 as [|x l1 Hx _ IH]; simpl; [reflexivity|]. now rewrite Hx.
Qed.

Lemma find_app_present {A} (p : A -> bool) (l1 l2 : list A) (x : A) :
  List.find p l1 = Some x -> List.find p (l1 ++ l2) = Some x.
Proof.
  induction l1 as [|y l1 IH]; simpl; [discriminate|].
  destruct (p y); auto.
Qed.

Lemma find_app_other {A} (p : A -> bool) (l : list A) (x : A) :
  p x = false -> List.find p (l ++ [x]) = List.find p l.
Proof.
  intros Hx. induction l as [|y l IH]; simpl; [now rewrite Hx|].
  destruct (p y); auto.
Qed.

Lemma filter_none {A} (p : A -> bool) (l : list A) :
  (forall x, In x l -> p x = false) -> List.filter p l = [].
Proof.
  induction l as [|x l IH]; simpl; intros H; [reflexivity|].
  rewrite (H x) by now left. apply IH. intros y Hy. apply H. now right.
Qed.

Lemma enqueue_keys_ok (data : EnqueueMessageData) (now k : Z) (d d' : QueueDb) :
  keys_ok d -> enqueueMessage data now d = Inserted k d' -> keys_ok d'.
Proof.
  intros [Hnd Hle]. unfold enqueueMessage.
  destruct (List.existsb _ _); [discriminate|]. intros [= <- <-].
  split; simpl.
  - rewrite List.map_app. simpl. apply NoDup_ListNoDup, List.NoDup_app.
    + now apply NoDup_ListNoDup.
    + repeat constructor; simpl; tauto.
    + intros x Hx [<-|[]].
      rewrite List.Forall_forall in Hle.
      apply List.in_map_iff in Hx as (r & Hr & Hin). apply Hle in Hin. lia.
  - apply Forall_app. split.
    + eapply Forall_impl; [exact Hle|]. simpl. intros; lia.
    + repeat constructor. simpl. lia.
Qed.

(** X7.  [enqueueMessage(data)] rejects a [message_id] that is already in
    the table.  Otherwise it returns a rowid greater than every rowid of
    the table and stores under it a pending, unclaimed row with no retry
    that carries the fields of [data], [created_at] and [updated_at] being
    the time of the call; no other row changes.  The agent the row is
    addressed to is then among the pending agents, and when nothing else was
    pending for that agent its next claim returns the text enqueued. *)
Theorem enqueueMessage_stores (data : EnqueueMessageData) (now : Z) (d : QueueDb) :
  keys_ok d ->
  match enqueueMessage data now d with
  | ConstraintError =>
      exists r, In r (messages d) /\ m_message_id r = em_messageId data
  | Inserted k d' =>
      let target := default "default"%string (em_agent data) in
      (forall r, In r (messages d) -> m_message_id r <> em_messageId data /\ m_id r < k) /\
      message_row k d'
      = Some (mkDbMessage k (em_messageId data) (em_channel data) (em_sender data)
                (em_senderId data) (em_message data) (em_agent data) (em_files data)
                (em_conversationId data) (em_fromAgent data) Pending 0 None now now None) /\
      (forall j, j <> k -> message_row j d' = message_row j d) /\
      keys_ok d' /\
      In target (getPendingAgents d') /\
      ((forall r, In r (messages d) -> claimable target r = false) ->
       forall t, exists got,
         fst (claimNextMessage target t d') = Some got /\
         m_id got = k /\ m_message got = em_message data /\
         m_message_id got = em_messageId data /\ m_status got = Processing)
  end.
Proof.
  intros Hk. pose proof Hk as [Hnd Hle].
  destruct (enqueueMessage data now d) as [k d'|] eqn:E.
  - pose proof (enqueue_keys_ok _ _ _ _ _ Hk E) as Hk'.
    unfold enqueueMessage in E.
    destruct (List.existsb _ _) eqn:Ex; [discriminate|]. inversion E; subst k d'. clear E.
    set (row := mkDbMessage _ _ _ _ _ _ _ _ _ _ _ _ _ _ _ _) in *.
    assert (Hc : claimable (default "default"%string (em_agent data)) row = true)
      by now apply claimable_target.
    rewrite List.Forall_forall in Hle.
    simpl. split; [|split; [|split; [|split; [|split]]]].
    + intros r Hr. split.
      * intros Heq. apply not_true_iff_false in Ex. apply Ex.
        apply List.existsb_exists. exists r. split; [exact Hr|]. now apply String.eqb_eq.
      * apply Hle in Hr. lia.
    + unfold message_row. simpl. rewrite find_app_absent; [simpl; now rewrite Z.eqb_refl|].
      rewrite List.Forall_forall. intros r Hr. apply Hle in Hr. apply Z.eqb_neq. lia.
    + intros j Hj. unfold message_row. simpl. apply find_app_other.
      apply Z.eqb_neq. simpl. lia.
    + exact Hk'.
    + apply getPendingAgents_In. exists row. split; [|exact Hc].
      simpl. apply in_or_app. right. now left.
    + intros Hidle t. unfold claimNextMessage. simpl.
      rewrite List.filter_app. simpl. rewrite Hc.
      replace (List.filter _ (messages d)) with (@nil DbMessage).
      * simpl. eexists. split; [reflexivity|]. simpl. auto.
      * symmetry. now apply filter_none.
  - unfold enqueueMessage in E.
    destruct (List.existsb _ _) eqn:Ex; [|discriminate].
    apply List.existsb_exists in Ex as (r & Hr & He).
    exists r. split; [exact Hr|]. now apply String.eqb_eq.
Qed.

Lemma enqueueMessage_stores_witness :
  keys_ok Dispatcher.emptyDb /\
  exists got,
    fst (claimNextMessage "default" 20
           (applyOp (SEnqueue (mkEnqueueMessageData "telegram" "Alice" None "hello" "m1"
                                 None None None None) 10) Dispatcher.emptyDb))
    = Some got /\ m_id got = 1 /\ m_message got = "hello"%string.
Proof.
  assert (Hk : keys_ok Dispatcher.emptyDb) by (split; constructor).
  split; [exact Hk|].
  pose proof (enqueueMessage_stores
                (mkEnqueueMessageData "telegram" "Alice" None "hello" "m1"
                   None None None None) 10 Dispatcher.emptyDb Hk) as H.
  simpl in H. destruct H as (_ & _ & _ & _ & _ & H).
  destruct (H (fun r (Hr : In r []) => match Hr with end) 20) as (got & Hg & Hid & Hm & _).
  exists got. auto.
Defined.

End Incoming.

(** ** Histories of store calls *)

Section StoreHistory.
Import Db.

Lemma NoDup_map_filter {A B} (f : A -> B) (p : A -> bool) (l : list A) :
  List.NoDup (List.map f l) -> List.NoDup (List.map f (List.filter p l)).
Proof.
  induction l as [|x l IH]; simpl; intros H; [constructor|].
  apply List.NoDup_cons_iff in H as [Hx H].
  destruct (p x); simpl; [|auto]. constructor; [|auto].
  intros Hin. apply Hx. apply List.in_map_iff in Hin as (y & Hy & Hin).
  apply List.filter_In in Hin as [Hin _]. apply List.in_map_iff. eauto.
Qed.

Lemma Forall_filter_keep {A} (P : A -> Prop) (p : A -> bool) (l : list A) :
  Forall P l -> Forall P (List.filter p l).
Proof.
  induction 1 as [|x l Hx _ IH]; simpl; [constructor|].
  destruct (p x); [constructor|]; auto.
Qed.

Lemma filter_keys_ok (p : DbMessage -> bool) (d : QueueDb) :
  keys_ok d -> keys_ok (with_messages d (List.filter p (messages d))).
Proof.
  intros [Hnd Hle]. split; simpl.
  - apply NoDup_ListNoDup, NoDup_map_filter. now apply NoDup_ListNoDup.
  - now apply Forall_filter_keep.
Qed.

Lemma applyOp_keys_ok (op : StoreOp) (d : QueueDb) :
  keys_ok d -> keys_ok (applyOp op d).
Proof.
  intros H. destruct op; simpl.
  - destruct (enqueueMessage data now d) as [k d'|] eqn:E; [|exact H].
    exact (enqueue_keys_ok _ _ _ _ _ H E).
  - now apply claim_keys_ok.
  - now apply update_where_keys_ok.
  - now apply fail_keys_ok.
  - now apply update_where_keys_ok.
  - now apply filter_keys_ok.
  - now apply update_where_keys_ok.
  - now apply filter_keys_ok.
  - exact H.
  - exact H.
  - exact H.
Qed.

Lemma applyOp_resp_keys_ok (op : StoreOp) (d : QueueDb) :
  resp_keys_ok d -> resp_keys_ok (applyOp op d).
Proof.
  intros H. pose proof H as [Hnd Hle].
  destruct op; simpl; try exact H.
  - unfold enqueueMessage. destruct (List.existsb _ _); exact H.
  - unfold claimNextMessage. destruct (oldest _); exact H.
  - unfold failMessage. destruct (List.find _ _); exact H.
  - split; simpl.
    + rewrite List.map_app. simpl. apply NoDup_ListNoDup, List.NoDup_app.
      * now apply NoDup_ListNoDup.
      * repeat constructor; simpl; tauto.
      * intros x Hx [<-|[]].
        rewrite List.Forall_forall in Hle.
        apply List.in_map_iff in Hx as (r & Hr & Hin). apply Hle in Hin. lia.
    + apply Forall_app. split.
      * eapply Forall_impl; [exact Hle|]. simpl. intros; lia.
      * repeat constructor. simpl. lia.
  - split; simpl.
    + unfold update_where. rewrite List.map_map.
      erewrite List.map_ext; [exact Hnd|]. intros r. now destruct (_ =? _).
    + apply update_where_Forall; [|exact Hle]. intros r Hr _. exact Hr.
  - split; simpl.
    + apply NoDup_ListNoDup, NoDup_map_filter. now apply NoDup_ListNoDup.
    + now apply Forall_filter_keep.
Qed.

Lemma filter_inv (p : DbMessage -> bool) (d : QueueDb) :
  db_inv d -> db_inv (with_messages d (List.filter p (messages d))).
Proof. intros H. unfold db_inv. simpl. now apply Forall_filter_keep. Qed.

Lemma applyOp_inv (op : StoreOp) (d : QueueDb) : db_inv d -> db_inv (applyOp op d).
Proof.
  intros H. destruct op; simpl; try exact H.
  - unfold enqueueMessage. destruct (List.existsb _ _); [exact H|].
    unfold db_inv; simpl. apply Forall_app. split; [exact H|].
    repeat constructor; simpl; discriminate.
  - unfold claimNextMessage. destruct (oldest _); simpl; [|exact H].
    apply update_where_inv; [|exact H]. intros r _. repeat split; simpl; discriminate.
  - apply update_where_inv; [|exact H]. intros r _. repeat split; simpl; discriminate.
  - unfold failMessage. destruct (List.find _ _) as [msg|]; [|exact H].
    apply update_where_inv; [|exact H].
    intros r _. repeat split; simpl;
      destruct (Z.leb_spec MAX_RETRIES (m_retry_count msg + 1)); auto; discriminate.
  - apply update_where_inv; [|exact H]. intros r _. repeat split; simpl; auto; discriminate.
  - now apply filter_inv.
  - apply update_where_inv; [|exact H]. intros r _. repeat split; simpl; auto; discriminate.
  - now apply filter_inv.
Qed.

Lemma applyOp_seq (op : StoreOp) (d : QueueDb) :
  messages_seq d <= messages_seq (applyOp op d) /\
  responses_seq d <= responses_seq (applyOp op d).
Proof.
  destruct op; simpl; try lia.
  - unfold enqueueMessage. destruct (List.existsb _ _); simpl; lia.
  - unfold claimNextMessage. destruct (oldest _); simpl; lia.
  - unfold failMessage. destruct (List.find _ _); simpl; lia.
Qed.

Lemma find_update_none (k : Z) (c : DbMessage -> bool) (f : DbMessage -> DbMessage)
    (rows : list DbMessage) :
  (forall r, m_id (f r) = m_id r) ->
  List.find (fun x => m_id x =? k) rows = None ->
  List.find (fun x => m_id x =? k) (update_where c f rows) = None.
Proof.
  intros Hf. induction rows as [|x rows IH]; simpl; [reflexivity|].
  destruct (Z.eqb_spec (m_id x) k) as [e|ne]; [discriminate|]. intros H.
  destruct (c x); [rewrite Hf|]; destruct (Z.eqb_spec (m_id x) k); try contradiction; auto.
Qed.

Lemma find_filter_none {A} (p q : A -> bool) (rows : list A) :
  List.find p rows = None -> List.find p (List.filter q rows) = None.
Proof.
  induction rows as [|x rows IH]; simpl; [reflexivity|].
  destruct (p x) eqn:P; [discriminate|]. intros H.
  destruct (q x); simpl; [rewrite P|]; auto.
Qed.

(** A rowid that has been handed out and is free stays free. *)
Lemma applyOp_absent (k : Z) (op : StoreOp) (d : QueueDb) :
  k <= messages_seq d -> message_row k d = None ->
  message_row k (applyOp op d) = None.
Proof.
  unfold message_row. intros Hk H. destruct op; simpl; try exact H.
  - unfold enqueueMessage. destruct (List.existsb _ _); [exact H|]. simpl.
    rewrite find_app_other; [exact H|]. simpl. apply Z.eqb_neq. lia.
  - unfold claimNextMessage. destruct (oldest _); simpl; [|exact H].
    now apply find_update_none.
  - now apply find_update_none.
  - unfold failMessage.
    destruct (List.find (fun r => m_id r =? rowId) (messages d)); [|exact H].
    simpl. now apply find_update_none.
  - now apply find_update_none.
  - now apply find_filter_none.
  - now apply find_update_none.
  - now apply find_filter_none.
Qed.

Lemma applyOps_cons (op : StoreOp) (ops : list StoreOp) (d : QueueDb) :
  applyOps (op :: ops) d = applyOps ops (applyOp op d).
Proof. reflexivity. Qed.

Lemma applyOps_absent (k : Z) (ops : list StoreOp) (d : QueueDb) :
  k <= messages_seq d -> message_row k d = None ->
  message_row k (applyOps ops d) = None.
Proof.
  revert d. induction ops as [|op ops IH]; intros d Hk H; [exact H|].
  rewrite applyOps_cons. apply IH.
  - pose proof (applyOp_seq op d). lia.
  - now apply applyOp_absent.
Qed.

(** X8.  Along every history of calls on the store the rowids of each
    table stay pairwise distinct and below the table's [AUTOINCREMENT]
    counter, the counters never decrease, the message rows keep their
    invariants (a processing row has a claimer, a pending row has none, a
    dead row has used up its retries), and a rowid that was handed out and
    is free is never given to another row. *)
Theorem store_history_invariants (ops : list StoreOp) (d : QueueDb) :
  keys_ok d -> resp_keys_ok d -> db_inv d ->
  keys_ok (applyOps ops d) /\ resp_keys_ok (applyOps ops d) /\ db_inv (applyOps ops d) /\
  messages_seq d <= messages_seq (applyOps ops d) /\
  responses_seq d <= responses_seq (applyOps ops d) /\
  (forall k, k <= messages_seq d -> message_row k d = None ->
     message_row k (applyOps ops d) = None).
Proof.
  revert d. induction ops as [|op ops IH]; intros d Hk Hr Hi.
  - split; [exact Hk|]. split; [exact Hr|]. split; [exact Hi|].
    split; [reflexivity|]. split; [reflexivity|]. auto.
  - rewrite applyOps_cons.
    destruct (IH (applyOp op d) (applyOp_keys_ok _ _ Hk) (applyOp_resp_keys_ok _ _ Hr)
                (applyOp_inv _ _ Hi)) as (H1 & H2 & H3 & H4 & H5 & H6).
    pose proof (applyOp_seq op d) as [S1 S2].
    split; [exact H1|]. split; [exact H2|]. split; [exact H3|].
    split; [lia|]. split; [lia|].
    intros k Hle Hnone. apply H6; [lia|]. now apply applyOp_absent.
Qed.

Lemma store_history_invariants_witness :
  keys_ok sample_db /\ resp_keys_ok sample_db /\ db_inv sample_db /\
  keys_ok (applyOps [SDeleteDead 5; SEnqueue (mkEnqueueMessageData "telegram" "Bob" None
                                                 "six" "m6" None None None None) 200;
                     SClaim "default" 201; SPruneCompleted None 0] sample_db) /\
  message_row 5 (applyOps [SDeleteDead 5; SEnqueue (mkEnqueueMessageData "telegram" "Bob" None
                                                      "six" "m6" None None None None) 200;
                           SClaim "default" 201; SPruneCompleted None 0] sample_db)
  = None.
Proof.
  split; [exact sample_db_keys_ok|]. split; [exact sample_db_resp_keys_ok|].
  split; [exact sample_db_inv|].
  destruct (store_history_invariants
              [SEnqueue (mkEnqueueMessageData "telegram" "Bob" None
                           "six" "m6" None None None None) 200;
               SClaim "default" 201; SPruneCompleted None 0]
              (applyOp (SDeleteDead 5) sample_db)
              (applyOp_keys_ok _ _ sample_db_keys_ok)
              (applyOp_resp_keys_ok _ _ sample_db_resp_keys_ok)
              (applyOp_inv _ _ sample_db_inv)) as (H1 & _ & _ & _ & _ & H6).
  split; [exact H1|]. apply H6; [vm_compute; discriminate|reflexivity].
Defined.

End StoreHistory.

(** ** Order of service *)

Section Fifo.
Import Db.

Local Abbreviation created_order :=
  (StronglySorted (fun a b : DbMessage => m_created_at a < m_created_at b)).

Lemma StronglySorted_filter {A} (R : A -> A -> Prop) (p : A -> bool) (l : list A) :
  StronglySorted R l -> StronglySorted R (List.filter p l).
Proof.
  induction 1 as [|x l Hs IH Hx]; simpl; [constructor|].
  destruct (p x); [|exact IH]. constructor; [exact IH|].
  now apply Forall_filter_keep.
Qed.

Lemma created_order_update (c : DbMessage -> bool) (f : DbMessage -> DbMessage)
    (rows : list DbMessage) :
  (forall r, m_created_at (f r) = m_created_at r) ->
  created_order rows -> created_order (update_where c f rows).
Proof.
  intros Hf. induction 1 as [|x l Hs IH Hx]; simpl; [constructor|].
  assert (Hc : forall r, m_created_at (if c r then f r else r) = m_created_at r)
    by (intros r; destruct (c r); auto).
  constructor; [exact IH|].
  unfold update_where. rewrite List.Forall_map, Hc.
  eapply Forall_impl; [exact Hx|]. simpl. intros r Hr. now rewrite Hc.
Qed.

Lemma oldest_sorted (rows : list DbMessage) :
  created_order rows -> oldest rows = head rows.
Proof.
  induction 1 as [|x l Hs IH Hx]; simpl; [reflexivity|].
  rewrite IH. destruct l as [|y l]; simpl; [reflexivity|].
  apply List.Forall_inv in Hx.
  destruct (Z.ltb_spec (m_created_at y) (m_created_at x)); [lia|reflexivity].
Qed.

Lemma find_head_filter {A} (p : A -> bool) (l : list A) :
  List.find p l = head (List.filter p l).
Proof.
  induction l as [|x l IH]; simpl; [reflexivity|]. now destruct (p x).
Qed.

(** In a table in strict order the first row that satisfies a condition is
    older than every other row that satisfies it. *)
Lemma find_strictly_oldest (p : DbMessage -> bool) (rows : list DbMessage)
    (row r : DbMessage) :
  created_order rows -> List.find p rows = Some row ->
  In r rows -> p r = true -> r <> row -> m_created_at row < m_created_at r.
Proof.
  induction 1 as [|x l Hs IH Hx]; simpl; [discriminate|].
  destruct (p x) eqn:Px.
  - intros [= <-] [<-|Hin] _ Hne; [contradiction|].
    rewrite List.Forall_forall in Hx. now apply Hx.
  - intros Hf [<-|Hin] Hr Hne; [congruence|]. now apply IH.
Qed.

(** X9.  First in, first out.  When the rows of the message table carry
    strictly increasing [created_at] values in rowid order, no two rows
    being of one millisecond, [claimNextMessage(A)] returns the first row
    in rowid order that is pending and addressed to [A], and that row is
    older than every other such row, so that [ORDER BY created_at ASC
    LIMIT 1] has one answer only.  The table stays in that order under
    every call on the store, an insertion included when its clock read is
    ahead of the rows in the table: messages for one agent are served in
    the order they came in. *)
Theorem claimNextMessage_fifo (A : string) (now : Z) (d : QueueDb) :
  created_order (messages d) ->
  fst (claimNextMessage A now d)
  = claimed_copy A <$> List.find (claimable A) (messages d) /\
  (forall row r, List.find (claimable A) (messages d) = Some row ->
     In r (messages d) -> claimable A r = true -> r <> row ->
     m_created_at row < m_created_at r) /\
  (forall data t, (forall r, In r (messages d) -> m_created_at r < t) ->
     created_order (messages (applyOp (SEnqueue data t) d))) /\
  (forall op, (forall data t, op <> SEnqueue data t) ->
     created_order (messages (applyOp op d))).
Proof.
  intros Hs. split; [|split; [|split]].
  - unfold claimNextMessage.
    rewrite oldest_sorted by now apply StronglySorted_filter.
    rewrite find_head_filter.
    now destruct (head (List.filter (claimable A) (messages d))).
  - intros row r Hf Hin Hr Hne.
    exact (find_strictly_oldest (claimable A) (messages d) row r Hs Hf Hin Hr Hne).
  - intros data t Ht. simpl. unfold enqueueMessage.
    destruct (List.existsb _ _); [exact Hs|]. simpl.
    induction Hs as [|x l Hs IH Hx]; simpl.
    + repeat constructor.
    + constructor.
      * apply IH. intros r Hr. apply Ht. now right.
      * apply Forall_app. split; [exact Hx|].
        repeat constructor. simpl. apply Ht. now left.
  - intros op Hop.
    destruct op as [data t| | | | | | | | | |]; simpl; try exact Hs.
    + now destruct (Hop data t).
    + unfold claimNextMessage. destruct (oldest _); simpl; [|exact Hs].
      now apply created_order_update.
    + now apply created_order_update.
    + unfold failMessage. destruct (List.find _ _); simpl; [|exact Hs].
      now apply created_order_update.
    + now apply created_order_update.
    + now apply StronglySorted_filter.
    + now apply created_order_update.
    + now apply StronglySorted_filter.
Qed.

Lemma claimNextMessage_fifo_witness :
  created_order
    (messages (applyOps [SEnqueue (mkEnqueueMessageData "telegram" "Alice" None "first" "m1"
                                     (Some "coder"%string) None None None) 10;
                         SEnqueue (mkEnqueueMessageData "telegram" "Bob" None "second" "m2"
                                     (Some "coder"%string) None None None) 11]
                 Dispatcher.emptyDb)) /\
  m_message <$>
    fst (claimNextMessage "coder" 20
           (applyOps [SEnqueue (mkEnqueueMessageData "telegram" "Alice" None "first" "m1"
                                  (Some "coder"%string) None None None) 10;
                      SEnqueue (mkEnqueueMessageData "telegram" "Bob" None "second" "m2"
                                  (Some "coder"%string) None None None) 11]
              Dispatcher.emptyDb))
  = Some "first"%string.
Proof.
  assert (Hs : created_order
    (messages (applyOps [SEnqueue (mkEnqueueMessageData "telegram" "Alice" None "first" "m1"
                                     (Some "coder"%string) None None None) 10;
                         SEnqueue (mkEnqueueMessageData "telegram" "Bob" None "second" "m2"
                                     (Some "coder"%string) None None None) 11]
                 Dispatcher.emptyDb))).
  { repeat constructor; simpl; lia. }
  split; [exact Hs|].
  destruct (claimNextMessage_fifo "coder" 20 _ Hs) as [H _].
  rewrite H. reflexivity.
Defined.

End Fifo.

(** ** Completed and dead rows *)

Section Terminal.
Import Db.

Lemma find_update_kept (k : Z) (c : DbMessage -> bool) (f : DbMessage -> DbMessage)
    (rows : list DbMessage) (r : DbMessage) :
  (forall x, m_id (f x) = m_id x) -> c r = false ->
  List.find (fun x => m_id x =? k) rows = Some r ->
  List.find (fun x => m_id x =? k) (update_where c f rows) = Some r.
Proof.
  intros Hf Hc. induction rows as [|x rows IH]; simpl; [discriminate|].
  destruct (Z.eqb_spec (m_id x) k) as [e|ne].
  - intros [= ->]. rewrite Hc. simpl. now rewrite e, Z.eqb_refl.
  - intros H. destruct (c x); [rewrite Hf|];
      destruct (Z.eqb_spec (m_id x) k); try contradiction; auto.
Qed.

Lemma find_filter_kept {A} (p q : A -> bool) (rows : list A) (r : A) :
  q r = true -> List.find p rows = Some r -> List.find p (List.filter q rows) = Some r.
Proof.
  intros Hq. induction rows as [|x rows IH]; simpl; [discriminate|].
  destruct (p x) eqn:P.
  - intros [= ->]. rewrite Hq. simpl. now rewrite P.
  - intros H. destruct (q x); simpl; [rewrite P|]; auto.
Qed.

Lemma applyOp_completed (k : Z) (r : DbMessage) (op : StoreOp) (d : QueueDb) :
  keys_ok d -> message_row k d = Some r -> m_status r = Completed ->
  rewritesCompleted k op = false ->
  message_row k (applyOp op d) = Some r.
Proof.
  intros Hk Hr Hs Hop. destruct op; simpl in *; try exact Hr.
  - unfold enqueueMessage. destruct (List.existsb _ _); [exact Hr|].
    unfold message_row. simpl. now apply find_app_present.
  - destruct (claim_row_cases agentId now k d Hk) as [->|(r' & Hr' & Hp & _)];
      [exact Hr|]. congruence.
  - apply Z.eqb_neq in Hop. unfold message_row, completeMessage. simpl.
    rewrite find_update_other; auto.
  - apply Z.eqb_neq in Hop. rewrite failMessage_other; auto.
  - apply find_update_kept; auto. unfold is_dead_row. rewrite Hs. simpl.
    apply andb_false_r.
  - apply find_filter_kept; auto. unfold is_dead_row. rewrite Hs. simpl.
    now rewrite andb_false_r.
  - apply find_update_kept; auto. unfold stale. now rewrite Hs.
  - discriminate.
Qed.

(** X10.  A completed message is done with.  Along every history of calls
    on the store that neither completes or fails that very rowid again nor
    prunes completed messages, the row stays in the table exactly as it
    was: it is not claimed, not recovered as stale, not retried and not
    deleted, whatever is enqueued, claimed, failed or deleted around it. *)
Theorem completed_is_final (k : Z) (r : DbMessage) (ops : list StoreOp) (d : QueueDb) :
  keys_ok d -> message_row k d = Some r -> m_status r = Completed ->
  Forall (fun op => rewritesCompleted k op = false) ops ->
  message_row k (applyOps ops d) = Some r /\
  forall A now, fmap m_id (fst (claimNextMessage A now (applyOps ops d))) <> Some k.
Proof.
  intros Hk Hr Hs Hops.
  assert (H : keys_ok (applyOps ops d) /\ message_row k (applyOps ops d) = Some r).
  { revert d Hk Hr. induction Hops as [|op ops Hop _ IH]; intros d Hk Hr; [auto|].
    rewrite applyOps_cons. apply IH; [now apply applyOp_keys_ok|].
    now apply applyOp_completed. }
  destruct H as [Hk' Hr']. split; [exact Hr'|].
  intros A now. destruct (fst (claimNextMessage A now (applyOps ops d))) as [got|] eqn:E;
    [|discriminate].
  apply claim_returns_pending in E as (row & Hin & Hp & Hid).
  simpl. intros [= Hgot].
  pose proof (message_row_unique _ _ Hk' Hin) as Hu.
  rewrite <- Hid, Hgot, Hr' in Hu. congruence.
Qed.

Lemma completed_is_final_witness :
  keys_ok (completeMessage 1 50 sample_db) /\
  m_status <$>
    message_row 1
      (applyOps [SClaim "coder" 60; SRecover None 900000 900000; SRetryDead 1 61;
                 SDeleteDead 1; SFail 4 "boom" 62]
         (completeMessage 1 50 sample_db))
  = Some Completed.
Proof.
  assert (Hk : keys_ok (completeMessage 1 50 sample_db))
    by exact (applyOp_keys_ok (SComplete 1 50) _ sample_db_keys_ok).
  split; [exact Hk|].
  destruct (completed_is_final 1
              (set_completed 50 (sample_message 1 "one" (Some "coder"%string) Processing 0 10 20
                                   (Some "coder"%string)))
              [SClaim "coder" 60; SRecover None 900000 900000; SRetryDead 1 61;
               SDeleteDead 1; SFail 4 "boom" 62]
              (completeMessage 1 50 sample_db) Hk eq_refl eq_refl) as [H _].
  - repeat constructor.
  - rewrite H. reflexivity.
Defined.

End Terminal.

(** ** The dead-letter queue *)

Section DeadLetters.
Import Db.

Lemma getDeadMessages_In (d : QueueDb) (r : DbMessage) :
  In r (getDeadMessages d) <-> In r (messages d) /\ m_status r = Dead.
Proof.
  unfold getDeadMessages. now rewrite orderBy_In, List.filter_In, MsgStatus_eqb_eq.
Qed.

Lemma is_dead_row_spec (k : Z) (r : DbMessage) :
  is_dead_row k r = true <-> m_id r = k /\ m_status r = Dead.
Proof. unfold is_dead_row. now rewrite andb_true_iff, Z.eqb_eq, MsgStatus_eqb_eq. Qed.

Lemma changes_pos {A} (p : A -> bool) (l : list A) :
  (0 <? changes p l) = true <-> exists x, In x l /\ p x = true.
Proof.
  unfold changes. rewrite Z.ltb_lt. split.
  - destruct (List.filter p l) as [|x t] eqn:E; simpl; [lia|]. intros _.
    exists x. apply List.filter_In. rewrite E. now left.
  - intros (x & Hx). apply List.filter_In in Hx.
    destruct (List.filter p l); [destruct Hx|simpl; lia].
Qed.

Lemma changes_zero {A} (p : A -> bool) (l : list A) :
  (0 <? changes p l) = false -> forall x, In x l -> p x = false.
Proof.
  intros H x Hx. destruct (p x) eqn:P; [|reflexivity].
  apply not_true_iff_false in H. exfalso. apply H, changes_pos. eauto.
Qed.

Lemma update_where_none {A} (c : A -> bool) (f : A -> A) (l : list A) :
  (forall x, In x l -> c x = false) -> update_where c f l = l.
Proof.
  induction l as [|x l IH]; simpl; intros H; [reflexivity|].
  rewrite (H x) by now left. f_equal. apply IH. intros y Hy. apply H. now right.
Qed.

Lemma filter_all {A} (p : A -> bool) (l : list A) :
  (forall x, In x l -> p x = true) -> List.filter p l = l.
Proof.
  induction l as [|x l IH]; simpl; intros H; [reflexivity|].
  rewrite (H x) by now left. f_equal. apply IH. intros y Hy. apply H. now right.
Qed.

Lemma filter_comm {A} (p q : A -> bool) (l : list A) :
  List.filter p (List.filter q l) = List.filter q (List.filter p l).
Proof.
  induction l as [|x l IH]; simpl; [reflexivity|].
  destruct (p x) eqn:P, (q x) eqn:Q; simpl; rewrite ?P, ?Q, IH; reflexivity.
Qed.

Lemma with_messages_same (d : QueueDb) : with_messages d (messages d) = d.
Proof. now destruct d. Qed.

Lemma find_update_hit (k : Z) (c : DbMessage -> bool) (f : DbMessage -> DbMessage)
    (rows : list DbMessage) (r : DbMessage) :
  (forall x, m_id (f x) = m_id x) -> c r = true ->
  List.find (fun x => m_id x =? k) rows = Some r ->
  List.find (fun x => m_id x =? k) (update_where c f rows) = Some (f r).
Proof.
  intros Hf Hc. induction rows as [|x rows IH]; simpl; [discriminate|].
  destruct (Z.eqb_spec (m_id x) k) as [e|ne].
  - intros [= ->]. rewrite Hc, Hf. now rewrite e, Z.eqb_refl.
  - intros H. destruct (c x); [rewrite Hf|];
      destruct (Z.eqb_spec (m_id x) k); try contradiction; auto.
Qed.

Lemma find_update_apart (j : Z) (c : DbMessage -> bool) (f : DbMessage -> DbMessage)
    (rows : list DbMessage) :
  (forall x, m_id (f x) = m_id x) -> (forall x, c x = true -> m_id x <> j) ->
  List.find (fun x => m_id x =? j) (update_where c f rows)
  = List.find (fun x => m_id x =? j) rows.
Proof.
  intros Hf Hc. induction rows as [|x rows IH]; simpl; [reflexivity|].
  destruct (c x) eqn:C.
  - rewrite Hf. apply Hc in C. destruct (Z.eqb_spec (m_id x) j); [contradiction|exact IH].
  - destruct (m_id x =? j); [reflexivity|exact IH].
Qed.

Lemma find_filter_apart {A} (p q : A -> bool) (rows : list A) :
  (forall x, q x = false -> p x = false) ->
  List.find p (List.filter q rows) = List.find p rows.
Proof.
  intros H. induction rows as [|x rows IH]; simpl; [reflexivity|].
  destruct (q x) eqn:Q; simpl.
  - destruct (p x); [reflexivity|exact IH].
  - now rewrite (H x Q).
Qed.

(** X11.  [getDeadMessages()] returns the dead rows of the table, each
    once and no other row, the most recently updated first.  A message
    whose failure uses up its retries is on that list from then on, with
    the error of that failure. *)
Theorem getDeadMessages_spec (d : QueueDb) :
  Permutation (getDeadMessages d)
    (List.filter (fun r => MsgStatus_eqb (m_status r) Dead) (messages d)) /\
  (forall r, In r (getDeadMessages d) <-> In r (messages d) /\ m_status r = Dead) /\
  StronglySorted (fun a b => m_updated_at b <= m_updated_at a) (getDeadMessages d) /\
  (forall k e t r, message_row k d = Some r -> MAX_RETRIES <= m_retry_count r + 1 ->
     exists x, In x (getDeadMessages (failMessage k e t d)) /\
               m_id x = k /\ m_last_error x = Some e /\ m_updated_at x = t /\
               m_message_id x = m_message_id r /\ m_message x = m_message r).
Proof.
  split; [apply orderBy_perm|]. split; [apply getDeadMessages_In|]. split.
  - unfold getDeadMessages.
    eapply StronglySorted_weaken; [|apply orderBy_sorted].
    + intros a b H. now apply Z.leb_le.
    + intros a b. rewrite !Z.leb_le. lia.
    + intros a b c. rewrite !Z.leb_le. lia.
  - intros k e t r Hr Hmax.
    pose proof (failMessage_row k e t d r Hr) as H.
    apply Z.leb_le in Hmax. rewrite Hmax in H.
    pose proof H as Hin. apply find_Some_In in Hin as [Hin Hid].
    eexists. rewrite getDeadMessages_In. split; [split; [exact Hin|reflexivity]|].
    simpl in *. apply Z.eqb_eq in Hid. auto.
Qed.

(** X12.  [retryDeadMessage(k)] returns true exactly when a dead row has
    rowid [k]; otherwise the database is left as it is.  The dead row goes
    back to pending with [retry_count] 0, no claimer and [updated_at] the
    time of the call, its text, target and [last_error] kept; its agent is
    then among the pending agents and the row is no longer on the dead
    list.  No other row changes. *)
Theorem retryDeadMessage_spec (k now : Z) (d : QueueDb) :
  let d' := snd (retryDeadMessage k now d) in
  (fst (retryDeadMessage k now d) = true <->
     exists r, In r (getDeadMessages d) /\ m_id r = k) /\
  (fst (retryDeadMessage k now d) = false -> d' = d) /\
  (forall r, message_row k d = Some r -> m_status r = Dead ->
     (exists r', message_row k d' = Some r' /\
        m_status r' = Pending /\ m_retry_count r' = 0 /\ m_claimed_by r' = None /\
        m_updated_at r' = now /\ m_last_error r' = m_last_error r /\
        m_message_id r' = m_message_id r /\ m_message r' = m_message r /\
        m_agent r' = m_agent r /\ m_created_at r' = m_created_at r) /\
     In (default "default"%string (m_agent r)) (getPendingAgents d')) /\
  (forall x, In x (getDeadMessages d') -> m_id x <> k) /\
  (forall j, j <> k -> message_row j d' = message_row j d).
Proof.
  simpl. split; [|split; [|split; [|split]]].
  - rewrite changes_pos. split; intros (r & H1 & H2); exists r.
    + apply is_dead_row_spec in H2 as [? ?]. now rewrite getDeadMessages_In.
    + apply getDeadMessages_In in H1 as [? ?]. now rewrite is_dead_row_spec.
  - intros H. rewrite update_where_none by now apply changes_zero.
    apply with_messages_same.
  - intros r Hr Hs.
    assert (Hd : is_dead_row k r = true).
    { apply is_dead_row_spec. split; [|exact Hs].
      apply find_Some_In in Hr as [_ Hid]. now apply Z.eqb_eq. }
    assert (Hrow : message_row k (with_messages d
                     (update_where (is_dead_row k) (set_retried now) (messages d)))
                   = Some (set_retried now r)).
    { unfold message_row. simpl. now apply find_update_hit. }
    split.
    + exists (set_retried now r). split; [exact Hrow|]. simpl. tauto.
    + apply getPendingAgents_In. exists (set_retried now r).
      split; [now apply find_Some_In in Hrow as [? _]|].
      now apply claimable_target.
  - intros x. rewrite getDeadMessages_In. simpl. unfold update_where.
    rewrite List.in_map_iff. intros [(x0 & Hx & Hin) Hs] Hid.
    destruct (is_dead_row k x0) eqn:E; subst x; [discriminate|].
    apply not_true_iff_false in E. apply E, is_dead_row_spec. auto.
  - intros j Hj. unfold message_row. simpl. apply find_update_apart; [reflexivity|].
    intros x Hx. apply is_dead_row_spec in Hx as [-> _]. auto.
Qed.

Lemma NoDup_ids_once (k : Z) (p : DbMessage -> bool) (rows : list DbMessage) :
  List.NoDup (List.map m_id rows) ->
  (forall x, p x = true -> m_id x = k) ->
  (List.length (List.filter p rows) <= 1)%nat.
Proof.
  intros Hnd Hp. induction rows as [|x rows IH]; simpl; [lia|].
  apply List.NoDup_cons_iff in Hnd as [Hx Hnd].
  destruct (p x) eqn:P; [|auto]. simpl.
  rewrite filter_none; [simpl; lia|].
  intros y Hy. destruct (p y) eqn:Q; [|reflexivity].
  exfalso. apply Hx. rewrite (Hp x P), <- (Hp y Q). now apply List.in_map.
Qed.

(** X13.  [deleteDeadMessage(k)] returns true exactly when a dead row has
    rowid [k]; otherwise the database is left as it is.  It removes that
    row and no other: a row that is not dead is never deleted.  The rowid
    of the deleted row is free from then on and, the table being
    [AUTOINCREMENT], no later call on the store gives it to another row. *)
Theorem deleteDeadMessage_spec (k : Z) (d : QueueDb) :
  keys_ok d ->
  let d' := snd (deleteDeadMessage k d) in
  (fst (deleteDeadMessage k d) = true <->
     exists r, In r (getDeadMessages d) /\ m_id r = k) /\
  (fst (deleteDeadMessage k d) = false -> d' = d) /\
  (forall r, In r (messages d') <->
     In r (messages d) /\ ~ (m_id r = k /\ m_status r = Dead)) /\
  (forall j, j <> k -> message_row j d' = message_row j d) /\
  (fst (deleteDeadMessage k d) = true ->
     List.length (messages d) = S (List.length (messages d')) /\
     forall ops, message_row k (applyOps ops d') = None).
Proof.
  intros Hk. pose proof Hk as [Hnd Hle]. apply NoDup_ListNoDup in Hnd.
  simpl. split; [|split; [|split; [|split]]].
  - rewrite changes_pos. split; intros (r & H1 & H2); exists r.
    + apply is_dead_row_spec in H2 as [? ?]. now rewrite getDeadMessages_In.
    + apply getDeadMessages_In in H1 as [? ?]. now rewrite is_dead_row_spec.
  - intros H. rewrite filter_all; [apply with_messages_same|].
    intros x Hx. now rewrite (changes_zero _ _ H x Hx).
  - intros r. rewrite List.filter_In, negb_true_iff, <- not_true_iff_false.
    now rewrite is_dead_row_spec.
  - intros j Hj. unfold message_row. simpl. apply find_filter_apart.
    intros x Hx. apply negb_false_iff, is_dead_row_spec in Hx as [-> _].
    now apply Z.eqb_neq.
  - intros H. pose proof H as Hpos. apply changes_pos in Hpos as (r & Hin & Hd).
    split.
    + rewrite <- (List.filter_length (is_dead_row k) (messages d)).
      pose proof (NoDup_ids_once k (is_dead_row k) (messages d) Hnd) as Hone.
      assert (Hex : In r (List.filter (is_dead_row k) (messages d)))
        by now apply List.filter_In.
      destruct (List.filter (is_dead_row k) (messages d)) as [|a [|b t]];
        [destruct Hex|reflexivity|].
      simpl in Hone. specialize (Hone (fun x Hx => proj1 (proj1 (is_dead_row_spec k x) Hx))).
      lia.
    + intros ops. apply applyOps_absent.
      * simpl. apply is_dead_row_spec in Hd as [<- _].
        rewrite List.Forall_forall in Hle. now apply Hle.
      * unfold message_row. simpl.
        destruct (List.find _ _) as [x|] eqn:E; [|reflexivity]. exfalso.
        apply find_Some_In in E as [Hx Hid]. apply Z.eqb_eq in Hid.
        apply List.filter_In in Hx as [Hx Hnot].
        apply negb_true_iff, not_true_iff_false in Hnot. apply Hnot.
        assert (x = r); [|now subst].
        pose proof (message_row_unique _ _ Hk Hx) as U1.
        pose proof (message_row_unique _ _ Hk Hin) as U2.
        apply is_dead_row_spec in Hd as [Hrk _]. rewrite Hid in U1. rewrite Hrk in U2.
        congruence.
Qed.

Lemma deleteDeadMessage_spec_witness :
  keys_ok sample_db /\
  fst (deleteDeadMessage 5 sample_db) = true /\
  message_row 5
    (applyOps [SEnqueue (mkEnqueueMessageData "telegram" "Bob" None "six" "m6"
                           None None None None) 200]
       (snd (deleteDeadMessage 5 sample_db))) = None /\
  fst (deleteDeadMessage 1 sample_db) = false.
Proof.
  split; [exact sample_db_keys_ok|]. split; [reflexivity|]. split; [|reflexivity].
  destruct (deleteDeadMessage_spec 5 sample_db sample_db_keys_ok) as (_ & _ & _ & _ & H).
  destruct (H eq_refl) as [_ Hfree]. apply Hfree.
Defined.

(** X14.  [pruneCompletedMessages] deletes the completed rows whose
    [updated_at] is before the cutoff, [now] minus the age given (24 hours
    by default), and returns their number.  Pending, processing and dead
    rows are all kept: the pending agents, the result of every claim and
    the dead list are the same before and after, and in [getQueueStatus]
    only the completed counter drops, by the number returned. *)
Theorem pruneCompletedMessages_spec (olderThanMs : option Z) (now : Z) (d : QueueDb) :
  let cutoff := now - default (24 * 60 * 60 * 1000) olderThanMs in
  let n := fst (pruneCompletedMessages olderThanMs now d) in
  let d' := snd (pruneCompletedMessages olderThanMs now d) in
  (forall r, In r (messages d') <->
     In r (messages d) /\ ~ (m_status r = Completed /\ m_updated_at r < cutoff)) /\
  Z.of_nat (List.length (messages d)) = Z.of_nat (List.length (messages d')) + n /\
  getPendingAgents d' = getPendingAgents d /\
  (forall A t, fst (claimNextMessage A t d') = fst (claimNextMessage A t d)) /\
  getDeadMessages d' = getDeadMessages d /\
  getQueueStatus d'
  = mkQueueStatus (qs_pending (getQueueStatus d)) (qs_processing (getQueueStatus d))
      (qs_completed (getQueueStatus d) - n) (qs_dead (getQueueStatus d))
      (qs_responsesPending (getQueueStatus d)).
Proof.
  simpl. set (cutoff := now - default DEFAULT_PRUNE_AGE_MS olderThanMs).
  assert (Hkeep : forall p : DbMessage -> bool,
            (forall r, p r = true -> m_status r <> Completed) ->
            List.filter p (List.filter (fun r => negb (prunableMessage cutoff r)) (messages d))
            = List.filter p (messages d)).
  { intros p Hp. apply filter_filter_sub. intros r Hr. apply Hp in Hr.
    unfold prunableMessage. destruct (m_status r); simpl; congruence. }
  split; [|split; [|split; [|split; [|split]]]].
  - intros r. rewrite List.filter_In, negb_true_iff, <- not_true_iff_false.
    unfold prunableMessage. now rewrite andb_true_iff, MsgStatus_eqb_eq, Z.ltb_lt.
  - apply changes_split.
  - unfold getPendingAgents. simpl. rewrite Hkeep; [reflexivity|].
    intros r Hr. apply MsgStatus_eqb_eq in Hr. congruence.
  - intros A t. unfold claimNextMessage. simpl. rewrite Hkeep.
    + now destruct (oldest _).
    + intros r Hr. apply claimable_spec in Hr as [Hs _]. congruence.
  - unfold getDeadMessages. simpl. rewrite Hkeep; [reflexivity|].
    intros r Hr. apply MsgStatus_eqb_eq in Hr. congruence.
  - unfold getQueueStatus, countStatus, changes. simpl.
    rewrite (Hkeep (fun r => MsgStatus_eqb (m_status r) Pending)),
      (Hkeep (fun r => MsgStatus_eqb (m_status r) Processing)),
      (Hkeep (fun r => MsgStatus_eqb (m_status r) Dead))
      by (intros r Hr; apply MsgStatus_eqb_eq in Hr; congruence).
    f_equal.
    pose proof (List.filter_length (prunableMessage cutoff)
                  (List.filter (fun r => MsgStatus_eqb (m_status r) Completed) (messages d)))
      as Hsplit.
    assert (E1 : List.filter (prunableMessage cutoff)
                   (List.filter (fun r => MsgStatus_eqb (m_status r) Completed) (messages d))
                 = List.filter (prunableMessage cutoff) (messages d)).
    { apply filter_filter_sub. intros r Hr. unfold prunableMessage in Hr.
      now apply andb_true_iff in Hr as [? _]. }
    assert (E2 : List.filter (fun x => negb (prunableMessage cutoff x))
                   (List.filter (fun r => MsgStatus_eqb (m_status r) Completed) (messages d))
                 = List.filter (fun r => MsgStatus_eqb (m_status r) Completed)
                     (List.filter (fun r => negb (prunableMessage cutoff r)) (messages d))).
    { apply filter_comm. }
    rewrite E1, E2 in Hsplit. lia.
Qed.

End DeadLetters.

(* ===================================================================== *)
(** * Further properties of the SQLite queue processor                    *)
(* ===================================================================== *)

(** ** The main loop *)

Section MainLoop.
Import Types Db Plugins Dispatcher.

Lemma claim_fst (A : string) (t : Z) (d : QueueDb) :
  fst (claimNextMessage A t d)
  = claimed_copy A <$> oldest (List.filter (claimable A) (messages d)).
Proof. unfold claimNextMessage. now destruct (oldest _). Qed.

Lemma filter_update_where {A} (p c : A -> bool) (f : A -> A) (l : list A) :
  (forall x, In x l -> c x = true -> p x = false /\ p (f x) = false) ->
  List.filter p (update_where c f l) = List.filter p l.
Proof.
  induction l as [|x l IH]; simpl; intros H; [reflexivity|].
  rewrite IH by (intros y Hy; apply H; now right).
  destruct (c x) eqn:C; [|reflexivity].
  destruct (H x (or_introl eq_refl) C) as [-> ->]. reflexivity.
Qed.

(** A claim for [A] leaves what is pending for another agent as it is. *)
Lemma claim_other_agent (A B : string) (t : Z) (d : QueueDb) :
  keys_ok d -> A <> B ->
  List.filter (claimable B) (messages (snd (claimNextMessage A t d)))
  = List.filter (claimable B) (messages d).
Proof.
  intros Hk Hne. unfold claimNextMessage.
  destruct (oldest (List.filter (claimable A) (messages d))) as [row|] eqn:E;
    [|reflexivity].
  simpl. apply filter_update_where. intros x Hx Hid.
  apply oldest_In, List.filter_In in E as [Hrow Hc].
  assert (x = row) as ->.
  { apply Z.eqb_eq in Hid.
    pose proof (message_row_unique _ _ Hk Hx) as U1.
    pose proof (message_row_unique _ _ Hk Hrow) as U2.
    rewrite Hid in U1. congruence. }
  split.
  - apply not_true_iff_false. intros Hb.
    apply claimable_target in Hc as [_ Ha]. apply claimable_target in Hb as [_ Hb].
    congruence.
  - reflexivity.
Qed.

Lemma claimFor_effect (env : Env) (A : string) (st : State) :
  keys_ok (db st) -> In A (getPendingAgents (db st)) ->
  exists row st',
    claimFor env A st = Returned tt st' /\
    (forall t, fst (claimNextMessage A t (db st)) = Some row) /\
    chained st' = chained st ++ [(A, row)] /\
    keys_ok (db st') /\
    (forall B, A <> B ->
       List.filter (claimable B) (messages (db st'))
       = List.filter (claimable B) (messages (db st))) /\
    countStatus Pending (messages (db st')) = countStatus Pending (messages (db st)) - 1 /\
    countStatus Processing (messages (db st'))
    = countStatus Processing (messages (db st)) + 1 /\
    countStatus Completed (messages (db st')) = countStatus Completed (messages (db st)) /\
    countStatus Dead (messages (db st')) = countStatus Dead (messages (db st)) /\
    responses (db st') = responses (db st) /\
    conversations st' = conversations st /\ disk st' = disk st /\
    logs st' = logs st /\ events st' = events st /\ invocations st' = invocations st.
Proof.
  intros Hk Hin. apply getPendingAgents_In in Hin as (r & Hr & Hc).
  destruct (oldest (List.filter (claimable A) (messages (db st)))) as [row|] eqn:E.
  2:{ apply oldest_None in E.
      assert (Hf : In r (List.filter (claimable A) (messages (db st))))
        by now apply List.filter_In.
      rewrite E in Hf. destruct Hf. }
  exists (claimed_copy A row).
  pose proof (claim_keys_ok A (clock env (reads st)) (db st) Hk) as Hk'.
  pose proof (fun B H => claim_other_agent A B (clock env (reads st)) (db st) Hk H) as Hoth.
  unfold claimFor, bind, getState, Date_now, modify.
  unfold claimNextMessage in *. rewrite E in *. simpl in *.
  eexists. split; [reflexivity|]. simpl.
  split; [intros _; reflexivity|]. split; [reflexivity|]. split; [exact Hk'|].
  split; [exact Hoth|].
  pose proof (oldest_In _ _ E) as Hrow. apply List.filter_In in Hrow as [Hrow Hcl].
  apply claimable_spec in Hcl as [Hs _].
  pose proof (message_row_unique _ _ Hk Hrow) as Hfind. unfold message_row in Hfind.
  destruct Hk as [Hnd _]. apply NoDup_ListNoDup in Hnd.
  rewrite !(countStatus_update _ _ _ _ _ Hnd Hfind). simpl. rewrite Hs. simpl.
  repeat split; lia.
Qed.

Lemma forEach_claims (env : Env) (L : list string) :
  forall st, keys_ok (db st) -> List.NoDup L ->
    (forall A, In A L -> In A (getPendingAgents (db st))) ->
    exists st' claimed,
      forEach L (claimFor env) st = Returned tt st' /\
      chained st' = chained st ++ claimed /\
      List.map fst claimed = L /\
      (forall A row, In (A, row) claimed ->
         forall t, fst (claimNextMessage A t (db st)) = Some row) /\
      keys_ok (db st') /\
      countStatus Pending (messages (db st'))
      = countStatus Pending (messages (db st)) - Z.of_nat (List.length L) /\
      countStatus Processing (messages (db st'))
      = countStatus Processing (messages (db st)) + Z.of_nat (List.length L) /\
      countStatus Completed (messages (db st')) = countStatus Completed (messages (db st)) /\
      countStatus Dead (messages (db st')) = countStatus Dead (messages (db st)) /\
      responses (db st') = responses (db st) /\
      conversations st' = conversations st /\ disk st' = disk st /\
      logs st' = logs st /\ events st' = events st /\ invocations st' = invocations st.
Proof.
  induction L as [|A L IH]; intros st Hk Hnd Hall.
  - exists st, []. simpl. rewrite app_nil_r.
    split; [reflexivity|]. split; [reflexivity|]. split; [reflexivity|].
    split; [intros A row []|]. split; [exact Hk|].
    repeat split; lia.
  - apply List.NoDup_cons_iff in Hnd as [HA Hnd].
    destruct (claimFor_effect env A st Hk (Hall A (or_introl eq_refl)))
      as (row & st1 & E1 & Hrow & Hch & Hk1 & Hoth & P1 & P2 & P3 & P4 & R1 & F1 & F2 & F3 & F4 & F5).
    assert (Hne : forall B, In B L -> A <> B) by (intros B HB ->; contradiction).
    destruct (IH st1 Hk1 Hnd) as (st' & claimed & E2 & Hch2 & Hmap & Hrows & Hk2 & Q1 & Q2 & Q3 & Q4 & R2 & G1 & G2 & G3 & G4 & G5).
    { intros B HB. apply getPendingAgents_In.
      pose proof (Hall B (or_intror HB)) as HB'. apply getPendingAgents_In in HB' as (r & Hr & Hc).
      assert (Hf : In r (List.filter (claimable B) (messages (db st1)))).
      { rewrite (Hoth B (Hne B HB)). now apply List.filter_In. }
      apply List.filter_In in Hf. eauto. }
    exists st', ((A, row) :: claimed).
    simpl forEach. unfold bind at 1. rewrite E1.
    split; [exact E2|].
    split; [rewrite Hch2, Hch, <- app_assoc; reflexivity|].
    split; [simpl; now rewrite Hmap|].
    split.
    { intros B r [[= <- <-]|Hin] t; [apply Hrow|].
      assert (HB : In B L).
      { rewrite <- Hmap. apply List.in_map_iff. exists (B, r). auto. }
      rewrite <- (Hrows B r Hin t). rewrite !claim_fst. now rewrite (Hoth B (Hne B HB)). }
    split; [exact Hk2|].
    simpl List.length. rewrite Nat2Z.inj_succ.
    repeat split; try congruence; lia.
Qed.

(** X15.  One pass of the main loop [processQueue] claims, for every agent
    that has a pending message, exactly one message, the one
    [claimNextMessage] returns for that agent on the store as the pass
    found it, and chains it on that agent's promise chain, in the order of
    [getPendingAgents]; no claim of the pass comes back empty.  In the
    queue status as many rows move from pending to processing as there
    are pending agents; the response table, the conversations, the disk,
    the log and the events are as before. *)
Theorem processQueue_claims_one_each (env : Env) (st : State) :
  keys_ok (db st) ->
  exists st' claimed,
    processQueue env st = Returned tt st' /\
    chained st' = chained st ++ claimed /\
    List.map fst claimed = getPendingAgents (db st) /\
    (forall A row, In (A, row) claimed ->
       forall t, fst (claimNextMessage A t (db st)) = Some row) /\
    qs_pending (getQueueStatus (db st'))
    = qs_pending (getQueueStatus (db st)) - Z.of_nat (List.length (getPendingAgents (db st))) /\
    qs_processing (getQueueStatus (db st'))
    = qs_processing (getQueueStatus (db st))
      + Z.of_nat (List.length (getPendingAgents (db st))) /\
    qs_completed (getQueueStatus (db st')) = qs_completed (getQueueStatus (db st)) /\
    qs_dead (getQueueStatus (db st')) = qs_dead (getQueueStatus (db st)) /\
    responses (db st') = responses (db st) /\
    conversations st' = conversations st /\ disk st' = disk st /\
    logs st' = logs st /\ events st' = events st /\ invocations st' = invocations st.
Proof.
  intros Hk.
  destruct (forEach_claims env (getPendingAgents (db st)) st Hk (NoDup_distinct _)
              (fun A H => H))
    as (st' & claimed & E & H1 & H2 & H3 & _ & H5 & H6 & H7 & H8 & H9).
  exists st', claimed. unfold processQueue, bind, getState. simpl.
  repeat split; try tauto.
Qed.

Lemma processQueue_claims_one_each_witness :
  keys_ok sample_db /\
  exists st',
    processQueue (Samples.directEnv Samples.echoSpawn)
      (mkState sample_db ∅ ∅ [] [] [] [] 0) = Returned tt st' /\
    List.map (fun e => (fst e, m_id (snd e))) (chained st')
    = [("coder"%string, 4); ("default"%string, 3)].
Proof.
  split; [exact sample_db_keys_ok|].
  destruct (processQueue_claims_one_each (Samples.directEnv Samples.echoSpawn)
              (mkState sample_db ∅ ∅ [] [] [] [] 0) sample_db_keys_ok)
    as (st' & claimed & E & _).
  exists st'. split; [exact E|].
  vm_compute in E. inversion E. reflexivity.
Defined.

End MainLoop.


(** ** What no step of [processMessage] undoes *)

Section Settling.
Import Text Types Db Plugins Invoke Dispatcher.

Lemma keeps_rows_refl (st : State) : keeps_rows st st.
Proof. split; [reflexivity|auto]. Qed.

Lemma keeps_rows_trans (s1 s2 s3 : State) :
  keeps_rows s1 s2 -> keeps_rows s2 s3 -> keeps_rows s1 s3.
Proof. intros [A1 B1] [A2 B2]. split; [set_solver|auto]. Qed.

Lemma keeps_rows_same (st st' : State) :
  db st' = db st -> disk st' = disk st -> keeps_rows st st'.
Proof. intros H1 H2. split; [now rewrite H2|]. intros k. now rewrite H1. Qed.

Lemma always_ret {A} (R : State -> State -> Prop) (a : A) :
  (forall st, R st st) -> always R (ret a).
Proof. intros HR st. apply HR. Qed.

Lemma always_throw {A} (R : State -> State -> Prop) (e : string) :
  (forall st, R st st) -> always R (@throw A e).
Proof. intros HR st. apply HR. Qed.

Lemma always_bind {A B} (R : State -> State -> Prop) (c : M A) (k : A -> M B) :
  (forall s1 s2 s3, R s1 s2 -> R s2 s3 -> R s1 s3) ->
  always R c -> (forall a, always R (k a)) -> always R (bind c k).
Proof.
  intros HT Hc Hk st. unfold bind. specialize (Hc st).
  destruct (c st) as [a st1|e st1]; [|exact Hc].
  specialize (Hk a st1). destruct (k a st1); eauto.
Qed.

Lemma always_modify (R : State -> State -> Prop) (f : State -> State) :
  (forall st, R st (f st)) -> always R (modify f).
Proof. intros H st. apply H. Qed.

Lemma always_getState (R : State -> State -> Prop) :
  (forall st, R st st) -> always R getState.
Proof. intros HR st. apply HR. Qed.

Lemma always_when (R : State -> State -> Prop) (b : bool) (c : M unit) :
  (forall st, R st st) -> always R c -> always R (when b c).
Proof. intros HR Hc. destruct b; [exact Hc|now apply always_ret]. Qed.

Lemma always_forEach {A} (R : State -> State -> Prop) (l : list A) (body : A -> M unit) :
  (forall st, R st st) -> (forall s1 s2 s3, R s1 s2 -> R s2 s3 -> R s1 s3) ->
  (forall x, always R (body x)) -> always R (forEach l body).
Proof.
  intros HR HT Hb. induction l as [|x l IH]; simpl.
  - now apply always_ret.
  - apply always_bind; auto.
Qed.

(** Reading the state first: the continuation starts in the state read. *)
Lemma always_reading {A} (R : State -> State -> Prop) (k : State -> M A) :
  (forall st, match k st st with
              | Returned _ st' | Thrown _ st' => R st st'
              end) ->
  always R (bind getState k).
Proof. intros H st. apply H. Qed.

Ltac rows_step :=
  lazymatch goal with
  | |- always _ (ret _) => apply always_ret; exact keeps_rows_refl
  | |- always _ (throw _) => apply always_throw; exact keeps_rows_refl
  | |- always _ getState => apply always_getState; exact keeps_rows_refl
  | |- always _ (modify _) =>
      apply always_modify; intros ?; apply keeps_rows_same; reflexivity
  | |- always _ (when _ _) => apply always_when; [exact keeps_rows_refl|]
  | |- always _ (forEach _ _) =>
      apply always_forEach; [exact keeps_rows_refl|exact keeps_rows_trans|intros ?]
  | |- always _ (bind _ _) => apply always_bind; [exact keeps_rows_trans | | intros ?]
  end.

Lemma message_row_update (k : Z) (c : DbMessage -> bool) (f : DbMessage -> DbMessage)
    (d : QueueDb) :
  (forall r, m_id (f r) = m_id r) -> message_row k d <> None ->
  message_row k (with_messages d (update_where c f (messages d))) <> None.
Proof.
  intros Hf. unfold message_row. simpl.
  induction (messages d) as [|x rows IH]; simpl; [auto|].
  destruct (Z.eqb_spec (m_id x) k) as [e|ne]; intros H.
  - destruct (c x); [rewrite Hf|]; rewrite e, Z.eqb_refl; discriminate.
  - destruct (c x); [rewrite Hf|];
      destruct (Z.eqb_spec (m_id x) k); try contradiction; auto.
Qed.

Lemma claim_keeps_row (A : string) (t k : Z) (d : QueueDb) :
  message_row k d <> None -> message_row k (snd (claimNextMessage A t d)) <> None.
Proof.
  intros H. unfold claimNextMessage. destruct (oldest _); simpl; [|exact H].
  now apply message_row_update.
Qed.

Lemma enqueue_keeps_row (data : EnqueueMessageData) (t k j : Z) (d d' : QueueDb) :
  enqueueMessage data t d = Inserted j d' ->
  message_row k d <> None -> message_row k d' <> None.
Proof.
  unfold enqueueMessage. destruct (List.existsb _ _); [discriminate|].
  intros [= _ <-]. unfold message_row. simpl.
  destruct (List.find _ (messages d)) as [r|] eqn:E; [|congruence]. intros _.
  now rewrite (find_app_present _ _ _ _ E).
Qed.

Lemma rows_log (level message : string) : always keeps_rows (log level message).
Proof. unfold log. rows_step. Qed.

Lemma rows_add_logs (l : list LogLine) : always keeps_rows (modify (add_logs l)).
Proof. rows_step. Qed.

Lemma rows_emitEvent (type : string) (data : list (string * string)) :
  always keeps_rows (emitEvent type data).
Proof. unfold emitEvent. rows_step. Qed.

Lemma rows_Date_now (env : Env) : always keeps_rows (Date_now env).
Proof. intros st. apply keeps_rows_same; reflexivity. Qed.

Lemma rows_update_conversation (id : string) (f : Conversation -> Conversation) :
  always keeps_rows (update_conversation id f).
Proof. unfold update_conversation. rows_step. Qed.

Lemma rows_claimFor (env : Env) (A : string) : always keeps_rows (claimFor env A).
Proof.
  unfold claimFor. apply always_reading. intros st.
  pose proof (fun k => claim_keeps_row A (clock env (reads st)) k (db st)) as H.
  destruct (claimNextMessage A (clock env (reads st)) (db st)) as [[dbMsg|] d'];
    simpl in *; [|apply keeps_rows_refl].
  split; [reflexivity|exact H].
Qed.

Lemma rows_processQueue (env : Env) : always keeps_rows (processQueue env).
Proof.
  unfold processQueue. apply always_reading. intros st.
  apply (always_forEach keeps_rows); [exact keeps_rows_refl|exact keeps_rows_trans|].
  apply rows_claimFor.
Qed.

Lemma rows_dbEnqueueMessage (env : Env) (data : EnqueueMessageData) :
  always keeps_rows (dbEnqueueMessage env data).
Proof.
  unfold dbEnqueueMessage.
  apply always_bind; [exact keeps_rows_trans|apply rows_Date_now|intros now].
  apply always_reading. intros st.
  destruct (enqueueMessage data now (db st)) as [rowId d'|] eqn:E;
    [|apply keeps_rows_refl].
  unfold bind at 1. unfold modify at 1.
  assert (H1 : keeps_rows st (set_db d' st)).
  { split; [reflexivity|]. intros k. simpl. now apply (enqueue_keeps_row _ _ _ _ _ _ E). }
  assert (H2 : always keeps_rows (processQueue env;; ret rowId)).
  { apply always_bind; [exact keeps_rows_trans|apply rows_processQueue|intros ?].
    rows_step. }
  specialize (H2 (set_db d' st)).
  destruct ((processQueue env;; ret rowId) (set_db d' st));
    exact (keeps_rows_trans _ _ _ H1 H2).
Qed.

Lemma rows_dbEnqueueResponse (env : Env) (data : EnqueueResponseData) :
  always keeps_rows (dbEnqueueResponse env data).
Proof. intros st. split; [reflexivity|]. intros k H. exact H. Qed.

Lemma rows_dbCompleteMessage (env : Env) (k : Z) :
  always keeps_rows (dbCompleteMessage env k).
Proof.
  intros st. split; [reflexivity|]. intros j. simpl. now apply message_row_update.
Qed.

Lemma rows_enqueueInternalMessage (env : Env) (conversationId fromAgent targetAgent
    message channel sender : string) (senderId : option string) :
  always keeps_rows
    (enqueueInternalMessage env conversationId fromAgent targetAgent message
       channel sender senderId).
Proof.
  unfold enqueueInternalMessage.
  apply always_bind; [exact keeps_rows_trans|apply rows_Date_now|intros now].
  apply always_reading. intros st.
  pose proof (rows_dbEnqueueMessage env
    (mkEnqueueMessageData channel sender senderId message
       ("internal_" +:+ conversationId +:+ "_" +:+ targetAgent +:+ "_" +:+ showZ now
        +:+ "_" +:+ showZ (messages_seq (db st)))
       (Some targetAgent) None (Some conversationId) (Some fromAgent)) st) as H.
  unfold bind. destruct (dbEnqueueMessage env _ st); exact H.
Qed.

Ltac rows_auto :=
  repeat
    lazymatch goal with
    | |- always _ (log _ _) => apply rows_log
    | |- always _ (emitEvent _ _) => apply rows_emitEvent
    | |- always _ (Date_now _) => apply rows_Date_now
    | |- always _ (update_conversation _ _) => apply rows_update_conversation
    | |- always _ (dbEnqueueResponse _ _) => apply rows_dbEnqueueResponse
    | |- always _ (dbCompleteMessage _ _) => apply rows_dbCompleteMessage
    | |- always _ (enqueueInternalMessage _ _ _ _ _ _ _ _) =>
        apply rows_enqueueInternalMessage
    | |- always _ _ => rows_step
    end.

Lemma rows_completeConversation (env : Env) (c : Conversation) :
  always keeps_rows (completeConversation env c).
Proof.
  unfold completeConversation. rows_auto.
Qed.

Lemma rows_finishBranch (env : Env) (convId : string) :
  always keeps_rows (finishBranch env convId).
Proof.
  unfold finishBranch, decrementPending. rows_auto.
  destruct (conversations _ !! convId); [|rows_step].
  destruct a; [apply rows_completeConversation|apply rows_log].
Qed.

Lemma rows_newConversation (env : Env) (dbMsg : DbMessage) (tc : TeamContext) :
  always keeps_rows (newConversation env dbMsg tc).
Proof.
  unfold newConversation. rows_auto.
Qed.

Lemma rows_obtainConversation (env : Env) (dbMsg : DbMessage) (tc : TeamContext) :
  always keeps_rows (obtainConversation env dbMsg tc).
Proof.
  unfold obtainConversation.
  apply always_bind; [exact keeps_rows_trans|rows_step|intros st].
  destruct (if isInternal dbMsg then _ else _) as [id|]; [|apply rows_newConversation].
  destruct (conversations st !! id); [rows_step|apply rows_newConversation].
Qed.

Lemma rows_recordResponse (env : Env) (dbMsg : DbMessage) (r : Routed)
    (response convId : string) :
  always keeps_rows (recordResponse env dbMsg r response convId).
Proof.
  unfold recordResponse, incrementPending.
  apply always_bind; [exact keeps_rows_trans|apply rows_update_conversation|intros _].
  apply always_bind; [exact keeps_rows_trans|rows_step|intros st].
  destruct (conversations st !! convId); [|rows_step].
  destruct (_ && _).
  - rows_auto.
  - destruct (0 <? _); [apply rows_log|rows_step].
Qed.

Lemma rows_recordStep (env : Env) (dbMsg : DbMessage) (r : Routed) (tc : TeamContext)
    (response : string) :
  always keeps_rows (recordStep env dbMsg r tc response).
Proof.
  unfold recordStep.
  apply always_bind; [exact keeps_rows_trans|apply rows_obtainConversation|intros convId].
  apply always_bind; [exact keeps_rows_trans|apply rows_recordResponse|intros _].
  rows_step.
Qed.

Lemma rows_invoke (env : Env) (dbMsg : DbMessage) (r : Routed) :
  always keeps_rows (invoke env dbMsg r).
Proof.
  unfold invoke. cbv zeta.
  apply always_bind; [exact keeps_rows_trans|rows_step|intros _].
  apply always_bind; [exact keeps_rows_trans|apply rows_emitEvent|intros _].
  apply always_bind; [exact keeps_rows_trans|rows_step|intros _].
  apply always_bind; [exact keeps_rows_trans| |intros response; rows_auto].
  destruct (invokeAgent env _ _ _ _ _); rows_auto.
Qed.

Lemma rows_replyDirect (env : Env) (dbMsg : DbMessage) (r : Routed) (response : string) :
  always keeps_rows (replyDirect env dbMsg r response).
Proof.
  unfold replyDirect. cbv zeta.
  apply always_bind; [exact keeps_rows_trans|apply rows_add_logs|intros _].
  destruct (handleLongResponse env _ _) as [responseMessage allFiles].
  rows_auto.
Qed.

Lemma rows_route (env : Env) (dbMsg : DbMessage) : always keeps_rows (route env dbMsg).
Proof.
  unfold route. cbv zeta.
  apply always_bind; [exact keeps_rows_trans|apply rows_log|intros _].
  apply always_bind; [exact keeps_rows_trans| |intros _].
  { apply always_when; [exact keeps_rows_refl|apply rows_emitEvent]. }
  match goal with
  | |- always _ (let '(_, _) := ?x in _) => destruct x as [agentId message]
  end.
  match goal with
  | |- always _ (match ?x with Some _ => _ | None => _ end) =>
      destruct x as [[agentId' agent]|]
  end; [|rows_step].
  apply always_bind; [exact keeps_rows_trans|apply rows_log|intros _].
  apply always_bind; [exact keeps_rows_trans| |intros _].
  { apply always_when; [exact keeps_rows_refl|apply rows_emitEvent]. }
  apply always_reading. intros st. unfold bind, when, modify, ret.
  destruct (bool_decide _); simpl; [|apply keeps_rows_refl].
  split; [|auto]. simpl. intros x Hx.
  apply elem_of_difference in Hx as [Hx _]. exact Hx.
Qed.

(** What follows the routing in the body of [processMessage]. *)
Lemma rows_afterRoute (env : Env) (dbMsg : DbMessage) (r : Routed) :
  always keeps_rows
    (let* response := invoke env dbMsg r in
     match rd_teamContext r with
     | None => replyDirect env dbMsg r response
     | Some tc =>
         let* convId := recordStep env dbMsg r tc response in
         finishBranch env convId ;;
         dbCompleteMessage env (m_id dbMsg)
     end).
Proof.
  apply always_bind; [exact keeps_rows_trans|apply rows_invoke|intros response].
  destruct (rd_teamContext r) as [tc|]; [|apply rows_replyDirect].
  apply always_bind; [exact keeps_rows_trans|apply rows_recordStep|intros convId].
  apply always_bind; [exact keeps_rows_trans|apply rows_finishBranch|intros _].
  apply rows_dbCompleteMessage.
Qed.

Lemma rows_processBody (env : Env) (dbMsg : DbMessage) :
  always keeps_rows (processBody env dbMsg).
Proof.
  unfold processBody.
  apply always_bind; [exact keeps_rows_trans|apply rows_route|intros r].
  apply rows_afterRoute.
Qed.

Lemma fail_keeps_row (k j : Z) (e : string) (t : Z) (d : QueueDb) :
  message_row j d <> None -> message_row j (failMessage k e t d) <> None.
Proof.
  intros H. destruct (Z.eq_dec j k) as [->|ne].
  - destruct (message_row k d) as [r|] eqn:E; [|contradiction].
    now rewrite (failMessage_row _ _ _ _ _ E).
  - now rewrite failMessage_other.
Qed.

Lemma rows_dbFailMessage (env : Env) (k : Z) (e : string) :
  always keeps_rows (dbFailMessage env k e).
Proof.
  unfold dbFailMessage. apply always_reading. intros st.
  destruct (message_row k (db st)); [|apply keeps_rows_refl].
  split; [reflexivity|]. intros j. simpl. apply fail_keeps_row.
Qed.

Lemma rows_processMessage (env : Env) (dbMsg : DbMessage) (st : State) :
  keeps_rows st (processMessage env dbMsg st).
Proof.
  unfold processMessage. pose proof (rows_processBody env dbMsg st) as H.
  destruct (processBody env dbMsg st) as [a st1|e st1]; [exact H|].
  assert (H2 : always keeps_rows
                 (log "ERROR" ("Processing error: " +:+ e);;
                  dbFailMessage env (m_id dbMsg) e)).
  { apply always_bind; [exact keeps_rows_trans|apply rows_log|intros _].
    apply rows_dbFailMessage. }
  specialize (H2 st1).
  destruct ((log "ERROR" ("Processing error: " +:+ e);;
             dbFailMessage env (m_id dbMsg) e) st1);
    exact (keeps_rows_trans _ _ _ H H2).
Qed.

End Settling.


(** ** Routing *)

Section RoutingOfRows.
Import Text Types Db Plugins Invoke Dispatcher.

#[local] Arguments substring0 : simpl never.
#[local] Arguments String.append : simpl never.

Lemma get_head_keys {V} (o : Registry V) :
  head (keys o) ≫= (fun k => (fun a => (k, a)) <$> get k o) = head o.
Proof.
  destruct o as [|[k v] o]; simpl; [reflexivity|]. now rewrite String.eqb_refl.
Qed.

Lemma flag_left (flag : string) (files : gset string) (p : string) :
  p ∈ (if bool_decide (flag ∈ files) then files ∖ {[flag]} else files) <->
  p ∈ files /\ p <> flag.
Proof.
  case_bool_decide as H.
  - rewrite elem_of_difference, not_elem_of_singleton. tauto.
  - split; [|tauto]. intros Hp. split; [exact Hp|]. intros ->. contradiction.
Qed.

Ltac route_done G :=
  simpl; rewrite ?G; simpl;
  match goal with |- context [bool_decide ?P] => destruct (bool_decide P) end; simpl;
  (split; [reflexivity|]; split; [reflexivity|]; split; [|split; reflexivity]);
  intros; try discriminate; apply append_empty_r.

(** What [route] settles, in the terms of its three steps: the routing
    taken from the row or from the parser, the fall-back to ['default'],
    and the fall-back to the first agent. *)
Lemma route_outcome (env : Env) (dbMsg : DbMessage) (st : State) :
  let routing :=
    match (match m_agent dbMsg with
           | Some a => if truthy (Some a) then
                         match get a (agents env) with
                         | Some _ => Some a
                         | None => None
                         end
                       else None
           | None => None
           end) with
    | Some a => mkTeamRouting a (m_message dbMsg) false
    | None => parseAgentRouting env (m_message dbMsg) (agents env) (teams env)
    end in
  let chosen :=
    match get (rt_agentId routing) (agents env) with
    | Some agent => Some (rt_agentId routing, agent, rt_message routing)
    | None =>
        match get "default"%string (agents env) with
        | Some agent => Some ("default"%string, agent, m_message dbMsg)
        | None =>
            match agents env with
            | (k, agent) :: _ => Some (k, agent, m_message dbMsg)
            | [] => None
            end
        end
    end in
  match chosen, route env dbMsg st with
  | None, Thrown _ _ => True
  | Some (agentId, agent, message), Returned r st' =>
      rd_agentId r = agentId /\ rd_agent r = agent /\
      (isInternal dbMsg = false -> rd_message r = message) /\
      rd_shouldReset r
      = bool_decide (getAgentResetFlag agentId (workspacePath env) ∈ disk st) /\
      disk st'
      = (if bool_decide (getAgentResetFlag agentId (workspacePath env) ∈ disk st)
         then disk st ∖ {[getAgentResetFlag agentId (workspacePath env)]}
         else disk st)
  | _, _ => False
  end.
Proof.
  cbv zeta. unfold route. cbv zeta.
  unfold bind, log, emitEvent, when, modify, getState, ret, throw.
  set (routing := match (match m_agent dbMsg with Some _ => _ | None => _ end) with
                  | Some a => mkTeamRouting a (m_message dbMsg) false
                  | None => _
                  end).
  destruct (get (rt_agentId routing) (agents env)) as [agent|] eqn:G1; simpl.
  - rewrite G1. destruct (isInternal dbMsg); route_done G1.
  - destruct (get "default"%string (agents env)) as [agent|] eqn:G2; simpl.
    + rewrite G2. destruct (isInternal dbMsg); route_done G2.
    + rewrite get_head_keys.
      destruct (agents env) as [|[k agent] rest]; simpl.
      * now destruct (isInternal dbMsg).
      * destruct (isInternal dbMsg); route_done G2.
Qed.



(** X17.  A reset flag serves one message.  [route] tells the invocation
    to reset exactly when the flag file of the agent it settled on exists,
    and deletes that file and no other.  A row routed to the same agent
    from the disk it leaves is not told to reset. *)
Theorem reset_flag_consumed_once (env : Env) (dbMsg : DbMessage) (st : State)
    (r : Routed) (st1 : State) :
  route env dbMsg st = Returned r st1 ->
  let flag := getAgentResetFlag (rd_agentId r) (workspacePath env) in
  (rd_shouldReset r = true <-> flag ∈ disk st) /\
  (forall p, p ∈ disk st1 <-> p ∈ disk st /\ p <> flag) /\
  (forall next st2 r2 st3, disk st2 = disk st1 ->
     route env next st2 = Returned r2 st3 ->
     rd_agentId r2 = rd_agentId r -> rd_shouldReset r2 = false).
Proof.
  intros E. cbv zeta.
  pose proof (route_outcome env dbMsg st) as H. cbv zeta in H. rewrite E in H.
  assert (Hr : rd_shouldReset r
               = bool_decide (getAgentResetFlag (rd_agentId r) (workspacePath env) ∈ disk st)
               /\ forall p, p ∈ disk st1 <->
                    p ∈ disk st /\ p <> getAgentResetFlag (rd_agentId r) (workspacePath env)).
  { destruct (match get (rt_agentId _) (agents env) with Some _ => _ | None => _ end)
      as [[[agentId agent] message]|]; [|destruct H].
    destruct H as (<- & _ & _ & H4 & H5). split; [exact H4|].
    intros p. rewrite H5. apply flag_left. }
  destruct Hr as [Hr1 Hr2]. clear H.
  split; [|split; [exact Hr2|]].
  - rewrite Hr1. apply bool_decide_eq_true.
  - intros next st2 r2 st3 Hdisk E2 Hsame.
    pose proof (route_outcome env next st2) as H2.
    cbv zeta in H2. rewrite E2 in H2.
    destruct (match get (rt_agentId _) (agents env) with Some _ => _ | None => _ end)
      as [[[agentId agent] message]|]; [|destruct H2].
    destruct H2 as (<- & _ & _ & H4 & _). rewrite H4, Hsame.
    apply bool_decide_eq_false. rewrite Hdisk. intros Hin.
    pose proof (proj1 (Hr2 _) Hin) as [_ Hne]. now apply Hne.
Qed.

Lemma reset_flag_consumed_once_witness :
  let env := Samples.directEnv Samples.echoSpawn in
  let dbMsg := Samples.claimed_request "@coder hi" "coder" in
  let st := mkState emptyDb ∅ {[ "/ws/coder/reset_flag"%string ]} [] [] [] [] 0 in
  exists r st1,
    route env dbMsg st = Returned r st1 /\
    rd_agentId r = "coder"%string /\ rd_shouldReset r = true /\
    forall r2 st3, route env dbMsg st1 = Returned r2 st3 ->
      rd_agentId r2 = rd_agentId r -> rd_shouldReset r2 = false.
Proof.
  intros env dbMsg st.
  destruct (route env dbMsg st) as [r st1|] eqn:E; [|vm_compute in E; discriminate E].
  exists r, st1. split; [reflexivity|].
  destruct (reset_flag_consumed_once env dbMsg st r st1 E) as (H1 & _ & H4).
  assert (Hid : rd_agentId r = "coder"%string).
  { assert (E' := E). vm_compute in E'. injection E' as <- _. reflexivity. }
  split; [exact Hid|]. split; [|exact (fun r2 st3 => H4 dbMsg st1 r2 st3 eq_refl)].
  apply H1. rewrite Hid. vm_compute. reflexivity.
Defined.

End RoutingOfRows.

(** ** Several targets in one message: the SQLite processor *)

Section MultiTargetDispatch.
Import Text Types Db Plugins Invoke.

(** With an agent configured, [processMessage] of the SQLite processor
    reaches the invocation whatever the routing says: between the routing
    and the call of [invokeAgent] there is no branch that answers the
    message itself. *)
Lemma dispatcher_always_invokes (env : Dispatcher.Env) (dbMsg : DbMessage)
    (st : Dispatcher.State) :
  Dispatcher.agents env <> [] ->
  exists r st1 response st2,
    Dispatcher.route env dbMsg st = Dispatcher.Returned r st1 /\
    Dispatcher.invoke env dbMsg r st1 = Dispatcher.Returned response st2 /\
    Dispatcher.invocations st2
    = Dispatcher.invocations st ++
      [Dispatcher.mkInvocation (Dispatcher.rd_agentId r)
         (hs_text (runIncomingHooks (Dispatcher.loadedPlugins env) (Dispatcher.rd_message r)
                     (Dispatcher.hookContext dbMsg)))
         (Dispatcher.rd_shouldReset r)] /\
    responses (Dispatcher.db st2) = responses (Dispatcher.db st) /\
    messages (Dispatcher.db st2) = messages (Dispatcher.db st).
Proof.
  intros Hsome.
  pose proof (route_outcome env dbMsg st) as H. cbv zeta in H.
  destruct (Dispatcher.route env dbMsg st) as [r st1|e st1] eqn:Hr.
  2:{ exfalso.
      destruct (get (Dispatcher.rt_agentId _) (Dispatcher.agents env)); [destruct H|].
      destruct (get "default"%string (Dispatcher.agents env)); [destruct H|].
      destruct (Dispatcher.agents env) as [|[k agent] rest]; [congruence|destruct H]. }
  clear H.
  destruct (route_frame env dbMsg _ _ _ Hr) as (Hdb & _ & Hinv & _).
  exists r, st1.
  unfold Dispatcher.invoke, Dispatcher.bind, Dispatcher.modify, Dispatcher.emitEvent,
    Dispatcher.log, Dispatcher.modify, Dispatcher.ret.
  destruct (Dispatcher.invokeAgent env _ _ _ _ _) as [response|e];
    eexists _, _; (split; [reflexivity|]); (split; [reflexivity|]);
    cbn; rewrite Hinv, Hdb; auto.
Qed.

(** C6.  The SQLite processor does not short-circuit.  With an agent
    configured, every row it processes reaches [invokeAgent] before any
    response is enqueued, whatever [parseAgentRouting] returns: the code
    between the routing and the invocation has no branch for the ['error']
    outcome.  A row that is not pre-routed and whose routing yields
    ['error'], which names no agent, falls back to ['default'] with the raw
    text.  With agents [coder], [writer] and [default], the text
    [@coder @writer please coordinate] has two tokens that resolve; the
    processor invokes [default] with the raw text, enqueues that agent's
    answer, not the text that lists the targets, and completes the row.
    The file-queue processor does short-circuit on the same routing: for a
    message file that is not pre-routed and has two or more tokens that
    count, nothing reaches the part that runs the agent's command line, one
    response whose text lists the targets and asks for separate messages is
    written to the outgoing queue, and the file leaves the processing
    queue.  A token counts when the test [agents[teamId]] succeeds on its
    case-folded slug, which it does on a configured id and also on a name
    inherited from [Object.prototype]. *)
Theorem multi_target_not_short_circuited :
  (forall env dbMsg st,
     Dispatcher.agents env <> [] ->
     exists r st1 response st2,
       Dispatcher.route env dbMsg st = Dispatcher.Returned r st1 /\
       Dispatcher.invoke env dbMsg r st1 = Dispatcher.Returned response st2 /\
       Dispatcher.invocations st2
       = Dispatcher.invocations st ++
         [Dispatcher.mkInvocation (Dispatcher.rd_agentId r)
            (hs_text (runIncomingHooks (Dispatcher.loadedPlugins env)
                        (Dispatcher.rd_message r) (Dispatcher.hookContext dbMsg)))
            (Dispatcher.rd_shouldReset r)] /\
       responses (Dispatcher.db st2) = responses (Dispatcher.db st) /\
       messages (Dispatcher.db st2) = messages (Dispatcher.db st)) /\
  (forall env dbMsg st config,
     m_agent dbMsg = None -> m_conversation_id dbMsg = None ->
     Dispatcher.rt_agentId
       (Dispatcher.parseAgentRouting env (m_message dbMsg) (Dispatcher.agents env)
          (Dispatcher.teams env)) = "error"%string ->
     get "error" (Dispatcher.agents env) = None ->
     get "default" (Dispatcher.agents env) = Some config ->
     exists r st1 response st2,
       Dispatcher.route env dbMsg st = Dispatcher.Returned r st1 /\
       Dispatcher.rd_agentId r = "default"%string /\
       Dispatcher.rd_agent r = config /\
       Dispatcher.rd_message r = m_message dbMsg /\
       Dispatcher.invoke env dbMsg r st1 = Dispatcher.Returned response st2 /\
       Dispatcher.invocations st2
       = Dispatcher.invocations st ++
         [Dispatcher.mkInvocation "default"
            (hs_text (runIncomingHooks (Dispatcher.loadedPlugins env) (m_message dbMsg)
                        (Dispatcher.hookContext dbMsg)))
            (Dispatcher.rd_shouldReset r)] /\
       responses (Dispatcher.db st2) = responses (Dispatcher.db st) /\
       messages (Dispatcher.db st2) = messages (Dispatcher.db st)) /\
  (let env := Samples.directEnv Samples.echoSpawn in
   let raw := "@coder @writer please coordinate"%string in
   let dbMsg := Samples.claimed_request raw "default" in
   let st0 := Dispatcher.adapterEnqueue env (Samples.sample_request raw)
                Dispatcher.initialState in
   let st' := Dispatcher.processMessage env dbMsg (Dispatcher.set_chained [] st0) in
   Routing.detectMultipleTeams raw (Dispatcher.agents env)
   = ["coder"%string; "writer"%string] /\
   Dispatcher.rt_agentId
     (Dispatcher.parseAgentRouting env raw (Dispatcher.agents env) (Dispatcher.teams env))
   = "error"%string /\
   Dispatcher.chained st0 = [("default"%string, dbMsg)] /\
   Dispatcher.invocations st' = [Dispatcher.mkInvocation "default" raw false] /\
   List.map r_message (responses (Dispatcher.db st')) = [("echo: " +:+ raw)%string] /\
   List.map r_agent (responses (Dispatcher.db st')) = [Some "default"%string] /\
   List.map m_status (messages (Dispatcher.db st')) = [Completed]) /\
  (forall raw agents,
     (2 <= List.length (Routing.detectMultipleTeams raw agents))%nat ->
     let targets := Routing.detectMultipleTeams raw agents in
     Routing.parseAgentRouting raw agents
     = Routing.mkRoutingResult "error" (Routing.multiTeamMessage targets) /\
     (exists pre mid post,
        Routing.multiTeamMessage targets
        = (pre +:+ "You mentioned multiple teams: "
           +:+ join ", " (List.map (fun t => "@" +:+ t) targets) +:+ mid
           +:+ "For now, please send separate messages to each team:" +:+ post)%string) /\
     (forall answer now name q md,
        get name (FileQueue.incoming q) = Some md ->
        FileQueue.md_agent md = None -> FileQueue.md_message md = raw ->
        let q' := FileQueue.processMessage agents answer now name q in
        FileQueue.commands q' = FileQueue.commands q /\
        get name (FileQueue.incoming q') = None /\
        get name (FileQueue.processing q') = None /\
        FileQueue.outgoing q'
        = FileQueue.write_file name
            (FileQueue.mkResponseData (FileQueue.md_channel md) (FileQueue.md_sender md)
               (Routing.multiTeamMessage targets) raw now (FileQueue.md_messageId md)
               None None)
            (FileQueue.outgoing q))) /\
  (forall agents,
     (forall a b,
        Routing.detectMultipleTeams (a +:+ " " +:+ b) agents
        = Routing.detectMultipleTeams a agents ++ Routing.detectMultipleTeams b agents) /\
     (forall slug, slug <> EmptyString -> noSpace slug = true ->
        Routing.detectMultipleTeams ("@" +:+ slug) agents
        = if has (toLowerCase slug) agents then [toLowerCase slug] else []) /\
     (forall key, has key agents = true <->
        (exists config, In (key, config) agents) \/ inherited key = true) /\
     Routing.detectMultipleTeams "@coder @constructor hi" agents
     = (if has "coder" agents then ["coder"%string] else []) ++ ["constructor"%string]).
Proof.
  split; [exact dispatcher_always_invokes|].
  split; [exact dispatcher_falls_through|].
  split; [vm_compute; repeat split; reflexivity|].
  split.
  - intros raw agents Hmulti targets.
    split; [now apply parseAgentRouting_multi|].
    split.
    + exists (Routing.ROCKET +:+ " **Team-to-Team Collaboration - Coming Soon!**"
              +:+ nl +:+ nl)%string,
        (nl +:+ nl
         +:+ "Right now, I can only route to one team at a time. But we're working on something cool:"
         +:+ nl +:+ nl
         +:+ Routing.SPARKLES
         +:+ " **Multi-Team Coordination** - Teams will be able to collaborate on complex tasks!"
         +:+ nl
         +:+ Routing.SPARKLES
         +:+ " **Smart Routing** - Send instructions to multiple teams at once!" +:+ nl
         +:+ Routing.SPARKLES +:+ " **Team Handoffs** - One team can delegate to another!"
         +:+ nl +:+ nl)%string,
        (nl +:+ join nl (List.map (fun t => Routing.BULLET +:+ " `@" +:+ t +:+ " [your message]`")
                           targets)
         +:+ nl +:+ nl +:+ "_Stay tuned for updates! " +:+ Routing.PARTY +:+ "_")%string.
      reflexivity.
    + intros answer now name q md Hin Hag <-.
      exact (fileQueue_short_circuit agents answer now name q md Hin Hag Hmulti).
  - intros agents.
    split; [intros a b; apply detectMultipleTeams_blank|].
    split; [intros slug; apply detectMultipleTeams_token|].
    split.
    + intros key. unfold has. rewrite get_is_Some_iff.
      destruct (get key agents) as [v|]; [|destruct (inherited key)]; split; auto;
        try congruence; intros [H|H]; congruence.
    + change "@coder @constructor hi"%string
        with (("@" +:+ "coder") +:+ " " +:+ (("@" +:+ "constructor") +:+ " " +:+ "hi"))%string.
      rewrite !detectMultipleTeams_blank, !detectMultipleTeams_token
        by (try discriminate; reflexivity).
      change (toLowerCase "coder") with "coder"%string.
      change (toLowerCase "constructor") with "constructor"%string.
      rewrite (has_inherited "constructor" agents eq_refl).
      change (Routing.detectMultipleTeams "hi" agents) with (@nil string).
      now rewrite List.app_nil_r.
Qed.

Lemma multi_target_not_short_circuited_witness :
  let env := Samples.directEnv Samples.echoSpawn in
  let raw := "@coder @writer please coordinate"%string in
  let dbMsg := Samples.claimed_request raw "default" in
  let q' := FileQueue.processMessage Routing.sample_agents Samples.recordingAnswer 2000
              "m1.json" Samples.sample_queue in
  (exists r st1 response st2,
     Dispatcher.route env dbMsg Dispatcher.initialState = Dispatcher.Returned r st1 /\
     Dispatcher.rd_agentId r = "default"%string /\
     Dispatcher.rd_message r = raw /\
     Dispatcher.invoke env dbMsg r st1 = Dispatcher.Returned response st2 /\
     Dispatcher.invocations st2 = [Dispatcher.mkInvocation "default" raw false] /\
     responses (Dispatcher.db st2) = []) /\
  FileQueue.commands q' = [] /\
  List.map (fun f => FileQueue.rs_message (snd f)) (FileQueue.outgoing q')
  = [Routing.multiTeamMessage ["coder"%string; "writer"%string]] /\
  FileQueue.processing q' = [].
Proof.
  intros env raw dbMsg q'.
  destruct multi_target_not_short_circuited as (_ & Hfall & _ & Hsibling & _).
  split.
  - destruct (Hfall env dbMsg Dispatcher.initialState (sample_agent "Assistant")
                eq_refl eq_refl eq_refl eq_refl eq_refl)
      as (r & st1 & response & st2 & Hr & Hid & _ & Hm & Hi & Hinv & Hresp & _).
    exists r, st1, response, st2.
    split; [exact Hr|]. split; [exact Hid|]. split; [exact Hm|]. split; [exact Hi|].
    split; [|exact Hresp].
    rewrite Hinv. f_equal. f_equal.
    assert (E := Hr). vm_compute in E. injection E as <- _. reflexivity.
  - assert (H : (2 <= List.length (Routing.detectMultipleTeams raw Routing.sample_agents))%nat)
      by (vm_compute; lia).
    destruct (Hsibling raw Routing.sample_agents H) as (_ & _ & Hqueue).
    destruct (Hqueue Samples.recordingAnswer 2000 "m1.json"%string Samples.sample_queue
                Samples.two_team_file eq_refl eq_refl eq_refl) as (Hcmd & _ & _ & Hout).
    subst q'. rewrite Hcmd, Hout. split; [reflexivity|]. split; reflexivity.
Defined.

End MultiTargetDispatch.

(** ** The row a task was given *)

Section Settled.
Import Text Types Db Plugins Invoke Dispatcher.

(** The row [k], if it was there, is there afterwards and is completed. *)
Local Abbreviation completes k :=
  (fun st st' : State =>
     message_row k (db st) <> None ->
     exists row, message_row k (db st') = Some row /\ m_status row = Completed).

Lemma framed_after {A B} (R : State -> State -> Prop) (c : M A) (k : A -> M B) :
  (forall s1 s2 s3, keeps_rows s1 s2 -> R s2 s3 -> R s1 s3) ->
  always keeps_rows c -> (forall a, framed R (k a)) -> framed R (bind c k).
Proof.
  intros HR Hc Hk st b st' E. unfold bind in E. specialize (Hc st).
  destruct (c st) as [a s|e s]; [|discriminate E].
  exact (HR _ _ _ Hc (Hk a s b st' E)).
Qed.

Lemma completes_absorbs (k : Z) (s1 s2 s3 : State) :
  keeps_rows s1 s2 -> completes k s2 s3 -> completes k s1 s3.
Proof. intros [_ H] HR Hrow. apply HR, H, Hrow. Qed.

Lemma completeMessage_row (k t : Z) (d : QueueDb) :
  message_row k d <> None ->
  exists row, message_row k (completeMessage k t d) = Some row /\ m_status row = Completed.
Proof.
  unfold message_row, completeMessage. simpl. intros H.
  rewrite find_update_same by reflexivity.
  destruct (List.find (fun x => m_id x =? k) (messages d)) as [row|]; [|contradiction].
  exists (set_completed t row). split; reflexivity.
Qed.

Lemma dbCompleteMessage_completes (env : Env) (k : Z) :
  framed (completes k) (dbCompleteMessage env k).
Proof.
  intros st a st' E. unfold dbCompleteMessage, bind, Date_now, modify in E.
  injection E as E. subst st'. simpl. apply completeMessage_row.
Qed.

Lemma replyDirect_completes (env : Env) (dbMsg : DbMessage) (r : Routed)
    (response : string) :
  framed (completes (m_id dbMsg)) (replyDirect env dbMsg r response).
Proof.
  unfold replyDirect. cbv zeta.
  apply framed_after; [apply completes_absorbs|apply rows_add_logs|intros _].
  destruct (handleLongResponse env _ _) as [responseMessage allFiles].
  apply framed_after; [apply completes_absorbs|apply rows_dbEnqueueResponse|intros _].
  apply framed_after; [apply completes_absorbs|apply rows_log|intros _].
  apply framed_after; [apply completes_absorbs|apply rows_emitEvent|intros _].
  apply dbCompleteMessage_completes.
Qed.

Lemma processBody_completes (env : Env) (dbMsg : DbMessage) :
  framed (completes (m_id dbMsg)) (processBody env dbMsg).
Proof.
  unfold processBody.
  apply framed_after; [apply completes_absorbs|apply rows_route|intros r].
  apply framed_after; [apply completes_absorbs|apply rows_invoke|intros response].
  destruct (rd_teamContext r) as [tc|]; [|apply replyDirect_completes].
  apply framed_after; [apply completes_absorbs|apply rows_recordStep|intros convId].
  apply framed_after; [apply completes_absorbs|apply rows_finishBranch|intros _].
  apply dbCompleteMessage_completes.
Qed.

(** X18.  [processMessage] settles the row it was given.  If the row is in
    the table when the task starts, it is there when the task ends, and it
    is no longer [processing]: it is [completed] when the body ran to its
    end, and when the body threw, [failMessage] has recorded the error,
    released the claim and counted one retry, the row being [dead] exactly
    when its counter has reached [MAX_RETRIES] and [pending] otherwise.
    No other row leaves the table. *)
Theorem processMessage_settles_row (env : Env) (dbMsg : DbMessage) (st : State) :
  message_row (m_id dbMsg) (db st) <> None ->
  let st' := processMessage env dbMsg st in
  (forall k, message_row k (db st) <> None -> message_row k (db st') <> None) /\
  exists row,
    message_row (m_id dbMsg) (db st') = Some row /\
    m_status row <> Processing /\
    match processBody env dbMsg st with
    | Returned _ _ => m_status row = Completed
    | Thrown error st1 =>
        m_last_error row = Some error /\ m_claimed_by row = None /\
        m_status row = (if MAX_RETRIES <=? m_retry_count row then Dead else Pending) /\
        exists before,
          message_row (m_id dbMsg) (db st1) = Some before /\
          m_retry_count row = m_retry_count before + 1
    end.
Proof.
  intros Hrow. cbv zeta.
  destruct (rows_processMessage env dbMsg st) as [_ Hr].
  split; [exact Hr|].
  unfold processMessage.
  pose proof (rows_processBody env dbMsg st) as Hk.
  pose proof (processBody_completes env dbMsg st) as Hc.
  destruct (processBody env dbMsg st) as [a st1|e st1].
  - destruct (Hc a st1 eq_refl Hrow) as (row & E & Hs).
    exists row. split; [exact E|]. split; [congruence|exact Hs].
  - clear Hc. destruct Hk as [_ Hk]. specialize (Hk _ Hrow).
    destruct (message_row (m_id dbMsg) (db st1)) as [before|] eqn:E; [|contradiction].
    assert (F : (log "ERROR" ("Processing error: " +:+ e) ;;
                 dbFailMessage env (m_id dbMsg) e) st1
                = Returned tt
                    (set_db (failMessage (m_id dbMsg) e (clock env (reads st1)) (db st1))
                       (set_reads (S (reads st1))
                          (add_logs [mkLogLine "ERROR" ("Processing error: " +:+ e)] st1)))).
    { cbv beta iota delta [bind log modify dbFailMessage getState Date_now].
      change (db (add_logs [mkLogLine "ERROR" ("Processing error: " +:+ e)] st1))
        with (db st1).
      rewrite E. reflexivity. }
    rewrite F. cbn [db set_db].
    rewrite (failMessage_row _ _ _ _ _ E).
    eexists. split; [reflexivity|]. simpl.
    split; [destruct (MAX_RETRIES <=? m_retry_count before + 1); discriminate|].
    split; [reflexivity|]. split; [reflexivity|]. split; [reflexivity|].
    exists before. split; reflexivity.
Qed.

Lemma processMessage_settles_row_witness :
  let env := Samples.directEnv Samples.failingSpawn in
  let st := set_chained []
              (adapterEnqueue env (Samples.sample_request "@coder fix the login bug")
                 initialState) in
  let dbMsg := Samples.claimed_request "@coder fix the login bug" "default" in
  message_row (m_id dbMsg) (db st) <> None /\
  exists row,
    message_row (m_id dbMsg) (db (processMessage env dbMsg st)) = Some row /\
    m_status row = Completed.
Proof.
  intros env st dbMsg.
  assert (Hrow : message_row (m_id dbMsg) (db st) <> None).
  { vm_compute. discriminate. }
  split; [exact Hrow|].
  destruct (processMessage_settles_row env dbMsg st Hrow) as (_ & row & E & _ & H).
  exists row. split; [exact E|].
  destruct (processBody env dbMsg st) as [a st1|e st1] eqn:B; [exact H|].
  vm_compute in B. discriminate B.
Defined.

End Settled.

(** ** Hook pipeline *)

Section HookFacts.
Import Text Types Db Plugins Invoke.

Lemma runHooks_app (pick : HookRunner.Hooks -> option HookRunner.Transform) (what : string)
    (ctx : HookContext) (ps qs : list HookRunner.LoadedPlugin) (st : HookState) :
  HookRunner.runHooks pick what ctx (ps ++ qs) st
  = match HookRunner.runHooks pick what ctx ps st with
    | HookRunner.Fulfilled st' => HookRunner.runHooks pick what ctx qs st'
    | HookRunner.RejectedAt name st' => HookRunner.RejectedAt name st'
    end.
Proof.
  revert st. induction ps as [|p ps IH]; intros st; simpl; [reflexivity|].
  destruct (HookRunner.p_hooks p) as [h|]; [|apply IH].
  destruct (pick h) as [f|]; [|apply IH].
  destruct (f (hs_text st) ctx); [apply IH|reflexivity].
Qed.

(** Two runs end alike: both fulfilled with the same text and metadata, or
    both rejected at the same plugin with the same text and metadata. *)
Local Abbreviation alike a b :=
  (match a, b with
   | HookRunner.Fulfilled s, HookRunner.Fulfilled s' =>
       hs_text s = hs_text s' /\ hs_metadata s = hs_metadata s'
   | HookRunner.RejectedAt n s, HookRunner.RejectedAt n' s' =>
       n = n' /\ hs_text s = hs_text s' /\ hs_metadata s = hs_metadata s'
   | _, _ => False
   end).

(** What a run ends with does not depend on the lines logged before. *)
Lemma runHooks_log (pick : HookRunner.Hooks -> option HookRunner.Transform) (what : string)
    (ctx : HookContext) (qs : list HookRunner.LoadedPlugin) (s1 s2 : HookState) :
  hs_text s1 = hs_text s2 -> hs_metadata s1 = hs_metadata s2 ->
  alike (HookRunner.runHooks pick what ctx qs s1) (HookRunner.runHooks pick what ctx qs s2).
Proof.
  revert s1 s2. induction qs as [|q qs IH]; intros s1 s2 Ht Hm; simpl; [auto|].
  destruct (HookRunner.p_hooks q) as [h|]; [|now apply IH].
  destruct (pick h) as [f|]; [|now apply IH].
  rewrite Ht. destruct (f (hs_text s2) ctx) as [r|]; [|auto].
  apply IH; destruct r; simpl; congruence.
Qed.

(** On the plugins of [Plugins] the runner is the pipeline of [Plugins]. *)
Lemma runHooks_plain (what : string) (ctx : HookContext)
    (ps : list Plugins.LoadedPlugin) (st : HookState) :
  HookRunner.runHooks HookRunner.transformOutgoing what ctx (List.map HookRunner.plain ps) st
  = HookRunner.Fulfilled (List.fold_left (hookStep transformOutgoing what ctx) ps st) /\
  HookRunner.runHooks HookRunner.transformIncoming what ctx (List.map HookRunner.plain ps) st
  = HookRunner.Fulfilled (List.fold_left (hookStep transformIncoming what ctx) ps st).
Proof.
  revert st. induction ps as [|p ps IH]; intros st; simpl; [split; reflexivity|].
  unfold hookStep at 2 4. destruct p as [name [[out inc]|]]; simpl.
  - split.
    + destruct out as [f|]; simpl; [|apply IH]. unfold HookRunner.settling.
      destruct (f (hs_text st) ctx); apply IH.
    + destruct inc as [f|]; simpl; [|apply IH]. unfold HookRunner.settling.
      destruct (f (hs_text st) ctx); apply IH.
  - apply IH.
Qed.

(** The [catch] block of [processMessage]: an error thrown in the [try]
    block is logged and the row is failed. *)
Lemma processMessage_thrown (env : Dispatcher.Env) (dbMsg : DbMessage)
    (st st1 : Dispatcher.State) (e : string) (before : DbMessage) :
  Dispatcher.processBody env dbMsg st = Dispatcher.Thrown e st1 ->
  message_row (m_id dbMsg) (Dispatcher.db st1) = Some before ->
  exists st' row,
    Dispatcher.processMessage env dbMsg st = st' /\
    In (mkLogLine "ERROR" ("Processing error: " +:+ e)) (Dispatcher.logs st') /\
    message_row (m_id dbMsg) (Dispatcher.db st') = Some row /\
    m_retry_count row = m_retry_count before + 1 /\
    m_last_error row = Some e /\ m_claimed_by row = None /\
    m_status row = (if MAX_RETRIES <=? m_retry_count before + 1 then Dead else Pending).
Proof.
  intros B E. unfold Dispatcher.processMessage. rewrite B.
  assert (F : Dispatcher.bind (Dispatcher.log "ERROR" ("Processing error: " +:+ e))
                (fun _ => Dispatcher.dbFailMessage env (m_id dbMsg) e) st1
              = Dispatcher.Returned tt
                  (Dispatcher.set_db
                     (failMessage (m_id dbMsg) e
                        (Dispatcher.clock env (Dispatcher.reads st1)) (Dispatcher.db st1))
                     (Dispatcher.set_reads (S (Dispatcher.reads st1))
                        (Dispatcher.add_logs
                           [mkLogLine "ERROR" ("Processing error: " +:+ e)] st1)))).
  { cbv beta iota delta [Dispatcher.bind Dispatcher.log Dispatcher.modify
                           Dispatcher.dbFailMessage Dispatcher.getState Dispatcher.Date_now].
    change (Dispatcher.db (Dispatcher.add_logs
                             [mkLogLine "ERROR" ("Processing error: " +:+ e)] st1))
      with (Dispatcher.db st1).
    rewrite E. reflexivity. }
  rewrite F. eexists _, _. split; [reflexivity|].
  cbn [Dispatcher.db Dispatcher.set_db Dispatcher.logs Dispatcher.set_reads
         Dispatcher.add_logs].
  split; [apply List.in_or_app; right; now left|].
  rewrite (failMessage_row _ _ _ _ _ E). split; [reflexivity|]. simpl. auto.
Qed.

(** C8.  [runOutgoingHooks] and [runIncomingHooks] run the transforms in
    plugin order.  Each transform is applied to the text the transforms
    before it produced.  A returned string replaces the text; a returned
    [HookResult] replaces the text and merges its metadata into the
    metadata gathered so far, its own value winning on a key of both.  A
    transform that throws a value with a message adds one error line to
    the log and leaves text and metadata as they were: the run ends as if
    the plugin were not loaded.  A transform that throws [undefined] or
    [null] is not skipped: the [catch] block throws, the run is rejected
    at that plugin and the transforms after it are not called.  The
    runners are awaited inside the [try] block of [processMessage], whose
    [catch] block logs the error and fails the row: one retry is counted,
    and the row is dead once the count is [MAX_RETRIES].  On plugins
    whose transforms throw nothing but values with a message, the run is
    always fulfilled, with the result of the pipeline of [Plugins]. *)
Theorem hook_pipeline_spec :
  (HookRunner.runOutgoingHooks
   = (fun ps message ctx =>
        HookRunner.runHooks HookRunner.transformOutgoing "transformOutgoing" ctx ps
          (mkHookState message ∅ [])) /\
   HookRunner.runIncomingHooks
   = (fun ps message ctx =>
        HookRunner.runHooks HookRunner.transformIncoming "transformIncoming" ctx ps
          (mkHookState message ∅ []))) /\
  (forall pick what ctx ps p qs st before,
     HookRunner.runHooks pick what ctx ps st = HookRunner.Fulfilled before ->
     let whole := HookRunner.runHooks pick what ctx (ps ++ p :: qs) st in
     ((HookRunner.p_hooks p = None \/
       exists h, HookRunner.p_hooks p = Some h /\ pick h = None) ->
      whole = HookRunner.runHooks pick what ctx qs before) /\
     (forall h f, HookRunner.p_hooks p = Some h -> pick h = Some f ->
        (forall t, f (hs_text before) ctx = HookRunner.Settles (ReturnsText t) ->
           whole = HookRunner.runHooks pick what ctx qs
                     (mkHookState t (hs_metadata before) (hs_log before))) /\
        (forall res, f (hs_text before) ctx = HookRunner.Settles (ReturnsResult res) ->
           exists merged,
             whole = HookRunner.runHooks pick what ctx qs
                       (mkHookState (hr_text res) merged (hs_log before)) /\
             forall k, merged !! k
                       = match hr_metadata res !! k with
                         | Some v => Some v
                         | None => hs_metadata before !! k
                         end) /\
        (forall e, f (hs_text before) ctx = HookRunner.Settles (Throws e) ->
           whole = HookRunner.runHooks pick what ctx qs
                     (mkHookState (hs_text before) (hs_metadata before)
                        (hs_log before ++
                         [mkLogLine "ERROR"
                            ("Plugin '" +:+ HookRunner.p_name p +:+ "' " +:+ what
                             +:+ " error: " +:+ e)])) /\
           alike whole (HookRunner.runHooks pick what ctx (ps ++ qs) st)) /\
        (f (hs_text before) ctx = HookRunner.ThrowsNullish ->
           whole = HookRunner.RejectedAt (HookRunner.p_name p) before))) /\
  (forall ps message ctx,
     HookRunner.runOutgoingHooks (List.map HookRunner.plain ps) message ctx
     = HookRunner.Fulfilled (Plugins.runOutgoingHooks ps message ctx) /\
     HookRunner.runIncomingHooks (List.map HookRunner.plain ps) message ctx
     = HookRunner.Fulfilled (Plugins.runIncomingHooks ps message ctx)) /\
  (HookRunner.runIncomingHooks
     [HookRunner.plain Samples.shout; Samples.void; HookRunner.plain (Samples.tagger "markdown")]
     "ping" Samples.sample_ctx
   = HookRunner.RejectedAt "void" (mkHookState "ping" ∅ []) /\
   HookRunner.runOutgoingHooks
     [HookRunner.plain Samples.shout; Samples.void; HookRunner.plain (Samples.tagger "markdown")]
     "pong" Samples.sample_ctx
   = HookRunner.RejectedAt "void" (mkHookState "pong!" ∅ [])) /\
  (forall env dbMsg st st1 e before,
     Dispatcher.processBody env dbMsg st = Dispatcher.Thrown e st1 ->
     message_row (m_id dbMsg) (Dispatcher.db st1) = Some before ->
     exists st' row,
       Dispatcher.processMessage env dbMsg st = st' /\
       In (mkLogLine "ERROR" ("Processing error: " +:+ e)) (Dispatcher.logs st') /\
       message_row (m_id dbMsg) (Dispatcher.db st') = Some row /\
       m_retry_count row = m_retry_count before + 1 /\
       m_last_error row = Some e /\ m_claimed_by row = None /\
       m_status row = (if MAX_RETRIES <=? m_retry_count before + 1 then Dead else Pending)).
Proof.
  split; [split; reflexivity|]. split; [|split; [|split; [|exact processMessage_thrown]]].
  - intros pick what ctx ps p qs st before Hps whole. subst whole.
    rewrite runHooks_app, Hps. cbn [HookRunner.runHooks].
    split.
    { intros [Hn|(h & Hh & Hp)]; [rewrite Hn|rewrite Hh, Hp]; reflexivity. }
    intros h f Hh Hf. rewrite Hh, Hf.
    split; [intros t ->; reflexivity|].
    split.
    { intros res ->. eexists. split; [reflexivity|].
      intros k. unfold spread. rewrite lookup_union.
      destruct (hr_metadata res !! k), (hs_metadata before !! k); reflexivity. }
    split.
    { intros e ->. split; [reflexivity|].
      rewrite runHooks_app, Hps. cbn [HookRunner.absorb].
      apply runHooks_log; reflexivity. }
    intros ->. reflexivity.
  - intros ps message ctx. unfold HookRunner.runOutgoingHooks, HookRunner.runIncomingHooks.
    split; [exact (proj1 (runHooks_plain _ ctx ps (mkHookState message ∅ [])))
           |exact (proj2 (runHooks_plain _ ctx ps (mkHookState message ∅ [])))].
  - split; reflexivity.
Qed.

Lemma hook_pipeline_spec_witness :
  let ps := [HookRunner.plain Samples.shout; HookRunner.plain (Samples.tagger "markdown")] in
  HookRunner.runOutgoingHooks (ps ++ HookRunner.plain Samples.broken :: []) "pong"
    Samples.sample_ctx
  = HookRunner.Fulfilled
      (mkHookState "<pong!>" {[ "parseMode"%string := "markdown"%string ]}
         [mkLogLine "ERROR" "Plugin 'broken' transformOutgoing error: boom"]) /\
  HookRunner.runOutgoingHooks (ps ++ Samples.void :: ps) "pong" Samples.sample_ctx
  = HookRunner.RejectedAt "void"
      (mkHookState "<pong!>" {[ "parseMode"%string := "markdown"%string ]} []).
Proof.
  intros ps.
  destruct hook_pipeline_spec as (_ & Hstep & _).
  assert (Hps : HookRunner.runHooks HookRunner.transformOutgoing "transformOutgoing"
                  Samples.sample_ctx ps (mkHookState "pong" ∅ [])
                = HookRunner.Fulfilled
                    (mkHookState "<pong!>" {[ "parseMode"%string := "markdown"%string ]} [])).
  { vm_compute. reflexivity. }
  split.
  - destruct (Hstep _ _ _ _ (HookRunner.plain Samples.broken) [] _ _ Hps) as [_ H].
    destruct (H _ _ eq_refl eq_refl) as (_ & _ & Hthrow & _).
    destruct (Hthrow "boom"%string eq_refl) as [E _]. exact E.
  - destruct (Hstep _ _ _ _ Samples.void ps _ _ Hps) as [_ H].
    destruct (H _ _ eq_refl eq_refl) as (_ & _ & _ & Hnull).
    exact (Hnull eq_refl).
Defined.

End HookFacts.

(* ===================================================================== *)
(** * Further properties of the channel clients                           *)
(* ===================================================================== *)

Section Splitting.
Import Text Channels.

#[local] Arguments String.append : simpl never.

Lemma length_substring0 (n : nat) (s : string) :
  String.length (Dispatcher.substring0 n s) = Nat.min n (String.length s).
Proof.
  revert s. induction n as [|n IH]; intros [|c s]; simpl; try reflexivity.
  now rewrite IH.
Qed.

Lemma length_dropChars (n : nat) (s : string) :
  String.length (dropChars n s) = (String.length s - n)%nat.
Proof.
  revert s. induction n as [|n IH]; intros [|c s]; simpl; try reflexivity.
  apply IH.
Qed.

Lemma substring0_dropChars (n : nat) (s : string) :
  (Dispatcher.substring0 n s +:+ dropChars n s)%string = s.
Proof.
  revert s. induction n as [|n IH]; intros [|c s]; try reflexivity.
  change (String c (Dispatcher.substring0 n s +:+ dropChars n s) = String c s).
  now rewrite IH.
Qed.

Lemma lastIndexFrom_range (c : ascii) (s : string) (i fromIndex found : Z) :
  found <= fromIndex -> found < i ->
  lastIndexFrom c s i fromIndex found <= fromIndex /\
  found <= lastIndexFrom c s i fromIndex found.
Proof.
  revert i found. induction s as [|x s IH]; intros i found H1 H2; simpl; [lia|].
  destruct (Z.ltb_spec fromIndex i); [lia|].
  destruct (Ascii.eqb x c).
  - destruct (IH (i + 1) i); lia.
  - destruct (IH (i + 1) found); lia.
Qed.

Lemma splitIndexOf_range (maxLength : Z) (remaining : string) :
  1 <= maxLength -> 1 <= splitIndexOf maxLength remaining <= maxLength.
Proof.
  intros H. unfold splitIndexOf, lastIndexOf.
  pose proof (lastIndexFrom_range "010" remaining 0 (Z.max 0 maxLength) (-1)) as H1.
  pose proof (lastIndexFrom_range " " remaining 0 (Z.max 0 maxLength) (-1)) as H2.
  destruct (Z.leb_spec (lastIndexFrom "010" remaining 0 (Z.max 0 maxLength) (-1)) 0).
  - destruct (Z.leb_spec (lastIndexFrom " " remaining 0 (Z.max 0 maxLength) (-1)) 0); lia.
  - destruct (Z.leb_spec (lastIndexFrom "010" remaining 0 (Z.max 0 maxLength) (-1)) 0); lia.
Qed.

Lemma dropLeadingNewline_spec (s : string) :
  exists sep, (sep = EmptyString \/ sep = nl) /\ s = (sep +:+ dropLeadingNewline s)%string.
Proof.
  destruct s as [|c s]; [exists EmptyString; split; [now left|reflexivity]|].
  destruct (Ascii.eqb_spec c "010") as [->|ne].
  - exists nl. split; [now right|reflexivity].
  - exists EmptyString. split; [now left|].
    unfold dropLeadingNewline.
    destruct c as [[] [] [] [] [] [] [] []]; try reflexivity. now contradiction ne.
Qed.

Lemma length_append (s t : string) :
  String.length (s +:+ t) = (String.length s + String.length t)%nat.
Proof.
  induction s as [|c s IH]; [reflexivity|].
  change (S (String.length (s +:+ t)) = S (String.length s + String.length t)).
  now rewrite IH.
Qed.

Lemma append_assoc (s t u : string) : ((s +:+ t) +:+ u)%string = (s +:+ (t +:+ u))%string.
Proof.
  induction s as [|c s IH]; [reflexivity|].
  change (String c ((s +:+ t) +:+ u) = String c (s +:+ (t +:+ u))). now rewrite IH.
Qed.

Lemma splitLoop_spec (maxLength : Z) (fuel : nat) (remaining : string)
    (acc : list string) :
  1 <= maxLength -> (String.length remaining < fuel)%nat ->
  exists chunks seps,
    splitLoop fuel maxLength remaining acc = Some (acc ++ chunks) /\
    Forall (fun c => 1 <= strlen c <= maxLength) chunks /\
    List.length seps = List.length chunks /\
    Forall (fun s => s = EmptyString \/ s = nl) seps /\
    remaining = foldr String.append EmptyString (zip_with String.append chunks seps).
Proof.
  intros Hm. revert remaining acc.
  induction fuel as [|fuel IH]; intros remaining acc Hf; [lia|].
  simpl. unfold strlen at 1 2.
  destruct (Z.ltb_spec 0 (Z.of_nat (String.length remaining))) as [Hpos|Hz].
  - destruct (Z.leb_spec (Z.of_nat (String.length remaining)) maxLength) as [Hle|Hgt].
    + exists [remaining], [EmptyString]. split; [reflexivity|].
      split; [constructor; [unfold strlen; lia|constructor]|].
      split; [reflexivity|]. split; [constructor; [now left|constructor]|].
      simpl. unfold String.append. now rewrite !append_empty_r.
    + pose proof (splitIndexOf_range maxLength remaining Hm) as Hk.
      set (k := splitIndexOf maxLength remaining) in *.
      destruct (dropLeadingNewline_spec (substringFrom k remaining)) as (sep & Hsep & Erest).
      assert (Hlen : (String.length (dropLeadingNewline (substringFrom k remaining))
                      < fuel)%nat).
      { assert (L := f_equal String.length Erest). rewrite length_append in L.
        unfold substringFrom in L at 1. rewrite length_dropChars in L. lia. }
      destruct (IH _ (acc ++ [substringTo k remaining]) Hlen)
        as (chunks & seps & E & Hc & Hl & Hs & Hr).
      exists (substringTo k remaining :: chunks), (sep :: seps).
      split; [rewrite E, <- app_assoc; reflexivity|].
      split.
      { constructor; [|exact Hc]. unfold strlen, substringTo.
        rewrite length_substring0. lia. }
      split; [simpl; now rewrite Hl|].
      split; [constructor; assumption|].
      simpl. rewrite <- Hr, append_assoc, <- Erest.
      unfold substringTo, substringFrom. now rewrite substring0_dropChars.
  - exists [], []. split; [now rewrite app_nil_r|].
    split; [constructor|]. split; [reflexivity|]. split; [constructor|].
    destruct remaining; [reflexivity|simpl in Hz; lia].
Qed.

(** X19.  [splitMessage] with a limit of at least one character ends (a
    fuel above the length of the text is enough) and cuts the text into
    chunks none of which is empty or longer than the limit, unless the
    text is empty and is its own chunk.  Nothing but newlines is lost:
    the text is the chunks in order, each followed by nothing or by the
    one newline that was dropped at the cut.  A text within the limit is
    returned as its only chunk. *)
Theorem splitMessage_spec (text : string) (maxLength : option Z) (fuel : nat) :
  1 <= default 4096 maxLength -> (String.length text < fuel)%nat ->
  exists chunks seps,
    splitMessage fuel text maxLength = Some chunks /\
    Forall (fun c => strlen c <= default 4096 maxLength) chunks /\
    (text <> EmptyString -> Forall (fun c => c <> EmptyString) chunks) /\
    List.length seps = List.length chunks /\
    Forall (fun s => s = EmptyString \/ s = nl) seps /\
    text = foldr String.append EmptyString (zip_with String.append chunks seps) /\
    (strlen text <= default 4096 maxLength -> chunks = [text]).
Proof.
  intros Hm Hf. unfold splitMessage. cbv zeta.
  destruct (Z.leb_spec (strlen text) (default 4096 maxLength)) as [Hle|Hgt].
  - exists [text], [EmptyString]. split; [reflexivity|].
    split; [constructor; [exact Hle|constructor]|].
    split; [intros H; constructor; [exact H|constructor]|].
    split; [reflexivity|]. split; [constructor; [now left|constructor]|].
    split; [|reflexivity].
    simpl. unfold String.append. now rewrite !append_empty_r.
  - destruct (splitLoop_spec (default 4096 maxLength) fuel text [] Hm Hf)
      as (chunks & seps & E & Hc & Hl & Hs & Hr).
    exists chunks, seps. split; [exact E|].
    split; [eapply Forall_impl; [exact Hc|]; simpl; intros c H; lia|].
    split.
    { intros _. eapply Forall_impl; [exact Hc|]. simpl. intros c H ->.
      unfold strlen in H. simpl in H. lia. }
    split; [exact Hl|]. split; [exact Hs|]. split; [exact Hr|]. lia.
Qed.

Lemma splitMessage_spec_witness :
  1 <= default 4096 (Some 8) /\
  splitMessage 30 ("one two" +:+ nl +:+ "three four five") (Some 8)
  = Some ["one two"%string; "three"%string; " four"%string; " five"%string].
Proof.
  split; [simpl; lia|].
  destruct (splitMessage_spec ("one two" +:+ nl +:+ "three four five") (Some 8) 30)
    as (chunks & seps & E & _); [simpl; lia|simpl; lia|].
  rewrite E. vm_compute in E. injection E as <-. reflexivity.
Defined.

Lemma lastIndexFrom_first (c x : ascii) (s : string) :
  lastIndexFrom c (String x s) 0 0 (-1) = if Ascii.eqb x c then 0 else -1.
Proof. simpl. destruct s; reflexivity. Qed.

(** X20.  The limit has to be positive.  With a limit of zero or less and a
    text whose first character is not a newline, no cut is found, the cut
    falls back on the limit, the chunk taken is empty and the text is left
    as it was: the loop of [splitMessage] does not end, whatever the fuel. *)
Theorem splitMessage_needs_positive_limit (c : ascii) (text : string) (maxLength : Z)
    (fuel : nat) :
  maxLength <= 0 -> c <> "010"%char ->
  splitMessage fuel (String c text) (Some maxLength) = None.
Proof.
  intros Hm Hc. unfold splitMessage. cbv zeta. simpl default.
  assert (Hlen : 1 <= strlen (String c text)).
  { unfold strlen. simpl String.length. lia. }
  destruct (Z.leb_spec (strlen (String c text)) maxLength) as [Hle|_]; [lia|].
  assert (Hk : splitIndexOf maxLength (String c text) = maxLength).
  { unfold splitIndexOf, lastIndexOf. rewrite Z.max_l by exact Hm.
    rewrite !lastIndexFrom_first.
    destruct (Ascii.eqb_spec c "010") as [e|_]; [contradiction|].
    destruct (Ascii.eqb c " "); reflexivity. }
  assert (Hrest : dropLeadingNewline (substringFrom maxLength (String c text))
                  = String c text).
  { unfold substringFrom. replace (Z.to_nat maxLength) with 0%nat by lia.
    simpl dropChars. unfold dropLeadingNewline.
    destruct c as [[] [] [] [] [] [] [] []]; try reflexivity. now contradiction Hc. }
  generalize (@nil string) as acc.
  induction fuel as [|fuel IH]; intros acc; [reflexivity|].
  simpl splitLoop.
  destruct (Z.ltb_spec 0 (strlen (String c text))) as [_|H]; [|lia].
  destruct (Z.leb_spec (strlen (String c text)) maxLength) as [H|_]; [lia|].
  rewrite Hk at 1. rewrite Hrest. apply IH.
Qed.

Lemma splitMessage_needs_positive_limit_witness :
  (0 <= 0) /\ ("a"%char <> "010"%char) /\ splitMessage 1000 "abc" (Some 0) = None.
Proof.
  split; [lia|]. split; [discriminate|].
  apply (splitMessage_needs_positive_limit "a" "bc" 0 1000); [lia|discriminate].
Defined.

End Splitting.

Section FileNames.
Import Text Channels.

#[local] Arguments String.append : simpl never.

Local Abbreviation chars s := (list_ascii_of_string s).

Lemma dropSpaces_chars (s : string) (c : ascii) :
  In c (chars (dropSpaces s)) -> In c (chars s).
Proof.
  induction s as [|x s IH]; simpl; [auto|].
  destruct (isSpace x); simpl; auto.
Qed.

Lemma dropSpacesEnd_chars (s : string) (c : ascii) :
  In c (chars (dropSpacesEnd s)) -> In c (chars s).
Proof.
  induction s as [|x s IH]; simpl; [auto|].
  destruct (dropSpacesEnd s) as [|y t].
  - destruct (isSpace x); simpl; tauto.
  - simpl. simpl in IH. tauto.
Qed.

Lemma trim_chars (s : string) (c : ascii) : In c (chars (trim s)) -> In c (chars s).
Proof. intros H. now apply dropSpaces_chars, dropSpacesEnd_chars. Qed.

Lemma dropSpaces_start (s : string) : startsWithSpace (dropSpaces s) = false.
Proof.
  induction s as [|x s IH]; simpl; [reflexivity|].
  destruct (isSpace x) eqn:E; [exact IH|simpl; exact E].
Qed.

Lemma dropSpaces_id (s : string) : startsWithSpace s = false -> dropSpaces s = s.
Proof. destruct s as [|x s]; simpl; [reflexivity|]. now intros ->. Qed.

Lemma dropSpacesEnd_start (s : string) :
  startsWithSpace s = false -> startsWithSpace (dropSpacesEnd s) = false.
Proof.
  destruct s as [|x s]; simpl; [reflexivity|]. intros H.
  destruct (dropSpacesEnd s); [rewrite H|]; simpl; [exact H|exact H].
Qed.

Lemma dropSpacesEnd_idem (s : string) : dropSpacesEnd (dropSpacesEnd s) = dropSpacesEnd s.
Proof.
  induction s as [|x s IH]; simpl; [reflexivity|].
  destruct (dropSpacesEnd s) as [|y t] eqn:E.
  - destruct (isSpace x) eqn:Ex; simpl; [reflexivity|now rewrite Ex].
  - change (dropSpacesEnd (String x (String y t)) = String x (String y t)).
    simpl. simpl in IH. rewrite IH. reflexivity.
Qed.

Lemma trim_idem (s : string) : trim (trim s) = trim s.
Proof.
  unfold trim.
  rewrite (dropSpaces_id (dropSpacesEnd (dropSpaces s)))
    by apply dropSpacesEnd_start, dropSpaces_start.
  apply dropSpacesEnd_idem.
Qed.

Lemma replaceForbidden_chars (s : string) (c : ascii) :
  In c (chars (replaceForbidden s)) -> forbidden c = false.
Proof.
  induction s as [|x s IH]; simpl; [tauto|].
  intros [<-|H]; [|auto]. destruct (forbidden x) eqn:E; [reflexivity|exact E].
Qed.

Lemma replaceForbidden_id (s : string) :
  (forall c, In c (chars s) -> forbidden c = false) -> replaceForbidden s = s.
Proof.
  induction s as [|x s IH]; simpl; [reflexivity|]. intros H.
  rewrite (H x) by now left. rewrite IH; [reflexivity|]. intros c Hc. apply H. now right.
Qed.

Lemma basenameFrom_plain (best cur s : string) :
  (forall c, In c (chars s) -> forbidden c = false) ->
  basenameFrom best cur s = if isEmpty (cur +:+ s) then best else (cur +:+ s)%string.
Proof.
  revert cur. induction s as [|x s IH]; intros cur H; simpl.
  - now rewrite append_empty_r.
  - destruct (Ascii.eqb_spec x "/") as [->|_].
    + specialize (H "/"%char (or_introl eq_refl)). discriminate H.
    + rewrite IH by (intros c Hc; apply H; now right).
      rewrite append_assoc. reflexivity.
Qed.

Lemma strlen_pos (s : string) : (0 <? strlen s) = negb (isEmpty s).
Proof.
  destruct s; [reflexivity|]. unfold strlen. cbn [isEmpty negb String.length].
  apply Z.ltb_lt. lia.
Qed.

Lemma sanitizeFileName_plain (n : string) :
  n <> EmptyString -> (forall c, In c (chars n) -> forbidden c = false) ->
  trim n = n -> sanitizeFileName n = n.
Proof.
  intros Hne Hc Ht. unfold sanitizeFileName, basename. cbv zeta.
  rewrite basenameFrom_plain by exact Hc.
  change (EmptyString +:+ n)%string with n.
  destruct n as [|x n]; [contradiction|]. cbn [isEmpty].
  rewrite replaceForbidden_id by exact Hc. rewrite Ht.
  rewrite strlen_pos. reflexivity.
Qed.

(** X21.  What [sanitizeFileName] returns is a usable file name: it is not
    empty, it holds no slash, backslash, colon, quote, angle bracket, bar,
    question mark, star or control character, and it neither starts nor
    ends with a blank.  A name that is already of that kind is returned
    as it is, so sanitising twice changes nothing. *)
Theorem sanitizeFileName_spec (fileName : string) :
  let name := sanitizeFileName fileName in
  name <> EmptyString /\
  (forall c, In c (chars name) -> forbidden c = false) /\
  trim name = name /\
  sanitizeFileName name = name /\
  (fileName <> EmptyString -> (forall c, In c (chars fileName) -> forbidden c = false) ->
   trim fileName = fileName -> name = fileName).
Proof.
  cbv zeta.
  assert (H : sanitizeFileName fileName <> EmptyString /\
              (forall c, In c (chars (sanitizeFileName fileName)) -> forbidden c = false) /\
              trim (sanitizeFileName fileName) = sanitizeFileName fileName).
  { unfold sanitizeFileName. cbv zeta. rewrite strlen_pos.
    destruct (trim (replaceForbidden (basename fileName))) as [|x t] eqn:E; cbn [isEmpty negb].
    - split; [discriminate|]. split; [|reflexivity].
      intros c Hc. simpl in Hc.
      repeat (destruct Hc as [<-|Hc]; [reflexivity|]). destruct Hc.
    - split; [discriminate|]. split.
      + intros c Hc. rewrite <- E in Hc.
        apply trim_chars in Hc. exact (replaceForbidden_chars _ _ Hc).
      + rewrite <- E. apply trim_idem. }
  destruct H as (H1 & H2 & H3).
  split; [exact H1|]. split; [exact H2|]. split; [exact H3|].
  split; [exact (sanitizeFileName_plain _ H1 H2 H3)|].
  apply sanitizeFileName_plain.
Qed.

End FileNames.

(* ===================================================================== *)
(** * Further properties of the file-queue processor                      *)
(* ===================================================================== *)

Section FileQueueAgents.
Import Text Types Routing FileQueue.

#[local] Arguments String.append : simpl never.

Lemma get_cons_ne {V} (k key : string) (v : V) (o : Registry V) :
  get key o <> None -> get key ((k, v) :: o) <> None.
Proof. simpl. destruct (String.eqb k key); [discriminate|auto]. Qed.

Lemma findByName_get (candidateId id : string) (agents : Registry AgentConfig) :
  findByName candidateId agents = Some id -> get id agents <> None.
Proof.
  induction agents as [|[k config] rest IH]; simpl; [discriminate|].
  destruct (String.eqb (toLowerCase (a_name config)) candidateId).
  - intros [= ->]. now rewrite String.eqb_refl.
  - intros H. destruct (String.eqb k id); [discriminate|auto].
Qed.

(** Where [parseAgentRouting] can send a text. *)
Lemma parseAgentRouting_target (rawMessage : string) (agents : Registry AgentConfig) :
  agentId (parseAgentRouting rawMessage agents) = "error"%string \/
  agentId (parseAgentRouting rawMessage agents) = "default"%string \/
  has (agentId (parseAgentRouting rawMessage agents)) agents = true.
Proof.
  unfold parseAgentRouting. cbv zeta.
  destruct (1 <? _)%nat; [now left|].
  destruct (matchAgentPrefix rawMessage) as [[slug rest]|]; [|now right; left].
  destruct (has (toLowerCase slug) agents) eqn:E; [right; right; exact E|].
  destruct (findByName (toLowerCase slug) agents) as [id|] eqn:F; [|now right; left].
  right; right. simpl. pose proof (findByName_get _ _ _ F) as G.
  destruct (get id agents) as [v|] eqn:Eg; [|contradiction]. exact (has_own _ _ _ Eg).
Qed.

Lemma settleAgent_found (agents : Registry AgentConfig) (routing : RoutingResult)
    (rawMessage : string) :
  agents <> [] ->
  exists id agent text,
    settleAgent agents routing rawMessage = Some (id, agent, text) /\
    get id agents = Some agent.
Proof.
  intros Hne. unfold settleAgent.
  destruct (get (agentId routing) agents) as [a|] eqn:E1.
  - rewrite E1. simpl. rewrite E1. simpl. eauto.
  - destruct (get "default"%string agents) as [a|] eqn:E2.
    + simpl. rewrite E2. simpl. eauto.
    + destruct agents as [|[k a] rest]; [contradiction|].
      cbn [keys List.map head fst mbind option_bind].
      assert (G : get k ((k, a) :: rest) = Some a) by (simpl; now rewrite String.eqb_refl).
      rewrite G. simpl. eauto.
Qed.

Lemma orString_nonempty (value : option string) (fallback : string) :
  fallback <> EmptyString -> orString value fallback <> EmptyString.
Proof. intros H. destruct value as [[|c s]|]; simpl; [exact H|discriminate|exact H]. Qed.

Lemma orString_truthy (value : option string) (fallback : string) :
  Dispatcher.truthy value = true -> Some (orString value fallback) = value.
Proof. destruct value as [[|c s]|]; simpl; try discriminate. reflexivity. Qed.

Lemma orString_falsy (value : option string) (fallback : string) :
  Dispatcher.truthy value = false -> orString value fallback = fallback.
Proof. destruct value as [[|c s]|]; simpl; try discriminate; reflexivity. Qed.

Lemma detectProvider_sections (settings : Settings) :
  s_teams (detectProvider settings) = s_teams settings /\
  s_agents (detectProvider settings) = s_agents settings /\
  s_workspace_path (detectProvider settings) = s_workspace_path settings.
Proof.
  unfold detectProvider. destruct (s_models settings) as [models|]; [|auto].
  destruct (Dispatcher.truthy (ms_provider models)); [auto|].
  destruct (ms_openai models); [auto|]. destruct (ms_anthropic models); auto.
Qed.

Lemma getAgents_nonempty (home : string) (settings : Settings) :
  getAgents home settings <> [].
Proof.
  unfold getAgents. destruct (s_teams _) as [[|t ts]|]; try discriminate;
    destruct (s_agents _) as [[|a rest]|]; discriminate.
Qed.

(** The default agent built from the settings a file yields. *)
Lemma default_agent_provider (home : string) (settings : Settings) :
  a_provider (getDefaultAgentFromModels home (detectProvider settings)) = "openai"%string <->
  exists models,
    s_models settings = Some models /\
    (ms_provider models = Some "openai"%string \/
     (Dispatcher.truthy (ms_provider models) = false /\ ms_openai models <> None)).
Proof.
  unfold getDefaultAgentFromModels. cbv zeta. cbn [a_provider].
  unfold modelsProvider, detectProvider.
  destruct (s_models settings) as [models|] eqn:Em.
  2:{ rewrite Em. simpl. split; [discriminate|]. intros (m & Hm & _). discriminate Hm. }
  assert (Hinv : forall P : ModelsSection -> Prop,
            (exists m, Some models = Some m /\ P m) <-> P models).
  { intros P. split.
    - intros (m & Hm & HP). injection Hm as <-. exact HP.
    - intros HP. exists models. split; [reflexivity|exact HP]. }
  rewrite (Hinv (fun m => ms_provider m = Some "openai"%string \/
                          Dispatcher.truthy (ms_provider m) = false /\ ms_openai m <> None)).
  destruct (Dispatcher.truthy (ms_provider models)) eqn:Et.
  - rewrite Em. split.
    + intros H. left. rewrite <- (orString_truthy _ "anthropic" Et). now rewrite H.
    + intros [H|[H _]]; [now rewrite H|discriminate H].
  - destruct (ms_openai models) as [o|] eqn:Eo; simpl.
    + split; [|reflexivity]. intros _. right. split; [reflexivity|]. discriminate.
    + assert (Hno : ms_provider models = Some "openai"%string \/
                    false = false /\ None <> (None : option ProviderSection) -> False).
      { intros [H|[_ H]]; [rewrite H in Et; discriminate Et|now apply H]. }
      destruct (ms_anthropic models); simpl; [split; [discriminate|tauto]|].
      rewrite Em. rewrite (orString_falsy _ _ Et). split; [discriminate|tauto].
Qed.

(** X22.  The processor has an agent to run, unless the settings file
    holds [null].  When the file cannot be read or parsed, and when it
    holds a value read as [Settings], every entry of its registries being
    an agent object, the registry that [getAgents] builds from
    [getSettings] is not empty, so that for a routing that names no
    inherited property the two fall-backs of [processMessage] end on a
    configured agent and the look-up of its name does not throw.  When the
    file holds [null], [getSettings] returns [null] and [getAgents] throws.
    When neither [teams] nor [agents] has an entry the registry is the
    single agent ['default'], named ['Default'], working in the [default]
    directory of the workspace, with a provider and a model that are not
    empty; its provider is ['openai'] exactly when the settings say so, or
    name no provider and have an [openai] section. *)
Theorem getAgents_always_has_an_agent (home : string) (file : SettingsFile)
    (routing : RoutingResult) (rawMessage : string) :
  (getSettings HoldsNull = None /\ configuredAgents home HoldsNull = None) /\
  (file <> HoldsNull ->
   exists settings agents,
     getSettings file = Some settings /\
     configuredAgents home file = Some agents /\ agents = getAgents home settings /\
     agents <> [] /\
     (inherited (agentId routing) = false ->
      exists id agent text,
        settleAgent agents routing rawMessage = Some (id, agent, text) /\
        get id agents = Some agent) /\
     ((forall held, file = Holds held ->
         (s_teams held = None \/ s_teams held = Some []) /\
         (s_agents held = None \/ s_agents held = Some [])) ->
      exists agent,
        agents = [("default"%string, agent)] /\
        a_name agent = "Default"%string /\
        a_provider agent <> EmptyString /\ a_model agent <> EmptyString /\
        a_working_directory agent
        = Dispatcher.path_join
            (orString (match file with
                       | Holds held => s_workspace_path held
                       | _ => None
                       end)
               (Dispatcher.path_join home "tinyclaw-workspace")) "default" /\
        (a_provider agent = "openai"%string <->
         exists held models,
           file = Holds held /\ s_models held = Some models /\
           (ms_provider models = Some "openai"%string \/
            (Dispatcher.truthy (ms_provider models) = false /\ ms_openai models <> None))))).
Proof.
  split; [split; reflexivity|]. intros Hfile.
  destruct (getSettings file) as [settings|] eqn:Es;
    [|destruct file; try discriminate Es; contradiction].
  exists settings, (getAgents home settings).
  split; [reflexivity|].
  split; [unfold configuredAgents; now rewrite Es|]. split; [reflexivity|].
  pose proof (getAgents_nonempty home settings) as Hne.
  split; [exact Hne|].
  split; [intros _; exact (settleAgent_found _ routing rawMessage Hne)|].
  intros Hempty.
  assert (Hsec : (s_teams settings = None \/ s_teams settings = Some []) /\
                 (s_agents settings = None \/ s_agents settings = Some []) /\
                 s_workspace_path settings
                 = match file with Holds held => s_workspace_path held | _ => None end).
  { destruct file as [| |held]; [injection Es as <-; simpl; auto|contradiction|].
    injection Es as <-. destruct (detectProvider_sections held) as (-> & -> & ->).
    destruct (Hempty held eq_refl). auto. }
  destruct Hsec as (Hteams & Hagents & Hpath).
  exists (getDefaultAgentFromModels home settings).
  split.
  { unfold getAgents. destruct Hteams as [-> | ->]; destruct Hagents as [-> | ->]; reflexivity. }
  split; [reflexivity|].
  split; [apply orString_nonempty; discriminate|].
  split.
  { unfold getDefaultAgentFromModels. cbv zeta. cbn [a_model].
    destruct (String.eqb _ "openai"); apply orString_nonempty; discriminate. }
  split; [unfold getDefaultAgentFromModels; cbv zeta; cbn [a_working_directory];
          now rewrite Hpath|].
  destruct file as [| |held]; [|contradiction|].
  - injection Es as <-. split; [discriminate|]. intros (h & m & H & _). discriminate H.
  - injection Es as <-. rewrite default_agent_provider. split.
    + intros (m & Hm & HP). exists held, m. auto.
    + intros (h & m & Hh & Hm & HP). injection Hh as <-. exists m. auto.
Qed.

(** X23.  The chain a message file is queued on is the agent that answers
    it.  When ['default'] is configured and no agent has the empty id,
    [peekTeamId] returns the id [processMessage] routes the file to.
    Unless that id is ['error'], which is answered without an agent, the
    test [agents[agentId]] succeeds on it; and when it is no name inherited
    from [Object.prototype], it is the id of a configured agent, the one
    the fall-backs settle on. *)
Theorem peekTeamId_names_the_agent (agents : Registry AgentConfig)
    (messageData : MessageData) :
  get EmptyString agents = None -> get "default"%string agents <> None ->
  let routing := routingOf agents messageData in
  peekTeamId agents (Some messageData) = agentId routing /\
  (agentId routing <> "error"%string ->
   has (agentId routing) agents = true /\
   (inherited (agentId routing) = false ->
    exists agent text,
      settleAgent agents routing (md_message messageData)
      = Some (peekTeamId agents (Some messageData), agent, text) /\
      get (agentId routing) agents = Some agent)).
Proof.
  intros Hempty Hdefault. cbv zeta.
  assert (Hdef : has "default" agents = true).
  { destruct (get "default"%string agents) as [v|] eqn:E; [|contradiction].
    exact (has_own _ _ _ E). }
  assert (Hcases : agentId (routingOf agents messageData) = "error"%string \/
                   has (agentId (routingOf agents messageData)) agents = true).
  { unfold routingOf. cbv zeta.
    destruct (md_agent messageData) as [a|]; cbn [Dispatcher.truthy].
    - destruct a as [|c a]; cbn [andb].
      + destruct (parseAgentRouting_target (md_message messageData) agents)
          as [H|[H|H]]; [now left| |now right].
        right. now rewrite H.
      + destruct (has (String c a) agents) eqn:G; [right; exact G|].
        destruct (parseAgentRouting_target (md_message messageData) agents)
          as [H|[H|H]]; [now left| |now right].
        right. now rewrite H.
    - destruct (parseAgentRouting_target (md_message messageData) agents)
        as [H|[H|H]]; [now left| |now right].
      right. now rewrite H. }
  assert (Hpeek : peekTeamId agents (Some messageData)
                  = agentId (routingOf agents messageData)).
  { assert (Hne : agentId (routingOf agents messageData) <> EmptyString).
    { destruct Hcases as [H|H]; [rewrite H; discriminate|]. intros E.
      rewrite E in H. unfold has in H. rewrite Hempty in H. discriminate H. }
    revert Hne. unfold peekTeamId, routingOf. cbv zeta.
    destruct (match md_agent messageData with Some _ => _ | None => _ end) as [a|];
      [reflexivity|].
    destruct (agentId (parseAgentRouting (md_message messageData) agents));
      [contradiction|reflexivity]. }
  split; [exact Hpeek|]. intros Hne.
  destruct Hcases as [H|H]; [contradiction|].
  split; [exact H|]. intros Hplain.
  rewrite (has_plain _ _ Hplain) in H.
  destruct (get (agentId (routingOf agents messageData)) agents) as [agent|] eqn:G;
    [|discriminate H].
  exists agent, (message (routingOf agents messageData)).
  split; [|reflexivity]. rewrite Hpeek. unfold settleAgent. rewrite G.
  cbv beta iota. rewrite G. cbn [mbind option_bind]. rewrite G. reflexivity.
Qed.

Lemma peekTeamId_names_the_agent_witness :
  let md := mkMessageData "telegram" "Alice" None "@coder fix the login bug" 1000 "m1"
              None None in
  let odd := mkMessageData "telegram" "Alice" None "@constructor hi" 1000 "m2" None None in
  get EmptyString sample_agents = None /\ get "default"%string sample_agents <> None /\
  peekTeamId sample_agents (Some md) = "coder"%string /\
  (exists agent,
     settleAgent sample_agents (routingOf sample_agents md) (md_message md)
     = Some ("coder"%string, agent, "fix the login bug"%string)) /\
  peekTeamId sample_agents (Some odd) = "constructor"%string /\
  agentId (routingOf sample_agents odd) = "constructor"%string /\
  get "constructor" sample_agents = None.
Proof.
  intros md odd.
  assert (H1 : get EmptyString sample_agents = None) by reflexivity.
  assert (H2 : get "default"%string sample_agents <> None) by discriminate.
  destruct (peekTeamId_names_the_agent sample_agents md H1 H2) as [Hp Hs].
  destruct (peekTeamId_names_the_agent sample_agents odd H1 H2) as [Hq _].
  split; [exact H1|]. split; [exact H2|].
  assert (Hid : agentId (routingOf sample_agents md) = "coder"%string) by reflexivity.
  split; [now rewrite Hp|].
  split.
  - destruct Hs as (_ & agent & text & E & _);
      [rewrite Hid; discriminate|rewrite Hid; reflexivity|].
    exists agent. rewrite E, Hp, Hid. f_equal. f_equal.
    vm_compute in E. injection E as _ <-. reflexivity.
  - split; [rewrite Hq; reflexivity|]. split; reflexivity.
Defined.



End FileQueueAgents.

(* ===================================================================== *)
(** * Further properties: from the skill to the channel                   *)
(* ===================================================================== *)

Section Proactive.
Import Text Db Api Skill.

Local Abbreviation encode :=
  (flat_map (fun kv : string * string => [("--" +:+ fst kv)%string; snd kv])).

Lemma parseArgsFrom_pairs (args : gmap string string) (pairs : list (string * string))
    (rest : list string) :
  (forall kv, In kv pairs -> fst kv <> "__proto__"%string) ->
  parseArgsFrom args (encode pairs ++ rest)
  = parseArgsFrom (foldl (fun m kv => <[fst kv := snd kv]> m) args pairs) rest.
Proof.
  revert args. induction pairs as [|[k v] pairs IH]; intros args H; [reflexivity|].
  change (parseArgsFrom (setArg k v args) (encode pairs ++ rest)
          = parseArgsFrom (foldl (fun m kv => <[fst kv := snd kv]> m) (<[k := v]> args) pairs)
              rest).
  rewrite IH by (intros kv Hkv; apply H; now right).
  unfold setArg. destruct (String.eqb_spec k "__proto__") as [e|_]; [|reflexivity].
  exfalso. exact (H (k, v) (or_introl eq_refl) e).
Qed.

Lemma parseArgsFrom_single (args : gmap string string) (word : string) :
  parseArgsFrom args [word] = args.
Proof. unfold parseArgsFrom. destruct (Dispatcher.stripPrefix "--" word); reflexivity. Qed.

Lemma parseArgs_pairs (pairs : list (string * string)) :
  (forall kv, In kv pairs -> fst kv <> "__proto__"%string) ->
  parseArgs (encode pairs) = foldl (fun m kv => <[fst kv := snd kv]> m) ∅ pairs.
Proof.
  intros H. unfold parseArgs.
  rewrite <- (app_nil_r (encode pairs)). now rewrite parseArgsFrom_pairs.
Qed.

Lemma foldl_insert_absent (pairs : list (string * string)) (args : gmap string string)
    (j : string) :
  ~ In j (List.map fst pairs) ->
  foldl (fun m kv => <[fst kv := snd kv]> m) args pairs !! j = args !! j.
Proof.
  revert args. induction pairs as [|[k v] pairs IH]; intros args H; [reflexivity|].
  simpl. rewrite IH by (intros Hin; apply H; now right).
  apply lookup_insert_ne. intros ->. apply H. now left.
Qed.

(** X25.  [parseArgs] reads back what was written as flags: after the
    pairs [--key value] of a command line, the last value given for a key
    is the one found, the other keys are as without that pair, and a key
    never given is absent.  A value is taken as it is, also when it looks
    like a flag; one more word at the end, flag or not, changes nothing,
    and a word that is no flag is skipped. *)
Theorem parseArgs_round_trip (pairs : list (string * string)) (k v : string) :
  (forall kv, In kv (pairs ++ [(k, v)]) -> fst kv <> "__proto__"%string) ->
  parseArgs (encode (pairs ++ [(k, v)])) !! k = Some v /\
  (forall j, j <> k ->
     parseArgs (encode (pairs ++ [(k, v)])) !! j = parseArgs (encode pairs) !! j) /\
  (forall j, ~ In j (List.map fst pairs) -> parseArgs (encode pairs) !! j = None) /\
  (forall word, parseArgs (encode pairs ++ [word]) = parseArgs (encode pairs)) /\
  (forall word argv,
     Dispatcher.stripPrefix "--" word = None -> parseArgs (word :: argv) = parseArgs argv).
Proof.
  intros H.
  assert (H' : forall kv, In kv pairs -> fst kv <> "__proto__"%string).
  { intros kv Hkv. apply H, in_or_app. now left. }
  rewrite (parseArgs_pairs _ H), (parseArgs_pairs _ H'), foldl_app. cbn [foldl fst snd].
  split; [apply lookup_insert_eq|].
  split; [intros j Hj; apply lookup_insert_ne; congruence|].
  split; [intros j Hj; now rewrite foldl_insert_absent|].
  split.
  - intros word. unfold parseArgs. rewrite parseArgsFrom_pairs by exact H'.
    apply parseArgsFrom_single.
  - intros word argv Hw. unfold parseArgs. cbn [parseArgsFrom]. now rewrite Hw.
Qed.

Lemma parseArgs_round_trip_witness :
  (forall kv, In kv ([("channel", "telegram"); ("message", "--help"); ("channel", "discord")]
                     : list (string * string)) ->
     fst kv <> "__proto__"%string) /\
  parseArgs ["--channel"; "telegram"; "--message"; "--help"; "--channel"; "discord"]%string
    !! "channel"%string = Some "discord"%string /\
  parseArgs ["--channel"; "telegram"; "--message"; "--help"; "--channel"; "discord"]%string
    !! "message"%string = Some "--help"%string.
Proof.
  assert (H : forall kv,
            In kv ([("channel", "telegram"); ("message", "--help")] ++ [("channel", "discord")]
                   : list (string * string)) ->
            fst kv <> "__proto__"%string).
  { intros kv [<-|[<-|[<-|[]]]]; discriminate. }
  split; [exact H|].
  destruct (parseArgs_round_trip [("channel", "telegram"); ("message", "--help")]%string
              "channel" "discord" H) as (H1 & H2 & _).
  split; [exact H1|].
  etransitivity; [exact (H2 "message"%string ltac:(discriminate))|].
  vm_compute. reflexivity.
Defined.

Lemma truthy_Some (o : option string) :
  Dispatcher.truthy o = true -> exists c s, o = Some (String c s).
Proof. destruct o as [[|c s]|]; simpl; try discriminate. eauto. Qed.

Lemma sendMessage_Post (argv : list string) (body : ResponseBody) :
  sendMessage argv = Post body ->
  exists channel sender senderId message,
    parseArgs argv !! "channel"%string = Some channel /\
    parseArgs argv !! "sender"%string = Some sender /\
    parseArgs argv !! "sender-id"%string = Some senderId /\
    parseArgs argv !! "message"%string = Some message /\
    channel <> EmptyString /\ sender <> EmptyString /\
    senderId <> EmptyString /\ message <> EmptyString /\
    In channel validChannels /\
    rb_channel body = Some channel /\ rb_sender body = Some sender /\
    rb_senderId body = Some senderId /\ rb_message body = Some message /\
    rb_agent body = (if Dispatcher.truthy (parseArgs argv !! "agent"%string)
                     then parseArgs argv !! "agent"%string else None) /\
    rb_files body
    = (if Dispatcher.truthy (parseArgs argv !! "files"%string) then
         match List.filter (fun f => negb (isEmpty f))
                 (List.map trim
                    (splitCommas (default EmptyString (parseArgs argv !! "files"%string))))
         with
         | [] => None
         | f :: fs => Some (f :: fs)
         end
       else None) /\
    (forall fs, rb_files body = Some fs ->
       fs <> [] /\ Forall (fun f => f <> EmptyString /\ trim f = f) fs).
Proof.
  unfold sendMessage. cbv zeta.
  destruct (Dispatcher.truthy (parseArgs argv !! "channel"%string)) eqn:E1;
    [|cbn [app]; intros H; discriminate H].
  destruct (Dispatcher.truthy (parseArgs argv !! "sender-id"%string)) eqn:E2;
    [|cbn [app]; intros H; discriminate H].
  destruct (Dispatcher.truthy (parseArgs argv !! "sender"%string)) eqn:E3;
    [|cbn [app]; intros H; discriminate H].
  destruct (Dispatcher.truthy (parseArgs argv !! "message"%string)) eqn:E4;
    [|cbn [app]; intros H; discriminate H].
  cbn [app].
  destruct (truthy_Some _ E1) as (c1 & s1 & ->).
  destruct (truthy_Some _ E2) as (c2 & s2 & ->).
  destruct (truthy_Some _ E3) as (c3 & s3 & ->).
  destruct (truthy_Some _ E4) as (c4 & s4 & ->).
  cbn [default from_option id].
  destruct (List.existsb (String.eqb (String c1 s1)) validChannels) eqn:Ev;
    cbn [negb]; [|intros H; discriminate H].
  intros [= <-].
  exists (String c1 s1), (String c3 s3), (String c2 s2), (String c4 s4).
  repeat (split; [reflexivity || discriminate|]).
  split.
  { apply List.existsb_exists in Ev as (x & Hx & Hxe).
    apply String.eqb_eq in Hxe. now subst x. }
  repeat (split; [reflexivity|]).
  cbn [rb_files].
  split; [destruct (Dispatcher.truthy (parseArgs argv !! "files"%string)); reflexivity|].
  intros fs.
  destruct (Dispatcher.truthy (parseArgs argv !! "files"%string)); [|discriminate].
  match goal with
  | |- context [List.filter ?p ?l] =>
      assert (Hf : Forall (fun f => f <> EmptyString /\ trim f = f) (List.filter p l));
      [|destruct (List.filter p l) as [|f rest]; [discriminate|]]
  end.
  { apply List.Forall_forall. intros f Hf. apply List.filter_In in Hf as [Hin Hne].
    apply List.in_map_iff in Hin as (raw & <- & _).
    split; [|apply trim_idem]. intros E. rewrite E in Hne. discriminate Hne. }
  intros [= <-]. split; [discriminate|exact Hf].
Qed.

(** X26.  A message sent with the skill reaches the channel.  Whenever
    [sendMessage] posts a body, the four required arguments were given,
    none of them empty, and the channel is one of the three known; the
    server accepts the body (no 400), leaves the incoming messages alone
    and adds one response, which the channel client then finds among its
    pending responses with the sender, sender id, text and agent of the
    command line, an empty original message and a [proactive_] message
    id.  The files posted and the files listed are the same: the items of
    [--files] between commas, trimmed, the empty ones left out, in their
    order; there are none when [--files] is absent, empty, or has only
    blank items.  What was pending before for that channel still is. *)
Theorem skill_message_is_queued (argv : list string) (body : ResponseBody)
    (now0 : Z) (random : string) (now1 : Z) (d : QueueDb) :
  sendMessage argv = Post body ->
  let args := parseArgs argv in
  let messageId := ("proactive_" +:+ showZ now0 +:+ "_" +:+ random)%string in
  let items :=
    List.filter (fun f => negb (isEmpty f))
      (List.map trim (splitCommas (default EmptyString (args !! "files"%string)))) in
  let files :=
    if Dispatcher.truthy (args !! "files"%string) then
      match items with
      | [] => None
      | f :: fs => Some (f :: fs)
      end
    else None in
  exists channel sender senderId message d' logged pending view,
    args !! "channel"%string = Some channel /\ args !! "sender"%string = Some sender /\
    args !! "sender-id"%string = Some senderId /\ args !! "message"%string = Some message /\
    channel <> EmptyString /\ sender <> EmptyString /\
    senderId <> EmptyString /\ message <> EmptyString /\
    In channel validChannels /\
    postResponse body now0 random now1 d = (Ok messageId, d', logged) /\
    messages d' = messages d /\
    List.length (responses d') = S (List.length (responses d)) /\
    getPending (Some channel) d' = Ok pending /\
    In view pending /\
    pr_id view = responses_seq d + 1 /\
    pr_channel view = channel /\ pr_sender view = sender /\
    pr_senderId view = Some senderId /\ pr_message view = message /\
    pr_originalMessage view = EmptyString /\ pr_messageId view = messageId /\
    pr_agent view = (if Dispatcher.truthy (args !! "agent"%string)
                     then args !! "agent"%string else None) /\
    rb_files body = files /\ pr_files view = files /\
    (forall fs, pr_files view = Some fs ->
       fs <> [] /\ Forall (fun f => f <> EmptyString /\ trim f = f) fs) /\
    (forall before, getPending (Some channel) d = Ok before ->
       forall v, In v before -> In v pending).
Proof.
  intros Hsent. cbv zeta.
  destruct (sendMessage_Post argv body Hsent)
    as (channel & sender & senderId & message & A1 & A2 & A3 & A4 & N1 & N2 & N3 & N4
        & Hv & B1 & B2 & B3 & B4 & B5 & B7 & B6).
  destruct channel as [|c1 channel]; [contradiction|].
  destruct sender as [|c2 sender]; [contradiction|].
  destruct message as [|c4 message]; [contradiction|].
  set (files := match rb_files body with
                | Some (f :: fs) => Some (f :: fs)
                | _ => None
                end).
  set (row := mkDbResponse (responses_seq d + 1)
                ("proactive_" +:+ showZ now0 +:+ "_" +:+ random)
                (String c1 channel) (String c2 sender) (rb_senderId body)
                (String c4 message) EmptyString (rb_agent body) files None
                RPending now1 None).
  set (d' := mkQueueDb (messages d) (messages_seq d) (responses d ++ [row])
               (responses_seq d + 1)).
  set (view := fun r => mkPendingResponse (r_id r) (r_channel r) (r_sender r) (r_sender_id r)
                          (r_message r) (r_original_message r) (r_message_id r) (r_agent r)
                          (r_files r) (r_metadata r)).
  exists (String c1 channel), (String c2 sender), senderId, (String c4 message), d',
    [Plugins.mkLogLine "INFO"
       ("[API] Proactive response enqueued for " +:+ String c1 channel +:+ "/"
        +:+ String c2 sender)],
    (List.map view (getResponsesForChannel (String c1 channel) d')), (view row).
  split; [exact A1|]. split; [exact A2|]. split; [exact A3|]. split; [exact A4|].
  split; [exact N1|]. split; [exact N2|]. split; [exact N3|]. split; [exact N4|].
  split; [exact Hv|].
  split; [unfold postResponse; rewrite B1, B2, B4; reflexivity|].
  split; [reflexivity|].
  split; [simpl; rewrite List.length_app; simpl; lia|].
  split; [reflexivity|].
  split.
  { apply (List.in_map view). apply getResponsesForChannel_In.
    split; [simpl; apply in_or_app; right; now left|]. split; reflexivity. }
  split; [reflexivity|]. split; [reflexivity|]. split; [reflexivity|].
  split; [exact B3|]. split; [reflexivity|]. split; [reflexivity|]. split; [reflexivity|].
  split; [exact B5|].
  split; [exact B7|].
  split.
  { cbn [view pr_files r_files row]. subst files. rewrite B7.
    destruct (Dispatcher.truthy (parseArgs argv !! "files"%string)); [|reflexivity].
    now destruct (List.filter _ _). }
  split.
  { cbn [view pr_files r_files row]. subst files. intros fs.
    destruct (rb_files body) as [[|f rest]|] eqn:Ef; try discriminate.
    intros [= <-]. exact (B6 _ eq_refl). }
  intros before [= <-] v Hin.
  apply List.in_map_iff in Hin as (r & <- & Hr).
  apply (List.in_map view). apply getResponsesForChannel_In in Hr as (Hr & Hc & Hs).
  apply getResponsesForChannel_In. split; [simpl; apply in_or_app; now left|].
  split; assumption.
Qed.

Lemma skill_message_is_queued_witness :
  let argv := ["--channel"; "telegram"; "--sender-id"; "42"; "--sender"; "Alice";
               "--message"; "build done"; "--files"; " /tmp/a.png, ,/tmp/b.txt "]%string in
  exists body d' logged view,
    sendMessage argv = Post body /\
    postResponse body 1000 "k3x9qa" 1001 sample_db
    = (Ok "proactive_1000_k3x9qa"%string, d', logged) /\
    In view (match getPending (Some "telegram"%string) d' with
             | Ok pending => pending
             | Error _ _ => []
             end) /\
    pr_sender view = "Alice"%string /\ pr_message view = "build done"%string /\
    pr_files view = Some ["/tmp/a.png"; "/tmp/b.txt"]%string.
Proof.
  intros argv.
  destruct (sendMessage argv) as [|body] eqn:E; [vm_compute in E; discriminate E|].
  destruct (skill_message_is_queued argv body 1000 "k3x9qa" 1001 sample_db E)
    as (channel & sender & senderId & message & d' & logged & pending & view
        & A1 & A2 & _ & A4 & _ & _ & _ & _ & _ & P & _ & _ & G & Hin & _ & _ & V1 & _ & V2
        & _ & _ & _ & _ & V4 & V3 & _).
  assert (C : channel = "telegram"%string) by (vm_compute in A1; congruence).
  assert (S : sender = "Alice"%string) by (vm_compute in A2; congruence).
  assert (M : message = "build done"%string) by (vm_compute in A4; congruence).
  rewrite C in G. rewrite S in V1. rewrite M in V2. clear A1 A2 A4 C S M.
  exists body, d', logged, view.
  split; [reflexivity|]. split; [exact P|]. rewrite G.
  split; [exact Hin|]. split; [exact V1|]. split; [exact V2|].
  rewrite V4. vm_compute. reflexivity.
Defined.

End Proactive.

(* ===================================================================== *)
(** * Further properties of the plugin events                             *)
(* ===================================================================== *)

Section Broadcast.
Import Text Plugins PluginEvents.

Local Abbreviation register :=
  (foldl (fun (m : EventHandlers) (reg : string * Handler) => on (fst reg) (snd reg) m) ∅).

Local Abbreviation registered t regs :=
  (List.map snd (List.filter (fun reg : string * Handler => String.eqb (fst reg) t) regs)).

Lemma on_lookup (t u : string) (h : Handler) (m : EventHandlers) :
  default [] (on t h m !! u)
  = default [] (m !! u) ++ (if String.eqb t u then [h] else []).
Proof.
  unfold on. cbv zeta. destruct (String.eqb_spec t u) as [->|ne].
  - now rewrite lookup_insert_eq.
  - rewrite lookup_insert_ne by exact ne. now rewrite app_nil_r.
Qed.

Lemma register_lookup_from (regs : list (string * Handler)) (m : EventHandlers)
    (t : string) :
  default [] (foldl (fun m reg => on (fst reg) (snd reg) m) m regs !! t)
  = default [] (m !! t) ++ registered t regs.
Proof.
  revert m. induction regs as [|[u h] regs IH]; intros m; simpl.
  - now rewrite app_nil_r.
  - rewrite IH, on_lookup, <- app_assoc. f_equal.
    destruct (String.eqb u t); reflexivity.
Qed.

Lemma register_lookup (regs : list (string * Handler)) (t : string) :
  default [] (register regs !! t) = registered t regs.
Proof. now rewrite register_lookup_from, lookup_empty. Qed.

(** The handlers that throw a value with a message, counted. *)
Local Abbreviation complaints event hs :=
  (List.length
     (List.filter (fun h : Handler => match h event with
                                      | ThrowsMessage _ => true
                                      | _ => false
                                      end) hs)).

(** One loop: the handlers called are those of the list up to the first
    that throws [undefined] or [null], that handler included; the loop is
    left by an error exactly when there is one. *)
Lemma callHandlers_spec (label : string) (handlers : list Handler) (event : PluginEvent) :
  exists rest,
    handlers = fst (fst (callHandlers label handlers event)) ++ rest /\
    List.length (snd (fst (callHandlers label handlers event)))
    = complaints event (fst (fst (callHandlers label handlers event))) /\
    Forall (fun l => level l = "ERROR"%string /\ exists message, line l = (label +:+ message)%string)
      (snd (fst (callHandlers label handlers event))) /\
    (snd (callHandlers label handlers event) = false ->
     rest = [] /\
     Forall (fun h => h event <> ThrowsNullish)
       (fst (fst (callHandlers label handlers event)))) /\
    (snd (callHandlers label handlers event) = true ->
     exists front h,
       fst (fst (callHandlers label handlers event)) = front ++ [h] /\
       h event = ThrowsNullish /\ Forall (fun h => h event <> ThrowsNullish) front).
Proof.
  induction handlers as [|h hs IH]; simpl.
  - exists []. repeat split; try constructor; discriminate.
  - destruct IH as (rest & Hrest & Hlen & Hlev & Hok & Hthrew).
    destruct (h event) eqn:E.
    + destruct (callHandlers label hs event) as [[called logged] threw]. simpl in *.
      exists rest. rewrite E. split; [now f_equal|]. split; [exact Hlen|].
      split; [exact Hlev|]. split.
      * intros Ht. destruct (Hok Ht) as [-> Hf]. split; [reflexivity|].
        constructor; [congruence|exact Hf].
      * intros Ht. destruct (Hthrew Ht) as (front & h' & -> & Hn & Hf).
        exists (h :: front), h'. split; [reflexivity|]. split; [exact Hn|].
        constructor; [congruence|exact Hf].
    + destruct (callHandlers label hs event) as [[called logged] threw]. simpl in *.
      exists rest. rewrite E. simpl. split; [now f_equal|]. split; [now f_equal|].
      split; [constructor; [split; [reflexivity|eauto]|exact Hlev]|]. split.
      * intros Ht. destruct (Hok Ht) as [-> Hf]. split; [reflexivity|].
        constructor; [congruence|exact Hf].
      * intros Ht. destruct (Hthrew Ht) as (front & h' & -> & Hn & Hf).
        exists (h :: front), h'. split; [reflexivity|]. split; [exact Hn|].
        constructor; [congruence|exact Hf].
    + simpl. exists hs. rewrite E. split; [reflexivity|]. split; [reflexivity|].
      split; [constructor|]. split; [discriminate|].
      intros _. exists [], h. split; [reflexivity|]. split; [exact E|constructor].
Qed.

Lemma callHandlers_calm (label : string) (handlers : list Handler) (event : PluginEvent) :
  Forall (fun h => h event = Returns) handlers ->
  callHandlers label handlers event = (handlers, [], false).
Proof.
  induction 1 as [|h hs Hh _ IH]; [reflexivity|]. simpl. now rewrite Hh, IH.
Qed.

(** X27.  After any sequence of registrations with [on], [broadcastEvent]
    calls the handlers registered for the type of the event, in the order
    of their registration, and then those registered for ['*'], in that
    order too; no other handler is called, and a handler registered twice
    is called twice.  A handler that throws a value with a message stops
    nothing: one line is logged for each such call, none if all return.
    A handler that throws [undefined] or [null] makes the [catch] block
    throw: [broadcastEvent] is left by that error, and the handlers after
    it, of either kind, are not called.  An event whose type is ['*']
    reaches every wildcard handler twice. *)
Theorem broadcastEvent_spec (regs : list (string * Handler)) (event : PluginEvent) :
  let called := fst (fst (broadcastEvent (register regs) event)) in
  let logged := snd (fst (broadcastEvent (register regs) event)) in
  let threw := snd (broadcastEvent (register regs) event) in
  let listed := registered (ev_type event) regs ++ registered "*"%string regs in
  (exists rest, listed = called ++ rest) /\
  (threw = false <-> Forall (fun h => h event <> ThrowsNullish) listed) /\
  (threw = false -> called = listed) /\
  (threw = true ->
   exists front h,
     called = front ++ [h] /\ h event = ThrowsNullish /\
     Forall (fun h => h event <> ThrowsNullish) front) /\
  List.length logged = complaints event called /\
  Forall (fun l => level l = "ERROR"%string) logged /\
  (Forall (fun h => h event = Returns) listed ->
   called = listed /\ logged = [] /\ threw = false) /\
  (ev_type event = "*"%string ->
   listed = registered "*"%string regs ++ registered "*"%string regs).
Proof.
  cbv zeta. unfold broadcastEvent. cbv zeta.
  rewrite !register_lookup.
  set (typed := registered (ev_type event) regs).
  set (wild := registered "*"%string regs).
  destruct (callHandlers_spec "Plugin event handler error: " typed event)
    as (rest1 & H1 & L1 & V1 & Ok1 & T1).
  destruct (callHandlers_spec "Plugin wildcard handler error: " wild event)
    as (rest2 & H2 & L2 & V2 & Ok2 & T2).
  assert (Hcalm : Forall (fun h => h event = Returns) (typed ++ wild) ->
            callHandlers "Plugin event handler error: " typed event = (typed, [], false) /\
            callHandlers "Plugin wildcard handler error: " wild event = (wild, [], false)).
  { intros H. apply Forall_app in H as [Ha Hb]. now rewrite !callHandlers_calm. }
  destruct (callHandlers "Plugin event handler error: " typed event)
    as [[c1 l1] t1] eqn:E1.
  destruct (callHandlers "Plugin wildcard handler error: " wild event)
    as [[c2 l2] t2] eqn:E2.
  cbn [fst snd] in *.
  assert (Hlev : forall label (l : list LogLine),
            Forall (fun x => level x = "ERROR"%string /\
                             exists message, line x = (label +:+ message)%string) l ->
            Forall (fun x => level x = "ERROR"%string) l).
  { intros label l H. eapply Forall_impl; [exact H|]. intros x [Hx _]. exact Hx. }
  destruct t1; cbn [fst snd].
  - destruct (T1 eq_refl) as (front & h & -> & Hn & Hf).
    split; [exists (rest1 ++ wild); rewrite H1; now rewrite <- app_assoc|].
    split.
    { split; [discriminate|]. intros Hall. exfalso.
      rewrite H1 in Hall. apply Forall_app in Hall as [Hall _].
      apply Forall_app in Hall as [Hall _]. apply Forall_app in Hall as [_ Hall].
      apply List.Forall_inv in Hall. contradiction. }
    split; [discriminate|]. split; [intros _; eauto|].
    split; [exact L1|]. split; [exact (Hlev _ _ V1)|].
    split; [|intros Hstar; unfold typed, wild; rewrite Hstar; reflexivity].
    intros Hall. destruct (Hcalm Hall) as [[=] _].
  - destruct (Ok1 eq_refl) as [-> Hf1]. rewrite app_nil_r in H1. subst c1.
    split; [exists rest2; rewrite H2 at 1; now rewrite app_assoc|].
    split.
    { split.
      - intros ->. destruct (Ok2 eq_refl) as [-> Hf2]. rewrite app_nil_r in H2.
        subst c2. apply Forall_app. split; assumption.
      - intros Hall. destruct t2; [|reflexivity]. exfalso.
        destruct (T2 eq_refl) as (front & h & -> & Hn & Hf).
        rewrite H2 in Hall. apply Forall_app in Hall as [_ Hall].
        apply Forall_app in Hall as [Hall _]. apply Forall_app in Hall as [_ Hall].
        apply List.Forall_inv in Hall. contradiction. }
    split.
    { intros ->. destruct (Ok2 eq_refl) as [-> _]. rewrite app_nil_r in H2. now subst c2. }
    split.
    { intros ->. destruct (T2 eq_refl) as (front & h & -> & Hn & Hf).
      exists (typed ++ front), h. split; [now rewrite app_assoc|]. split; [exact Hn|].
      apply Forall_app. split; assumption. }
    split; [rewrite List.length_app, List.filter_app, List.length_app, L1, L2; reflexivity|].
    split; [apply Forall_app; split; [exact (Hlev _ _ V1)|exact (Hlev _ _ V2)]|].
    split; [|intros Hstar; unfold typed, wild; rewrite Hstar; reflexivity].
    intros Hall. destruct (Hcalm Hall) as [Ha Hb].
    inversion Ha; inversion Hb; subst; auto.
Qed.

End Broadcast.


(* ===================================================================== *)
(** * Further properties: no claimed message is forgotten                 *)
(* ===================================================================== *)

Section ProcessingRows.
Import Db.

Lemma update_where_processing (c : DbMessage -> bool) (f : DbMessage -> DbMessage)
    (rows : list DbMessage) (row : DbMessage) :
  (forall r, m_status (f r) <> Processing) ->
  In row (update_where c f rows) -> m_status row = Processing -> In row rows.
Proof.
  intros Hf Hin Hs. apply List.in_map_iff in Hin as (r & E & Hr).
  destruct (c r); subst row; [now apply Hf in Hs|exact Hr].
Qed.

End ProcessingRows.

(** A relation between the states before and after that holds across the
    steps that touch the message table or the chains holds across
    everything the processor does: the stretches of the task of row [k0],
    the timers, the queue routes and the start-up code. *)
Section Stepwise.
Import Text Types Db Plugins Invoke Dispatcher Processor.

Variable R : State -> State -> Prop.
Variable k0 : Z.
Hypothesis R_refl : forall st, R st st.
Hypothesis R_trans : forall s1 s2 s3, R s1 s2 -> R s2 s3 -> R s1 s3.
Hypothesis R_quiet : forall st st',
  messages (db st') = messages (db st) -> messages_seq (db st') = messages_seq (db st) ->
  chained st' = chained st -> R st st'.
Hypothesis R_complete : forall st st' t,
  messages (db st') = messages (completeMessage k0 t (db st)) ->
  messages_seq (db st') = messages_seq (db st) ->
  chained st' = chained st -> R st st'.
Hypothesis R_fail : forall st st' e t,
  messages (db st') = messages (failMessage k0 e t (db st)) ->
  messages_seq (db st') = messages_seq (failMessage k0 e t (db st)) ->
  chained st' = chained st -> R st st'.
Hypothesis R_insert : forall st st' data t j d',
  enqueueMessage data t (db st) = Inserted j d' ->
  messages (db st') = messages d' -> messages_seq (db st') = messages_seq d' ->
  chained st' = chained st -> R st st'.
Hypothesis R_claim : forall st st' A t row d',
  claimNextMessage A t (db st) = (Some row, d') ->
  messages (db st') = messages d' -> messages_seq (db st') = messages_seq d' ->
  chained st' = chained st ++ [(A, row)] -> R st st'.
Hypothesis R_rows : forall st st',
  (forall row, In row (messages (db st')) -> m_status row = Processing ->
     In row (messages (db st))) ->
  chained st' = chained st -> R st st'.

Ltac walk :=
  lazymatch goal with
  | |- always _ (ret _) => apply always_ret; exact R_refl
  | |- always _ (throw _) => apply always_throw; exact R_refl
  | |- always _ getState => apply always_getState; exact R_refl
  | |- always _ (modify _) => apply always_modify; intros ?; apply R_quiet; reflexivity
  | |- always _ (when _ _) => apply always_when; [exact R_refl|]
  | |- always _ (forEach _ _) =>
      apply always_forEach; [exact R_refl|exact R_trans|intros ?]
  | |- always _ (bind _ _) => apply always_bind; [exact R_trans | | intros ?]
  end.

Lemma step_log (level message : string) : always R (log level message).
Proof. unfold log. walk. Qed.

Lemma step_add_logs (l : list LogLine) : always R (modify (add_logs l)).
Proof. walk. Qed.

Lemma step_emitEvent (type : string) (data : list (string * string)) :
  always R (emitEvent type data).
Proof. unfold emitEvent. walk. Qed.

Lemma step_Date_now (env : Env) : always R (Date_now env).
Proof. intros st. apply R_quiet; reflexivity. Qed.

Lemma step_update_conversation (id : string) (f : Conversation -> Conversation) :
  always R (update_conversation id f).
Proof. unfold update_conversation. walk. Qed.

Lemma step_claimFor (env : Env) (A : string) : always R (claimFor env A).
Proof.
  unfold claimFor. apply always_reading. intros st.
  destruct (claimNextMessage A (clock env (reads st)) (db st)) as [[dbMsg|] d'] eqn:E;
    [|apply R_refl].
  simpl. eapply R_claim; [exact E|reflexivity|reflexivity|reflexivity].
Qed.

Lemma step_processQueue (env : Env) : always R (processQueue env).
Proof.
  unfold processQueue. apply always_reading. intros st.
  apply (always_forEach R); [exact R_refl|exact R_trans|].
  apply step_claimFor.
Qed.

Lemma step_dbEnqueueMessage (env : Env) (data : EnqueueMessageData) :
  always R (dbEnqueueMessage env data).
Proof.
  unfold dbEnqueueMessage.
  apply always_bind; [exact R_trans|apply step_Date_now|intros now].
  apply always_reading. intros st.
  destruct (enqueueMessage data now (db st)) as [rowId d'|] eqn:E; [|apply R_refl].
  unfold bind at 1. unfold modify at 1.
  assert (H1 : R st (set_db d' st)) by (eapply R_insert; [exact E|reflexivity|reflexivity|reflexivity]).
  assert (H2 : always R (processQueue env;; ret rowId)).
  { apply always_bind; [exact R_trans|apply step_processQueue|intros ?]. walk. }
  specialize (H2 (set_db d' st)).
  destruct ((processQueue env;; ret rowId) (set_db d' st)); exact (R_trans _ _ _ H1 H2).
Qed.

Lemma step_dbEnqueueResponse (env : Env) (data : EnqueueResponseData) :
  always R (dbEnqueueResponse env data).
Proof. intros st. apply R_quiet; reflexivity. Qed.

Lemma step_dbCompleteMessage (env : Env) : always R (dbCompleteMessage env k0).
Proof. intros st. simpl. eapply R_complete; reflexivity. Qed.

Lemma step_dbFailMessage (env : Env) (e : string) : always R (dbFailMessage env k0 e).
Proof.
  unfold dbFailMessage. apply always_reading. intros st.
  destruct (message_row k0 (db st)); [|apply R_refl].
  simpl. eapply R_fail; reflexivity.
Qed.

Lemma step_enqueueInternalMessage (env : Env) (conversationId fromAgent targetAgent
    message channel sender : string) (senderId : option string) :
  always R
    (enqueueInternalMessage env conversationId fromAgent targetAgent message
       channel sender senderId).
Proof.
  unfold enqueueInternalMessage.
  apply always_bind; [exact R_trans|apply step_Date_now|intros now].
  apply always_reading. intros st.
  pose proof (step_dbEnqueueMessage env
    (mkEnqueueMessageData channel sender senderId message
       ("internal_" +:+ conversationId +:+ "_" +:+ targetAgent +:+ "_" +:+ showZ now
        +:+ "_" +:+ showZ (messages_seq (db st)))
       (Some targetAgent) None (Some conversationId) (Some fromAgent)) st) as H.
  unfold bind. destruct (dbEnqueueMessage env _ st); exact H.
Qed.

Ltac walk_all :=
  repeat
    lazymatch goal with
    | |- always _ (log _ _) => apply step_log
    | |- always _ (emitEvent _ _) => apply step_emitEvent
    | |- always _ (Date_now _) => apply step_Date_now
    | |- always _ (update_conversation _ _) => apply step_update_conversation
    | |- always _ (dbEnqueueResponse _ _) => apply step_dbEnqueueResponse
    | |- always _ (dbCompleteMessage _ k0) => apply step_dbCompleteMessage
    | |- always _ (enqueueInternalMessage _ _ _ _ _ _ _ _) =>
        apply step_enqueueInternalMessage
    | |- always _ _ => walk
    end.

Lemma step_completeConversation (env : Env) (c : Conversation) :
  always R (completeConversation env c).
Proof. unfold completeConversation. walk_all. Qed.

Lemma step_finishBranch (env : Env) (convId : string) : always R (finishBranch env convId).
Proof.
  unfold finishBranch, decrementPending. walk_all.
  destruct (conversations _ !! convId); [|walk].
  destruct a; [apply step_completeConversation|apply step_log].
Qed.

Lemma step_newConversation (env : Env) (dbMsg : DbMessage) (tc : TeamContext) :
  always R (newConversation env dbMsg tc).
Proof. unfold newConversation. walk_all. Qed.

Lemma step_obtainConversation (env : Env) (dbMsg : DbMessage) (tc : TeamContext) :
  always R (obtainConversation env dbMsg tc).
Proof.
  unfold obtainConversation.
  apply always_bind; [exact R_trans|walk|intros st].
  destruct (if isInternal dbMsg then _ else _) as [id|]; [|apply step_newConversation].
  destruct (conversations st !! id); [walk|apply step_newConversation].
Qed.

Lemma step_recordResponse (env : Env) (dbMsg : DbMessage) (r : Routed)
    (response convId : string) :
  always R (recordResponse env dbMsg r response convId).
Proof.
  unfold recordResponse, incrementPending.
  apply always_bind; [exact R_trans|apply step_update_conversation|intros _].
  apply always_bind; [exact R_trans|walk|intros st].
  destruct (conversations st !! convId); [|walk].
  destruct (_ && _).
  - walk_all.
  - destruct (0 <? _); [apply step_log|walk].
Qed.

Lemma step_recordStep (env : Env) (dbMsg : DbMessage) (r : Routed) (tc : TeamContext)
    (response : string) :
  always R (recordStep env dbMsg r tc response).
Proof.
  unfold recordStep.
  apply always_bind; [exact R_trans|apply step_obtainConversation|intros convId].
  apply always_bind; [exact R_trans|apply step_recordResponse|intros _].
  walk.
Qed.

Lemma step_invoke (env : Env) (dbMsg : DbMessage) (r : Routed) :
  always R (invoke env dbMsg r).
Proof.
  unfold invoke. cbv zeta.
  apply always_bind; [exact R_trans|walk|intros _].
  apply always_bind; [exact R_trans|apply step_emitEvent|intros _].
  apply always_bind; [exact R_trans|walk|intros _].
  apply always_bind; [exact R_trans| |intros response; walk_all].
  destruct (invokeAgent env _ _ _ _ _); walk_all.
Qed.

Lemma step_replyDirect (env : Env) (dbMsg : DbMessage) (r : Routed) (response : string) :
  m_id dbMsg = k0 -> always R (replyDirect env dbMsg r response).
Proof.
  intros Hid. unfold replyDirect. cbv zeta. rewrite Hid.
  apply always_bind; [exact R_trans|apply step_add_logs|intros _].
  destruct (handleLongResponse env _ _) as [responseMessage allFiles].
  walk_all.
Qed.

Lemma step_route (env : Env) (dbMsg : DbMessage) : always R (route env dbMsg).
Proof.
  unfold route. cbv zeta.
  apply always_bind; [exact R_trans|apply step_log|intros _].
  apply always_bind; [exact R_trans| |intros _].
  { apply always_when; [exact R_refl|apply step_emitEvent]. }
  match goal with
  | |- always _ (let '(_, _) := ?x in _) => destruct x as [agentId message]
  end.
  match goal with
  | |- always _ (match ?x with Some _ => _ | None => _ end) =>
      destruct x as [[agentId' agent]|]
  end; [|walk].
  apply always_bind; [exact R_trans|apply step_log|intros _].
  apply always_bind; [exact R_trans| |intros _].
  { apply always_when; [exact R_refl|apply step_emitEvent]. }
  apply always_reading. intros st. unfold bind, when, modify, ret.
  destruct (bool_decide _); simpl; [|apply R_refl].
  apply R_quiet; reflexivity.
Qed.

Lemma step_caught (env : Env) (dbMsg : DbMessage) (e : string) :
  m_id dbMsg = k0 -> always R (caught env dbMsg e).
Proof.
  intros Hid. unfold caught.
  apply always_bind; [exact R_trans|apply step_log|intros _].
  rewrite Hid. apply step_dbFailMessage.
Qed.

Lemma step_attempt {A} (env : Env) (dbMsg : DbMessage) (c : M A)
    (next : A -> option Stage) (st : State) :
  m_id dbMsg = k0 -> always R c -> R st (snd (attempt env dbMsg c next st)).
Proof.
  intros Hid Hc. unfold attempt, after. specialize (Hc st).
  destruct (c st) as [a st1|e st1]; [exact Hc|]. simpl.
  pose proof (step_caught env dbMsg e Hid st1) as H.
  destruct (caught env dbMsg e st1); exact (R_trans _ _ _ Hc H).
Qed.

Lemma step_begin (env : Env) (dbMsg : DbMessage) (st : State) :
  m_id dbMsg = k0 -> R st (snd (begin env dbMsg st)).
Proof. intros Hid. apply step_attempt; [exact Hid|apply step_route]. Qed.

Lemma step_resume (env : Env) (dbMsg : DbMessage) (stage : Stage) (st : State) :
  m_id dbMsg = k0 -> R st (snd (resume env dbMsg stage st)).
Proof.
  intros Hid. destruct stage as [r|r response|convId|]; cbn [resume];
    (apply step_attempt; [exact Hid|]).
  - apply always_bind; [exact R_trans|apply step_invoke|intros response].
    destruct (rd_teamContext r) as [tc|]; [|walk].
    apply always_bind; [exact R_trans|apply step_recordStep|intros convId]. walk.
  - now apply step_replyDirect.
  - apply step_finishBranch.
  - rewrite Hid. apply step_dbCompleteMessage.
Qed.

Lemma step_adapterEnqueue (env : Env) (data : EnqueueMessageData) (st : State) :
  R st (adapterEnqueue env data st).
Proof.
  unfold adapterEnqueue. pose proof (step_dbEnqueueMessage env data st) as H.
  destruct (dbEnqueueMessage env data st); exact H.
Qed.

Lemma step_after {A} (c : M A) (st : State) : always R c -> R st (after c st).
Proof. intros H. unfold after. specialize (H st). destruct (c st); exact H. Qed.

Lemma step_dbRecoverStaleMessages (env : Env) : always R (dbRecoverStaleMessages env).
Proof.
  unfold dbRecoverStaleMessages.
  apply always_bind; [exact R_trans|apply step_Date_now|intros now0].
  apply always_bind; [exact R_trans|apply step_Date_now|intros now1].
  apply always_reading. intros st.
  destruct (recoverStaleMessages None now0 now1 (db st)) as [count d'] eqn:E.
  unfold recoverStaleMessages in E. injection E as _ <-.
  simpl. apply R_rows; [|reflexivity]. simpl.
  intros row. apply update_where_processing. discriminate.
Qed.

Lemma step_recoverTick (env : Env) : always R (recoverTick env).
Proof.
  unfold recoverTick.
  apply always_bind; [exact R_trans|apply step_dbRecoverStaleMessages|intros count].
  apply always_when; [exact R_refl|apply step_log].
Qed.

Lemma step_expireConversations (env : Env) : always R (expireConversations env).
Proof.
  unfold expireConversations.
  apply always_bind; [exact R_trans|apply step_Date_now|intros now].
  apply always_reading. intros st.
  apply (always_forEach R); [exact R_refl|exact R_trans|intros entry].
  apply always_when; [exact R_refl|].
  apply always_bind; [exact R_trans|apply step_log|intros _]. walk.
Qed.

Lemma step_pruneAckedTick (env : Env) : always R (pruneAckedTick env).
Proof.
  unfold pruneAckedTick.
  apply always_bind; [exact R_trans|apply step_Date_now|intros now].
  apply always_reading. intros st.
  destruct (pruneAckedResponses None now (db st)) as [pruned d'] eqn:E.
  unfold pruneAckedResponses in E. injection E as _ <-.
  assert (H : always R (when (0 <? pruned)
                          (log "INFO" ("Pruned " +:+ showZ pruned +:+ " acked response(s)"))))
    by (apply always_when; [exact R_refl|apply step_log]).
  unfold bind at 1. unfold modify at 1.
  match goal with
  | |- match _ ?s with _ => _ end =>
      assert (H1 : R st s) by (apply R_quiet; reflexivity); specialize (H s)
  end.
  destruct (when _ _ _); exact (R_trans _ _ _ H1 H).
Qed.

Lemma filter_processing (c : DbMessage -> bool) (rows : list DbMessage) (row : DbMessage) :
  In row (List.filter c rows) -> m_status row = Processing -> In row rows.
Proof. intros Hin _. apply List.filter_In in Hin. tauto. Qed.

Lemma step_pruneCompletedTick (env : Env) : always R (pruneCompletedTick env).
Proof.
  unfold pruneCompletedTick.
  apply always_bind; [exact R_trans|apply step_Date_now|intros now].
  apply always_reading. intros st.
  destruct (pruneCompletedMessages None now (db st)) as [pruned d'] eqn:E.
  unfold pruneCompletedMessages in E. injection E as _ <-.
  assert (H : always R (when (0 <? pruned)
                          (log "INFO" ("Pruned " +:+ showZ pruned +:+ " completed message(s)"))))
    by (apply always_when; [exact R_refl|apply step_log]).
  unfold bind at 1. unfold modify at 1.
  match goal with
  | |- match _ ?s with _ => _ end =>
      assert (H1 : R st s)
        by (apply R_rows; [intros row; simpl; apply filter_processing|reflexivity]);
      specialize (H s)
  end.
  destruct (when _ _ _); exact (R_trans _ _ _ H1 H).
Qed.

Lemma step_postResponse (env : Env) (body : Api.ResponseBody) (random : string) :
  always R (postResponse env body random).
Proof.
  unfold postResponse. apply always_reading. intros st.
  unfold Api.postResponse.
  destruct (Api.rb_channel body) as [[|c0 channel]|]; try apply R_refl.
  destruct (Api.rb_sender body) as [[|c1 sender]|]; try apply R_refl.
  destruct (Api.rb_message body) as [[|c2 message]|]; try apply R_refl.
  apply R_quiet; reflexivity.
Qed.

Lemma step_postAck (env : Env) (id : Z) : always R (postAck env id).
Proof. intros st. apply R_quiet; reflexivity. Qed.

Lemma step_postRetry (env : Env) (id : Z) : always R (postRetry env id).
Proof.
  unfold postRetry.
  apply always_bind; [exact R_trans|apply step_Date_now|intros now].
  apply always_reading. intros st.
  destruct (retryDeadMessage id now (db st)) as [ok d'] eqn:E.
  unfold retryDeadMessage in E. injection E as _ <-.
  assert (H : always R (when ok (log "INFO" ("[API] Dead message " +:+ showZ id +:+ " retried"))))
    by (apply always_when; [exact R_refl|apply step_log]).
  unfold bind at 1. unfold modify at 1.
  match goal with
  | |- match _ ?s with _ => _ end =>
      assert (H1 : R st s)
        by (apply R_rows; [intros row; simpl; apply update_where_processing; discriminate
                          |reflexivity]);
      specialize (H s)
  end.
  destruct (when _ _ _); exact (R_trans _ _ _ H1 H).
Qed.

Lemma step_deleteDead (env : Env) (id : Z) : always R (deleteDead env id).
Proof.
  unfold deleteDead. apply always_reading. intros st.
  destruct (deleteDeadMessage id (db st)) as [ok d'] eqn:E.
  unfold deleteDeadMessage in E. injection E as _ <-.
  assert (H : always R (when ok (log "INFO" ("[API] Dead message " +:+ showZ id +:+ " deleted"))))
    by (apply always_when; [exact R_refl|apply step_log]).
  unfold bind at 1. unfold modify at 1.
  match goal with
  | |- match _ ?s with _ => _ end =>
      assert (H1 : R st s)
        by (apply R_rows; [intros row; simpl; apply filter_processing|reflexivity]);
      specialize (H s)
  end.
  destruct (when _ _ _); exact (R_trans _ _ _ H1 H).
Qed.

Lemma step_logAgentConfig (env : Env) : always R (logAgentConfig env).
Proof.
  unfold logAgentConfig.
  apply always_bind; [exact R_trans|apply step_log|intros _].
  apply always_bind; [exact R_trans| |intros _].
  { apply (always_forEach R); [exact R_refl|exact R_trans|intros entry]. apply step_log. }
  apply always_when; [exact R_refl|].
  apply always_bind; [exact R_trans|apply step_log|intros _].
  apply (always_forEach R); [exact R_refl|exact R_trans|intros entry]. apply step_log.
Qed.

(** The start-up code once the stale rows are recovered. *)
Lemma step_announce (env : Env) (recovered : Z) :
  always R
    (when (0 <? recovered)
       (log "INFO"
          ("Recovered " +:+ showZ recovered +:+ " stale message(s) from previous session")) ;;
     log "INFO" "Queue processor started (SQLite-backed)" ;;
     logAgentConfig env ;;
     emitEvent "processor_start"
       [("agents"%string, join "," (keys (agents env)));
        ("teams"%string, join "," (keys (teams env)))]).
Proof.
  apply always_bind; [exact R_trans| |intros _].
  { apply always_when; [exact R_refl|apply step_log]. }
  apply always_bind; [exact R_trans|apply step_log|intros _].
  apply always_bind; [exact R_trans|apply step_logAgentConfig|intros _].
  apply step_emitEvent.
Qed.

End Stepwise.

Section Tasks.
Import Text Types Db Plugins Invoke Dispatcher Processor.

Variable env : Env.
Variable d0 : QueueDb.

(** The rows of the tasks under way. *)
Local Abbreviation rows_of jobs := (List.map (fun job => m_id (job_row job)) jobs).

(** Every processing row is the row of a task under way, with its id among
    [ids], or has a task on a chain, or is a leftover. *)
Local Abbreviation tasked_but ids st :=
  (forall row, In row (messages (db st)) -> m_status row = Processing ->
     In (m_id row) ids \/
     (exists task, In task (chained st) /\ m_id (snd task) = m_id row) \/
     leftover env d0 row).

Local Abbreviation carries ids :=
  (fun st st' : State => tasked_but ids st -> tasked_but ids st').

(** No row with id [k] is in [processing]. *)
Local Abbreviation settled k st :=
  (forall row, In row (messages (db st)) -> m_id row = k -> m_status row <> Processing).

Lemma update_where_settles (k : Z) (f : DbMessage -> DbMessage) (rows : list DbMessage)
    (row : DbMessage) :
  (forall r, m_status (f r) <> Processing) ->
  In row (update_where (fun r => m_id r =? k) f rows) -> m_id row = k ->
  m_status row <> Processing.
Proof.
  intros Hf Hin Hk. apply List.in_map_iff in Hin as (r & E & Hr).
  destruct (Z.eqb_spec (m_id r) k) as [e|ne]; subst row; [apply Hf|contradiction].
Qed.

Lemma failMessage_messages (k : Z) (e : string) (t : Z) (d : QueueDb) :
  (message_row k d = None /\ messages (failMessage k e t d) = messages d) \/
  exists s n, s <> Processing /\
    messages (failMessage k e t d)
    = update_where (fun r => m_id r =? k) (set_failed s n e t) (messages d).
Proof.
  unfold failMessage, message_row.
  destruct (List.find _ (messages d)) as [msg|]; [|now left].
  right. exists (if MAX_RETRIES <=? m_retry_count msg + 1 then Dead else Pending),
    (m_retry_count msg + 1).
  split; [destruct (MAX_RETRIES <=? _); discriminate|reflexivity].
Qed.

Lemma carries_refl (ids : list Z) (st : State) : carries ids st st.
Proof. intros H. exact H. Qed.

Lemma carries_trans (ids : list Z) (s1 s2 s3 : State) :
  carries ids s1 s2 -> carries ids s2 s3 -> carries ids s1 s3.
Proof. intros H1 H2 H. exact (H2 (H1 H)). Qed.

Lemma carries_rows (ids : list Z) (st st' : State) :
  (forall row, In row (messages (db st')) -> m_status row = Processing ->
     In row (messages (db st))) ->
  chained st' = chained st -> carries ids st st'.
Proof.
  intros Hrows Hc H row Hin Hs. rewrite Hc. exact (H row (Hrows row Hin Hs) Hs).
Qed.

Lemma carries_quiet (ids : list Z) (st st' : State) :
  messages (db st') = messages (db st) -> messages_seq (db st') = messages_seq (db st) ->
  chained st' = chained st -> carries ids st st'.
Proof.
  intros Hm _ Hc. refine (carries_rows ids st st' _ Hc). intros row. rewrite Hm. auto.
Qed.

Lemma carries_complete (ids : list Z) (k : Z) (st st' : State) (t : Z) :
  messages (db st') = messages (completeMessage k t (db st)) ->
  messages_seq (db st') = messages_seq (db st) ->
  chained st' = chained st -> carries ids st st'.
Proof.
  intros Hm _ Hc. refine (carries_rows ids st st' _ Hc). intros row. rewrite Hm. simpl.
  apply update_where_processing. discriminate.
Qed.

Lemma carries_fail (ids : list Z) (k : Z) (st st' : State) (e : string) (t : Z) :
  messages (db st') = messages (failMessage k e t (db st)) ->
  messages_seq (db st') = messages_seq (failMessage k e t (db st)) ->
  chained st' = chained st -> carries ids st st'.
Proof.
  intros Hm _ Hc. refine (carries_rows ids st st' _ Hc). intros row. rewrite Hm.
  destruct (failMessage_messages k e t (db st)) as [[_ ->] | (s & n & Hs & ->)]; [auto|].
  apply update_where_processing. intros r. exact Hs.
Qed.

Lemma carries_insert (ids : list Z) (st st' : State) (data : EnqueueMessageData)
    (t j : Z) (d' : QueueDb) :
  enqueueMessage data t (db st) = Inserted j d' ->
  messages (db st') = messages d' -> messages_seq (db st') = messages_seq d' ->
  chained st' = chained st -> carries ids st st'.
Proof.
  intros E Hm _ Hc. refine (carries_rows ids st st' _ Hc). intros row. rewrite Hm. revert E.
  unfold enqueueMessage. destruct (List.existsb _ _); [discriminate|].
  intros [= _ <-]. simpl. intros Hin Hs.
  apply in_app_or in Hin as [Hin|[<-|[]]]; [exact Hin|discriminate Hs].
Qed.

Lemma carries_claim (ids : list Z) (st st' : State) (A : string) (t : Z)
    (row : DbMessage) (d' : QueueDb) :
  claimNextMessage A t (db st) = (Some row, d') ->
  messages (db st') = messages d' -> messages_seq (db st') = messages_seq d' ->
  chained st' = chained st ++ [(A, row)] -> carries ids st st'.
Proof.
  unfold claimNextMessage. destruct (oldest _) as [r0|]; [|discriminate].
  intros [= <- <-] Hm _ Hc H x Hin Hs. rewrite Hm in Hin. simpl in Hin.
  apply List.in_map_iff in Hin as (r & E & Hr). rewrite Hc.
  destruct (Z.eqb_spec (m_id r) (m_id r0)) as [e|ne]; subst x.
  - right. left. exists (A, claimed_copy A r0). split; [apply in_or_app; right; now left|].
    simpl. now rewrite e.
  - destruct (H r Hr Hs) as [Ho|[(task & Ht & Hid)|Hl]]; [now left| |now right; right].
    right. left. exists task. split; [apply in_or_app; now left|exact Hid].
Qed.

Ltac discharge ids :=
  first [ exact (carries_refl ids) | exact (carries_trans ids) | exact (carries_quiet ids)
        | exact (carries_complete ids _) | exact (carries_fail ids _)
        | exact (carries_insert ids) | exact (carries_claim ids)
        | exact (carries_rows ids) | reflexivity ].

(** [step], a lemma of the section above on its relation, at [carries ids]. *)
Ltac stepwise step ids :=
  first [ refine (step (carries ids) _ _ _) | refine (step (carries ids) _ _ _ _)
        | refine (step (carries ids) _ _ _ _ _) | refine (step (carries ids) _ _ _ _ _ _)
        | refine (step (carries ids) _ _ _ _ _ _ _)
        | refine (step (carries ids) _ _ _ _ _ _ _ _)
        | refine (step (carries ids) _ _ _ _ _ _ _ _ _)
        | refine (step (carries ids) _ _ _ _ _ _ _ _ _ _)
        | refine (step (carries ids) _ _ _ _ _ _ _ _ _ _ _)
        | refine (step (carries ids) _ _ _ _ _ _ _ _ _ _ _ _)
        | refine (step (carries ids) _ _ _ _ _ _ _ _ _ _ _ _ _) ];
  discharge ids.

Lemma carries_begin (ids : list Z) (dbMsg : DbMessage) (st : State) :
  carries ids st (snd (begin env dbMsg st)).
Proof. stepwise step_begin ids. Qed.

Lemma carries_resume (ids : list Z) (dbMsg : DbMessage) (stage : Stage) (st : State) :
  carries ids st (snd (resume env dbMsg stage st)).
Proof. stepwise step_resume ids. Qed.

Lemma carries_adapterEnqueue (ids : list Z) (data : EnqueueMessageData) (st : State) :
  carries ids st (adapterEnqueue env data st).
Proof. stepwise step_adapterEnqueue ids. Qed.

Lemma carries_after {A} (ids : list Z) (c : M A) (st : State) :
  always (carries ids) c -> carries ids st (after c st).
Proof. intros H. unfold after. specialize (H st). destruct (c st); exact H. Qed.

Lemma carries_timers (ids : list Z) :
  always (carries ids) (recoverTick env) /\
  always (carries ids) (expireConversations env) /\
  always (carries ids) (pruneAckedTick env) /\
  always (carries ids) (pruneCompletedTick env).
Proof.
  split; [stepwise step_recoverTick ids|].
  split; [stepwise step_expireConversations ids|].
  split; [stepwise step_pruneAckedTick ids|].
  stepwise step_pruneCompletedTick ids.
Qed.

Lemma carries_routes (ids : list Z) :
  (forall body random, always (carries ids) (postResponse env body random)) /\
  (forall id, always (carries ids) (postAck env id)) /\
  (forall id, always (carries ids) (postRetry env id)) /\
  (forall id, always (carries ids) (deleteDead env id)).
Proof.
  split; [intros body random; stepwise step_postResponse ids|].
  split; [intros id; stepwise step_postAck ids|].
  split; [intros id; stepwise step_postRetry ids|].
  intros id; stepwise step_deleteDead ids.
Qed.

Lemma framed_last {A B} (P : State -> Prop) (c : M A) (k : A -> M B) :
  (forall a, framed (fun _ st' => P st') (k a)) -> framed (fun _ st' => P st') (bind c k).
Proof.
  intros Hk st b st' E. unfold bind in E.
  destruct (c st) as [a s|e s]; [|discriminate E]. exact (Hk a s b st' E).
Qed.

Lemma dbCompleteMessage_settles (k : Z) :
  framed (fun _ st' => settled k st') (dbCompleteMessage env k).
Proof.
  intros st a st' E. unfold dbCompleteMessage, bind, Date_now, modify in E.
  injection E as E. subst st'. simpl. intros row.
  apply update_where_settles. discriminate.
Qed.

Lemma replyDirect_settles (dbMsg : DbMessage) (r : Routed) (response : string) :
  framed (fun _ st' => settled (m_id dbMsg) st') (replyDirect env dbMsg r response).
Proof.
  unfold replyDirect. cbv zeta.
  apply (framed_last (fun st' => settled (m_id dbMsg) st')). intros _.
  destruct (handleLongResponse env _ _) as [responseMessage allFiles].
  apply (framed_last (fun st' => settled (m_id dbMsg) st')). intros _.
  apply (framed_last (fun st' => settled (m_id dbMsg) st')). intros _.
  apply (framed_last (fun st' => settled (m_id dbMsg) st')). intros _.
  apply dbCompleteMessage_settles.
Qed.

Lemma find_none_ids (k : Z) (rows : list DbMessage) :
  List.find (fun r => m_id r =? k) rows = None ->
  forall row, In row rows -> m_id row <> k.
Proof.
  intros H row Hin Hk. pose proof (List.find_none _ _ H row Hin) as Hn.
  simpl in Hn. rewrite Hk, Z.eqb_refl in Hn. discriminate Hn.
Qed.

(** The [catch] block leaves the row of the task pending or dead, if the
    row is still there. *)
Lemma caught_settles (dbMsg : DbMessage) (e : string) (st : State) :
  settled (m_id dbMsg) (after (caught env dbMsg e) st).
Proof.
  unfold after, caught.
  destruct (message_row (m_id dbMsg) (db st)) as [before|] eqn:E.
  - assert (F : (log "ERROR" ("Processing error: " +:+ e) ;;
                 dbFailMessage env (m_id dbMsg) e) st
                = Returned tt
                    (set_db (failMessage (m_id dbMsg) e (clock env (reads st)) (db st))
                       (set_reads (S (reads st))
                          (add_logs [mkLogLine "ERROR" ("Processing error: " +:+ e)] st)))).
    { cbv beta iota delta [bind log modify dbFailMessage getState Date_now].
      change (db (add_logs [mkLogLine "ERROR" ("Processing error: " +:+ e)] st))
        with (db st).
      rewrite E. reflexivity. }
    rewrite F. cbn [db set_db]. intros row.
    destruct (failMessage_messages (m_id dbMsg) e (clock env (reads st)) (db st))
      as [[Hn _] | (s & n & Hs & ->)]; [congruence|].
    apply update_where_settles. intros r. exact Hs.
  - assert (F : (log "ERROR" ("Processing error: " +:+ e) ;;
                 dbFailMessage env (m_id dbMsg) e) st
                = Returned tt (add_logs [mkLogLine "ERROR" ("Processing error: " +:+ e)] st)).
    { cbv beta iota delta [bind log modify dbFailMessage getState Date_now].
      change (db (add_logs [mkLogLine "ERROR" ("Processing error: " +:+ e)] st))
        with (db st).
      rewrite E. reflexivity. }
    rewrite F. cbn [db add_logs]. intros row Hin Hk.
    exfalso. exact (find_none_ids _ _ E row Hin Hk).
Qed.

(** A stretch after which the task is over leaves its row settled. *)
Lemma attempt_over {A} (dbMsg : DbMessage) (c : M A) (next : A -> option Stage)
    (st st' : State) :
  (forall a st1, c st = Returned a st1 -> next a = None -> settled (m_id dbMsg) st1) ->
  attempt env dbMsg c next st = (None, st') -> settled (m_id dbMsg) st'.
Proof.
  intros Hc. unfold attempt. destruct (c st) as [a st1|e st1] eqn:E.
  - intros [= Hn <-]. exact (Hc a st1 eq_refl Hn).
  - intros [= <-]. apply caught_settles.
Qed.

Lemma begin_over (dbMsg : DbMessage) (st st' : State) :
  begin env dbMsg st = (None, st') -> settled (m_id dbMsg) st'.
Proof. apply attempt_over. intros a st1 _ [=]. Qed.

Lemma resume_over (dbMsg : DbMessage) (stage : Stage) (st st' : State) :
  resume env dbMsg stage st = (None, st') -> settled (m_id dbMsg) st'.
Proof.
  destruct stage as [r|r response|convId|]; cbn [resume]; apply attempt_over.
  - intros a st1 _ [=].
  - intros a st1 E _. exact (replyDirect_settles dbMsg r response st a st1 E).
  - intros a st1 _ [=].
  - intros a st1 E _. exact (dbCompleteMessage_settles (m_id dbMsg) st a st1 E).
Qed.

(** A task that is over needs no excuse for its row. *)
Lemma tasked_but_over (pre post : list Z) (k : Z) (st : State) :
  settled k st -> tasked_but (pre ++ k :: post) st -> tasked_but (pre ++ post) st.
Proof.
  intros Hk H row Hin Hs. destruct (H row Hin Hs) as [Hi|Hr]; [|now right].
  apply in_app_or in Hi as [Hi|[Hi|Hi]].
  - left. apply in_or_app. now left.
  - exfalso. exact (Hk row Hin (eq_sym Hi) Hs).
  - left. apply in_or_app. now right.
Qed.

Lemma takeTask_rest (agentId : string) (tasks rest : list (string * DbMessage))
    (dbMsg : DbMessage) :
  takeTask agentId tasks = Some (dbMsg, rest) ->
  forall task, In task tasks -> m_id (snd task) = m_id dbMsg \/ In task rest.
Proof.
  revert rest. induction tasks as [|[a m] tasks IH]; intros rest E task Hin; [destruct Hin|].
  simpl in E. destruct (String.eqb a agentId).
  - injection E as <- <-. destruct Hin as [<-|Hin]; [now left|now right].
  - destruct (takeTask agentId tasks) as [[found rest']|]; [|discriminate E].
    injection E as <- <-. destruct Hin as [<-|Hin]; [right; now left|].
    destruct (IH rest' eq_refl task Hin) as [H|H]; [now left|right; now right].
Qed.

Lemma tasked_but_begin (agentId : string) (dbMsg : DbMessage)
    (rest : list (string * DbMessage)) (jobs : list Job) (st : State) :
  tasked_but (rows_of jobs) st ->
  takeTask agentId (chained st) = Some (dbMsg, rest) ->
  tasked_but
    (rows_of (jobs ++ match fst (begin env dbMsg (set_chained rest st)) with
                      | Some stage => [mkJob agentId dbMsg stage]
                      | None => []
                      end))
    (snd (begin env dbMsg (set_chained rest st))).
Proof.
  intros H Ht.
  assert (H0 : tasked_but (rows_of jobs ++ m_id dbMsg :: []) (set_chained rest st)).
  { intros row Hin Hs. destruct (H row Hin Hs) as [Hi|[(task & Hc & Hid)|Hl]].
    - left. apply in_or_app. now left.
    - destruct (takeTask_rest agentId _ _ _ Ht task Hc) as [Hk|Hr].
      + left. apply in_or_app. right. left. now rewrite <- Hid, Hk.
      + right. left. exists task. split; [exact Hr|exact Hid].
    - now right; right. }
  pose proof (carries_begin _ dbMsg (set_chained rest st) H0) as H1.
  destruct (begin env dbMsg (set_chained rest st)) as [[stage|] st'] eqn:E; simpl in *.
  - rewrite List.map_app. exact H1.
  - rewrite List.app_nil_r. rewrite <- (List.app_nil_r (rows_of jobs)).
    exact (tasked_but_over _ [] _ _ (begin_over dbMsg _ _ E) H1).
Qed.

Lemma tasked_but_resumeJob (agentId : string) (jobs : list Job) (pre : list Z)
    (st : State) :
  tasked_but (pre ++ rows_of jobs) st ->
  tasked_but (pre ++ rows_of (fst (resumeJob env agentId jobs st)))
    (snd (resumeJob env agentId jobs st)).
Proof.
  revert pre. induction jobs as [|job rest IH]; intros pre H; [exact H|].
  simpl. destruct (String.eqb (job_agent job) agentId).
  - pose proof (carries_resume _ (job_row job) (job_stage job) st H) as H1.
    destruct (resume env (job_row job) (job_stage job) st) as [[stage|] st'] eqn:E;
      simpl in *; [exact H1|].
    exact (tasked_but_over _ _ _ _ (resume_over _ _ _ _ E) H1).
  - specialize (IH (pre ++ [m_id (job_row job)])).
    destruct (resumeJob env agentId rest st) as [rest' st'] eqn:E. simpl in *.
    rewrite <- !List.app_assoc in IH. simpl in IH. apply IH. exact H.
Qed.

Lemma tasked_rows (p : Processor) :
  tasked env d0 p <-> tasked_but (rows_of (running p)) (state p).
Proof.
  split; intros H row Hin Hs.
  - destruct (H row Hin Hs) as [Ht|[(job & Hj & Hid)|Hl]]; [right; now left| |now right; right].
    left. apply List.in_map_iff. exists job. split; [exact Hid|exact Hj].
  - destruct (H row Hin Hs) as [Hi|[Ht|Hl]]; [|now left|now right; right].
    right. left. apply List.in_map_iff in Hi as (job & Hid & Hj). now exists job.
Qed.

Lemma after_bind {A B} (c : M A) (k : A -> M B) (st : State) :
  after (bind c k) st
  = match c st with
    | Returned a st' => after (k a) st'
    | Thrown _ st' => st'
    end.
Proof. unfold after, bind. destruct (c st); reflexivity. Qed.

(** The rows the start-up recovery leaves in [processing] are leftovers. *)
Lemma tasked_started (files : gset string) : tasked env d0 (started env d0 files).
Proof.
  refine (proj2 (tasked_rows _) _). unfold started. cbn [running state List.map].
  unfold main.
  set (st0 := mkState d0 ∅ files [] [] [] [] 0).
  assert (H : forall a st1, dbRecoverStaleMessages env st0 = Returned a st1 ->
                            tasked_but [] st1).
  { intros a st1 [= _ <-]. cbn [db set_db messages with_messages]. intros row Hin Hs.
    right. right. apply List.in_map_iff in Hin as (r & E & Hr).
    unfold default in E. cbn [reads set_reads st0] in E.
    change (0 + 0)%nat with 0%nat in E.
    destruct (stale (clock env 0 - DEFAULT_STALE_THRESHOLD_MS) r) eqn:Es.
    - subst row. discriminate Hs.
    - subst row. split; [exact Hr|exact Es]. }
  rewrite after_bind.
  destruct (dbRecoverStaleMessages env st0) as [a st1|e st1] eqn:E; [|discriminate E].
  apply carries_after; [|exact (H a st1 eq_refl)].
  exact (step_announce (carries []) (carries_refl []) (carries_trans [])
           (carries_quiet []) env a).
Qed.

Lemma tasked_perform (p : Processor) (activity : Activity) :
  tasked env d0 p -> tasked env d0 (perform env p activity).
Proof.
  intros H0. pose proof (proj1 (tasked_rows p) H0) as H. clear H0.
  destruct (carries_timers (rows_of (running p))) as (T1 & T2 & T3 & T4).
  destruct (carries_routes (rows_of (running p))) as (A1 & A2 & A3 & A4).
  destruct activity as [data|agentId|agentId| | | | |body random|id|id|id]; simpl.
  - refine (proj2 (tasked_rows _) _). exact (carries_adapterEnqueue _ data _ H).
  - destruct (busy agentId (running p)); [exact (proj2 (tasked_rows p) H)|].
    destruct (takeTask agentId (chained (state p))) as [[dbMsg rest]|] eqn:Et;
      [|exact (proj2 (tasked_rows p) H)].
    pose proof (tasked_but_begin agentId dbMsg rest (running p) (state p) H Et) as H1.
    destruct (begin env dbMsg (set_chained rest (state p))) as [next st'].
    refine (proj2 (tasked_rows _) _). exact H1.
  - pose proof (tasked_but_resumeJob agentId (running p) [] (state p) H) as H1.
    destruct (resumeJob env agentId (running p) (state p)) as [jobs st'].
    refine (proj2 (tasked_rows _) _). exact H1.
  - refine (proj2 (tasked_rows _) _). exact (carries_after _ _ _ T1 H).
  - refine (proj2 (tasked_rows _) _). exact (carries_after _ _ _ T2 H).
  - refine (proj2 (tasked_rows _) _). exact (carries_after _ _ _ T3 H).
  - refine (proj2 (tasked_rows _) _). exact (carries_after _ _ _ T4 H).
  - refine (proj2 (tasked_rows _) _). exact (carries_after _ _ _ (A1 body random) H).
  - refine (proj2 (tasked_rows _) _). exact (carries_after _ _ _ (A2 id) H).
  - refine (proj2 (tasked_rows _) _). exact (carries_after _ _ _ (A3 id) H).
  - refine (proj2 (tasked_rows _) _). exact (carries_after _ _ _ (A4 id) H).
Qed.

Lemma tasked_run (files : gset string) (activities : list Activity) :
  tasked env d0 (run env d0 files activities).
Proof.
  unfold run. generalize (tasked_started files). generalize (started env d0 files).
  induction activities as [|activity rest IH]; intros p H; [exact H|].
  simpl. apply IH. now apply tasked_perform.
Qed.

Lemma bind_Returned {A B} (c : M A) (k : A -> M B) (st st1 : State) (a : A) :
  c st = Returned a st1 -> bind c k st = k a st1.
Proof. intros E. unfold bind. now rewrite E. Qed.

Lemma bind_Thrown {A B} (c : M A) (k : A -> M B) (st st1 : State) (e : string) :
  c st = Thrown e st1 -> bind c k st = Thrown e st1.
Proof. intros E. unfold bind. now rewrite E. Qed.

(** A task that nothing comes in between is [processMessage]. *)
Lemma finish_processMessage (dbMsg : DbMessage) (st : State) :
  finish env dbMsg 3 (begin env dbMsg st) = processMessage env dbMsg st.
Proof.
  unfold begin, processMessage, processBody, attempt.
  destruct (route env dbMsg st) as [r st1|e st1] eqn:Er;
    [rewrite (bind_Returned _ _ _ _ _ Er)|rewrite (bind_Thrown _ _ _ _ _ Er); reflexivity].
  cbn [finish resume]. unfold attempt.
  destruct (invoke env dbMsg r st1) as [response st2|e st2] eqn:Ei;
    [rewrite !(bind_Returned _ _ _ _ _ Ei)|rewrite !(bind_Thrown _ _ _ _ _ Ei); reflexivity].
  destruct (rd_teamContext r) as [tc|].
  - destruct (recordStep env dbMsg r tc response st2) as [convId st3|e st3] eqn:Es;
      [rewrite !(bind_Returned _ _ _ _ _ Es)|rewrite !(bind_Thrown _ _ _ _ _ Es); reflexivity].
    cbn [ret finish resume]. unfold attempt.
    destruct (finishBranch env convId st3) as [u st4|e st4] eqn:Ef;
      [rewrite !(bind_Returned _ _ _ _ _ Ef)|rewrite !(bind_Thrown _ _ _ _ _ Ef); reflexivity].
    cbn [finish resume]. unfold attempt.
    destruct (dbCompleteMessage env (m_id dbMsg) st4); reflexivity.
  - cbn [ret finish resume]. unfold attempt.
    destruct (replyDirect env dbMsg r response st2); reflexivity.
Qed.

End Tasks.

Section TasksTheorem.
Import Text Types Db Plugins Invoke Dispatcher Processor.

(** X28.  No claimed message is forgotten.  The processor opens the
    database that is on disk, recovers the rows left in [processing] for
    more than ten minutes, and from then on messages are enqueued, the
    chains start their tasks, the tasks are resumed wherever
    [processMessage] awaits, the timers recover stale rows, prune
    completed rows and acknowledged responses and drop old conversations,
    and the queue routes are called, in any order.  At every point of
    such a run, every message row in [processing] has a task, waiting on
    a chain or under way, or is still as the former process left it, in
    [processing] for at most ten minutes at the start.  So once the
    chains are empty and no task is under way, the rows in [processing]
    are leftovers, and there is none if the former process left none that
    recent.  A leftover does occur: row 1 of the sample database is in
    [processing] after the start, with no task, and after the first
    recovery of the timer as well.  A task that nothing comes in between
    is [processMessage]. *)
Theorem claimed_rows_have_tasks (env : Env) (d0 : QueueDb) (files : gset string)
    (activities : list Activity) :
  let p := run env d0 files activities in
  tasked env d0 p /\
  (chained (state p) = [] -> running p = [] ->
   Forall (fun row => m_status row = Processing -> leftover env d0 row)
     (messages (db (state p)))) /\
  ((forall row, In row (messages d0) -> m_status row = Processing ->
      m_updated_at row < clock env 0 - 10 * 60 * 1000) ->
   chained (state p) = [] -> running p = [] ->
   Forall (fun row => m_status row <> Processing) (messages (db (state p)))) /\
  (forall dbMsg st, finish env dbMsg 3 (begin env dbMsg st) = processMessage env dbMsg st) /\
  (let q := run (Samples.directEnv Samples.echoSpawn) sample_db ∅ [Recovers] in
   chained (state q) = [] /\ running q = [] /\
   m_status <$> message_row 1 (db (state q)) = Some Processing).
Proof.
  intros p. pose proof (tasked_run env d0 files activities) as H. fold p in H.
  assert (L : chained (state p) = [] -> running p = [] ->
              forall row, In row (messages (db (state p))) -> m_status row = Processing ->
                          leftover env d0 row).
  { intros Hc Hr row Hin Hs.
    destruct (H row Hin Hs) as [(task & Ht & _)|[(job & Hj & _)|Hl]]; [| |exact Hl].
    - rewrite Hc in Ht. destruct Ht.
    - rewrite Hr in Hj. destruct Hj. }
  split; [exact H|].
  split; [intros Hc Hr; apply List.Forall_forall; exact (L Hc Hr)|].
  split.
  { intros Hold Hc Hr. apply List.Forall_forall. intros row Hin Hs.
    destruct (L Hc Hr row Hin Hs) as [Hd Hst].
    pose proof (Hold row Hd Hs) as Hlt. unfold stale in Hst. rewrite Hs in Hst.
    simpl in Hst. apply Z.ltb_ge in Hst. unfold DEFAULT_STALE_THRESHOLD_MS in Hst. lia. }
  split; [intros dbMsg st; apply finish_processMessage|].
  vm_compute. repeat split.
Qed.

End TasksTheorem.


(* ===================================================================== *)
(** * Further properties of the invocation                                *)
(* ===================================================================== *)

Section Answers.
Import Text Types Invoke.

Lemma last_cons_default {A} (x d : A) (l : list A) : List.last (x :: l) d = List.last l x.
Proof.
  revert x d. induction l as [|y l IH]; intros x d; [reflexivity|].
  change (List.last (y :: l) d = List.last (y :: l) x). now rewrite !IH.
Qed.

Lemma fold_decoded (decode : string -> option string) (lines : list string)
    (response : string) :
  List.fold_left
    (fun response l => match decode l with
                       | Some t => t
                       | None => response
                       end) lines response
  = List.last (omap decode lines) response.
Proof.
  revert response. induction lines as [|l lines IH]; intros response; [reflexivity|].
  cbn [List.fold_left]. rewrite IH. unfold omap at 2. cbn [list_omap]. fold (omap decode lines).
  destruct (decode l) as [t|]; [|reflexivity].
  now rewrite last_cons_default.
Qed.

Lemma orElse_nonempty (s fallback : string) :
  fallback <> EmptyString -> orElse s fallback <> EmptyString.
Proof. intros H. destruct s; simpl; [exact H|discriminate]. Qed.

Lemma last_app_cons {A} (l l' : list A) (x d : A) :
  List.last (l ++ x :: l') d = List.last (x :: l') d.
Proof.
  revert d. induction l as [|y l IH]; intros d; [reflexivity|].
  change (List.last (y :: (l ++ x :: l')) d = List.last (x :: l') d).
  now rewrite last_cons_default, IH, !last_cons_default.
Qed.

(** X30.  What [invokeAgent] answers.  The provider picks the command
    ([codex] for ['openai'], [opencode] for ['opencode'], [claude] for
    anything else, an empty provider included) and the message is the
    last argument of the command line.  The call is rejected exactly when
    the command cannot be spawned or does not exit with code 0.
    Otherwise [claude] answers with its output as it is, and the two
    JSON-lines providers with the text of the last output line that
    decodes, or with their apology when no line decodes or that text is
    empty: their answer is never empty. *)
Theorem invokeAgent_answer (ie : InvokeEnv) (agent : AgentConfig)
    (agentId message workspacePath : string) (shouldReset : bool) :
  let provider := orElse (a_provider agent) "anthropic" in
  let command := if String.eqb provider "openai" then "codex"%string
                 else if String.eqb provider "opencode" then "opencode"%string
                 else "claude"%string in
  let decode := if String.eqb provider "openai" then codexAgentMessage ie
                else opencodeText ie in
  let apology := if String.eqb provider "openai"
                 then "Sorry, I could not generate a response from Codex."%string
                 else "Sorry, I could not generate a response from OpenCode."%string in
  exists args workingDir,
    List.last args EmptyString = message /\
    match spawn ie command args workingDir with
    | Closed (Some 0) stdout _ =>
        exists answer,
          invokeAgent ie agent agentId message workspacePath shouldReset = Resolved answer /\
          (command = "claude"%string -> answer = stdout) /\
          (command <> "claude"%string ->
           answer <> EmptyString /\
           answer = orElse (List.last (omap decode (splitLines (trim stdout))) EmptyString)
                      apology)
    | _ =>
        exists error,
          invokeAgent ie agent agentId message workspacePath shouldReset = Rejected error
    end.
Proof.
  cbv zeta. unfold invokeAgent. cbv zeta.
  set (workingDir := if isEmpty (a_working_directory agent) then _ else _).
  assert (Hdir : forall command args,
            runCommand (SCRIPT_DIR ie) (spawn ie) command args (Some workingDir)
            = settle (spawn ie command args
                        (match workingDir with
                         | String c s => String c s
                         | EmptyString => SCRIPT_DIR ie
                         end))).
  { intros command args. unfold runCommand. destruct workingDir; reflexivity. }
  set (dir := match workingDir with
              | String c s => String c s
              | EmptyString => SCRIPT_DIR ie
              end) in Hdir.
  destruct (String.eqb (orElse (a_provider agent) "anthropic") "openai") eqn:E1;
    [|destruct (String.eqb (orElse (a_provider agent) "anthropic") "opencode") eqn:E2].
  - match goal with |- context [runCommand _ _ _ ?a _] => exists a, dir end. split.
    { rewrite !app_assoc, last_app_cons. reflexivity. }
    rewrite Hdir.
    match goal with
    | |- context [spawn ie ?c ?a dir] => destruct (spawn ie c a dir) as [err|[[| |]|] out errs]
    end; simpl; eauto.
    eexists. split; [reflexivity|]. split; [discriminate|]. intros _.
    split; [apply orElse_nonempty; discriminate|].
    unfold lastDecoded. now rewrite fold_decoded.
  - match goal with |- context [runCommand _ _ _ ?a _] => exists a, dir end. split.
    { rewrite !app_assoc, last_app_cons. reflexivity. }
    rewrite Hdir.
    match goal with
    | |- context [spawn ie ?c ?a dir] => destruct (spawn ie c a dir) as [err|[[| |]|] out errs]
    end; simpl; eauto.
    eexists. split; [reflexivity|]. split; [discriminate|]. intros _.
    split; [apply orElse_nonempty; discriminate|].
    unfold lastDecoded. now rewrite fold_decoded.
  - match goal with |- context [runCommand _ _ _ ?a _] => exists a, dir end. split.
    { rewrite !app_assoc, last_app_cons. reflexivity. }
    rewrite Hdir.
    match goal with
    | |- context [spawn ie ?c ?a dir] => destruct (spawn ie c a dir) as [err|[[| |]|] out errs]
    end; simpl; eauto.
    eexists. split; [reflexivity|]. split; [reflexivity|]. intros H. now contradiction H.
Qed.

End Answers.
